(* ===== verification/_CoqProject ===== *)
-Q . S2P
Prelude.v
RustStd.v
Redact.v
Text.v
Errors.v
Breaker.v
Json.v
Serde.v
Params.v
F64.v
PgOutput.v
Interval.v
InFlight.v
Pool.v
SqliteCancel.v
Sqlx.v
Rows.v
Drivers.v
Plans.v
Transaction.v
Stream.v
Cache.v
SqlText.v
Cost.v
Config.v
WatchChanges.v
Cdc.v
Auth.v
WatchPoll.v
WatchListen.v
Shape.v
Execute.v
Schema.v
ParamExprs.v
Creds.v
Registration.v
Lifecycle.v
Surface.v
TxGroup.v
Metrics.v
DriverOps.v
FixedSql.v
Spec.v
Inspect.v
Sweeper.v
Invalidator.v
Rotator.v
Plugin.v
Telemetry.v
Heartbeat.v
WatchHandle.v
WatchStart.v
WatchSpec.v
