(* ===== verification/Prelude.v ===== *)
(** * A verification development for mcpg-plugin-backend-sql

    The program is a gateway plugin that exposes SQL statements of Postgres,
    MySQL/MariaDB and SQLite databases as tools.  An operator's configuration
    ([config.rs]) declares a binding: a URL, a statement or procedure, how rows
    are shaped, session variables, caching, cost, paging and a circuit breaker.
    A call is admitted by the breaker ([breaker.rs]), registered in flight
    ([in_flight.rs]), its arguments are bound to the rewritten statement
    ([params.rs]), a pool is found for the caller's credentials ([pool.rs]), and
    a driver runs the statement and decodes the rows ([driver/]); a pipeline can
    hold a transaction open across calls ([transaction.rs]).  Responses may be
    cached ([cache.rs]), charged ([cost.rs]) and paged ([stream.rs]); errors leave
    the plugin classified and redacted ([errors.rs], [redact.rs]).  Registering a
    binding validates and prepares all of it, opens and checks its pool, perhaps
    with rotated cloud tokens ([auth/]), and may derive JSON schemas from the
    database ([schema.rs]); parameters can be computed from the caller
    ([param_exprs.rs]).  Watches poll a scalar ([watch.rs]) or a table by its key
    ([watch_changes.rs]), listen on a Postgres channel ([watch_pg_listen.rs]), or
    read Postgres logical replication ([pgoutput.rs], [watch_pg_cdc.rs]).  All
    paths are under [src/src/].

    ** Files

    - [Prelude], [RustStd], [Text]: results and the [?] operator, machine
      integers, digits, bytes, UTF-8, and the string operations of Rust's
      standard library the plugin uses, byte for byte.
    - [Json], [F64]: [serde_json::Value] with its sorted maps; [f64] as IEEE
      binary64 with [str::parse].
    - [Serde], [Spec], [WatchSpec]: what the derived [Deserialize] and [Serialize]
      mean, as codecs composed of combinators with classes for their laws; the
      codecs of the configuration and of every block; those of the four watches'
      specs and of the wire forms of [lib.rs].
    - [Redact], [Errors]: password redaction; the error taxonomy and its
      projection to the host's errors.  The url crate is the class [UrlOps] with
      the laws [UrlLaws].
    - [Breaker]: the circuit breaker.  Module [Breaker] has its state and whole
      calls; Module [Interleaved] the same operations split at every access to
      an atomic, run by several threads.
    - [Params]: placeholder rewriting and argument collection.
    - [SqlText], [Config]: the statement checks, every configuration block, and
      [SqlBackendConfig::validate] as its groups of checks in order.
    - [Pool], [InFlight]: the per-credential pool registry and the in-flight
      registry with its guards, as maps under sequences of operations.
    - [SqliteCancel]: cancel flags of the SQLite driver, shared between the
      driver's table, the query and the connection's progress handler, as cells
      of a heap.
    - [Sqlx], [Rows], [Drivers], [Transaction]: the driver layer.  [Sqlx] has a
      state and error monad in which every call to sqlx is recorded with its
      outcome; the server is an arbitrary function of the calls so far (class
      [Server]) and a row is anything that answers typed reads (class
      [SqlxRow]).  [Rows] binds arguments and decodes rows, [Drivers] has the
      execute, cancel and health paths of the three drivers, [Plans] the calls each
      execute path is meant to make, as plans, and that it follows them;
      [Transaction] has the three handles.  [TxGroup] has the handles behind their
      trait, a class with the trait's contract and its instances, the life of a
      handle under any sequence of uses, and a transaction group that runs on a
      server through any of them.
    - [Interval], [PgOutput]: interval formatting and the pgoutput decoder.
    - [Shape]: responses by row mode, result sets, resource pages and listing.
    - [Execute]: the call path: [execute_inner], [execute_inner_impl], the await
      loop and transaction groups, in a monad that records registrations, cache
      accesses, driver calls, charges and refunds; what host, driver and
      serializers answer is a record.
    - [WatchChanges]: the keyset change watcher: its compiled plan, pages, events
      and cursors, and its loop as a machine whose inputs are what the
      environment answers.
    - [Cdc]: the logical-replication watcher: peeks, acknowledgements, settling
      and reconnection, over a slot that serves committed transactions in commit
      order.
    - [WatchPoll], [WatchListen]: the polling watcher's loop, and the LISTEN
      watcher as a machine: calls of [watch] before and after each await, the map
      of weakly held connections, their tasks, the broadcast buffer.
    - [ParamExprs], [Schema]: CEL-computed parameters over identity and client;
      both derived schemas, with an executable validator that gives the emitted
      keywords their meaning.
    - [Auth], [Creds]: the RDS provider, the token rotator as a schedule of turns
      and connecting with a token; resolution of [${cred://}] tokens, the digest
      bundle and the registry of one profile over time.
    - [Registration], [Lifecycle], [Surface]: [prepare_stmt] and [register_profile]
      as fallible steps that record their effects; drain and shutdown beside
      calls and registrations, as a step relation that stops at every shared
      access; cancellation by request id, [begin_transaction], completion, and
      the labels of a finished call.
    - [DriverOps], [FixedSql], [Inspect]: the [SqlDriver] trait as a record of
      operations with its default methods, the [connect] of the three drivers, the
      registry [build_registry] assembles, and what registering through it gives a
      call; the text that reaches the server, followed from the configuration through
      credentials and the call path to the driver; what the plugin answers about
      a profile (schemas, audit metadata, breaker snapshot).
    - [Metrics], [Telemetry]: the recorders of [metrics.rs] with their label sets;
      the layers of [execute] around the call path, which report a call.
    - [Heartbeat], [Sweeper], [Invalidator], [Rotator]: the tasks a binding runs in
      the background, each a machine of polls on a clock: the progress task of a call, joined or
      detached when the call ends; the idle sweeper beside the pool registry; the
      cache invalidator with the calls that put its version into their keys, and
      the clones of the [Arc] it shares with its profile; the token rotator beside
      its provider and the pool it renews.
    - [Plugin]: constructors, manifests, the host handle, the five entities of the
      library with the bridge that blocks on the asynchronous operations, and the
      [Debug] printers of what holds secrets.
    - [WatchHandle], [WatchStart]: the cancel signal, the task and the handle the
      host holds of a watch; starting a change watch or a replication watch from
      its profile: the guards, in order, and the sink.
    - [Stream], [Cache], [Cost]: keyset cursors and paging; cache keys and
      invalidation; charges and refunds.  Base64, HMAC, the hash functions, the
      payload serializer and the CEL engine are classes or section variables.

    ** What the theorems show

    - Breaker: in every reachable state of whole calls at most one probe is out
      and the state agrees with it; it trips exactly at the threshold; an open
      breaker recovers through one probe.  The whole calls are runs of the atomic
      accesses, but interleaved accesses can let two probes through.
    - Configuration: what a validated configuration guarantees to the other
      parts.  The statement checks are characterised exactly, by relations that do
      not mention them: one semicolon outside quotes at most, with white space
      after it, where comments are not read as such; no privileged word after
      white space and comments.  They do not make every accepted text a single,
      unprivileged statement for a server; texts that get through are exhibited.
    - Specs: a configuration is read back from what it is written as, its signing key
      as far as the secret type reads back what it writes, and writing the defaults out changes nothing of its registration; the least an operator
      writes is valid up to its URL, statement and row mode; an unknown key refuses
      a spec everywhere but in [query], where it is passed over; a polling watch's
      spec is a binding's with an interval beside it.
    - Statements: rewriting equals lexing into tokens and printing them; text is
      unchanged exactly when it is ASCII.
    - Drivers: over any server, every execute path makes the calls of its plan in
      order and scope, stops at the first needed one that fails, closes what it
      holds, and fails exactly when one of the calls that count did; MySQL session variables are
      cleared when the server accepts the SETs, and leak when it refuses a later
      one; multi-result calls return the groups between boundaries; rows decode
      to objects and, for strictly typed rows, to the right values.
    - Transactions: however a handle is used, with futures dropped at any of their
      calls, its transaction is ended by one call, the last made, and every later
      use is refused; the elementary steps of concurrent calls keep the transaction
      in one place, and whole calls refine them.  A
      transaction group commits, by its last call, exactly when it reports
      success, and leaves nothing open, on any server.
    - Registries: bounds, least-recently-used eviction, exact revocation;
      entries live exactly as long as their guards; cancels hit their own query.
    - Encodings: pgoutput messages, LSNs, intervals and cursors round-trip;
      tampered cursors are refused; paging resumes at the last row; keyset
      positions never come from the caller.
    - From configuration to server: every text that [execute] sends is one the
      configuration fixes, whatever the caller sends; a transaction group, which
      brings its SQL with it, sends the texts of its steps and its isolation level
      (listing, completion and schema derivation are not part of this); a validated
      binding is served, operation by operation, by the driver its kind names.
    - Call path: a call reaches the driver at most twice and with the prepared
      parameters; it is charged or refunded at most once; its cache entry serves
      the same response; a fire-and-wait call terminates, with at most one check
      more than its timeout has poll intervals and none begun after the deadline was
      seen to be past; a transaction group commits all steps or rolls back; result sets respect the
      row limit.  A malformed request can close a tripped breaker.
    - Change feeds: a compiled keyset watch sends every row after its start once
      and in order, through failures and restarts, and catches up; the
      replication slot never passes an unacknowledged change; a receive returns what
      it peeked and then settles, advancing the slot past the acknowledged front
      once, and a peek delivers all new changes whose LSNs are distinct
      and not below the consumed position.  Without these conditions changes are
      lost or stall, which is exhibited on concrete sessions.
    - Starting and stopping watches: a watch starts exactly when its guards hold
      and reports the first that fails; cancelling a change watch returns once its
      task is over, at any moment of its loop.
    - Reporting: every call that reaches the call path of a binding still registered
      is logged and counted once with the status, error kind and rows of its result,
      the number of series is bounded by the configuration,
      and a heartbeat is due at its interval and stops with its await, except after
      a timeout.
    - Other watches: a polling watch emits exactly at the changes of its scalar; a
      LISTEN watch has one live connection per URL and channel, which is the one a
      look-up finds, and accounts for
      every notification since it subscribed, lagging included, but a connection
      that failed is joined for ever.
    - Registration: a profile that registers is sound for the call path: a safe
      configuration, a checked pool, a statement that passed the checks, parameters
      that bind when they are present, stream settings when it streams; a failed registration changes nothing and stops
      in a fixed order of effects.  The secret-rotation hint cannot reach any
      profile.  Answers fit the derived output schema and the input schema
      describes exactly the accepted arguments; computed parameters cannot be set
      by the caller.
    - Credentials and tokens: no call runs on another caller's pool, up to hash
      collisions and as long as no resolved value contains a line break, and a
      revocation is exact; a rotated token is fresh while fetches succeed, and
      stale for most of a TTL after one that fails; the rotator asks at most once
      per interval and not at all once its last holder is gone.
    - Cached responses: once a change was seen, no call is answered with data older
      than a state the tracking query does not tell from what the invalidator had
      seen when the call read its version (so with no older data at all where that
      query tells all states apart); before the first poll, and after a binding is registered again, stale entries are served, which
      is exhibited.  The invalidator's task is never cancelled.
    - Idle pools: a pool outlives its idle time by at most one period of the
      sweeper and the runtime's lateness, and no sweep starts once the profile is
      dropped.
    - Shutdown: draining admits nothing new and, from a quiet moment, ends with
      the pool of every profile closed; the races that remain are exhibited.  A transaction opens
      with its isolation level or not at all.
    - Keys: credential digests and cache keys separate callers, up to the
      delimiters the code does not escape, for which collisions are exhibited.
    - Errors and cost: every word of a projected error's message that parses as a
      URL has its password masked (a secret that is not in such a word is not
      looked for); charges are finite, non-negative and capped.

    ** Bounds and fuel

    Machine integers are [Z] with their wrap-around written out where it can
    matter.  Loops that are not structural take fuel: the length of the text for
    [Params.rewrite_go], [SqlText.strip_comments] and [Text.trim_matches_go] (each turn
    consumes at least one byte), the number of entries for [Pool.evict_loop]
    (each turn removes one), the bit length for digit conversion, nine reads for
    [Cdc.peek_more] (the limit grows fourfold up to its maximum).  Theorems about
    them are about the functions that supply the fuel.  The page loop of
    [WatchChanges.poll] depends on the database: its theorems give the result for
    any fuel above the length of the log, since each full page moves the key.
    [Lifecycle.drain_wait] and [Execute.await_loop] depend on the clock: 601 looks
    reach the cap of a shutdown, and for the await loop fuel above the number of intervals
    in the timeout is enough when time passes as the sleeps ask.  The numeric bounds
    assumed of a run are fewer than 2^64 - 1 queries started by one SQLite driver and
    fewer than 2^64 polls of one cache invalidator.

    [Sweeper] takes bounds on how late the runtime wakes a task and on the wait
    for the registry's lock; its theorems hold for every such pair.

    ** Not modelled

    What is not code of this repository is a parameter: sqlx and its option
    builders, the servers, the AWS SDK, the CEL engine, the url, chrono, base64,
    HMAC and blake3 crates, the plugin SDK with the macros that export the library
    and the queue that drives the replication source, the host and its cache.  Of
    the repository's own code: the text of log events and the attributes of tracing
    spans; which of several errors serde reports and its wording; the entropy of a
    generated signing key; the [Debug] of the plugins, which prints identifiers and
    counts; the tests. *)

From Stdlib Require Import ZArith Lia Bool Ascii String.
From Stdlib Require Strings.Byte.
From stdpp Require Import base list strings gmap.

#[export] Set Default Goal Selector "!".

(** * Notation scope of the development *)

Declare Scope rust_scope.
Delimit Scope rust_scope with rust.

(** Rust's [Result<A, E>]. *)
Inductive result (E A : Type) : Type :=
| Ok (a : A)
| Err (e : E).
Arguments Ok {E A} a.
Arguments Err {E A} e.

Definition rbind {E A B} (r : result E A) (f : A -> result E B) : result E B :=
  match r with
  | Ok a => f a
  | Err e => Err e
  end.

Definition rmap_err {E F A} (f : E -> F) (r : result E A) : result F A :=
  match r with
  | Ok a => Ok a
  | Err e => Err (f e)
  end.

Definition ok_or {E A} (o : option A) (e : E) : result E A :=
  match o with
  | Some a => Ok a
  | None => Err e
  end.

Definition is_ok {E A} (r : result E A) : bool :=
  match r with Ok _ => true | Err _ => false end.

(** The [?] operator: [let? x := e in k] returns early on [Err]. *)
Notation "'let?' x := e 'in' k" := (rbind e (fun x => k))
  (at level 10, x pattern, e at level 200, k at level 200,
   format "'[v' 'let?'  x  :=  e  'in' '/' k ']'") : rust_scope.
Open Scope rust_scope.

Lemma rbind_ok {E A B} (r : result E A) (k : A -> result E B) b :
  rbind r k = Ok b -> exists a, r = Ok a /\ k a = Ok b.
Proof. destruct r; simpl; [eauto|done]. Qed.

(** * Automation *)

Create HintDb rust discriminated.
Create Rewrite HintDb rust_norm.

(** Split every boolean connective and comparison in the context. *)
Ltac bool_hyps :=
  repeat match goal with
  | H : _ && _ = true |- _ => apply andb_true_iff in H as [? ?]
  | H : _ || _ = false |- _ => apply orb_false_iff in H as [? ?]
  | H : negb _ = true |- _ => apply negb_true_iff in H
  | H : negb _ = false |- _ => apply negb_false_iff in H
  | H : (_ =? _)%Z = true |- _ => apply Z.eqb_eq in H
  | H : (_ =? _)%Z = false |- _ => apply Z.eqb_neq in H
  | H : (_ <? _)%Z = true |- _ => apply Z.ltb_lt in H
  | H : (_ <? _)%Z = false |- _ => apply Z.ltb_ge in H
  | H : (_ <=? _)%Z = true |- _ => apply Z.leb_le in H
  | H : (_ <=? _)%Z = false |- _ => apply Z.leb_gt in H
  | H : (_ =? _)%string = true |- _ => apply String.eqb_eq in H
  | H : (_ =? _)%string = false |- _ => apply String.eqb_neq in H
  end.

(** Case analysis on the scrutinee of the outermost [match] of the goal or of
    a hypothesis. *)
Ltac case_goal :=
  match goal with
  | |- context [match ?x with _ => _ end] => destruct x eqn:?
  end.
Ltac case_hyp H :=
  match type of H with
  | context [match ?x with _ => _ end] => destruct x eqn:?
  end.

(** Destruct a chain of [let?] in [H], discarding the failing branches. *)
Ltac invert_ok H :=
  repeat (unfold rbind in H; case_hyp H; try discriminate H).

(** * Machine integers *)

Open Scope Z_scope.

Definition u8_max : Z := 2 ^ 8 - 1.
Definition u16_max : Z := 2 ^ 16 - 1.
Definition u32_max : Z := 2 ^ 32 - 1.
Definition u64_max : Z := 2 ^ 64 - 1.
Definition i32_min : Z := - 2 ^ 31.
Definition i32_max : Z := 2 ^ 31 - 1.
Definition i64_min : Z := - 2 ^ 63.
Definition i64_max : Z := 2 ^ 63 - 1.

(** Two's complement wrap-around of unsigned and signed [w]-bit integers. *)
Definition wrapu (w z : Z) : Z := z mod 2 ^ w.
Definition wraps (w z : Z) : Z := (z + 2 ^ (w - 1)) mod 2 ^ w - 2 ^ (w - 1).

(** Unsigned [saturating_sub]. *)
Definition sat_sub (a b : Z) : Z := Z.max 0 (a - b).

Lemma wrapu_small w z : 0 <= z < 2 ^ w -> wrapu w z = z.
Proof. intros H. unfold wrapu. by apply Z.mod_small. Qed.

Lemma wrapu_range w z : 0 <= w -> 0 <= wrapu w z < 2 ^ w.
Proof. intros H. unfold wrapu. apply Z.mod_pos_bound. lia. Qed.

Lemma wraps_small w z : 0 < w -> - 2 ^ (w - 1) <= z < 2 ^ (w - 1) -> wraps w z = z.
Proof.
  intros Hw H. unfold wraps.
  assert (2 ^ w = 2 * 2 ^ (w - 1)) as E.
  { rewrite <- Z.pow_succ_r by lia. f_equal. lia. }
  rewrite Z.mod_small; lia.
Qed.

Lemma wraps_range w z : 0 < w -> - 2 ^ (w - 1) <= wraps w z < 2 ^ (w - 1).
Proof.
  intros Hw. unfold wraps.
  assert (2 ^ w = 2 * 2 ^ (w - 1)) as E.
  { rewrite <- Z.pow_succ_r by lia. f_equal. lia. }
  pose proof (Z.mod_pos_bound (z + 2 ^ (w - 1)) (2 ^ w)). lia.
Qed.

Lemma wraps_mod w z : 0 < w -> wraps w (z mod 2 ^ w) = wraps w z.
Proof. intros Hw. unfold wraps. by rewrite Zplus_mod_idemp_l. Qed.

#[export] Hint Resolve wrapu_range wraps_range : rust.
