(* ===== verification/RustStd.v ===== *)
(** The part of Rust's standard library the plugin uses: integer formatting
    and parsing, big- and little-endian bytes, UTF-8, ASCII classes and the
    [str] operations [split_once], [strip_prefix], [contains], [join].

    A Rust [String] or [&str] is a [string] whose [ascii]s are its UTF-8
    bytes; a [&[u8]] is a [list byte].  Only well-formed UTF-8 strings are
    Rust strings: statements that depend on it say [valid_str s = true]. *)

From Stdlib Require Import ZArith Lia Bool Ascii String.
From Stdlib Require Strings.Byte.
From stdpp Require Import base list strings.
From S2P Require Import Prelude.

Abbreviation byte := Byte.byte.

(** * Digits in a base *)

Section Digits.
Context (b : Z).

Fixpoint to_digits_aux (fuel : nat) (n : Z) (acc : list Z) : list Z :=
  match fuel with
  | O => acc
  | S f =>
      let acc' := n mod b :: acc in
      if n / b =? 0 then acc' else to_digits_aux f (n / b) acc'
  end.

(** The digits of [n] in base [b], most significant first; the binary
    length of [n] bounds the number of digits in every base. *)
Definition to_digits (n : Z) : list Z :=
  to_digits_aux (S (Z.to_nat (Z.log2 n))) n [].

Definition of_digits_from (acc : Z) (ds : list Z) : Z :=
  fold_left (fun a d => a * b + d) ds acc.

Definition of_digits (ds : list Z) : Z := of_digits_from 0 ds.

Lemma of_digits_from_app acc ds1 ds2 :
  of_digits_from acc (ds1 ++ ds2) = of_digits_from (of_digits_from acc ds1) ds2.
Proof. apply fold_left_app. Qed.

Context (Hb : 2 <= b).

Lemma to_digits_aux_spec fuel n acc :
  0 <= n < 2 ^ Z.of_nat fuel -> (0 < fuel)%nat ->
  of_digits (to_digits_aux fuel n acc) = of_digits_from n acc.
Proof.
  revert n acc. induction fuel as [|f IH]; intros n acc Hn Hf; [lia|].
  cbn [to_digits_aux].
  pose proof (Z.div_mod n b ltac:(lia)) as E.
  destruct (n / b =? 0) eqn:Hd; bool_hyps.
  - unfold of_digits, of_digits_from. cbn [fold_left]. do 1 f_equal. lia.
  - assert (n / b < 2 ^ Z.of_nat f) as Hlt.
    { rewrite Nat2Z.inj_succ, Z.pow_succ_r in Hn by lia.
      apply Z.div_lt_upper_bound; nia. }
    assert (0 <= n / b) by (apply Z.div_pos; lia).
    rewrite IH.
    + unfold of_digits_from. cbn [fold_left]. f_equal. lia.
    + lia.
    + destruct f; [|lia]. change (2 ^ Z.of_nat 0) with 1 in Hlt. lia.
Qed.

Lemma of_to_digits n : 0 <= n -> of_digits (to_digits n) = n.
Proof.
  intros Hn. unfold to_digits. rewrite to_digits_aux_spec.
  - reflexivity.
  - split; [done|]. rewrite Nat2Z.inj_succ, Z2Nat.id by apply Z.log2_nonneg.
    destruct (Z.eq_dec n 0) as [->|]; [by compute|].
    apply Z.log2_spec. lia.
  - lia.
Qed.

Lemma to_digits_aux_range fuel n acc :
  Forall (fun d => 0 <= d < b) acc ->
  Forall (fun d => 0 <= d < b) (to_digits_aux fuel n acc).
Proof.
  revert n acc. induction fuel as [|f IH]; intros n acc Ha; [done|].
  cbn [to_digits_aux].
  assert (Forall (fun d => 0 <= d < b) (n mod b :: acc)).
  { constructor; [|done]. apply Z.mod_pos_bound. lia. }
  destruct (n / b =? 0); auto.
Qed.

Lemma to_digits_range n : Forall (fun d => 0 <= d < b) (to_digits n).
Proof. by apply to_digits_aux_range. Qed.

Lemma to_digits_aux_cons fuel n acc :
  acc <> [] \/ (0 < fuel)%nat -> to_digits_aux fuel n acc <> [].
Proof.
  revert n acc. induction fuel as [|f IH]; intros n acc H.
  - destruct H as [H|H]; [done|lia].
  - cbn [to_digits_aux]. destruct (n / b =? 0); [done|]. apply IH. by left.
Qed.

Lemma to_digits_nonempty n : to_digits n <> [].
Proof. apply to_digits_aux_cons. right. lia. Qed.

Lemma of_digits_from_ge acc ds :
  0 <= acc -> Forall (fun d => 0 <= d < b) ds -> acc <= of_digits_from acc ds.
Proof.
  revert acc. induction ds as [|d ds IH]; intros acc Ha Hds; [unfold of_digits_from; simpl; lia|].
  inversion Hds; subst. unfold of_digits_from. cbn [fold_left].
  etransitivity; [|apply IH; [nia|done]]. nia.
Qed.
End Digits.

(** * Integer formatting and parsing *)

Definition digit_char (d : Z) : ascii :=
  ascii_of_N (Z.to_N (if d <? 10 then 48 + d else 55 + d)).

(** [char::to_digit(radix)]. *)
Definition char_digit (radix : Z) (c : ascii) : option Z :=
  let n := Z.of_N (N_of_ascii c) in
  let d := if (48 <=? n) && (n <=? 57) then Some (n - 48)
           else if (65 <=? n) && (n <=? 90) then Some (n - 55)
           else if (97 <=? n) && (n <=? 122) then Some (n - 87)
           else None in
  match d with
  | Some d => if d <? radix then Some d else None
  | None => None
  end.

Definition digits_string (ds : list Z) : string :=
  string_of_list_ascii (map digit_char ds).

(** [format!("{n}")] for [radix = 10], [format!("{n:X}")] for [radix = 16]. *)
Definition show_radix (radix n : Z) : string := digits_string (to_digits radix n).

Definition show_u (n : Z) : string := show_radix 10 n.

(** [i64::to_string]. *)
Definition show_i (n : Z) : string :=
  if n <? 0 then String "-" (show_u (- n)) else show_u n.

(** The digit loop of [from_str_radix]: checked multiply and add. *)
Fixpoint parse_digits (radix max acc : Z) (s : string) : option Z :=
  match s with
  | EmptyString => Some acc
  | String c s' =>
      match char_digit radix c with
      | None => None
      | Some d =>
          let acc' := acc * radix + d in
          if acc' <=? max then parse_digits radix max acc' s' else None
      end
  end.

Definition parse_nonempty (radix max : Z) (s : string) : option Z :=
  match s with
  | EmptyString => None
  | _ => parse_digits radix max 0 s
  end.

(** [uN::from_str_radix]: an optional [+], then at least one digit. *)
Definition parse_u (radix max : Z) (s : string) : option Z :=
  match s with
  | String "+" s' => parse_nonempty radix max s'
  | _ => parse_nonempty radix max s
  end.

(** [str::parse::<i64>()]. *)
Definition parse_i64 (s : string) : option Z :=
  match s with
  | String "-" s' => Z.opp <$> parse_nonempty 10 (2 ^ 63) s'
  | String "+" s' => parse_nonempty 10 i64_max s'
  | _ => parse_nonempty 10 i64_max s
  end.

Lemma char_digit_char radix d :
  2 <= radix <= 16 -> 0 <= d < radix -> char_digit radix (digit_char d) = Some d.
Proof.
  intros Hr Hd. unfold char_digit, digit_char.
  assert (d = 0 \/ d = 1 \/ d = 2 \/ d = 3 \/ d = 4 \/ d = 5 \/ d = 6 \/ d = 7 \/
          d = 8 \/ d = 9 \/ d = 10 \/ d = 11 \/ d = 12 \/ d = 13 \/ d = 14 \/ d = 15)
    as Hc by lia.
  repeat (destruct Hc as [->|Hc]);
    [..|subst]; simpl; case_match; bool_hyps; first [done | lia].
Qed.

Lemma parse_digits_string radix max acc ds :
  2 <= radix <= 16 -> 0 <= acc -> Forall (fun d => 0 <= d < radix) ds ->
  of_digits_from radix acc ds <= max ->
  parse_digits radix max acc (digits_string ds) = Some (of_digits_from radix acc ds).
Proof.
  intros Hr. revert acc. induction ds as [|d ds IH]; intros acc Ha Hds Hmax; [done|].
  inversion Hds as [|? ? Hd Hds']; subst.
  unfold digits_string. cbn [map string_of_list_ascii parse_digits].
  rewrite char_digit_char by done. cbn -[Z.leb Z.mul].
  unfold of_digits_from in Hmax |- *. cbn [fold_left] in Hmax |- *.
  fold (of_digits_from radix (acc * radix + d) ds) in Hmax |- *.
  pose proof (of_digits_from_ge radix ltac:(lia) (acc * radix + d) ds ltac:(nia) Hds').
  case_match; bool_hyps; [|lia].
  apply IH; [nia|done|done].
Qed.

Lemma digit_char_plus d : 0 <= d < 16 -> digit_char d <> "+"%char.
Proof.
  intros Hd E. pose proof (char_digit_char 16 d ltac:(lia) Hd) as H.
  rewrite E in H. by vm_compute in H.
Qed.

(** Parsing what was printed gives the number back, for every base used. *)
Lemma parse_show_radix radix max n :
  2 <= radix <= 16 -> 0 <= n <= max -> parse_u radix max (show_radix radix n) = Some n.
Proof.
  intros Hr Hn. unfold show_radix, parse_u.
  pose proof (to_digits_range radix ltac:(lia) n) as Hrange.
  pose proof (of_to_digits radix ltac:(lia) n ltac:(lia)) as Hval.
  pose proof (parse_digits_string radix max 0 (to_digits radix n) Hr ltac:(lia) Hrange) as Hp.
  unfold of_digits in Hval. rewrite Hval in Hp. specialize (Hp ltac:(lia)).
  destruct (to_digits radix n) as [|d ds] eqn:E; [by apply to_digits_nonempty in E|].
  inversion Hrange; subst.
  unfold digits_string in *. cbn [map string_of_list_ascii] in *.
  assert (digit_char d <> "+"%char) as Hplus by (apply digit_char_plus; lia).
  unfold parse_nonempty. rewrite Hp.
  destruct (digit_char d) as [[] [] [] [] [] [] [] []]; done.
Qed.

#[export] Hint Resolve of_to_digits to_digits_range to_digits_nonempty : rust.

(** * Bytes and endianness *)

#[export] Instance byte_eq_dec : EqDecision byte := Byte.byte_eq_dec.

Definition byte_Z (b : byte) : Z := Z.of_N (Byte.to_N b).

Definition Z_byte (z : Z) : byte :=
  match Byte.of_N (Z.to_N (z mod 256)) with
  | Some b => b
  | None => Byte.x00
  end.

Lemma byte_Z_range b : 0 <= byte_Z b < 256.
Proof. unfold byte_Z. pose proof (Byte.to_N_bounded b). lia. Qed.

Lemma byte_Z_of_Z z : byte_Z (Z_byte z) = z mod 256.
Proof.
  unfold byte_Z, Z_byte. pose proof (Z.mod_pos_bound z 256 ltac:(lia)).
  destruct (Byte.of_N _) eqn:E.
  - apply Byte.to_of_N in E. rewrite E. lia.
  - apply Byte.of_N_None_iff in E. lia.
Qed.

Lemma Z_byte_Z b : Z_byte (byte_Z b) = b.
Proof.
  unfold Z_byte, byte_Z. rewrite Z.mod_small.
  - by rewrite N2Z.id, Byte.of_to_N.
  - pose proof (Byte.to_N_bounded b). lia.
Qed.

Lemma byte_Z_inj b1 b2 : byte_Z b1 = byte_Z b2 -> b1 = b2.
Proof. intros H. by rewrite <- (Z_byte_Z b1), H, Z_byte_Z. Qed.

Definition byte_eqb (x y : byte) : bool := byte_Z x =? byte_Z y.

Lemma byte_eqb_eq x y : byte_eqb x y = true <-> x = y.
Proof.
  unfold byte_eqb. rewrite Z.eqb_eq. split; [apply byte_Z_inj|by intros ->].
Qed.

(** [uN::from_be_bytes] and [to_be_bytes]. *)
Definition from_be_bytes (bs : list byte) : Z := of_digits 256 (map byte_Z bs).

Fixpoint to_be_bytes (n : nat) (v : Z) : list byte :=
  match n with
  | O => []
  | S n' => to_be_bytes n' (v / 256) ++ [Z_byte v]
  end.

(** [uN::to_le_bytes]. *)
Fixpoint to_le_bytes (n : nat) (v : Z) : list byte :=
  match n with
  | O => []
  | S n' => Z_byte v :: to_le_bytes n' (v / 256)
  end.

Lemma length_to_be_bytes n v : length (to_be_bytes n v) = n.
Proof.
  revert v. induction n as [|n IH]; intros v; [done|].
  cbn [to_be_bytes]. rewrite length_app, IH. simpl. lia.
Qed.

Lemma length_to_le_bytes n v : length (to_le_bytes n v) = n.
Proof. revert v. induction n as [|n IH]; intros v; simpl; auto. Qed.

Lemma to_le_bytes_inj n : forall v v',
  0 <= v < 256 ^ Z.of_nat n -> 0 <= v' < 256 ^ Z.of_nat n ->
  to_le_bytes n v = to_le_bytes n v' -> v = v'.
Proof.
  induction n as [|n IH]; intros v v' Hv Hv' E; [simpl in *; lia|].
  rewrite Nat2Z.inj_succ, Z.pow_succ_r in Hv, Hv' by lia. cbn [to_le_bytes] in E.
  injection E as E0 E. apply (f_equal byte_Z) in E0. rewrite !byte_Z_of_Z in E0.
  apply IH in E; [|split; [apply Z.div_pos|apply Z.div_lt_upper_bound]; lia..].
  rewrite (Z.div_mod v 256), (Z.div_mod v' 256) by lia. congruence.
Qed.

Lemma from_to_be_bytes_mod n v :
  from_be_bytes (to_be_bytes n v) = v mod 256 ^ Z.of_nat n.
Proof.
  revert v. induction n as [|n IH]; intros v; [simpl; by rewrite Z.mod_1_r|].
  rewrite Nat2Z.inj_succ, Z.pow_succ_r by lia.
  unfold from_be_bytes, of_digits in *. cbn [to_be_bytes].
  rewrite map_app, of_digits_from_app, IH.
  unfold of_digits_from. simpl. rewrite byte_Z_of_Z, Z.rem_mul_r by lia. lia.
Qed.

Lemma from_to_be_bytes n v :
  0 <= v < 256 ^ Z.of_nat n -> from_be_bytes (to_be_bytes n v) = v.
Proof. intros Hv. rewrite from_to_be_bytes_mod. by apply Z.mod_small. Qed.

Lemma from_be_bytes_range bs :
  0 <= from_be_bytes bs < 256 ^ Z.of_nat (length bs).
Proof.
  induction bs as [|b bs IH] using rev_ind; [done|].
  unfold from_be_bytes, of_digits in *.
  rewrite map_app, of_digits_from_app, length_app.
  replace (Z.of_nat (length bs + length [b])) with (Z.succ (Z.of_nat (length bs))) by (simpl; lia).
  rewrite Z.pow_succ_r by lia.
  pose proof (byte_Z_range b). unfold of_digits_from in *. simpl. lia.
Qed.

(** * UTF-8 *)

(** A byte literal, Rust's [b'c']. *)
Definition ch (c : ascii) : byte := byte_of_ascii c.
Definition str_bytes (s : string) : list byte := list_byte_of_string s.
Definition bytes_str (bs : list byte) : string := string_of_list_byte bs.

Lemma bytes_str_bytes s : bytes_str (str_bytes s) = s.
Proof. apply string_of_list_byte_of_string. Qed.

Lemma str_bytes_str bs : str_bytes (bytes_str bs) = bs.
Proof. apply list_byte_of_string_of_list_byte. Qed.

Definition in_range (lo hi : Z) (b : byte) : bool := (lo <=? byte_Z b) && (byte_Z b <=? hi).

Definition is_cont (b : byte) : bool := in_range 128 191 b.

(** [utf8_char_width] of a first byte, 0 for a byte that starts no character. *)
Definition utf8_width (b : byte) : Z :=
  if in_range 0 127 b then 1
  else if in_range 194 223 b then 2
  else if in_range 224 239 b then 3
  else if in_range 240 244 b then 4
  else 0.

(** The second byte a three- or four-byte character may have. *)
Definition utf8_second (b0 b1 : byte) : bool :=
  if in_range 224 224 b0 then in_range 160 191 b1
  else if in_range 237 237 b0 then in_range 128 159 b1
  else if in_range 240 240 b0 then in_range 144 191 b1
  else if in_range 244 244 b0 then in_range 128 143 b1
  else is_cont b1.

(** U+FFFD, the replacement character. *)
Definition replacement : list byte := [Byte.xef; Byte.xbf; Byte.xbd].

(** [String::from_utf8_lossy], as bytes: a maximal invalid prefix of a
    character becomes one replacement character. *)
Fixpoint utf8_lossy (bs : list byte) : list byte :=
  match bs with
  | [] => []
  | b0 :: r0 =>
      if utf8_width b0 =? 1 then b0 :: utf8_lossy r0
      else if utf8_width b0 =? 2 then
        match r0 with
        | b1 :: r1 => if is_cont b1 then b0 :: b1 :: utf8_lossy r1
                      else replacement ++ utf8_lossy r0
        | [] => replacement
        end
      else if utf8_width b0 =? 3 then
        match r0 with
        | b1 :: r1 =>
            if utf8_second b0 b1 then
              match r1 with
              | b2 :: r2 => if is_cont b2 then b0 :: b1 :: b2 :: utf8_lossy r2
                            else replacement ++ utf8_lossy r1
              | [] => replacement
              end
            else replacement ++ utf8_lossy r0
        | [] => replacement
        end
      else if utf8_width b0 =? 4 then
        match r0 with
        | b1 :: r1 =>
            if utf8_second b0 b1 then
              match r1 with
              | b2 :: r2 =>
                  if is_cont b2 then
                    match r2 with
                    | b3 :: r3 => if is_cont b3 then b0 :: b1 :: b2 :: b3 :: utf8_lossy r3
                                  else replacement ++ utf8_lossy r2
                    | [] => replacement
                    end
                  else replacement ++ utf8_lossy r1
              | [] => replacement
              end
            else replacement ++ utf8_lossy r0
        | [] => replacement
        end
      else replacement ++ utf8_lossy r0
  end.

(** Well-formed UTF-8: the invariant of a Rust [str]. *)
Fixpoint valid_utf8 (bs : list byte) : bool :=
  match bs with
  | [] => true
  | b0 :: r0 =>
      if utf8_width b0 =? 1 then valid_utf8 r0
      else if utf8_width b0 =? 2 then
        match r0 with
        | b1 :: r1 => is_cont b1 && valid_utf8 r1
        | [] => false
        end
      else if utf8_width b0 =? 3 then
        match r0 with
        | b1 :: b2 :: r2 => utf8_second b0 b1 && is_cont b2 && valid_utf8 r2
        | _ => false
        end
      else if utf8_width b0 =? 4 then
        match r0 with
        | b1 :: b2 :: b3 :: r3 =>
            utf8_second b0 b1 && is_cont b2 && is_cont b3 && valid_utf8 r3
        | _ => false
        end
      else false
  end.

Definition from_utf8_lossy (bs : list byte) : string := bytes_str (utf8_lossy bs).
Definition valid_str (s : string) : bool := valid_utf8 (str_bytes s).

(** Induction over characters: a suffix of the list is always shorter. *)
Lemma list_length_ind (P : list byte -> Prop) :
  (forall bs, (forall bs', (length bs' < length bs)%nat -> P bs') -> P bs) ->
  forall bs, P bs.
Proof.
  intros H bs. remember (length bs) as n eqn:E. revert bs E.
  induction (lt_wf n) as [n _ IH]. intros bs ->. apply H. intros bs' Hl. by eapply IH.
Qed.

Lemma utf8_lossy_valid bs : valid_utf8 bs = true -> utf8_lossy bs = bs.
Proof.
  induction bs as [bs IH] using list_length_ind. intros Hv.
  destruct bs as [|b0 r0]; [done|]. cbn [valid_utf8 utf8_lossy] in Hv |- *.
  repeat (case_match; try discriminate); bool_hyps; subst;
    repeat match goal with H : ?b = true, H' : ?b = false |- _ => congruence end;
    f_equal; repeat f_equal; apply IH; simpl; first [done | lia].
Qed.

Lemma from_utf8_lossy_str s : valid_str s = true -> from_utf8_lossy (str_bytes s) = s.
Proof.
  intros H. unfold from_utf8_lossy. rewrite utf8_lossy_valid by done.
  apply bytes_str_bytes.
Qed.

(** [String::push(b as char)] for a byte [b]: the UTF-8 encoding of U+00[b]. *)
Definition push_latin1 (b : byte) : list byte :=
  let n := byte_Z b in
  if n <? 128 then [b] else [Z_byte (192 + n / 64); Z_byte (128 + n mod 64)].

(** * ASCII classes and [str] operations *)

Definition char_Z (c : ascii) : Z := Z.of_N (N_of_ascii c).

Definition is_ascii_digit (c : ascii) : bool := (48 <=? char_Z c) && (char_Z c <=? 57).
Definition is_ascii_upper (c : ascii) : bool := (65 <=? char_Z c) && (char_Z c <=? 90).
Definition is_ascii_lower (c : ascii) : bool := (97 <=? char_Z c) && (char_Z c <=? 122).
Definition is_ascii_alpha (c : ascii) : bool := is_ascii_upper c || is_ascii_lower c.
Definition is_ascii_alnum (c : ascii) : bool := is_ascii_alpha c || is_ascii_digit c.
Definition is_ascii_word (c : ascii) : bool := is_ascii_alnum c || Ascii.eqb c "_".

Fixpoint str_forall (p : ascii -> bool) (s : string) : bool :=
  match s with
  | EmptyString => true
  | String c s' => p c && str_forall p s'
  end.

Fixpoint str_exists (p : ascii -> bool) (s : string) : bool :=
  match s with
  | EmptyString => false
  | String c s' => p c || str_exists p s'
  end.

Definition str_is_empty (s : string) : bool :=
  match s with EmptyString => true | _ => false end.

(** [str::split_once(c)]: around the first occurrence. *)
Fixpoint split_once (d : ascii) (s : string) : option (string * string) :=
  match s with
  | EmptyString => None
  | String c s' =>
      if Ascii.eqb c d then Some (EmptyString, s')
      else match split_once d s' with
           | Some (a, b) => Some (String c a, b)
           | None => None
           end
  end.

(** [str::strip_prefix]. *)
Fixpoint strip_prefix (p s : string) : option string :=
  match p with
  | EmptyString => Some s
  | String c p' =>
      match s with
      | String d s' => if Ascii.eqb c d then strip_prefix p' s' else None
      | EmptyString => None
      end
  end.

Definition starts_with (p s : string) : bool :=
  match strip_prefix p s with Some _ => true | None => false end.

(** [str::contains]. *)
Fixpoint str_contains (p s : string) : bool :=
  starts_with p s ||
  match s with
  | EmptyString => false
  | String _ s' => str_contains p s'
  end.

(** [slice::join]. *)
Fixpoint join (sep : string) (l : list string) : string :=
  match l with
  | [] => EmptyString
  | [s] => s
  | s :: l' => (s +:+ sep +:+ join sep l')%string
  end.

Lemma str_forall_app p a b : str_forall p (a +:+ b) = str_forall p a && str_forall p b.
Proof. induction a as [|c a IH]; [done|]. simpl. by rewrite IH, andb_assoc. Qed.

Lemma split_once_app d a b :
  str_forall (fun c => negb (Ascii.eqb c d)) a = true ->
  split_once d (a +:+ String d b) = Some (a, b).
Proof.
  induction a as [|c a IH]; intros H.
  - simpl. by rewrite Ascii.eqb_refl.
  - simpl in H |- *. bool_hyps. rewrite H. by rewrite IH.
Qed.

Lemma split_once_Some d s a b : split_once d s = Some (a, b) -> s = (a +:+ String d b)%string.
Proof.
  revert a b. induction s as [|c s IH]; intros a b H; [done|]. simpl in H.
  destruct (Ascii.eqb c d) eqn:E.
  - apply Ascii.eqb_eq in E as ->. by injection H as <- <-.
  - destruct (split_once d s) as [[a' b']|] eqn:E'; [|done].
    injection H as <- <-. simpl. by rewrite (IH _ _ eq_refl).
Qed.

Lemma strip_prefix_app p s : strip_prefix p (p +:+ s) = Some s.
Proof. induction p as [|c p IH]; [done|]. simpl. by rewrite Ascii.eqb_refl. Qed.

Lemma strip_prefix_Some p s r : strip_prefix p s = Some r -> s = (p +:+ r)%string.
Proof.
  revert s. induction p as [|c p IH]; intros s H; [simpl in H; by injection H as ->|].
  destruct s as [|d s]; [done|]. simpl in H.
  destruct (Ascii.eqb c d) eqn:E; [|done]. apply Ascii.eqb_eq in E as ->.
  by rewrite (IH _ H).
Qed.

Lemma str_app_assoc (a b c : string) : ((a +:+ b) +:+ c = a +:+ (b +:+ c))%string.
Proof.
  induction a as [|x a IH]; [done|].
  change (String x ((a +:+ b) +:+ c) = String x (a +:+ (b +:+ c)))%string. by rewrite IH.
Qed.

Lemma str_app_nil_r (a : string) : (a +:+ EmptyString = a)%string.
Proof.
  induction a as [|x a IH]; [done|]. change (String x (a +:+ EmptyString) = String x a)%string.
  by rewrite IH.
Qed.

#[export] Hint Rewrite str_app_assoc str_app_nil_r str_forall_app : rust_norm.
#[export] Hint Resolve byte_Z_range from_be_bytes_range : rust.
