(* ===== verification/Redact.v ===== *)
(** Password redaction of [src/src/redact.rs].

    The [url] crate is outside the repository: [Section Redact] takes its
    [Url] type and the four operations the code calls as parameters. *)

From Stdlib Require Import ZArith Lia Bool Ascii String.
From Stdlib Require Strings.Byte.
From stdpp Require Import base list strings.
From S2P Require Import Prelude RustStd.

(** [Cow<'_, str>]. *)
Inductive cow : Type :=
| Borrowed (s : string)
| Owned (s : string).

Definition cow_str (c : cow) : string :=
  match c with Borrowed s | Owned s => s end.

(** What the code uses of [url::Url]. *)
Class UrlOps (Url : Type) : Type := {
  url_parse : string -> option Url;
  url_password : Url -> option string;
  url_set_password : Url -> string -> option Url;
  url_to_string : Url -> string;
}.

(** The bytes of [s] as numbers, for the multi-byte white space tests. *)
Definition str_codes (s : string) : list Z := map byte_Z (str_bytes s).

(** The length in bytes of the white space character [s] starts with
    ([char::is_whitespace] on UTF-8), 0 when it starts with none. *)
Definition ws_len (s : string) : nat :=
  match str_codes s with
  | a :: r =>
      if ((9 <=? a) && (a <=? 13)) || (a =? 32) then 1%nat
      else if a =? 194 then
        match r with
        | b :: _ => if (b =? 133) || (b =? 160) then 2%nat else 0%nat
        | [] => 0%nat
        end
      else
        match r with
        | b :: c :: _ =>
            if ((a =? 225) && (b =? 154) && (c =? 128))
               || ((a =? 226) && (b =? 128) &&
                   (((128 <=? c) && (c <=? 138)) || (c =? 168) || (c =? 169) || (c =? 175)))
               || ((a =? 226) && (b =? 129) && (c =? 159))
               || ((a =? 227) && (b =? 128) && (c =? 128))
            then 3%nat else 0%nat
        | _ => 0%nat
        end
  | [] => 0%nat
  end.

(** The loop of [str::split_whitespace]: [skip] bytes of the current white
    space are left, [cur] is the current word, reversed. *)
Fixpoint words_go (skip : nat) (cur : list ascii) (s : string) : list string :=
  let flush := match cur with
               | [] => []
               | _ => [string_of_list_ascii (rev cur)]
               end in
  match s with
  | EmptyString => flush
  | String c s' =>
      match skip with
      | S k => words_go k cur s'
      | O => match ws_len s with
             | O => words_go O (c :: cur) s'
             | S k => flush ++ words_go k [] s'
             end
      end
  end.

Definition split_whitespace (s : string) : list string := words_go O [] s.

Definition is_punct (c : ascii) : bool :=
  existsb (Ascii.eqb c)
    ["."; ","; ";"; ":"; ")"; "]"; "}"; "034"; "'"]%char.

(** [split_trailing_punct]: split before the longest run of punctuation that
    ends [tok]. *)
Fixpoint split_trailing_punct (tok : string) : string * string :=
  match tok with
  | EmptyString => (EmptyString, EmptyString)
  | String c rest =>
      let (core, trail) := split_trailing_punct rest in
      match core with
      | EmptyString => if is_punct c then (EmptyString, String c trail)
                       else (String c EmptyString, trail)
      | _ => (String c core, trail)
      end
  end.

Section Redact.
Context {Url : Type} `{UrlOps Url}.

Definition redact_password (s : string) : cow :=
  match url_parse s with
  | None => Borrowed s
  | Some parsed =>
      match url_password parsed with
      | None => Borrowed s
      | Some pw =>
          if str_is_empty pw then Borrowed s
          else match url_set_password parsed "***" with
               | None => Borrowed s
               | Some parsed' => Owned (url_to_string parsed')
               end
      end
  end.

Definition redact_token (tok : string) : string :=
  let (core, trail) := split_trailing_punct tok in
  match redact_password core with
  | Borrowed _ => tok
  | Owned r => (r +:+ trail)%string
  end.

Definition redact_in_text (text : string) : string :=
  join " " (map redact_token (split_whitespace text)).
End Redact.

(** * Facts *)

(** [split_trailing_punct] is a split of its argument. *)
Lemma split_trailing_punct_app tok core trail :
  split_trailing_punct tok = (core, trail) -> tok = (core +:+ trail)%string.
Proof.
  revert core trail. induction tok as [|c tok IH]; intros core trail H; simpl in H.
  - by injection H as <- <-.
  - destruct (split_trailing_punct tok) as [core' trail'] eqn:E.
    rewrite (IH _ _ eq_refl). destruct core'; [destruct (is_punct c)|];
      injection H as <- <-; done.
Qed.

Lemma split_trailing_punct_trail tok core trail :
  split_trailing_punct tok = (core, trail) -> str_forall is_punct trail = true.
Proof.
  revert core trail. induction tok as [|c tok IH]; intros core trail H; simpl in H.
  - by injection H as <- <-.
  - destruct (split_trailing_punct tok) as [core' trail'] eqn:E.
    specialize (IH _ _ eq_refl). destruct core'; [destruct (is_punct c) eqn:Ec|];
      injection H as <- <-; simpl; by rewrite ?Ec.
Qed.

(** A URL followed by punctuation is recovered as the core, whatever the
    punctuation, as long as the URL itself does not end in it. *)
Lemma split_trailing_punct_url core c trail :
  is_punct c = false -> str_forall is_punct trail = true ->
  split_trailing_punct ((core +:+ String c EmptyString) +:+ trail)%string
  = ((core +:+ String c EmptyString)%string, trail).
Proof.
  intros Hc Ht.
  assert (split_trailing_punct trail = (EmptyString, trail)) as E.
  { induction trail as [|d trail IH]; [done|]. simpl in Ht. bool_hyps.
    simpl. rewrite IH by done. by rewrite H. }
  induction core as [|d core IH].
  - change (split_trailing_punct (String c trail) = (String c EmptyString, trail)).
    simpl. by rewrite E, Hc.
  - change (split_trailing_punct (String d ((core +:+ String c EmptyString) +:+ trail))%string
            = (String d (core +:+ String c EmptyString), trail)%string).
    cbn [split_trailing_punct]. rewrite IH.
    by destruct core.
Qed.

(** What the documentation of the [url] crate promises of the operations the
    code calls: serialisation round-trips, [set_password] stores what it is
    given, and it only refuses URLs that cannot carry credentials. *)
Class UrlLaws (Url : Type) `{UrlOps Url} : Prop := {
  url_parse_to_string : forall u : Url, url_parse (url_to_string u) = Some u;
  url_set_password_get : forall u u' : Url,
      url_set_password u "***" = Some u' -> url_password u' = Some "***"%string;
  url_set_password_ok : forall (u : Url) pw,
      url_password u = Some pw -> is_Some (url_set_password u "***");
}.

Section RedactFacts.
Context {Url : Type} `{UrlLaws Url}.

(** No string carries a secret: its password region is absent, empty or
    already the mask. *)
Definition carries_no_secret (s : string) : Prop :=
  forall u pw, url_parse s = Some u -> url_password u = Some pw ->
  pw = EmptyString \/ pw = "***"%string.

Lemma redact_password_clean s : carries_no_secret (cow_str (redact_password s)).
Proof.
  unfold carries_no_secret, redact_password. intros u pw.
  destruct (url_parse s) as [u0|] eqn:Ep; simpl; [|congruence].
  destruct (url_password u0) as [pw0|] eqn:Epw; simpl; [|congruence].
  destruct (str_is_empty pw0) eqn:Ee; simpl.
  { destruct pw0; [|done]. rewrite Ep. intros [= <-]. rewrite Epw. intros [= <-]. by left. }
  destruct (url_set_password_ok _ _ Epw) as [u' Eu']. rewrite Eu'. simpl.
  rewrite url_parse_to_string. intros [= <-]. rewrite (url_set_password_get _ _ Eu').
  intros [= <-]. by right.
Qed.

Lemma redact_token_clean tok :
  exists core trail,
    redact_token tok = (core +:+ trail)%string /\ carries_no_secret core /\
    str_forall is_punct trail = true.
Proof.
  unfold redact_token. destruct (split_trailing_punct tok) as [core trail] eqn:E.
  pose proof (redact_password_clean core) as Hc.
  pose proof (split_trailing_punct_trail _ _ _ E).
  destruct (redact_password core) as [s|r] eqn:Er; simpl in Hc.
  - exists core, trail. split; [by apply split_trailing_punct_app|].
    split; [|done]. unfold redact_password in Er. repeat case_match; by simplify_eq.
  - by exists r, trail.
Qed.
End RedactFacts.
