(* ===== verification/Text.v ===== *)
(** Text operations of [str] on UTF-8 strings that the plugin uses beyond those
    of [RustStd]: trimming, splitting and ASCII case. *)

From Stdlib Require Import ZArith Lia Bool Ascii String.
From stdpp Require Import base list strings.
From S2P Require Import Prelude RustStd Redact.

(** [str::to_ascii_uppercase] and [str::to_ascii_lowercase]. *)
Definition to_upper (c : ascii) : ascii :=
  if is_ascii_lower c then ascii_of_N (Z.to_N (char_Z c - 32)) else c.

Fixpoint str_map (f : ascii -> ascii) (s : string) : string :=
  match s with
  | EmptyString => EmptyString
  | String c s' => String (f c) (str_map f s')
  end.

Definition str_upper : string -> string := str_map to_upper.

(** [str::trim_start]; [skip] bytes of a white space character are left. *)
Fixpoint trim_start_go (skip : nat) (s : string) : string :=
  match s with
  | EmptyString => EmptyString
  | String _ s' =>
      match skip with
      | S k => trim_start_go k s'
      | O => match ws_len s with
             | O => s
             | S k => trim_start_go k s'
             end
      end
  end.

Definition trim_start (s : string) : string := trim_start_go 0 s.

(** [str::trim_end]: cut where only white space is left. *)
Fixpoint trim_end (s : string) : string :=
  match trim_start s with
  | EmptyString => EmptyString
  | _ => match s with
         | EmptyString => EmptyString
         | String c s' => String c (trim_end s')
         end
  end.

Definition trim (s : string) : string := trim_end (trim_start s).

(** [str::split(c)]. *)
Fixpoint split_char (d : ascii) (s : string) : list string :=
  match s with
  | EmptyString => [EmptyString]
  | String c s' =>
      if Ascii.eqb c d then EmptyString :: split_char d s'
      else match split_char d s' with
           | [] => [String c EmptyString]
           | w :: ws => String c w :: ws
           end
  end.

(** [str::split_once] with a string pattern. *)
Fixpoint split_once_str (p s : string) : option (string * string) :=
  match strip_prefix p s with
  | Some r => Some (EmptyString, r)
  | None =>
      match s with
      | EmptyString => None
      | String c s' =>
          match split_once_str p s' with
          | Some (a, b) => Some (String c a, b)
          | None => None
          end
      end
  end.

(** [str::trim_start_matches] with a non-empty string pattern. *)
Fixpoint trim_matches_go (fuel : nat) (p s : string) : string :=
  match fuel with
  | O => s
  | S fuel' =>
      match strip_prefix p s with
      | Some r => trim_matches_go fuel' p r
      | None => s
      end
  end.

Definition trim_start_matches (p s : string) : string := trim_matches_go (String.length s) p s.

Lemma str_map_app f a b : str_map f (a +:+ b)%string = (str_map f a +:+ str_map f b)%string.
Proof.
  induction a as [|c a IH]; [done|].
  change (str_map f (String c a +:+ b)) with (String (f c) (str_map f (a +:+ b))).
  by rewrite IH.
Qed.

Lemma split_once_str_Some p s a b : split_once_str p s = Some (a, b) -> s = (a +:+ p +:+ b)%string.
Proof.
  revert a b. induction s as [|c s IH]; intros a b; simpl.
  - destruct (strip_prefix p EmptyString) eqn:E; [|done]. intros [= <- <-].
    by apply strip_prefix_Some in E.
  - destruct (strip_prefix p (String c s)) eqn:E.
    + intros [= <- <-]. by apply strip_prefix_Some in E.
    + destruct (split_once_str p s) as [[a' b']|] eqn:E'; [|done]. intros [= <- <-].
      rewrite (IH _ _ eq_refl). done.
Qed.

Lemma strip_prefix_app_None p s t :
  (String.length p <= String.length s)%nat -> strip_prefix p s = None ->
  strip_prefix p (s +:+ t) = None.
Proof.
  revert s. induction p as [|c p IH]; intros [|d s] Hl H; simpl in *; try done; [lia|].
  destruct (Ascii.eqb c d); [|done]. apply IH; [lia|done].
Qed.

Lemma str_length_app (a b : string) :
  String.length (a +:+ b) = (String.length a + String.length b)%nat.
Proof. induction a as [|c a IH]; [done|]. simpl. by rewrite IH. Qed.

(** The first occurrence of a pattern, given as [p] and its last byte. *)
Lemma split_once_str_first p c a b :
  str_contains (p +:+ String c EmptyString) (a +:+ p) = false ->
  split_once_str (p +:+ String c EmptyString) (a +:+ (p +:+ String c EmptyString) +:+ b) = Some (a, b).
Proof.
  set (q := (p +:+ String c EmptyString)%string).
  assert (String.length q = S (String.length p)) as El by (unfold q; rewrite str_length_app; simpl; lia).
  induction a as [|d a IH]; intros H.
  - change (EmptyString +:+ q +:+ b)%string with (q +:+ b)%string.
    destruct (q +:+ b)%string eqn:E; simpl; rewrite <- E, strip_prefix_app; done.
  - change (String d a +:+ q +:+ b)%string with (String d (a +:+ q +:+ b)).
    change (String d a +:+ p)%string with (String d (a +:+ p)) in H. simpl in H. bool_hyps.
    assert (strip_prefix q (String d (a +:+ q +:+ b)) = None) as En.
    { replace (String d (a +:+ q +:+ b)) with ((String d a +:+ p) +:+ (String c EmptyString +:+ b))%string
        by (unfold q; by rewrite !str_app_assoc).
      apply strip_prefix_app_None.
      - rewrite str_length_app. simpl. lia.
      - unfold starts_with in H. change (String d a +:+ p)%string with (String d (a +:+ p)).
        by destruct (strip_prefix q (String d (a +:+ p))). }
    simpl. rewrite En, IH; done.
Qed.

(** Every piece of [split_char] is free of the separator and joining gives the
    text back. *)
Lemma split_char_spec d s :
  join (String d EmptyString) (split_char d s) = s /\
  Forall (fun w => str_forall (fun c => negb (Ascii.eqb c d)) w = true) (split_char d s).
Proof.
  induction s as [|c s [IHj IHf]]; [by repeat constructor|]. simpl.
  destruct (split_char d s) as [|w ws] eqn:E; [by destruct s; simpl in E; repeat case_match|].
  destruct (Ascii.eqb c d) eqn:Ec.
  - apply Ascii.eqb_eq in Ec as ->. split; [|by constructor].
    change (String d (join (String d EmptyString) (w :: ws)) = String d s). by rewrite IHj.
  - split.
    + rewrite <- IHj. by destruct ws.
    + inversion_clear IHf. constructor; [|done]. simpl. by rewrite Ec.
Qed.
