(* ===== verification/Errors.v ===== *)
(** The driver kinds of [src/src/config.rs] and the error taxonomy of
    [src/src/errors.rs] with its projection to the host's [BackendError].

    [sqlx::Error] and [BackendError] belong to other crates: the model has
    the variants the source names; a database error carries the code its
    [DatabaseError::code] returns.  [Display] of a [sqlx::Error] is a
    parameter of the projection. *)

From Stdlib Require Import ZArith Bool Ascii String.
From stdpp Require Import base list strings.
From S2P Require Import Prelude RustStd Redact.

(** * Driver kinds and isolation levels *)

Inductive DriverKind : Type := Postgres | Mysql | Mariadb | Sqlite.

#[export] Instance DriverKind_eq_dec : EqDecision DriverKind.
Proof. solve_decision. Defined.

Definition DriverKind_as_str (d : DriverKind) : string :=
  match d with
  | Postgres => "postgres"
  | Mysql => "mysql"
  | Mariadb => "mariadb"
  | Sqlite => "sqlite"
  end.

Inductive IsolationLevel : Type := ReadCommitted | RepeatableRead | Serializable.

#[export] Instance IsolationLevel_eq_dec : EqDecision IsolationLevel.
Proof. solve_decision. Defined.

Definition sql_fragment (l : IsolationLevel) : string :=
  match l with
  | ReadCommitted => "SET TRANSACTION ISOLATION LEVEL READ COMMITTED"
  | RepeatableRead => "SET TRANSACTION ISOLATION LEVEL REPEATABLE READ"
  | Serializable => "SET TRANSACTION ISOLATION LEVEL SERIALIZABLE"
  end.

(** * Errors *)

Inductive sqlx_error : Type :=
| PoolTimedOut
| PoolClosed
| Database (code : option string) (message : string)
| OtherSqlx (message : string).

Inductive SqlError : Type :=
| PoolTimeout (ms : Z)
| Connect (e : sqlx_error)
| Prepare (e : sqlx_error)
| Execute (e : sqlx_error)
| Serialize (message : string)
| Timeout (ms : Z)
| ProfileNotFound (name : string)
| InvalidSpec (message : string)
| Driver (e : sqlx_error).

Inductive BackendError : Type :=
| BTimeout (timeout_ms : Z)
| BProfileNotFound (backend_name : string)
| BInvalidSpec (message : string)
| BTransport (message : string).

Definition from_execute (err : sqlx_error) : SqlError :=
  match err with
  | PoolTimedOut => PoolTimeout 0
  | PoolClosed => Driver PoolClosed
  | other => Execute other
  end.

(** [sqlx::Error::as_database_error] and [DatabaseError::code]. *)
Definition database_code (err : sqlx_error) : option string :=
  match err with
  | Database code _ => code
  | _ => None
  end.

Definition is_stale_statement_error (err : sqlx_error) : bool :=
  match database_code err with
  | None => false
  | Some code =>
      String.eqb code "26000" || String.eqb code "42P18" ||
      String.eqb code "0A000" || String.eqb code "1615"
  end.

Section Projection.
Context {Url : Type} `{UrlOps Url} (sqlx_display : sqlx_error -> string).

Definition to_backend_error (err : SqlError) : BackendError :=
  match err with
  | PoolTimeout ms => BTimeout ms
  | Timeout ms => BTimeout ms
  | ProfileNotFound name => BProfileNotFound name
  | InvalidSpec message => BInvalidSpec (redact_in_text message)
  | Serialize message =>
      BTransport ("row serialization failed: " +:+ redact_in_text message)
  | Connect inner => BTransport ("connect: " +:+ redact_in_text (sqlx_display inner))
  | Driver inner => BTransport ("driver: " +:+ redact_in_text (sqlx_display inner))
  | Prepare inner => BTransport ("prepare: " +:+ redact_in_text (sqlx_display inner))
  | Execute inner => BTransport ("execute: " +:+ redact_in_text (sqlx_display inner))
  end.
End Projection.

Definition backend_message (e : BackendError) : option string :=
  match e with
  | BInvalidSpec m | BTransport m => Some m
  | _ => None
  end.

Section ProjectionFacts.
Context {Url : Type} `{UrlLaws Url} (sqlx_display : sqlx_error -> string).

(** C14.  What leaves the plugin is masked: the message of every projected
    error is a fixed label followed by words, and every word is a text that
    carries no URL password (absent, empty or the mask) and trailing
    punctuation. *)
Theorem backend_error_masked err msg :
  backend_message (to_backend_error sqlx_display err) = Some msg ->
  exists label words,
    label ∈ [EmptyString; "row serialization failed: "; "connect: "; "driver: ";
             "prepare: "; "execute: "]%string /\
    msg = (label +:+ join " " words)%string /\
    Forall (fun w => exists core trail,
              w = (core +:+ trail)%string /\ carries_no_secret core /\
              str_forall is_punct trail = true) words.
Proof.
  assert (forall t, Forall (fun w => exists core trail,
              w = (core +:+ trail)%string /\ carries_no_secret core /\
              str_forall is_punct trail = true) (map redact_token (split_whitespace t))) as Hw.
  { intros t. apply Forall_forall. intros w Hw. apply list_elem_of_fmap in Hw as (tok & -> & _).
    apply redact_token_clean. }
  assert (forall (label t : string) (ls : list string), label ∈ ls ->
    exists label' words, label' ∈ ls /\
      (label +:+ redact_in_text t)%string = (label' +:+ join " " words)%string /\
      Forall (fun w => exists core trail,
              w = (core +:+ trail)%string /\ carries_no_secret core /\
              str_forall is_punct trail = true) words) as Hm by eauto 6.
  intros E. destruct err; simpl in E; try discriminate; injection E as <-;
    (apply Hm || apply (Hm EmptyString)); rewrite !elem_of_cons; tauto.
Qed.
End ProjectionFacts.

(** URLs of one user, [u:password]: an instance of the parameters. *)
Module ToyUrl.

Definition t : Type := string.

#[export] Instance ops : UrlOps t := {|
  url_parse := strip_prefix "u:";
  url_password u := Some u;
  url_set_password _ p := Some p;
  url_to_string u := ("u:" +:+ u)%string;
|}.

#[export] Instance laws : UrlLaws t.
Proof.
  split.
  - intros u. apply (strip_prefix_app "u:").
  - by intros u u' [= <-].
  - intros u pw _. by eexists.
Qed.

Definition display (e : sqlx_error) : string :=
  match e with
  | PoolTimedOut => "timed out"
  | PoolClosed => "closed"
  | Database _ m | OtherSqlx m => m
  end.

Example masked_message :
  to_backend_error display (Connect (OtherSqlx "no route to u:hunter2, giving up"))
  = BTransport "connect: no route to u:***, giving up".
Proof. reflexivity. Qed.

Lemma backend_error_masked_witness :
  exists label words,
    label ∈ [EmptyString; "row serialization failed: "; "connect: "; "driver: ";
             "prepare: "; "execute: "]%string /\
    "connect: no route to u:***, giving up"%string = (label +:+ join " " words)%string /\
    Forall (fun w => exists core trail,
              w = (core +:+ trail)%string /\ carries_no_secret (Url := t) core /\
              str_forall is_punct trail = true) words.
Proof.
  apply (backend_error_masked (Url := t) display
           (Connect (OtherSqlx "no route to u:hunter2, giving up"))).
  reflexivity.
Defined.

End ToyUrl.
