(* ===== verification/Breaker.v ===== *)
(** The per-binding circuit breaker of [src/src/breaker.rs].

    Module [Breaker] has the state ([AtomicU32], [AtomicU8], ... as one
    record), the whole-call operations ([try_admit], [record], the guard's
    [Drop]) and the call-level transition system of a breaker with its
    outstanding guards.  Module [Interleaved] splits the same operations at
    their atomic accesses and runs two or more threads over them.

    Time is a parameter of each operation: [Instant] is a number of
    nanoseconds, [Instant::now()] the argument [now]. *)

From Stdlib Require Import ZArith Lia Bool Ascii String.
From stdpp Require Import base list strings relations.
From S2P Require Import Prelude RustStd Redact Errors.

Module Breaker.

Record CircuitBreakerConfig : Type := {
  failure_threshold : Z;   (* u32 *)
  cooldown_ms : Z;         (* u64 *)
}.

Definition default_config : CircuitBreakerConfig :=
  {| failure_threshold := 5; cooldown_ms := 30000 |}.

Definition validate (c : CircuitBreakerConfig) : result SqlError unit :=
  if failure_threshold c =? 0 then
    Err (InvalidSpec ("circuit_breaker.failure_threshold must be > 0 " +:+
                      "(omit the whole block to disable the breaker)"))
  else if cooldown_ms c =? 0 then
    Err (InvalidSpec "circuit_breaker.cooldown_ms must be > 0")
  else Ok tt.

Inductive CircuitState : Type := Closed | Open | HalfOpen.

#[export] Instance CircuitState_eq_dec : EqDecision CircuitState.
Proof. solve_decision. Defined.

(** [AtomicCircuitState]: the state as its [u8] code. *)
Definition CLOSED : Z := 0.
Definition OPEN : Z := 1.
Definition HALF_OPEN : Z := 2.

Definition state_load (code : Z) : CircuitState :=
  if code =? CLOSED then Closed
  else if code =? OPEN then Open
  else if code =? HALF_OPEN then HalfOpen
  else Closed.

Definition state_code (s : CircuitState) : Z :=
  match s with
  | Closed => CLOSED
  | Open => OPEN
  | HalfOpen => HALF_OPEN
  end.

Record CircuitBreaker : Type := mk {
  config : CircuitBreakerConfig;
  consecutive_failures : Z;      (* AtomicU32 *)
  opened_at : option Z;          (* Mutex<Option<Instant>> *)
  probe_in_flight : bool;        (* AtomicBool *)
  total_trips : Z;               (* AtomicU64 *)
  state : Z;                     (* AtomicU8 *)
}.

Definition set_failures (n : Z) (b : CircuitBreaker) : CircuitBreaker :=
  mk (config b) n (opened_at b) (probe_in_flight b) (total_trips b) (state b).
Definition set_opened_at (t : option Z) (b : CircuitBreaker) : CircuitBreaker :=
  mk (config b) (consecutive_failures b) t (probe_in_flight b) (total_trips b) (state b).
Definition set_probe (p : bool) (b : CircuitBreaker) : CircuitBreaker :=
  mk (config b) (consecutive_failures b) (opened_at b) p (total_trips b) (state b).
Definition set_trips (n : Z) (b : CircuitBreaker) : CircuitBreaker :=
  mk (config b) (consecutive_failures b) (opened_at b) (probe_in_flight b) n (state b).
Definition state_store (s : CircuitState) (b : CircuitBreaker) : CircuitBreaker :=
  mk (config b) (consecutive_failures b) (opened_at b) (probe_in_flight b) (total_trips b)
     (state_code s).

Definition new (c : CircuitBreakerConfig) : CircuitBreaker :=
  mk c 0 None false 0 CLOSED.

Record CircuitSnapshot : Type := {
  snap_state : CircuitState;
  snap_failures : Z;
  snap_trips : Z;
}.

Definition snapshot (b : CircuitBreaker) : CircuitSnapshot :=
  {| snap_state := state_load (state b);
     snap_failures := consecutive_failures b;
     snap_trips := total_trips b |}.

Definition fast_fail_error : SqlError := Driver PoolClosed.

(** [Instant::elapsed] saturates at zero. *)
Definition cooldown_elapsed (now : Z) (b : CircuitBreaker) : bool :=
  match opened_at b with
  | Some t => cooldown_ms (config b) * 1000000 <=? sat_sub now t
  | None => true
  end.

(** The guard of an admitted call: its [probe] flag. *)
Definition AdmitGuard : Type := bool.

Definition try_admit (now : Z) (b : CircuitBreaker)
  : result SqlError AdmitGuard * CircuitBreaker :=
  match state_load (state b) with
  | Closed => (Ok false, b)
  | Open =>
      if cooldown_elapsed now b then
        let b := state_store HalfOpen b in
        let b := set_probe true b in
        (Ok true, b)
      else (Err fast_fail_error, b)
  | HalfOpen =>
      if negb (probe_in_flight b) then (Ok true, set_probe true b)
      else (Err fast_fail_error, b)
  end.

Definition record_success (was_probe : bool) (b : CircuitBreaker) : CircuitBreaker :=
  let b := set_failures 0 b in
  if was_probe then
    let b := set_probe false b in
    let b := state_store Closed b in
    set_opened_at None b
  else b.

Definition record_failure (now : Z) (was_probe : bool) (b : CircuitBreaker) : CircuitBreaker :=
  if was_probe then
    let b := set_probe false b in
    let b := state_store Open b in
    set_opened_at (Some now) b
  else
    let n := wrapu 32 (consecutive_failures b + 1) in
    let b := set_failures n b in
    if failure_threshold (config b) <=? n then
      if state b =? CLOSED then
        let b := state_store Open b in
        let b := set_opened_at (Some now) b in
        set_trips (wrapu 64 (total_trips b + 1)) b
      else b
    else b.

(** [AdmitGuard::record] and the guard's [Drop]. *)
Definition record (now : Z) (g : AdmitGuard) (success : bool) (b : CircuitBreaker)
  : CircuitBreaker :=
  if success then record_success g b else record_failure now g b.

Definition guard_drop (g : AdmitGuard) (b : CircuitBreaker) : CircuitBreaker :=
  record_success g b.

(** ** The breaker with its outstanding guards, one whole call per step *)

Record world : Type := World {
  breaker : CircuitBreaker;
  guards : list AdmitGuard;
}.

Inductive step : world -> world -> Prop :=
| step_admit now b b' g gs :
    try_admit now b = (Ok g, b') -> step (World b gs) (World b' (g :: gs))
| step_reject now b b' e gs :
    try_admit now b = (Err e, b') -> step (World b gs) (World b' gs)
| step_record now ok b gs1 g gs2 :
    step (World b (gs1 ++ g :: gs2)) (World (record now g ok b) (gs1 ++ gs2))
| step_drop b gs1 g gs2 :
    step (World b (gs1 ++ g :: gs2)) (World (guard_drop g b) (gs1 ++ gs2)).

Definition reachable (c : CircuitBreakerConfig) (w : world) : Prop :=
  rtc step (World (new c) []) w.

(** Guards that serve as the half-open probe. *)
Fixpoint probes (gs : list AdmitGuard) : nat :=
  match gs with
  | [] => 0%nat
  | g :: gs' => ((if g then 1 else 0) + probes gs')%nat
  end.

(** The invariant of the state machine: the [u8] is one of the three codes,
    the breaker is half-open exactly while a probe is claimed, exactly the
    claimed probe is outstanding, and an open breaker knows when it opened. *)
Record wf (w : world) : Prop := {
  wf_code : exists s, state (breaker w) = state_code s;
  wf_half : state_load (state (breaker w)) = HalfOpen <-> probe_in_flight (breaker w) = true;
  wf_probes : probes (guards w) = (if probe_in_flight (breaker w) then 1 else 0)%nat;
  wf_opened : state_load (state (breaker w)) = Open -> is_Some (opened_at (breaker w));
}.

Lemma state_load_code s : state_load (state_code s) = s.
Proof. by destruct s. Qed.

Lemma probes_app gs1 gs2 : probes (gs1 ++ gs2) = (probes gs1 + probes gs2)%nat.
Proof. induction gs1 as [|g gs1 IH]; simpl; lia. Qed.

Lemma probes_middle gs1 g gs2 :
  probes (gs1 ++ g :: gs2) = (probes (gs1 ++ gs2) + if g then 1 else 0)%nat.
Proof. rewrite !probes_app. simpl. lia. Qed.

Lemma wf_new c : wf (World (new c) []).
Proof.
  split; simpl.
  - by exists Closed.
  - done.
  - done.
  - done.
Qed.

Lemma wf_admit now b g b' gs :
  wf (World b gs) -> try_admit now b = (Ok g, b') -> wf (World b' (g :: gs)).
Proof.
  intros [[s Hs] Hh Hp Ho] E. unfold try_admit in E. simpl in *. rewrite Hs in *.
  rewrite state_load_code in *.
  assert (probes (g :: gs) = (probes gs + if g then 1 else 0)%nat) as Hcons
    by apply (probes_middle [] g gs).
  destruct s.
  - injection E as <- <-. split; simpl; rewrite ?Hs, ?state_load_code; eauto; lia.
  - destruct (cooldown_elapsed now b); [|done]. injection E as <- <-.
    assert (probe_in_flight b = false) as Hpf.
    { destruct (probe_in_flight b); [|done]. discriminate (proj2 Hh eq_refl). }
    rewrite Hpf in Hp.
    split; simpl; rewrite ?state_load_code; try done; [by exists HalfOpen|lia].
  - destruct (negb (probe_in_flight b)) eqn:Hpf; [|done]. bool_hyps.
    by rewrite (proj1 Hh eq_refl) in Hpf.
Qed.

Lemma wf_reject now b e b' gs :
  wf (World b gs) -> try_admit now b = (Err e, b') -> b' = b.
Proof.
  intros _ E. unfold try_admit in E. repeat case_match; by simplify_eq.
Qed.

Lemma wf_record_success b gs1 g gs2 :
  wf (World b (gs1 ++ g :: gs2)) -> wf (World (record_success g b) (gs1 ++ gs2)).
Proof.
  intros [[s Hs] Hh Hp Ho]. simpl in *. rewrite probes_middle in Hp.
  destruct g; simpl.
  - split; simpl; try done.
    + by exists Closed.
    + destruct (probe_in_flight b); simpl in *; lia.
  - split; simpl; try done; [by exists s|]. lia.
Qed.

Lemma wf_record_failure now b gs1 g gs2 :
  wf (World b (gs1 ++ g :: gs2)) -> wf (World (record_failure now g b) (gs1 ++ gs2)).
Proof.
  intros [[s Hs] Hh Hp Ho]. simpl in *. rewrite probes_middle in Hp.
  destruct g; simpl.
  - split; simpl; try done.
    + by exists Open.
    + destruct (probe_in_flight b); simpl in *; lia.
  - unfold record_failure. simpl. rewrite Hs in *. rewrite state_load_code in *.
    destruct (_ <=? _); [destruct s; simpl|]; split; simpl;
      rewrite ?Hs, ?state_load_code; try done; try lia;
      try (by eexists Open + eexists HalfOpen + eexists s).
    all: try (rewrite <- Hh; done).
Qed.

Lemma wf_step w w' : wf w -> step w w' -> wf w'.
Proof.
  intros Hw Hs. destruct Hs as [now b b' g gs E|now b b' e gs E|now ok b gs1 g gs2|b gs1 g gs2].
  - by eapply wf_admit.
  - by rewrite (wf_reject _ _ _ _ _ Hw E).
  - destruct ok; [by apply wf_record_success|by apply wf_record_failure].
  - by apply wf_record_success.
Qed.

Lemma wf_reachable c w : reachable c w -> wf w.
Proof.
  unfold reachable. intros Hr.
  refine (rtc_ind_r wf _ (wf_new c) _ w Hr).
  intros y z _ Hs Hy. by eapply wf_step.
Qed.

(** C2.  In every state reachable by whole calls (admissions, rejections,
    recorded outcomes and dropped guards in any order, at any times), at most
    one outstanding guard is a half-open probe, the breaker is HalfOpen
    exactly while that probe is outstanding, and an Open breaker has the
    instant it opened at. *)
Theorem at_most_one_probe c w :
  reachable c w ->
  (probes (guards w) <= 1)%nat /\
  (state_load (state (breaker w)) = HalfOpen <-> probes (guards w) = 1%nat) /\
  (state_load (state (breaker w)) = Open -> is_Some (opened_at (breaker w))).
Proof.
  intros Hr. destruct (wf_reachable _ _ Hr) as [_ Hh Hp Ho].
  rewrite Hp, Hh. split_and!; [| |done]; destruct (probe_in_flight (breaker w)); (done || lia).
Qed.

(** ** Complete calls, one after the other *)

(** A call made at [fst o] whose outcome is [snd o]; a rejected call has no
    outcome to record. *)
Definition call (b : CircuitBreaker) (o : Z * bool) : CircuitBreaker :=
  match try_admit (fst o) b with
  | (Ok g, b') => record (fst o) g (snd o) b'
  | (Err _, b') => b'
  end.

Definition calls (c : CircuitBreakerConfig) (os : list (Z * bool)) : CircuitBreaker :=
  fold_left call os (new c).

(** Failures since the last success. *)
Definition streak (os : list (Z * bool)) : Z :=
  fold_left (fun n (o : Z * bool) => if snd o then 0 else n + 1) os 0.

Lemma streak_snoc os o : streak (os ++ [o]) = if snd o then 0 else streak os + 1.
Proof. unfold streak. by rewrite fold_left_app. Qed.

Lemma calls_snoc c os o : calls c (os ++ [o]) = call (calls c os) o.
Proof. unfold calls. by rewrite fold_left_app. Qed.

Lemma streak_nonneg os : 0 <= streak os.
Proof.
  induction os as [|o os IH] using rev_ind; [done|]. rewrite streak_snoc.
  destruct (snd o); lia.
Qed.

(** While no streak has reached the threshold the breaker stays Closed. *)
Lemma calls_closed c os :
  failure_threshold c <= u32_max ->
  (forall n, streak (take n os) < failure_threshold c) ->
  calls c os = mk c (streak os) None false 0 CLOSED.
Proof.
  intros Hc. induction os as [|o os IH] using rev_ind; intros Hs; [done|].
  assert (forall n, streak (take n os) < failure_threshold c) as Hs'.
  { intros n. destruct (decide (n <= length os)%nat) as [Hn|Hn].
    - specialize (Hs n). by rewrite take_app_le in Hs.
    - specialize (Hs (length os)). rewrite take_app_le, firstn_all in Hs by lia.
      by rewrite take_ge by lia. }
  specialize (Hs (length (os ++ [o]))). rewrite firstn_all, streak_snoc in Hs.
  rewrite calls_snoc, (IH Hs'), streak_snoc. unfold call, try_admit. simpl.
  pose proof (streak_nonneg os).
  destruct o as [now []]; [done|]. simpl in *. unfold record, record_failure. simpl.
  rewrite wrapu_small by (unfold u32_max in *; lia).
  case_match; bool_hyps; [lia|done].
Qed.

(** Complete calls made one after the other trip a fresh breaker exactly
    when the threshold-th failure in a row is recorded, whatever successes
    came before: it is then Open at the instant of that failure, with one
    trip counted; until then it stays Closed with the current streak. *)
Theorem trips_at_threshold c os o :
  0 < failure_threshold c <= u32_max ->
  (forall n, streak (take n os) < failure_threshold c) ->
  calls c (os ++ [o]) =
    if streak (os ++ [o]) =? failure_threshold c
    then mk c (failure_threshold c) (Some (fst o)) false 1 OPEN
    else mk c (streak (os ++ [o])) None false 0 CLOSED.
Proof.
  intros Hc Hs. rewrite calls_snoc, (calls_closed c os) by (done || lia).
  specialize (Hs (length os)). rewrite firstn_all in Hs. pose proof (streak_nonneg os).
  rewrite streak_snoc. unfold call, try_admit.
  destruct o as [now []]; cbn [fst snd].
  - destruct (Z.eqb_spec 0 (failure_threshold c)); [lia|done].
  - simpl. unfold record, record_failure. simpl.
    rewrite wrapu_small by (unfold u32_max in *; lia).
    repeat case_match; bool_hyps; try lia; [|done]. unfold set_trips. simpl. f_equal. lia.
Qed.

Lemma wf_open_idle w :
  wf w -> state_load (state (breaker w)) = Open ->
  state (breaker w) = OPEN /\ probe_in_flight (breaker w) = false.
Proof.
  intros [[s Hs] Hh _ _] E. rewrite Hs, state_load_code in *. subst s. split; [done|].
  destruct (probe_in_flight (breaker w)); [|done]. discriminate (proj2 Hh eq_refl).
Qed.

(** The recovery cycle of every reachable Open breaker.  Until
    [cooldown_ms] has passed since it opened it rejects every call with the
    fast-fail error and does not change.  The first call after that is
    admitted as the probe, and while it is outstanding every other call is
    rejected.  The probe's success (recorded, or by a dropped guard) gives a
    fresh breaker that only remembers its trips; its failure gives the same
    Open breaker with the cooldown starting again. *)
Theorem open_recovery_cycle c w t now :
  reachable c w -> state_load (state (breaker w)) = Open ->
  opened_at (breaker w) = Some t -> 0 < cooldown_ms (config (breaker w)) ->
  (now - t < cooldown_ms (config (breaker w)) * 1000000 ->
     try_admit now (breaker w) = (Err fast_fail_error, breaker w)) /\
  (cooldown_ms (config (breaker w)) * 1000000 <= now - t ->
     exists b', try_admit now (breaker w) = (Ok true, b') /\
       forall later,
         try_admit later b' = (Err fast_fail_error, b') /\
         record later true true b' = set_trips (total_trips (breaker w)) (new (config (breaker w))) /\
         guard_drop true b' = record later true true b' /\
         record later true false b' = set_opened_at (Some later) (breaker w)).
Proof.
  intros Hr Hs Ht Hc.
  destruct (wf_open_idle _ (wf_reachable _ _ Hr) Hs) as [Hcode Hidle].
  destruct w as [b gs]. simpl in *. destruct b as [cfg n op pf tr st]. simpl in *. subst.
  unfold try_admit, cooldown_elapsed, sat_sub. simpl.
  split; intros H; case_match; bool_hyps; try lia; [done|].
  eexists. split; [done|]. done.
Qed.

(** ** Concrete runs *)

Definition quick : CircuitBreakerConfig := {| failure_threshold := 1; cooldown_ms := 1 |}.

(** [quick] after one failed call at time 7. *)
Definition tripped : CircuitBreaker := mk quick 1 (Some 7) false 1 OPEN.

Lemma tripped_reachable : reachable quick (World tripped []).
Proof.
  apply rtc_l with (World (new quick) [false]); [by apply (step_admit 7)|].
  apply rtc_once. apply (step_record 7 false (new quick) [] false []).
Qed.

Lemma at_most_one_probe_witness :
  let w := World (set_probe true (state_store HalfOpen tripped)) [true] in
  (probes (guards w) <= 1)%nat /\
  (state_load (state (breaker w)) = HalfOpen <-> probes (guards w) = 1%nat) /\
  (state_load (state (breaker w)) = Open -> is_Some (opened_at (breaker w))).
Proof.
  apply (at_most_one_probe quick). eapply rtc_r; [apply tripped_reachable|].
  by apply (step_admit 1000007).
Defined.

Lemma trips_at_threshold_witness :
  calls {| failure_threshold := 2; cooldown_ms := 1 |} ([(0, true); (1, false)] ++ [(2, false)])
  = mk {| failure_threshold := 2; cooldown_ms := 1 |} 2 (Some 2) false 1 OPEN.
Proof.
  apply (trips_at_threshold {| failure_threshold := 2; cooldown_ms := 1 |}
           [(0, true); (1, false)] (2, false)).
  - by vm_compute.
  - intros [|[|[|n]]]; by vm_compute.
Defined.

Lemma open_recovery_cycle_witness :
  try_admit 8 tripped = (Err fast_fail_error, tripped) /\
  exists b', try_admit 1000007 tripped = (Ok true, b').
Proof.
  split.
  - by apply (open_recovery_cycle quick (World tripped []) 7 8 tripped_reachable).
  - destruct (open_recovery_cycle quick (World tripped []) 7 1000007 tripped_reachable
                eq_refl eq_refl eq_refl) as [_ [b' [Hb' _]]]; [by vm_compute|].
    by exists b'.
Defined.

End Breaker.

(** * Interleavings of the atomic accesses *)

Module Interleaved.
Import Breaker.

(** Where a thread is: inside [try_admit], holding a guard, inside
    [record_success] or [record_failure], or finished.  Each constructor is
    the point before the next atomic access. *)
Inductive thread : Type :=
| TStart
| TOpen | TStoreHalf | TStoreProbe
| THalf
| THold (probe : bool)
| TReject
| TS1 (probe : bool) | TS2 | TS3 | TS4
| TF1 | TF2 | TF3
| TN1 | TN2 | TN3 | TN4
| TDone.

(** One atomic access of a thread at time [now]; a thread that holds its
    guard reports the outcome [ok]. *)
Definition access (now : Z) (ok : bool) (b : CircuitBreaker) (t : thread)
  : CircuitBreaker * thread :=
  match t with
  | TStart =>
      match state_load (state b) with
      | Closed => (b, THold false)
      | Open => (b, TOpen)
      | HalfOpen => (b, THalf)
      end
  | TOpen => (b, if cooldown_elapsed now b then TStoreHalf else TReject)
  | TStoreHalf => (state_store HalfOpen b, TStoreProbe)
  | TStoreProbe => (set_probe true b, THold true)
  | THalf => if negb (probe_in_flight b) then (set_probe true b, THold true) else (b, TReject)
  | THold p => (b, if ok then TS1 p else if p then TF1 else TN1)
  | TReject => (b, TReject)
  | TS1 p => (set_failures 0 b, if p then TS2 else TDone)
  | TS2 => (set_probe false b, TS3)
  | TS3 => (state_store Closed b, TS4)
  | TS4 => (set_opened_at None b, TDone)
  | TF1 => (set_probe false b, TF2)
  | TF2 => (state_store Open b, TF3)
  | TF3 => (set_opened_at (Some now) b, TDone)
  | TN1 =>
      let n := wrapu 32 (consecutive_failures b + 1) in
      (set_failures n b, if failure_threshold (config b) <=? n then TN2 else TDone)
  | TN2 => if state b =? CLOSED then (state_store Open b, TN3) else (b, TDone)
  | TN3 => (set_opened_at (Some now) b, TN4)
  | TN4 => (set_trips (wrapu 64 (total_trips b + 1)) b, TDone)
  | TDone => (b, TDone)
  end.

(** A schedule: which thread moves, when, and the outcome it would report. *)
Record move : Type := Move { who : nat; at_time : Z; outcome : bool }.

Definition run1 (st : CircuitBreaker * list thread) (m : move) : CircuitBreaker * list thread :=
  let (b, ts) := st in
  match ts !! who m with
  | None => (b, ts)
  | Some t => let (b', t') := access (at_time m) (outcome m) b t in (b', <[who m := t']> ts)
  end.

Definition run (sched : list move) (st : CircuitBreaker * list thread) :=
  fold_left run1 sched st.

(** The accesses of one thread with no other in between. *)
Fixpoint solo (fuel : nat) (now : Z) (ok : bool) (b : CircuitBreaker) (t : thread)
  : CircuitBreaker * thread :=
  match fuel with
  | O => (b, t)
  | S f => let (b', t') := access now ok b t in solo f now ok b' t'
  end.

Definition holding_probe (t : thread) : bool :=
  match t with THold true => true | _ => false end.

Lemma solo_admit now ok b :
  exists n, match try_admit now b with
            | (Ok g, b') => solo n now ok b TStart = (b', THold g)
            | (Err _, b') => solo n now ok b TStart = (b', TReject)
            end.
Proof.
  unfold try_admit. destruct (state_load (state b)) eqn:Es.
  - exists 1%nat. cbn [solo access]. by rewrite Es.
  - destruct (cooldown_elapsed now b) eqn:Ec; [exists 4%nat|exists 2%nat];
      cbn [solo access]; rewrite Es; cbn [solo access]; by rewrite Ec.
  - destruct (negb (probe_in_flight b)) eqn:Ep; exists 2%nat;
      cbn [solo access]; rewrite Es; cbn [solo access]; by rewrite Ep.
Qed.

Lemma solo_record now ok b g : solo 6 now ok b (THold g) = (record now g ok b, TDone).
Proof.
  destruct ok, g; try done. unfold record, record_failure.
  cbn -[Z.eqb Z.leb]. destruct (Z.leb _ _) eqn:E; cbn -[Z.eqb Z.leb]; [|done].
  by destruct (state b =? CLOSED).
Qed.

(** The whole-call operations are the atomic accesses of one thread run
    without interruption: [try_admit] ends holding the guard it returned or
    rejected, and recording an outcome leaves the same breaker. *)
Theorem atomic_refines_calls now ok b :
  (exists n, match try_admit now b with
             | (Ok g, b') => solo n now ok b TStart = (b', THold g)
             | (Err _, b') => solo n now ok b TStart = (b', TReject)
             end) /\
  (forall g, exists n, solo n now ok b (THold g) = (record now g ok b, TDone)).
Proof. split; [apply solo_admit|]. intros g. exists 6%nat. apply solo_record. Qed.

(** The atomic accesses do not give mutual exclusion of probes: with
    threshold 1 and three calls, the first fails and trips the breaker, and
    after the cooldown the two others both load Open before either stores
    HalfOpen; both end up holding a probe at the same time. *)
Theorem two_probes_in_flight :
  exists sched,
    let (b, ts) := run sched (new {| failure_threshold := 1; cooldown_ms := 1 |},
                              [TStart; TStart; TStart]) in
    state_load (state b) = HalfOpen /\ ts = [TDone; THold true; THold true].
Proof.
  exists (map (fun i => Move i 0 false) [0; 0; 0; 0; 0; 0]%nat ++
          map (fun i => Move i 1000000 true) [1; 2; 1; 2; 1; 2; 1; 2]%nat).
  vm_compute. done.
Qed.

End Interleaved.
