(* ===== verification/Json.v ===== *)
(** [serde_json::Value] as the plugin uses it.

    Numbers are serde_json's three cases (a [u64], a negative [i64], a finite
    [f64] as its IEEE value).  A [Map] is a [BTreeMap<String, Value>]: an
    association list sorted by key bytes, which [obj_insert] maintains. *)

From Stdlib Require Import ZArith Lia Bool Ascii String SpecFloat.
From stdpp Require Import base list strings.
From S2P Require Import Prelude RustStd.

Inductive number : Type :=
| PosInt (n : Z)
| NegInt (n : Z)
| Float (f : spec_float).

#[warnings="-register-all"]
Inductive value : Type :=
| VNull
| VBool (b : bool)
| VNumber (n : number)
| VString (s : string)
| VArray (l : list value)
| VObject (m : list (string * value)).

Abbreviation json_map := (list (string * value)).

(** [json!(n)] of an [i64]. *)
Definition json_i64 (n : Z) : value :=
  VNumber (if n <? 0 then NegInt n else PosInt n).

(** [Map::get]. *)
Fixpoint obj_get (k : string) (m : json_map) : option value :=
  match m with
  | [] => None
  | (k', v) :: m' => if String.eqb k k' then Some v else obj_get k m'
  end.

(** [Map::insert]. *)
Fixpoint obj_insert (k : string) (v : value) (m : json_map) : json_map :=
  match m with
  | [] => [(k, v)]
  | (k', v') :: m' =>
      match String.compare k k' with
      | Eq => (k, v) :: m'
      | Lt => (k, v) :: m
      | Gt => (k', v') :: obj_insert k v m'
      end
  end.

(** [Map::remove]. *)
Fixpoint obj_remove (k : string) (m : json_map) : json_map :=
  match m with
  | [] => []
  | (k', v) :: m' => if String.eqb k k' then obj_remove k m' else (k', v) :: obj_remove k m'
  end.

(** [Value::as_str], [as_i64], [as_u64], [as_object]. *)
Definition as_str (v : value) : option string :=
  match v with VString s => Some s | _ => None end.

Definition as_i64 (v : value) : option Z :=
  match v with
  | VNumber (PosInt n) => if n <=? i64_max then Some n else None
  | VNumber (NegInt n) => Some n
  | _ => None
  end.

Definition as_u64 (v : value) : option Z :=
  match v with
  | VNumber (PosInt n) => Some n
  | _ => None
  end.

Definition as_object (v : value) : option json_map :=
  match v with VObject m => Some m | _ => None end.

(** * Structural induction through arrays and objects *)

Section ValueInd.
Context (P : value -> Prop).
Context (HNull : P VNull) (HBool : forall b, P (VBool b)) (HNum : forall n, P (VNumber n))
        (HStr : forall s, P (VString s))
        (HArr : forall l, Forall P l -> P (VArray l))
        (HObj : forall m, Forall (fun kv => P (snd kv)) m -> P (VObject m)).

Fixpoint value_nested_ind (v : value) : P v :=
  match v with
  | VNull => HNull
  | VBool b => HBool b
  | VNumber n => HNum n
  | VString s => HStr s
  | VArray l =>
      HArr l ((fix go (l : list value) : Forall P l :=
                 match l with
                 | [] => List.Forall_nil P
                 | x :: l' => List.Forall_cons P x l' (value_nested_ind x) (go l')
                 end) l)
  | VObject m =>
      HObj m ((fix go (m : json_map) : Forall (fun kv => P (snd kv)) m :=
                 match m with
                 | [] => List.Forall_nil _
                 | kv :: m' => List.Forall_cons _ kv m' (value_nested_ind (snd kv)) (go m')
                 end) m)
  end.
End ValueInd.

(** * Maps *)

Lemma string_compare_refl s : String.compare s s = Eq.
Proof.
  induction s as [|c s IH]; [done|]. simpl. unfold Ascii.compare. by rewrite N.compare_refl.
Qed.

Lemma obj_get_insert k k' v m :
  obj_get k (obj_insert k' v m) = if String.eqb k k' then Some v else obj_get k m.
Proof.
  induction m as [|[k0 v0] m IH]; simpl; [done|].
  destruct (String.compare k' k0) eqn:E; simpl.
  - apply String.compare_eq_iff in E as ->. by destruct (String.eqb k k0).
  - done.
  - rewrite IH. destruct (String.eqb k k0) eqn:E0; [|done].
    apply String.eqb_eq in E0 as ->. destruct (String.eqb k0 k') eqn:E1; [|done].
    apply String.eqb_eq in E1 as ->. by rewrite string_compare_refl in E.
Qed.

Lemma obj_get_remove k k' m :
  obj_get k (obj_remove k' m) = if String.eqb k k' then None else obj_get k m.
Proof.
  induction m as [|[k0 v0] m IH]; simpl; [by destruct (String.eqb k k')|].
  destruct (String.eqb k' k0) eqn:E; simpl; rewrite IH.
  - apply String.eqb_eq in E as ->. by destruct (String.eqb k k0).
  - destruct (String.eqb k k0) eqn:E0; [|done]. apply String.eqb_eq in E0 as ->.
    destruct (String.eqb k0 k') eqn:E1; [|done]. apply String.eqb_eq in E1 as ->.
    by rewrite String.eqb_refl in E.
Qed.

#[export] Hint Rewrite obj_get_insert obj_get_remove : rust_norm.
