(* ===== verification/Serde.v ===== *)
(** What [#[derive(Deserialize, Serialize)]] gives the types of the plugin's
    specs, between them and [serde_json::Value]: the documented meaning of the
    derive attributes the source uses ([default], [deny_unknown_fields],
    [flatten], [untagged], [tag], [rename_all], [skip_serializing_if]) and of
    serde_json's [from_value] and [to_value].

    A [codec] is both directions of a type.  Which of several errors a refused
    value gets, and its text, are not part of it. *)

From Stdlib Require Import ZArith Lia Bool Ascii String.
From stdpp Require Import base list strings option sets.
From S2P Require Import Prelude RustStd Json.

Record codec (A : Type) : Type := { ser : A -> value; de : value -> option A }.
Arguments ser {A} c a.
Arguments de {A} c v.

(** What a value of the type satisfies once it is read, and which values are
    read back from what they are written as. *)
Class Typed {A} (c : codec A) (P : A -> Prop) : Prop := de_typed : forall v a, de c v = Some a -> P a.
Class Roundtrips {A} (c : codec A) (P : A -> Prop) : Prop := de_ser : forall a, P a -> de c (ser c a) = Some a.
(** Never written as [null], so [Some] of it is not mistaken for [None]. *)
Class NotNull {A} (c : codec A) : Prop := ser_not_null : forall a, ser c a <> VNull.

(** * Scalars, sequences and maps *)

Definition str : codec string :=
  {| ser := VString; de := fun v => match v with VString s => Some s | _ => None end |}.

Definition boolean : codec bool :=
  {| ser := VBool; de := fun v => match v with VBool b => Some b | _ => None end |}.

(** An unsigned integer of [w] bits; a [Float] is refused, whatever its value. *)
Definition fits (w n : Z) : Prop := 0 <= n < 2 ^ w.
Definition fits_bool (w n : Z) : bool := (0 <=? n) && (n <? 2 ^ w).

Definition uint (w : Z) : codec Z :=
  {| ser := fun n => VNumber (PosInt n);
     de := fun v => match v with
                    | VNumber (PosInt n) | VNumber (NegInt n) => if fits_bool w n then Some n else None
                    | _ => None
                    end |}.

(** [serde_json::Value] and its [Map]. *)
Definition json : codec value := {| ser := fun v => v; de := Some |}.
Definition json_object : codec json_map := {| ser := VObject; de := as_object |}.

Definition optional {A} (c : codec A) : codec (option A) :=
  {| ser := fun o => match o with Some a => ser c a | None => VNull end;
     de := fun v => match v with VNull => Some None | _ => Some <$> de c v end |}.

Definition vec {A} (c : codec A) : codec (list A) :=
  {| ser := fun l => VArray (map (ser c) l);
     de := fun v => match v with VArray l => mapM (de c) l | _ => None end |}.

(** [BTreeMap<String, A>], as its entries. *)
Definition btree_map {A} (c : codec A) : codec (list (string * A)) :=
  {| ser := fun m => VObject (map (fun kv => (fst kv, ser c (snd kv))) m);
     de := fun v => match v with
                    | VObject m => mapM (fun kv => a ← de c (snd kv); Some (fst kv, a)) m
                    | _ => None
                    end |}.

(** * Enums of unit variants *)

Fixpoint variant {A} (names : list (string * A)) (k : string) : option A :=
  match names with
  | [] => None
  | (k', a) :: names' => if String.eqb k k' then Some a else variant names' k
  end.

(** A variant is its name, or an object that gives its name [null]. *)
Definition unit_enum {A} (name : A -> string) (all : list A) : codec A :=
  {| ser := fun a => VString (name a);
     de := fun v => match v with
                    | VString k | VObject [(k, VNull)] => variant (map (fun a => (name a, a)) all) k
                    | _ => None
                    end |}.

(** * Structs *)

Definition known (names : list string) (k : string) : bool := existsb (String.eqb k) names.

Definition only_known (names : list string) (m : json_map) : bool := forallb (fun kv => known names (fst kv)) m.

(** The entries of a struct: those of an object, refused for an unknown key when
    the struct denies unknown fields, or the elements of an array by position. *)
Definition entries (strict : bool) (names : list string) (v : value) : option json_map :=
  match v with
  | VObject m => if negb strict || only_known names m then Some m else None
  | VArray l => if Nat.leb (length l) (length names) then Some (zip names l) else None
  | _ => None
  end.

(** One field: its value, else what a missing field is. *)
Definition field {A} (c : codec A) (k : string) (missing : option A) (m : json_map) : option A :=
  match obj_get k m with Some v => de c v | None => missing end.

Definition required {A} (c : codec A) (k : string) : json_map -> option A := field c k None.
Definition defaulted {A} (c : codec A) (k : string) (d : A) : json_map -> option A := field c k (Some d).
Definition opt {A} (c : codec A) (k : string) : json_map -> option (option A) := defaulted (optional c) k None.

(** [to_value] of a struct inserts its fields one by one. *)
Definition object (fields : json_map) : json_map := fold_left (fun m kv => obj_insert (fst kv) (snd kv) m) fields [].

(** [skip_serializing_if = "Option::is_none"]. *)
Definition some_field {A} (c : codec A) (k : string) (o : option A) : json_map :=
  match o with Some a => [(k, ser c a)] | None => [] end.

(** The tag and the rest of an internally tagged enum: the tag is an entry of an
    object or the first element of an array. *)
Definition tagged (tag : string) (v : value) : option (string * value) :=
  match v with
  | VObject m => match obj_get tag m with Some (VString k) => Some (k, VObject (obj_remove tag m)) | _ => None end
  | VArray (VString k :: l) => Some (k, VArray l)
  | _ => None
  end.

(** * Laws *)

Definition opt_all {A} (P : A -> Prop) (o : option A) : Prop := match o with Some a => P a | None => True end.
Definition always {A} (_ : A) : Prop := True.

Lemma fits_bool_spec w n : fits_bool w n = true <-> fits w n.
Proof. unfold fits_bool, fits. rewrite andb_true_iff, Z.leb_le, Z.ltb_lt. done. Qed.

#[export] Instance str_roundtrips : Roundtrips str always.
Proof. done. Qed.
#[export] Instance str_typed : Typed str always.
Proof. done. Qed.
#[export] Instance str_not_null : NotNull str.
Proof. done. Qed.
#[export] Instance boolean_roundtrips : Roundtrips boolean always.
Proof. done. Qed.
#[export] Instance boolean_typed : Typed boolean always.
Proof. done. Qed.
#[export] Instance json_object_roundtrips : Roundtrips json_object always.
Proof. done. Qed.
#[export] Instance json_object_typed : Typed json_object always.
Proof. done. Qed.
#[export] Instance json_roundtrips : Roundtrips json always.
Proof. done. Qed.
#[export] Instance json_typed : Typed json always.
Proof. done. Qed.

#[export] Instance uint_roundtrips w : Roundtrips (uint w) (fits w).
Proof. intros n Hn. cbn. by rewrite (proj2 (fits_bool_spec w n) Hn). Qed.
#[export] Instance uint_typed w : Typed (uint w) (fits w).
Proof.
  intros v n. cbn. destruct v as [| |[m|m|f]| | |]; try done; destruct (fits_bool w m) eqn:E; try done;
    intros [= <-]; by apply fits_bool_spec.
Qed.
#[export] Instance uint_not_null w : NotNull (uint w).
Proof. done. Qed.

#[export] Instance optional_roundtrips {A} (c : codec A) P :
  Roundtrips c P -> NotNull c -> Roundtrips (optional c) (opt_all P).
Proof.
  intros Hr Hn [a|] Ha; [|done]. cbn in *. pose proof (Hr a Ha) as E. pose proof (Hn a) as Hv.
  destruct (ser c a); try done; by rewrite E.
Qed.
#[export] Instance optional_typed {A} (c : codec A) P : Typed c P -> Typed (optional c) (opt_all P).
Proof.
  intros Ht v o. destruct v; cbn; try (by intros [= <-]);
    match goal with |- context [de c ?x] => destruct (de c x) as [a|] eqn:E end; try done; intros [= <-];
    by eapply Ht.
Qed.

#[export] Instance vec_roundtrips {A} (c : codec A) P : Roundtrips c P -> Roundtrips (vec c) (Forall P).
Proof.
  intros Hr l Hl. cbn. induction Hl as [|a l Ha _ IH]; [done|]. cbn. by rewrite (Hr a Ha), IH.
Qed.
#[export] Instance vec_typed {A} (c : codec A) P : Typed c P -> Typed (vec c) (Forall P).
Proof.
  intros Ht v l. destruct v as [| | | |vs|]; try done. cbn. rewrite mapM_Some. intros H.
  induction H as [|v a vs l Hv _ IH]; constructor; [by eapply Ht|done].
Qed.

#[export] Instance btree_map_roundtrips {A} (c : codec A) P :
  Roundtrips c P -> Roundtrips (btree_map c) (Forall (fun kv => P (snd kv))).
Proof.
  intros Hr l Hl. cbn. induction Hl as [|[k a] l Ha _ IH]; [done|]. cbn in *. by rewrite (Hr a Ha), IH.
Qed.
#[export] Instance btree_map_typed {A} (c : codec A) P :
  Typed c P -> Typed (btree_map c) (Forall (fun kv => P (snd kv))).
Proof.
  intros Ht v l. destruct v as [| | | | |vs]; try done. cbn. rewrite mapM_Some. intros H.
  induction H as [|[k v] kv vs l Hv _ IH]; constructor; [|done]. cbn in Hv.
  destruct (de c v) as [a|] eqn:E; [|done]. injection Hv as <-. by eapply Ht.
Qed.

(** Distinct names read back; what is read is one of the variants. *)
Lemma variant_in {A} (name : A -> string) all a :
  a ∈ all -> (forall b, b ∈ all -> name b = name a -> b = a) ->
  variant (map (fun a => (name a, a)) all) (name a) = Some a.
Proof.
  induction all as [|b all IH]; [by intros ?%elem_of_nil|]. intros Hin Hinj. cbn.
  destruct (String.eqb_spec (name a) (name b)) as [E|Hne].
  - f_equal. apply Hinj; [left|done].
  - apply IH.
    + apply elem_of_cons in Hin as [->|]; done.
    + intros c Hc. apply Hinj. by right.
Qed.

Lemma unit_enum_roundtrips {A} (name : A -> string) all :
  (forall a, a ∈ all) -> (forall a b, name a = name b -> a = b) -> Roundtrips (unit_enum name all) always.
Proof. intros Hall Hinj a _. apply variant_in; [apply Hall|]. intros b _. apply Hinj. Qed.

#[export] Instance unit_enum_typed {A} (name : A -> string) all : Typed (unit_enum name all) always.
Proof. done. Qed.
#[export] Instance unit_enum_not_null {A} (name : A -> string) all : NotNull (unit_enum name all).
Proof. done. Qed.

Lemma weaken_typed {A} (c : codec A) (P Q : A -> Prop) : Typed c P -> (forall a, P a -> Q a) -> Typed c Q.
Proof. intros H HPQ v a Ha. by eapply HPQ, H. Qed.

(** ** Fields *)

Lemma field_typed {A} (c : codec A) P k d m a :
  Typed c P -> (forall x, d = Some x -> P x) -> field c k d m = Some a -> P a.
Proof. intros Ht Hd. unfold field. destruct (obj_get k m) as [v|]; [apply Ht|apply Hd]. Qed.

Lemma required_typed {A} (c : codec A) P k m a : Typed c P -> required c k m = Some a -> P a.
Proof. intros Ht. by apply field_typed. Qed.

Lemma defaulted_typed {A} (c : codec A) P k d m a : Typed c P -> P d -> defaulted c k d m = Some a -> P a.
Proof. intros Ht Hd. apply field_typed; [done|]. by intros x [= <-]. Qed.

Lemma opt_typed {A} (c : codec A) P k m a : Typed c P -> opt c k m = Some a -> opt_all P a.
Proof. intros Ht. apply defaulted_typed; [by apply optional_typed|done]. Qed.

(** A written field is read back. *)
Lemma field_ser {A} (c : codec A) P k d m a :
  Roundtrips c P -> P a -> obj_get k m = Some (ser c a) -> field c k d m = Some a.
Proof. intros Hr Ha Hk. unfold field. rewrite Hk. by apply Hr. Qed.

Lemma entries_strict names m e : entries true names (VObject m) = Some e -> e = m /\ only_known names m = true.
Proof. unfold entries. cbn [negb orb]. destruct (only_known names m); [|done]. by intros [= <-]. Qed.

(** A strict struct refuses every object with a key that is not a field. *)
Lemma entries_unknown names m k v : obj_get k m = Some v -> known names k = false -> entries true names (VObject m) = None.
Proof.
  intros Hk Hn. unfold entries. cbn [negb orb]. assert (only_known names m = false) as ->; [|done].
  induction m as [|[k' v'] m IH]; [done|]. unfold only_known in *. cbn in *. destruct (String.eqb_spec k k') as [->|Hne].
  - by rewrite Hn.
  - rewrite (IH Hk). apply andb_false_r.
Qed.

(** * Automation *)

(** Read the fields of an object whose entries are known one after the other. *)
Ltac read_field :=
  match goal with
  | |- context [field ?c ?k ?d (object ?fs) ≫= _] =>
      erewrite (field_ser c _ k d (object fs)); [cbn [mbind option_bind]|typeclasses eauto| |reflexivity]
  end.
Ltac read_fields := unfold opt, defaulted, required; repeat read_field.

Lemma forall_always {A} (l : list A) : Forall always l.
Proof. by apply Forall_forall. Qed.
Lemma forall_always_snd {A B} (l : list (A * B)) : Forall (fun kv => always (snd kv)) l.
Proof. by apply Forall_forall. Qed.
Lemma opt_always {A} (o : option A) : opt_all always o.
Proof. by destruct o. Qed.
#[export] Hint Resolve forall_always forall_always_snd opt_always : core.

Ltac enum_roundtrips := apply unit_enum_roundtrips; intros []; try (intros []); first [done|set_solver].

Ltac read_object :=
  match goal with
  | |- context [entries ?strict ?names (VObject ?m)] => change (entries strict names (VObject m)) with (Some m)
  end; cbn [mbind option_bind].

Ltac read_struct := read_object; read_fields; try done.

(** Split what a struct was read from. *)
Ltac read_inv H :=
  repeat match type of H with
  | _ ≫= _ = Some _ => let a := fresh "a" in let Ha := fresh "Ha" in apply bind_Some in H as (a & Ha & H)
  end.

(** The bound of a field from the codec it was read with. *)
Ltac width :=
  match goal with
  | H : defaulted _ _ _ _ = Some ?a |- fits _ ?a => eapply (defaulted_typed _ _ _ _ _ _ _); [|exact H]; done
  | H : opt ?c ?k ?m = Some ?a |- opt_all _ ?a => exact (opt_typed c _ k m a _ H)
  end.
