(* ===== verification/Params.v ===== *)
(** Placeholder rewriting and parameter collection of [src/src/params.rs].

    [rewrite_placeholders] walks the bytes of the statement; the loop is
    [rewrite_go], whose fuel is the statement's length, since every iteration
    consumes at least one byte.  [lex]/[render] is the reference it is proved
    against: cut the statement into tokens, then print them. *)

From Stdlib Require Import ZArith Lia Bool Ascii String.
From Stdlib Require Strings.Byte.
From stdpp Require Import base list strings.
From S2P Require Import Prelude RustStd Redact Errors Json.

Record BoundParam : Type := { bp_name : string; bp_value : value }.

Record PreparedStmt : Type := {
  stmt_sql : string;
  param_order : list string;
  stmt_driver : DriverKind;
}.

Definition quote1 : byte := Byte.x27.   (* ' *)
Definition quote2 : byte := Byte.x22.   (* double quote *)
Definition colon : byte := Byte.x3a.

(** [is_ascii_alphanumeric() || == b'_']. *)
Definition is_word (b : byte) : bool := is_ascii_word (ascii_of_byte b).

(** The identifier at the start of [bs] and what follows it. *)
Fixpoint span_word (bs : list byte) : list byte * list byte :=
  match bs with
  | [] => ([], [])
  | b :: bs' => if is_word b then let (w, r) := span_word bs' in (b :: w, r) else ([], bs)
  end.

(** The placeholder of the [n]-th parameter. *)
Definition placeholder (driver : DriverKind) (n : nat) : string :=
  match driver with
  | Postgres => String "$" (show_u (Z.of_nat n))
  | Mysql | Mariadb | Sqlite => "?"
  end.

Fixpoint rewrite_go (fuel : nat) (driver : DriverKind) (bs : list byte)
    (in_single_quote in_double_quote : bool) (out : list byte) (order : list string)
  : list byte * list string :=
  match fuel with
  | O => (out, order)
  | S f =>
      match bs with
      | [] => (out, order)
      | c :: rest =>
          if byte_eqb c quote1 && negb in_double_quote then
            rewrite_go f driver rest (negb in_single_quote) in_double_quote
              (out ++ push_latin1 c) order
          else if byte_eqb c quote2 && negb in_single_quote then
            rewrite_go f driver rest in_single_quote (negb in_double_quote)
              (out ++ push_latin1 c) order
          else if byte_eqb c colon && negb in_single_quote && negb in_double_quote then
            let go_name :=
              let (name, rest') := span_word rest in
              match name with
              | [] => rewrite_go f driver rest in_single_quote in_double_quote
                        (out ++ [colon]) order
              | _ =>
                  let order := order ++ [bytes_str name] in
                  rewrite_go f driver rest' in_single_quote in_double_quote
                    (out ++ str_bytes (placeholder driver (length order))) order
              end in
            match rest with
            | c' :: rest' =>
                if byte_eqb c' colon then
                  rewrite_go f driver rest' in_single_quote in_double_quote
                    (out ++ [colon; colon]) order
                else go_name
            | [] => go_name
            end
          else
            rewrite_go f driver rest in_single_quote in_double_quote
              (out ++ push_latin1 c) order
      end
  end.

Definition rewrite_placeholders (sql : string) (driver : DriverKind) : string * list string :=
  let bs := str_bytes sql in
  let (out, order) := rewrite_go (length bs) driver bs false false [] [] in
  (bytes_str out, order).

Definition call_statement (procedure : string) (arity : nat) (driver : DriverKind) : string :=
  let placeholders := map (placeholder driver) (seq 1 arity) in
  ("CALL " +:+ procedure +:+ "(" +:+ join ", " placeholders +:+ ")")%string.

(** The loop over [param_order]. *)
Fixpoint collect_params (obj : json_map) (order : list string)
  : result SqlError (list BoundParam) :=
  match order with
  | [] => Ok []
  | name :: order' =>
      match obj_get name obj with
      | Some v =>
          let? ps := collect_params obj order' in
          Ok ({| bp_name := name; bp_value := v |} :: ps)
      | None => Err (InvalidSpec ("missing required parameter '" +:+ name +:+ "'"))
      end
  end.

Definition collect_bound_params (args : value) (order : list string)
  : result SqlError (list BoundParam) :=
  match args with
  | VObject obj => collect_params obj order
  | VNull =>
      match order with
      | [] => Ok []
      | name :: _ =>
          Err (InvalidSpec ("tool arguments must be an object when parameters are declared; missing '"
                            +:+ name +:+ "'"))
      end
  | _ => Err (InvalidSpec "tool arguments must be a JSON object")
  end.

(** * Reference: tokens of a statement *)

Inductive token : Type :=
| TByte (b : byte)
| TCast
| TParam (name : list byte).

Definition token_source (t : token) : list byte :=
  match t with
  | TByte b => [b]
  | TCast => [colon; colon]
  | TParam name => colon :: name
  end.

Definition source (ts : list token) : list byte := concat (map token_source ts).

(** The parameter names, in order of occurrence. *)
Fixpoint names (ts : list token) : list string :=
  match ts with
  | [] => []
  | TParam name :: ts' => bytes_str name :: names ts'
  | _ :: ts' => names ts'
  end.

(** Print the tokens, numbering the parameters from [n + 1]. *)
Fixpoint render (driver : DriverKind) (n : nat) (ts : list token) : list byte :=
  match ts with
  | [] => []
  | TByte b :: ts' => push_latin1 b ++ render driver n ts'
  | TCast :: ts' => [colon; colon] ++ render driver n ts'
  | TParam _ :: ts' => str_bytes (placeholder driver (S n)) ++ render driver (S n) ts'
  end.

(** The quoting state after reading some bytes: inside '...' and inside a
    double-quoted identifier. *)
Definition quote_step (q : bool * bool) (c : byte) : bool * bool :=
  let (s, d) := q in
  if byte_eqb c quote1 && negb d then (negb s, d)
  else if byte_eqb c quote2 && negb s then (s, negb d)
  else (s, d).

Definition quotes (q : bool * bool) (bs : list byte) : bool * bool := fold_left quote_step bs q.

(** Whether the next byte, if any, continues an identifier. *)
Definition at_boundary (bs : list byte) : Prop :=
  match bs with
  | b :: _ => is_word b = false
  | [] => True
  end.

(** The tokens are the right ones for quoting state [q]: a parameter starts
    at a colon outside quotes and takes the whole identifier that follows; a
    cast is a double colon outside quotes; a colon outside quotes that is
    copied starts neither. *)
Fixpoint lexed (q : bool * bool) (ts : list token) : Prop :=
  match ts with
  | [] => True
  | TByte b :: ts' =>
      (b = colon -> q = (false, false) ->
       at_boundary (source ts') /\ head (source ts') <> Some colon) /\
      lexed (quote_step q b) ts'
  | TCast :: ts' => q = (false, false) /\ lexed q ts'
  | TParam name :: ts' =>
      q = (false, false) /\ name <> [] /\ Forall (fun b => is_word b = true) name /\
      at_boundary (source ts') /\ lexed q ts'
  end.

(** * The rewriter against the reference *)

Lemma span_word_spec bs w r :
  span_word bs = (w, r) ->
  bs = w ++ r /\ Forall (fun b => is_word b = true) w /\ at_boundary r.
Proof.
  revert w r. induction bs as [|b bs IH]; intros w r E; simpl in E.
  - by injection E as <- <-.
  - destruct (is_word b) eqn:Hb.
    + destruct (span_word bs) as [w' r'] eqn:E'. injection E as <- <-.
      destruct (IH _ _ eq_refl) as (-> & ? & ?). by auto.
    + injection E as <- <-. by auto.
Qed.

Lemma source_cons t ts : source (t :: ts) = token_source t ++ source ts.
Proof. done. Qed.

Lemma quote_step_colon q : quote_step q colon = q.
Proof. by destruct q as [[] []]. Qed.

Lemma push_latin1_colon : push_latin1 colon = [colon].
Proof. reflexivity. Qed.

(** [r] is the result of rewriting [bs], read in quoting state [q], after
    [out] and [order]. *)
Definition rewrites (driver : DriverKind) (q : bool * bool) (bs out : list byte)
    (order : list string) (r : list byte * list string) : Prop :=
  exists ts,
    source ts = bs /\ lexed q ts /\
    r = (out ++ render driver (length order) ts, order ++ names ts).

(** Copying a byte that starts neither a parameter nor a cast. *)
Lemma rewrites_copy driver q c rest out order r :
  (c = colon -> q = (false, false) -> at_boundary rest /\ head rest <> Some colon) ->
  rewrites driver (quote_step q c) rest (out ++ push_latin1 c) order r ->
  rewrites driver q (c :: rest) out order r.
Proof.
  intros Hc (ts & <- & Hx & ->). exists (TByte c :: ts). rewrite source_cons.
  cbn [token_source lexed render names app]. by rewrite app_assoc.
Qed.

Lemma rewrites_cast driver rest out order r :
  rewrites driver (false, false) rest (out ++ [colon; colon]) order r ->
  rewrites driver (false, false) (colon :: colon :: rest) out order r.
Proof.
  intros (ts & <- & Hx & ->). exists (TCast :: ts). rewrite source_cons.
  cbn [token_source lexed render names app]. by rewrite <- app_assoc.
Qed.

Lemma rewrites_param driver name rest out order r :
  name <> [] -> Forall (fun b => is_word b = true) name -> at_boundary rest ->
  rewrites driver (false, false) rest
    (out ++ str_bytes (placeholder driver (length (order ++ [bytes_str name]))))
    (order ++ [bytes_str name]) r ->
  rewrites driver (false, false) (colon :: name ++ rest) out order r.
Proof.
  intros Hn Hw Hb (ts & <- & Hx & ->). exists (TParam name :: ts). rewrite source_cons.
  cbn [token_source lexed render names app]. split_and!; [done..|].
  rewrite length_app, Nat.add_1_r, <- !app_assoc. done.
Qed.

Lemma rewrite_go_spec fuel driver bs s d out order :
  (length bs <= fuel)%nat ->
  rewrites driver (s, d) bs out order (rewrite_go fuel driver bs s d out order).
Proof.
  revert bs s d out order. induction fuel as [|f IH]; intros bs s d out order Hl.
  { destruct bs; [|simpl in Hl; lia]. exists []. simpl. by rewrite !app_nil_r. }
  destruct bs as [|c rest]; [exists []; simpl; by rewrite !app_nil_r|].
  simpl in Hl. cbn [rewrite_go].
  destruct (byte_eqb c quote1 && negb d) eqn:E1.
  { apply rewrites_copy; [intros ->; by bool_hyps|]. cbn [quote_step]. rewrite E1. apply IH. lia. }
  destruct (byte_eqb c quote2 && negb s) eqn:E2.
  { apply rewrites_copy; [intros ->; by bool_hyps|]. cbn [quote_step]. rewrite E1, E2. apply IH. lia. }
  destruct (byte_eqb c colon && negb s && negb d) eqn:E3; cycle 1.
  { apply rewrites_copy; [intros -> [= -> ->]; by vm_compute in E3|].
    cbn [quote_step]. rewrite E1, E2. apply IH. lia. }
  bool_hyps. subst. match goal with H : byte_eqb _ _ = true |- _ => apply byte_eqb_eq in H as -> end.
  destruct (head rest) as [c'|] eqn:Eh; [destruct (byte_eqb c' colon) eqn:Ec|].
  - destruct rest as [|c0 rest]; [done|]. injection Eh as ->. rewrite Ec.
    apply byte_eqb_eq in Ec as ->. simpl in Hl. apply rewrites_cast, IH. lia.
  - destruct rest as [|c0 rest]; [done|]. injection Eh as ->. rewrite Ec.
    destruct (span_word (c' :: rest)) as [name rest'] eqn:Ew.
    destruct (span_word_spec _ _ _ Ew) as (Er & Hw & Hb).
    destruct name as [|n0 name].
    + rewrite <- push_latin1_colon. apply rewrites_copy; [|rewrite quote_step_colon; apply IH; lia].
      intros _ _. simpl in Er. rewrite Er. split; [done|]. rewrite <- Er. simpl.
      intros [= ->]. by vm_compute in Ec.
    + rewrite Er in Hl |- *. rewrite length_app in Hl. simpl in Hl.
      apply rewrites_param; [done..|]. apply IH. lia.
  - destruct rest; [|done]. simpl. rewrite <- push_latin1_colon.
    apply rewrites_copy; [done|]. rewrite quote_step_colon. apply IH. simpl. lia.
Qed.

Lemma rewrite_placeholders_spec sql driver :
  exists ts,
    source ts = str_bytes sql /\ lexed (false, false) ts /\
    rewrite_placeholders sql driver = (bytes_str (render driver 0 ts), names ts).
Proof.
  unfold rewrite_placeholders.
  destruct (rewrite_go_spec (length (str_bytes sql)) driver (str_bytes sql) false false [] [])
    as (ts & Hs & Hx & E); [done|].
  exists ts. rewrite E. done.
Qed.

(** C6.  The rewriter cuts every statement into tokens whose sources
    concatenate to it: a parameter is exactly a colon outside quotes with the
    whole identifier after it, a double colon outside quotes is a cast, and
    everything else, all quoted text included, is copied.  The output is the
    tokens printed with the driver's placeholders, numbered from 1 in order
    of occurrence, and the parameter order is the names in that order. *)
Theorem rewrite_placeholders_tokens sql driver :
  exists ts,
    source ts = str_bytes sql /\ lexed (false, false) ts /\
    rewrite_placeholders sql driver = (bytes_str (render driver 0 ts), names ts).
Proof. apply rewrite_placeholders_spec. Qed.

Definition is_ascii (b : byte) : bool := byte_Z b <? 128.

Lemma push_latin1_length b : (length (push_latin1 b) = if is_ascii b then 1 else 2)%nat.
Proof. unfold push_latin1, is_ascii. by case_match. Qed.

(** Without parameters the output is the source with every byte pushed as a
    character. *)
Lemma render_no_names driver n ts :
  names ts = [] -> render driver n ts = flat_map push_latin1 (source ts).
Proof.
  revert n. induction ts as [|t ts IH]; intros n Hn; [done|].
  destruct t; simpl in *; try done; rewrite IH by done; unfold source; simpl; done.
Qed.

Lemma flat_map_latin1_id bs :
  flat_map push_latin1 bs = bs <-> Forall (fun b => is_ascii b = true) bs.
Proof.
  split.
  - intros E.
    assert (forall l, (length l <= length (flat_map push_latin1 l))%nat /\
              (length (flat_map push_latin1 l) = length l -> Forall (fun b => is_ascii b = true) l)) as H.
    { induction l as [|b l [IH1 IH2]]; [by split|]. simpl. rewrite length_app, push_latin1_length.
      destruct (is_ascii b) eqn:Eb; simpl; split; try lia.
      intros Hl. constructor; [done|]. apply IH2. lia. }
    apply (proj2 (H bs)). by rewrite E.
  - induction 1 as [|b bs Hb _ IH]; [done|]. simpl. rewrite IH.
    unfold push_latin1, is_ascii in *. by rewrite Hb.
Qed.

(** A statement without placeholders outside quotes comes back unchanged
    exactly when it is pure ASCII: the rewriter pushes each byte of a
    multi-byte character as a character of its own, so any other text is
    sent to the database garbled. *)
Theorem rewrite_identity_iff_ascii sql driver :
  snd (rewrite_placeholders sql driver) = [] ->
  (fst (rewrite_placeholders sql driver) = sql <->
   Forall (fun b => is_ascii b = true) (str_bytes sql)).
Proof.
  destruct (rewrite_placeholders_spec sql driver) as (ts & Hs & _ & E).
  rewrite E. simpl. intros Hn. rewrite render_no_names, Hs by done.
  rewrite <- flat_map_latin1_id. split.
  - intros H. rewrite <- (str_bytes_str (flat_map _ _)). by rewrite H.
  - intros ->. apply bytes_str_bytes.
Qed.

Lemma rewrite_identity_iff_ascii_witness :
  fst (rewrite_placeholders "SELECT 'a:b'::text" Postgres) = "SELECT 'a:b'::text"%string /\
  fst (rewrite_placeholders "SELECT 'é'" Postgres) <> "SELECT 'é'"%string.
Proof.
  split.
  - apply (rewrite_identity_iff_ascii "SELECT 'a:b'::text" Postgres); [by vm_compute|].
    repeat (constructor; [by vm_compute|]). constructor.
  - intros E. apply (rewrite_identity_iff_ascii "SELECT 'é'" Postgres) in E; [|by vm_compute].
    assert (is_ascii Byte.xc3 = true) as H.
    { eapply (proj1 (Forall_forall _ _) E). vm_compute. repeat (left + right). }
    by vm_compute in H.
Defined.

Example rewrite_examples :
  rewrite_placeholders "SELECT * FROM t WHERE a = :a AND b = ':x' AND c = :c::int" Postgres
  = ("SELECT * FROM t WHERE a = $1 AND b = ':x' AND c = $2::int", ["a"; "c"])%string /\
  rewrite_placeholders "UPDATE t SET a = :a WHERE id = :id" Mysql
  = ("UPDATE t SET a = ? WHERE id = ?", ["a"; "id"])%string /\
  call_statement "orders.settle" 2 Postgres = "CALL orders.settle($1, $2)"%string.
Proof. by vm_compute. Qed.

(** * Parameter collection *)

Lemma collect_params_spec obj order :
  match collect_params obj order with
  | Ok ps => Forall2 (fun name p => bp_name p = name /\ obj_get name obj = Some (bp_value p)) order ps
  | Err e =>
      exists pre name post,
        order = pre ++ name :: post /\ Forall (fun n => is_Some (obj_get n obj)) pre /\
        obj_get name obj = None /\
        e = InvalidSpec ("missing required parameter '" +:+ name +:+ "'")
  end.
Proof.
  induction order as [|n order IH]; simpl; [constructor|].
  destruct (obj_get n obj) as [v|] eqn:E.
  - destruct (collect_params obj order) as [ps|e]; simpl.
    + by constructor.
    + destruct IH as (pre & name & post & -> & Hp & Hn & ->).
      exists (n :: pre), name, post. split_and!; [done| |done..]. by constructor.
  - exists [], n, order. done.
Qed.

(** Collecting parameters from an argument object either binds every
    name of the statement, in the statement's order, to the caller's value
    for it, or fails with the first name that is missing; a null argument is
    accepted exactly when no parameter is declared, and any other value is
    refused. *)
Theorem collect_bound_params_correct args order :
  match args with
  | VObject obj =>
      match collect_bound_params args order with
      | Ok ps => Forall2 (fun name p => bp_name p = name /\ obj_get name obj = Some (bp_value p)) order ps
      | Err e =>
          exists pre name post,
            order = pre ++ name :: post /\ Forall (fun n => is_Some (obj_get n obj)) pre /\
            obj_get name obj = None /\
            e = InvalidSpec ("missing required parameter '" +:+ name +:+ "'")
      end
  | VNull => (exists ps, collect_bound_params args order = Ok ps) <-> order = []
  | _ => exists m, collect_bound_params args order = Err (InvalidSpec m)
  end.
Proof.
  destruct args; simpl; eauto; [|apply collect_params_spec].
  destruct order; split; eauto; [intros [ps E]; discriminate|discriminate].
Qed.
