(* ===== verification/F64.v ===== *)
(** [f64] as IEEE binary64 over the Standard Library's [spec_float]:
    arithmetic, comparison and [str::parse::<f64>]. *)

From Stdlib Require Import ZArith Lia Bool Ascii String SpecFloat.
From stdpp Require Import base list strings.
From S2P Require Import Prelude RustStd.

Abbreviation f64 := spec_float.

Definition prec : Z := 53.
Definition emax : Z := 1024.

Definition f64_mul : f64 -> f64 -> f64 := SFmul prec emax.
Definition f64_add : f64 -> f64 -> f64 := SFadd prec emax.
Definition f64_ltb : f64 -> f64 -> bool := SFltb.
Definition f64_leb : f64 -> f64 -> bool := SFleb.
Definition f64_eqb : f64 -> f64 -> bool := SFeqb.

(** [n as f64] for an integer: round to nearest, ties to even. *)
Definition f64_of_Z (n : Z) : f64 := binary_normalize prec emax n 0 false.

Definition f64_is_finite (f : f64) : bool :=
  match f with
  | S754_zero _ | S754_finite _ _ _ => true
  | _ => false
  end.

Definition f64_div : f64 -> f64 -> f64 := SFdiv prec emax.

(** [f64::round]: to the nearest integer, ties away from zero. *)
Definition f64_round (f : f64) : f64 :=
  match f with
  | S754_finite s m e =>
      if 0 <=? e then f
      else
        let d := 2 ^ (- e) in
        let q := Zpos m / d in
        let n := if d <=? 2 * (Zpos m mod d) then q + 1 else q in
        binary_normalize prec emax (if s then - n else n) 0 s
  | _ => f
  end.

(** [f64::min]: a NaN loses against a number. *)
Definition f64_min (a b : f64) : f64 :=
  match a, b with
  | S754_nan, _ => b
  | _, S754_nan => a
  | _, _ => if f64_ltb b a then b else a
  end.

(** [f as u64]: towards zero, saturating, NaN to zero. *)
Definition f64_to_u64 (f : f64) : Z :=
  match f with
  | S754_finite false m e =>
      Z.min (2 ^ 64 - 1) (if 0 <=? e then Zpos m * 2 ^ e else Zpos m / 2 ^ (- e))
  | S754_infinity false => 2 ^ 64 - 1
  | _ => 0
  end.

(** [Duration::as_secs_f64] of a duration in nanoseconds. *)
Definition as_secs_f64 (nanos : Z) : f64 :=
  f64_add (f64_of_Z (nanos / 1000000000)) (f64_div (f64_of_Z (nanos mod 1000000000)) (f64_of_Z 1000000000)).

Lemma f64_to_u64_range f : 0 <= f64_to_u64 f < 2 ^ 64.
Proof.
  destruct f as [s|[]| |[] m e]; cbn [f64_to_u64]; try lia. destruct (0 <=? e) eqn:E.
  - pose proof (Z.pow_nonneg 2 e). nia.
  - pose proof (Z.div_pos (Zpos m) (2 ^ (- e))). pose proof (Z.pow_pos_nonneg 2 (- e)). lia.
Qed.

Example rounding_examples :
  f64_to_u64 (f64_round (S754_finite false 5 (-1))) = 3 /\
  f64_to_u64 (f64_round (S754_finite false 9 (-2))) = 2 /\
  f64_round (S754_finite true 1 (-2)) = S754_zero true /\
  f64_to_u64 (f64_of_Z (2 ^ 64)) = 2 ^ 64 - 1 /\ f64_to_u64 (S754_finite true 5 (-1)) = 0 /\
  as_secs_f64 1500000000 = S754_finite false 6755399441055744 (-52).
Proof. by vm_compute. Qed.

(** The binary64 nearest to [m * 10 ^ e]. *)
Definition f64_of_decimal (sign : bool) (m e : Z) : f64 :=
  match m with
  | Zpos p =>
      if 0 <=? e then
        match m * 10 ^ e with
        | Zpos q => binary_round prec emax sign q 0
        | _ => S754_zero sign
        end
      else
        match 10 ^ (- e) with
        | Zpos q =>
            let '(mz, ez, lz) := SFdiv_core_binary prec emax m 0 (Zpos q) 0 in
            binary_round_aux prec emax sign mz ez lz
        | _ => S754_zero sign
        end
  | _ => S754_zero sign
  end.

(** The digits at the start of [s]: their value appended to [acc], how many
    there are, and the rest. *)
Fixpoint span_digits (acc : Z) (n : nat) (s : string) : Z * nat * string :=
  match s with
  | String c s' =>
      match char_digit 10 c with
      | Some d => span_digits (acc * 10 + d) (S n) s'
      | None => (acc, n, s)
      end
  | EmptyString => (acc, n, s)
  end.

Definition is_e (c : ascii) : bool := Ascii.eqb c "e" || Ascii.eqb c "E".

(** The optional exponent, which must end the text. *)
Definition parse_exponent (s : string) : option Z :=
  match s with
  | EmptyString => Some 0
  | String c s' =>
      if is_e c then
        let '(neg, s'') := match s' with
                           | String "-" t => (true, t)
                           | String "+" t => (false, t)
                           | _ => (false, s')
                           end in
        let '(e, n, rest) := span_digits 0 0 s'' in
        if (negb (Nat.eqb n 0)) && str_is_empty rest then Some (if neg : bool then - e else e)
        else None
      else None
  end.

Definition to_lower (c : ascii) : ascii :=
  if is_ascii_upper c then ascii_of_N (Z.to_N (char_Z c + 32)) else c.

Fixpoint str_lower (s : string) : string :=
  match s with
  | EmptyString => EmptyString
  | String c s' => String (to_lower c) (str_lower s')
  end.

(** A decimal number without its sign. *)
Definition parse_decimal (sign : bool) (s : string) : option f64 :=
  let '(ip, n1, r1) := span_digits 0 0 s in
  let '(m, n, k, r2) :=
    match r1 with
    | String "." r => let '(m, n2, r2) := span_digits ip 0 r in (m, (n1 + n2)%nat, n2, r2)
    | _ => (ip, n1, 0%nat, r1)
    end in
  if Nat.eqb n 0 then None
  else match parse_exponent r2 with
       | Some e => Some (f64_of_decimal sign m (e - Z.of_nat k))
       | None => None
       end.

(** [str::parse::<f64>]. *)
Definition parse_f64 (s : string) : option f64 :=
  let '(sign, body) := match s with
                       | String "-" t => (true, t)
                       | String "+" t => (false, t)
                       | _ => (false, s)
                       end in
  let low := str_lower body in
  if String.eqb low "inf" || String.eqb low "infinity" then Some (S754_infinity sign)
  else if String.eqb low "nan" then Some S754_nan
  else parse_decimal sign body.

(** 0.1 and 2^-1074 are read as the binary64 they denote; too large a number
    is infinite. *)
Example parse_f64_examples :
  parse_f64 "1.5" = Some (S754_finite false 6755399441055744 (-52)) /\
  parse_f64 "0.1" = Some (S754_finite false 7205759403792794 (-56)) /\
  parse_f64 "-4.9e-324" = Some (S754_finite true 1 (-1074)) /\
  parse_f64 "1e309" = Some (S754_infinity false) /\
  parse_f64 "1e" = None /\ parse_f64 "." = None /\ parse_f64 "5." = parse_f64 "5".
Proof. by vm_compute. Qed.
