(* ===== verification/PgOutput.v ===== *)
(** The pgoutput decoder of [src/src/pgoutput.rs].

    [Reader] is the cursor over one message; [decode] reads one message.  The
    wire format of the PostgreSQL manual is [encode] of a [wire] message,
    which also has the fields the decoder skips; [message_of] forgets them.
    [serde_json::from_str] and the host's timestamp formatter are parameters. *)

From Stdlib Require Import ZArith Lia Bool Ascii String.
From Stdlib Require Strings.Byte.
From stdpp Require Import base list strings.
From S2P Require Import Prelude RustStd Json F64.

Module PgOutput.

Record Column : Type := mkColumn { col_name : string; type_oid : Z; key : bool }.

Record Relation : Type := mkRelation {
  schema : string;
  rel_name : string;
  columns : list Column;
}.

Inductive Datum : Type :=
| DNull
| DUnchanged
| DText (s : string).

Inductive Message : Type :=
| Begin (final_lsn commit_time_micros xid : Z)
| Commit (end_lsn : Z)
| RelationMsg (oid : Z) (relation : Relation)
| Insert (oid : Z) (new : list Datum)
| Update (oid : Z) (old : option (list Datum * bool)) (new : list Datum)
| Delete (oid : Z) (old : list Datum) (full : bool)
| Truncate (oids : list Z) (cascade restart_identity : bool)
| Other.

(** * The reader *)

Record Reader : Type := mkReader { bytes : list byte; at_ : nat }.

Definition read (A : Type) : Type := Reader -> result string (A * Reader).

Definition ret {A} (a : A) : read A := fun r => Ok (a, r).
Definition fail {A} (e : string) : read A := fun _ => Err e.
Definition bind {A B} (c : read A) (k : A -> read B) : read B :=
  fun r => match c r with
           | Ok (a, r') => k a r'
           | Err e => Err e
           end.

Notation "x <- c ;; k" := (bind c (fun x => k))
  (at level 100, c at next level, right associativity) : rust_scope.

Definition take (n : nat) : read (list byte) := fun r =>
  let end_ := (at_ r + n)%nat in
  if (end_ <=? length (bytes r))%nat then
    Ok (firstn n (skipn (at_ r) (bytes r)), mkReader (bytes r) end_)
  else Err "pgoutput message ends early".

Definition u8 : read byte :=
  b <- take 1 ;; match b with c :: _ => ret c | [] => fail "unreachable" end.
Definition u16 : read Z := b <- take 2 ;; ret (from_be_bytes b).
Definition u32 : read Z := b <- take 4 ;; ret (from_be_bytes b).
Definition i32 : read Z := b <- take 4 ;; ret (wraps 32 (from_be_bytes b)).
Definition u64 : read Z := b <- take 8 ;; ret (from_be_bytes b).
Definition i64 : read Z := b <- take 8 ;; ret (wraps 64 (from_be_bytes b)).

(** Position of the first zero byte. *)
Fixpoint position0 (bs : list byte) : option nat :=
  match bs with
  | [] => None
  | b :: bs' => if byte_eqb b Byte.x00 then Some 0%nat else S <$> position0 bs'
  end.

Definition string_ : read string := fun r =>
  let rest := skipn (at_ r) (bytes r) in
  match position0 rest with
  | None => Err "pgoutput string is not terminated"
  | Some e => Ok (from_utf8_lossy (firstn e rest), mkReader (bytes r) (at_ r + (e + 1)))
  end.

(** [for _ in 0..n]. *)
Fixpoint times {A} (n : nat) (c : read A) : read (list A) :=
  match n with
  | O => ret []
  | S n' => a <- c ;; l <- times n' c ;; ret (a :: l)
  end.

(** A byte as a character in an error message. *)
Definition byte_char (b : byte) : string := bytes_str (push_latin1 b).

Definition datum : read Datum :=
  k <- u8 ;;
  if byte_eqb k (ch "n") then ret DNull
  else if byte_eqb k (ch "u") then ret DUnchanged
  else if byte_eqb k (ch "t") then
    len <- i32 ;;
    if len <? 0 then fail "pgoutput value has a negative length"
    else b <- take (Z.to_nat len) ;; ret (DText (from_utf8_lossy b))
  else fail ("pgoutput value kind '" +:+ byte_char k +:+ "' is not text").

Definition tuple : read (list Datum) :=
  n <- u16 ;; times (Z.to_nat n) datum.

Definition column : read Column :=
  flags <- u8 ;; name <- string_ ;; oid <- u32 ;; _modifier <- i32 ;;
  ret (mkColumn name oid (Z.land (byte_Z flags) 1 =? 1)).

(** * [decode] *)

Definition decode_begin : read Message :=
  l <- u64 ;; t <- i64 ;; x <- u32 ;; ret (Begin l t x).

Definition decode_commit : read Message :=
  _flags <- u8 ;; _commit_lsn <- u64 ;; l <- u64 ;; ret (Commit l).

Definition decode_relation : read Message :=
  oid <- u32 ;; sch <- string_ ;; name <- string_ ;; _replica_identity <- u8 ;;
  count <- u16 ;; cols <- times (Z.to_nat count) column ;;
  ret (RelationMsg oid
         (mkRelation (if str_is_empty sch then "pg_catalog"%string else sch) name cols)).

Definition decode_insert : read Message :=
  oid <- u32 ;; k <- u8 ;;
  if byte_eqb k (ch "N") then t <- tuple ;; ret (Insert oid t)
  else fail ("pgoutput insert has tuple '" +:+ byte_char k +:+ "'").

Definition decode_update : read Message :=
  oid <- u32 ;; k <- u8 ;;
  p <- (if byte_eqb k (ch "K") || byte_eqb k (ch "O") then
          t <- tuple ;; k' <- u8 ;; ret (Some (t, byte_eqb k (ch "O")), k')
        else ret (None, k)) ;;
  if negb (byte_eqb (snd p) (ch "N")) then
    fail ("pgoutput update has tuple '" +:+ byte_char (snd p) +:+ "'")
  else t <- tuple ;; ret (Update oid (fst p) t).

Definition decode_delete : read Message :=
  oid <- u32 ;; k <- u8 ;;
  if byte_eqb k (ch "K") || byte_eqb k (ch "O") then
    t <- tuple ;; ret (Delete oid t (byte_eqb k (ch "O")))
  else fail ("pgoutput delete has tuple '" +:+ byte_char k +:+ "'").

Definition decode_truncate : read Message :=
  count <- u32 ;; options <- u8 ;; oids <- times (Z.to_nat count) u32 ;;
  ret (Truncate oids (Z.land (byte_Z options) 1 =? 1) (Z.land (byte_Z options) 2 =? 2)).

Definition decode_tagged (tag : byte) : read Message :=
  if byte_eqb tag (ch "B") then decode_begin
  else if byte_eqb tag (ch "C") then decode_commit
  else if byte_eqb tag (ch "R") then decode_relation
  else if byte_eqb tag (ch "I") then decode_insert
  else if byte_eqb tag (ch "U") then decode_update
  else if byte_eqb tag (ch "D") then decode_delete
  else if byte_eqb tag (ch "T") then decode_truncate
  else ret Other.

Definition decode_message : read Message := tag <- u8 ;; decode_tagged tag.

Definition decode (bs : list byte) : result string Message :=
  match decode_message (mkReader bs 0) with
  | Ok (m, _) => Ok m
  | Err e => Err e
  end.

(** * Values and rows *)

Section Rows.
Context (json_from_str : string -> option value).

Definition value_of (oid : Z) (text : string) : value :=
  if oid =? 16 then VBool (String.eqb text "t")
  else if (oid =? 20) || (oid =? 21) || (oid =? 23) || (oid =? 26) then
    match parse_i64 text with
    | Some n => json_i64 n
    | None => VString text
    end
  else if (oid =? 700) || (oid =? 701) then
    match parse_f64 text with
    | Some f => if f64_is_finite f then VNumber (Float f) else VString text
    | None => VString text
    end
  else if (oid =? 114) || (oid =? 3802) then
    match json_from_str text with
    | Some v => v
    | None => VString text
    end
  else VString text.

Definition row_step (keys_only : bool) (acc : json_map * list string) (cd : Column * Datum)
  : json_map * list string :=
  let (row, unchanged) := acc in
  let (c, d) := cd in
  if keys_only && negb (key c) then (row, unchanged)
  else match d with
       | DNull => (obj_insert (col_name c) VNull row, unchanged)
       | DUnchanged => (row, unchanged ++ [col_name c])
       | DText text => (obj_insert (col_name c) (value_of (type_oid c) text) row, unchanged)
       end.

Definition row_of (relation : Relation) (datums : list Datum) (keys_only : bool)
  : json_map * list string :=
  fold_left (row_step keys_only) (combine (columns relation) datums) ([], []).
End Rows.

(** * LSNs and times *)

Definition lsn_text (lsn : Z) : string :=
  (show_radix 16 (Z.shiftr lsn 32) +:+ "/" +:+ show_radix 16 (Z.land lsn (2 ^ 32 - 1)))%string.

Definition parse_lsn (text : string) : option Z :=
  match split_once "/" text with
  | None => None
  | Some (high, low) =>
      match parse_u 16 u64_max high, parse_u 16 u64_max low with
      | Some h, Some l => Some (Z.lor (wrapu 64 (Z.shiftl h 32)) l)
      | _, _ => None
      end
  end.

Definition PG_EPOCH_MICROS : Z := 946684800000000.

Definition commit_time (occurred_at_from_millis : Z -> option string) (micros : Z)
  : option string :=
  occurred_at_from_millis (Z.quot (wraps 64 (micros + PG_EPOCH_MICROS)) 1000).

(** * The wire format *)

Inductive wire : Type :=
| WBegin (final_lsn commit_time xid : Z)
| WCommit (flags : byte) (commit_lsn end_lsn commit_time : Z)
| WRelation (oid : Z) (namespace name : string) (identity : byte)
    (cols : list (byte * string * Z * Z))     (* flags, name, type, modifier *)
| WInsert (oid : Z) (new : list Datum)
| WUpdate (oid : Z) (old : option (list Datum * bool)) (new : list Datum)
| WDelete (oid : Z) (old : list Datum) (full : bool)
| WTruncate (options : byte) (oids : list Z)
| WOther (tag : byte) (payload : list byte).

Definition enc_string (s : string) : list byte := str_bytes s ++ [Byte.x00].

Definition enc_datum (d : Datum) : list byte :=
  match d with
  | DNull => [ch "n"]
  | DUnchanged => [ch "u"]
  | DText s => [ch "t"] ++ to_be_bytes 4 (Z.of_nat (length (str_bytes s))) ++ str_bytes s
  end.

Definition enc_tuple (ds : list Datum) : list byte :=
  to_be_bytes 2 (Z.of_nat (length ds)) ++ concat (map enc_datum ds).

Definition enc_column (c : byte * string * Z * Z) : list byte :=
  let '(flags, name, oid, modifier) := c in
  [flags] ++ enc_string name ++ to_be_bytes 4 oid ++ to_be_bytes 4 modifier.

Definition enc_old (old : option (list Datum * bool)) : list byte :=
  match old with
  | None => []
  | Some (t, full) => [if full : bool then ch "O" else ch "K"] ++ enc_tuple t
  end.

(** What the decoder reads of a message, and what follows it. *)
Definition core (w : wire) : list byte :=
  match w with
  | WBegin l t x => [ch "B"] ++ to_be_bytes 8 l ++ to_be_bytes 8 t ++ to_be_bytes 4 x
  | WCommit f c e _ => [ch "C"] ++ [f] ++ to_be_bytes 8 c ++ to_be_bytes 8 e
  | WRelation oid ns name ident cols =>
      [ch "R"] ++ to_be_bytes 4 oid ++ enc_string ns ++ enc_string name ++ [ident] ++
      to_be_bytes 2 (Z.of_nat (length cols)) ++ concat (map enc_column cols)
  | WInsert oid t => [ch "I"] ++ to_be_bytes 4 oid ++ [ch "N"] ++ enc_tuple t
  | WUpdate oid old t =>
      [ch "U"] ++ to_be_bytes 4 oid ++ enc_old old ++ [ch "N"] ++ enc_tuple t
  | WDelete oid t full =>
      [ch "D"] ++ to_be_bytes 4 oid ++ [if full : bool then ch "O" else ch "K"] ++ enc_tuple t
  | WTruncate o oids =>
      [ch "T"] ++ to_be_bytes 4 (Z.of_nat (length oids)) ++ [o] ++ concat (map (to_be_bytes 4) oids)
  | WOther tag _ => [tag]
  end.

Definition trailer (w : wire) : list byte :=
  match w with
  | WCommit _ _ _ t => to_be_bytes 8 t
  | WOther _ payload => payload
  | _ => []
  end.

Definition encode (w : wire) : list byte := core w ++ trailer w.

Definition column_of (c : byte * string * Z * Z) : Column :=
  let '(flags, name, oid, _) := c in mkColumn name oid (Z.testbit (byte_Z flags) 0).

Definition message_of (w : wire) : Message :=
  match w with
  | WBegin l t x => Begin l t x
  | WCommit _ _ e _ => Commit e
  | WRelation oid ns name _ cols =>
      RelationMsg oid (mkRelation (if str_is_empty ns then "pg_catalog"%string else ns) name
                         (map column_of cols))
  | WInsert oid t => Insert oid t
  | WUpdate oid old t => Update oid old t
  | WDelete oid t full => Delete oid t full
  | WTruncate o oids => Truncate oids (Z.testbit (byte_Z o) 0) (Z.testbit (byte_Z o) 1)
  | WOther _ _ => Other
  end.

(** Fields in their wire ranges; strings are UTF-8, names without a NUL. *)
Definition fits (bits v : Z) : Prop := 0 <= v < 2 ^ bits.
Definition wf_name (s : string) : Prop :=
  valid_str s = true /\ Forall (fun b => b <> Byte.x00) (str_bytes s).
Definition wf_datum (d : Datum) : Prop :=
  match d with
  | DText s => valid_str s = true /\ Z.of_nat (length (str_bytes s)) <= i32_max
  | _ => True
  end.
Definition wf_tuple (ds : list Datum) : Prop :=
  Forall wf_datum ds /\ fits 16 (Z.of_nat (length ds)).
Definition wf_column (c : byte * string * Z * Z) : Prop :=
  let '(_, name, oid, modifier) := c in
  wf_name name /\ fits 32 oid /\ i32_min <= modifier <= i32_max.

Definition wf_wire (w : wire) : Prop :=
  match w with
  | WBegin l t x => fits 64 l /\ i64_min <= t <= i64_max /\ fits 32 x
  | WCommit _ c e _ => fits 64 c /\ fits 64 e
  | WRelation oid ns name _ cols =>
      fits 32 oid /\ wf_name ns /\ wf_name name /\ Forall wf_column cols /\
      fits 16 (Z.of_nat (length cols))
  | WInsert oid t => fits 32 oid /\ wf_tuple t
  | WUpdate oid old t =>
      fits 32 oid /\ wf_tuple t /\ match old with Some (o, _) => wf_tuple o | None => True end
  | WDelete oid t _ => fits 32 oid /\ wf_tuple t
  | WTruncate _ oids => Forall (fits 32) oids /\ fits 32 (Z.of_nat (length oids))
  | WOther tag _ => tag ∉ map ch ["B"; "C"; "R"; "I"; "U"; "D"; "T"]%char
  end.

(** * Reading an encoding *)

(** [c] reads exactly [enc] as [v], and fails on every strict prefix of it. *)
Definition accepts {A} (c : read A) (enc : list byte) (v : A) : Prop :=
  forall r, (at_ r <= length (bytes r))%nat ->
    (forall tl, skipn (at_ r) (bytes r) = enc ++ tl ->
       c r = Ok (v, mkReader (bytes r) (at_ r + length enc))) /\
    (forall k, (k < length enc)%nat -> skipn (at_ r) (bytes r) = firstn k enc ->
       exists e, c r = Err e).

Lemma accepts_ret {A} (a : A) : accepts (ret a) [] a.
Proof.
  intros r Hr. split; [|simpl; lia]. intros tl _. unfold ret. simpl. rewrite Nat.add_0_r.
  by destruct r.
Qed.

Lemma accepts_bind {A B} (c : read A) (k : A -> read B) e1 e2 v w :
  accepts c e1 v -> accepts (k v) e2 w -> accepts (bind c k) (e1 ++ e2) w.
Proof.
  intros Hc Hk r Hr. destruct (Hc r Hr) as [Hok Herr].
  assert (forall tl, skipn (at_ r) (bytes r) = e1 ++ tl ->
    (at_ r + length e1 <= length (bytes r))%nat /\
    skipn (at_ r + length e1) (bytes r) = tl) as Hnext.
  { intros tl E. split.
    - apply (f_equal length) in E. rewrite length_drop, length_app in E. lia.
    - rewrite <- drop_drop, E. by apply drop_app_length. }
  split.
  - intros tl E. rewrite <- app_assoc in E. unfold bind. rewrite (Hok _ E).
    destruct (Hnext _ E) as [Hle Hsk].
    destruct (Hk (mkReader (bytes r) (at_ r + length e1)) Hle) as [Hk' _]. cbn [bytes at_] in Hk'.
    rewrite (Hk' _ Hsk), length_app. do 3 f_equal. lia.
  - intros n Hn E. rewrite length_app in Hn. unfold bind.
    destruct (decide (n < length e1)%nat) as [Hlt|Hge].
    + rewrite firstn_app in E. replace (n - length e1)%nat with 0%nat in E by lia.
      rewrite firstn_O, app_nil_r in E. destruct (Herr n Hlt E) as [e ->]. by eexists.
    + rewrite firstn_app, (firstn_all2 e1) in E by lia. rewrite (Hok _ E).
      destruct (Hnext _ E) as [Hle Hsk].
      destruct (Hk (mkReader (bytes r) (at_ r + length e1)) Hle) as [_ Hk'].
      apply (Hk' (n - length e1)%nat); [lia|done].
Qed.

Lemma accepts_last {A B} (c : read A) (k : A -> read B) e v w :
  accepts c e v -> k v = ret w -> accepts (bind c k) e w.
Proof.
  intros Hc Hk. rewrite <- (app_nil_r e). eapply accepts_bind; [done|]. rewrite Hk.
  apply accepts_ret.
Qed.

Lemma accepts_take n enc : length enc = n -> accepts (take n) enc enc.
Proof.
  intros Hn r Hr. unfold take. split.
  - intros tl E. pose proof (f_equal length E) as El. rewrite length_drop, length_app in El.
    rewrite E, Hn. destruct (Nat.leb_spec (at_ r + n) (length (bytes r))); [|lia].
    do 3 f_equal. rewrite <- Hn, firstn_app, firstn_all, Nat.sub_diag. simpl. apply app_nil_r.
  - intros k Hk E. pose proof (f_equal length E) as El. rewrite length_drop, length_firstn in El.
    destruct (Nat.leb_spec (at_ r + n) (length (bytes r))); [lia|]. by eexists.
Qed.

Lemma accepts_u8 b : accepts u8 [b] b.
Proof. unfold u8. eapply accepts_last; [by apply accepts_take|done]. Qed.

Lemma accepts_be {n} (f : Z -> Z) v :
  f (v mod 256 ^ Z.of_nat n) = v ->
  accepts (b <- take n ;; ret (f (from_be_bytes b))) (to_be_bytes n v) v.
Proof.
  intros Hf. eapply accepts_last; [apply accepts_take, length_to_be_bytes|].
  by rewrite from_to_be_bytes_mod, Hf.
Qed.

Lemma accepts_u16 v : fits 16 v -> accepts u16 (to_be_bytes 2 v) v.
Proof. intros H. apply (accepts_be (fun z => z)). by apply Z.mod_small. Qed.
Lemma accepts_u32 v : fits 32 v -> accepts u32 (to_be_bytes 4 v) v.
Proof. intros H. apply (accepts_be (fun z => z)). by apply Z.mod_small. Qed.
Lemma accepts_u64 v : fits 64 v -> accepts u64 (to_be_bytes 8 v) v.
Proof. intros H. apply (accepts_be (fun z => z)). by apply Z.mod_small. Qed.
Lemma accepts_i32 v : i32_min <= v <= i32_max -> accepts i32 (to_be_bytes 4 v) v.
Proof.
  intros H. apply (accepts_be (wraps 32)).
  change (256 ^ Z.of_nat 4) with (2 ^ 32). rewrite wraps_mod by done.
  apply wraps_small; [done|]. unfold i32_min, i32_max in H. lia.
Qed.
Lemma accepts_i64 v : i64_min <= v <= i64_max -> accepts i64 (to_be_bytes 8 v) v.
Proof.
  intros H. apply (accepts_be (wraps 64)).
  change (256 ^ Z.of_nat 8) with (2 ^ 64). rewrite wraps_mod by done.
  apply wraps_small; [done|]. unfold i64_min, i64_max in H. lia.
Qed.

Lemma position0_app bs tl :
  Forall (fun b => b <> Byte.x00) bs -> position0 (bs ++ Byte.x00 :: tl) = Some (length bs).
Proof.
  induction 1 as [|b bs Hb _ IH]; [done|]. cbn [app position0].
  destruct (byte_eqb b Byte.x00) eqn:E; [by apply byte_eqb_eq in E|]. by rewrite IH.
Qed.

Lemma position0_None bs : Forall (fun b => b <> Byte.x00) bs -> position0 bs = None.
Proof.
  induction 1 as [|b bs Hb _ IH]; [done|]. cbn [position0].
  destruct (byte_eqb b Byte.x00) eqn:E; [by apply byte_eqb_eq in E|]. by rewrite IH.
Qed.

Lemma accepts_string s : wf_name s -> accepts string_ (enc_string s) s.
Proof.
  intros [Hv Hn] r Hr. unfold string_, enc_string. split.
  - intros tl E. rewrite <- app_assoc in E. rewrite E. cbn [app].
    rewrite position0_app by done. rewrite take_app_length, from_utf8_lossy_str by done.
    do 2 f_equal. rewrite length_app. done.
  - intros k Hk E. rewrite length_app in Hk. simpl in Hk.
    rewrite take_app_le in E by lia. rewrite E, position0_None; [by eexists|].
    by apply Forall_take.
Qed.

Lemma accepts_times {A B} (c : read A) (enc : B -> list byte) (f : B -> A) (l : list B) :
  Forall (fun b => accepts c (enc b) (f b)) l ->
  accepts (times (length l) c) (concat (map enc l)) (map f l).
Proof.
  induction 1 as [|b l Hb _ IH]; [apply accepts_ret|]. cbn [length times map concat].
  eapply accepts_bind; [done|]. by eapply accepts_last.
Qed.

#[local] Hint Resolve accepts_ret accepts_u8 accepts_u16 accepts_u32 accepts_u64 accepts_i32
  accepts_i64 accepts_string : rust.

(** Read the next field with its lemma. *)
Ltac next_field := eapply accepts_bind; [solve [eauto with rust]|]; cbv beta.

Lemma accepts_datum d : wf_datum d -> accepts datum (enc_datum d) d.
Proof.
  intros Hd. unfold datum. destruct d as [| |s]; cbn [enc_datum].
  - eapply accepts_last; [apply accepts_u8|done].
  - eapply accepts_last; [apply accepts_u8|done].
  - destruct Hd as [Hv Hl]. next_field. simpl (byte_eqb _ _).
    assert (i32_min <= Z.of_nat (length (str_bytes s)) <= i32_max)
      by (unfold i32_min, i32_max in *; lia).
    change (accepts (len <- i32 ;;
              if len <? 0 then fail "pgoutput value has a negative length"
              else b <- take (Z.to_nat len) ;; ret (DText (from_utf8_lossy b)))
            (to_be_bytes 4 (Z.of_nat (length (str_bytes s))) ++ str_bytes s) (DText s)).
    next_field. destruct (Z.ltb_spec (Z.of_nat (length (str_bytes s))) 0); [lia|].
    eapply accepts_last; [apply accepts_take; lia|]. by rewrite from_utf8_lossy_str.
Qed.

Lemma accepts_tuple ds : wf_tuple ds -> accepts tuple (enc_tuple ds) ds.
Proof.
  intros [Hds Hl]. unfold tuple, enc_tuple. next_field. rewrite Nat2Z.id.
  rewrite <- (map_id ds) at 3. apply accepts_times.
  eapply Forall_impl; [exact Hds|]. apply accepts_datum.
Qed.

Lemma land_testbit n i : 0 <= i -> (Z.land n (2 ^ i) =? 2 ^ i) = Z.testbit n i.
Proof.
  intros Hi. apply eq_true_iff_eq. rewrite Z.eqb_eq. split; intros H.
  - apply (f_equal (fun z => Z.testbit z i)) in H.
    rewrite Z.land_spec, Z.pow2_bits_true, andb_true_r in H by done. done.
  - apply Z.bits_inj'. intros j Hj. rewrite Z.land_spec, Z.pow2_bits_eqb by done.
    destruct (Z.eqb_spec i j); subst; by rewrite ?H, ?andb_false_r.
Qed.

Lemma accepts_column c : wf_column c -> accepts column (enc_column c) (column_of c).
Proof.
  destruct c as [[[flags name] oid] modifier]. intros (Hn & Ho & Hm).
  unfold column, enc_column, column_of. do 3 next_field.
  eapply accepts_last; [by apply accepts_i32|].
  do 2 f_equal. apply (land_testbit _ 0). done.
Qed.
#[local] Hint Resolve accepts_tuple : rust.

(** Each message body after its tag. *)
Lemma accepts_tagged tag body enc v :
  decode_tagged tag = body -> accepts body enc v ->
  accepts decode_message ([tag] ++ enc) v.
Proof.
  intros Ht Hb. unfold decode_message. eapply accepts_bind; [apply accepts_u8|]. by rewrite Ht.
Qed.

Lemma accepts_relation oid ns name ident cols :
  wf_wire (WRelation oid ns name ident cols) ->
  accepts decode_message (core (WRelation oid ns name ident cols))
    (message_of (WRelation oid ns name ident cols)).
Proof.
  intros (Ho & Hns & Hname & Hcols & Hl). eapply accepts_tagged; [reflexivity|].
  unfold decode_relation. do 5 next_field. rewrite Nat2Z.id.
  eapply accepts_last; [|reflexivity]. apply accepts_times.
  eapply Forall_impl; [exact Hcols|]. apply accepts_column.
Qed.

Lemma accepts_update oid old t :
  wf_wire (WUpdate oid old t) ->
  accepts decode_message (core (WUpdate oid old t)) (message_of (WUpdate oid old t)).
Proof.
  intros (Ho & Ht & Hold). eapply accepts_tagged; [reflexivity|].
  unfold decode_update. next_field. destruct old as [[o full]|]; cbn [enc_old].
  - rewrite <- app_assoc. next_field.
    rewrite app_assoc. apply (accepts_bind _ _ _ _ (Some (o, full), ch "N")).
    + destruct full; cbn [byte_eqb orb]; next_field;
        (eapply accepts_last; [apply accepts_u8|reflexivity]).
    + cbn [fst snd]. eapply accepts_last; [by apply accepts_tuple|]. by destruct full.
  - rewrite app_nil_l. next_field. apply (accepts_bind _ _ [] _ (None, ch "N")); [apply accepts_ret|].
    eapply accepts_last; [by apply accepts_tuple|done].
Qed.

Lemma accepts_message w : wf_wire w -> accepts decode_message (core w) (message_of w).
Proof.
  destruct w as [l t x|f c e t|oid ns name ident cols|oid t|oid old t|oid t full|o oids|tag payload].
  - intros (Hl & Ht & Hx). eapply accepts_tagged; [reflexivity|].
    unfold decode_begin. do 2 next_field. eapply accepts_last; [by apply accepts_u32|done].
  - intros (Hc & He). eapply accepts_tagged; [reflexivity|].
    unfold decode_commit. do 2 next_field. eapply accepts_last; [by apply accepts_u64|done].
  - apply accepts_relation.
  - intros (Ho & Ht). eapply accepts_tagged; [reflexivity|].
    unfold decode_insert. do 2 next_field. eapply accepts_last; [by apply accepts_tuple|done].
  - apply accepts_update.
  - intros (Ho & Ht). eapply accepts_tagged; [reflexivity|].
    unfold decode_delete. do 2 next_field.
    destruct full; (eapply accepts_last; [by apply accepts_tuple|done]).
  - intros (Ho & Hl). eapply accepts_tagged; [reflexivity|].
    unfold decode_truncate. do 2 next_field. rewrite Nat2Z.id.
    rewrite <- (map_id oids) at 3. eapply accepts_last.
    + apply accepts_times. eapply Forall_impl; [exact Ho|]. apply accepts_u32.
    + cbn [message_of]. rewrite map_id. do 2 f_equal; [apply (land_testbit _ 0)|apply (land_testbit _ 1)]; done.
  - intros Htag. apply (accepts_tagged tag (ret Other) []); [|apply accepts_ret].
    unfold decode_tagged.
    repeat (destruct (byte_eqb tag _) eqn:E;
            [apply byte_eqb_eq in E; subst; exfalso; apply Htag; vm_compute; by repeat constructor|clear E]).
    done.
Qed.

(** C10.  The decoder against the protocol's wire format: whatever follows
    them, the bytes of a well-formed message decode to that message (the
    fields the plugin has no use for forgotten), and a message cut anywhere
    before its last needed byte is refused, never decoded to another one. *)
Theorem decode_wire w n :
  wf_wire w ->
  ((length (core w) <= n)%nat -> decode (firstn n (encode w)) = Ok (message_of w)) /\
  ((n < length (core w))%nat -> exists e, decode (firstn n (encode w)) = Err e).
Proof.
  intros Hw. unfold decode, encode.
  destruct (accepts_message w Hw (mkReader (firstn n (core w ++ trailer w)) 0)) as [Hok Herr];
    [simpl; lia|].
  cbn [at_ bytes] in *. rewrite drop_0 in *. split; intros Hn.
  - rewrite firstn_app, firstn_all2 in Hok |- * by done.
    rewrite (Hok (firstn (n - length (core w)) (trailer w)) eq_refl). done.
  - rewrite take_app_le in Herr |- * by lia. destruct (Herr n Hn eq_refl) as [e ->]. by eexists.
Qed.

Lemma decode_wire_witness :
  decode (firstn 30 (encode (WCommit Byte.x00 1 2 3))) = Ok (Commit 2) /\
  exists e, decode (firstn 11 (encode (WInsert 7 [DText "a"%string]))) = Err e.
Proof.
  split.
  - apply (decode_wire (WCommit Byte.x00 1 2 3)); [repeat split; by vm_compute|].
    apply Nat.leb_le. by vm_compute.
  - apply (decode_wire (WInsert 7 [DText "a"%string])); [|apply Nat.ltb_lt; by vm_compute].
    split; [by split; vm_compute|split; [|by split; vm_compute]].
    constructor; [by split; vm_compute|constructor].
Defined.

(** ** LSNs *)

Lemma digit_char_slash d : 0 <= d < 16 -> Ascii.eqb (digit_char d) "/" = false.
Proof.
  intros Hd. apply Ascii.eqb_neq. intros E.
  pose proof (char_digit_char 16 d ltac:(lia) Hd) as H. rewrite E in H. by vm_compute in H.
Qed.

Lemma show_hex_no_slash n :
  str_forall (fun c => negb (Ascii.eqb c "/")) (show_radix 16 n) = true.
Proof.
  unfold show_radix, digits_string.
  induction (to_digits_range 16 ltac:(lia) n) as [|d ds Hd _ IH]; [done|].
  simpl. by rewrite digit_char_slash, IH.
Qed.

(** PostgreSQL's text form of an LSN is printed and read back exactly,
    for every 64-bit LSN. *)
Theorem lsn_roundtrip lsn : 0 <= lsn <= u64_max -> parse_lsn (lsn_text lsn) = Some lsn.
Proof.
  intros Hl. unfold parse_lsn, lsn_text, u64_max in *.
  assert (0 <= Z.shiftr lsn 32 < 2 ^ 32) as Hh.
  { rewrite Z.shiftr_div_pow2 by lia. split; [apply Z.div_pos; lia|].
    apply Z.div_lt_upper_bound; lia. }
  change (2 ^ 32 - 1) with (Z.ones 32). rewrite Z.land_ones by lia.
  pose proof (Z.mod_pos_bound lsn (2 ^ 32) ltac:(lia)) as Hm.
  change ("/" +:+ ?x)%string with (String "/" x).
  rewrite split_once_app by apply show_hex_no_slash.
  rewrite !parse_show_radix by lia. f_equal.
  rewrite wrapu_small, Z.shiftl_mul_pow2 by (rewrite ?Z.shiftl_mul_pow2; lia).
  rewrite <- Z.land_ones, <- Z.shiftl_mul_pow2 by lia.
  apply Z.bits_inj'. intros i Hi. rewrite Z.lor_spec, Z.land_spec, Z.testbit_ones by lia.
  destruct (Z.ltb_spec i 32).
  - rewrite Z.shiftl_spec_low by done. simpl. destruct (Z.leb_spec 0 i); [|lia].
    by rewrite andb_true_r.
  - rewrite Z.shiftl_spec, Z.shiftr_spec by lia. rewrite andb_false_r, andb_false_r, orb_false_r.
    f_equal. lia.
Qed.

Lemma lsn_roundtrip_witness : parse_lsn "16/B374D848" = Some 97500059720.
Proof. apply (lsn_roundtrip 97500059720). by vm_compute. Defined.

(** ** Rows *)

Section RowFacts.
Context (json_from_str : string -> option value) (keys_only : bool).

Definition selected (c : Column) : bool := negb keys_only || key c.

(** What a selected column contributes to the row. *)
Definition cell (c : Column) (d : Datum) : option value :=
  if selected c then
    match d with
    | DNull => Some VNull
    | DUnchanged => None
    | DText t => Some (value_of json_from_str (type_oid c) t)
    end
  else None.

Definition is_unchanged (cd : Column * Datum) : bool :=
  selected (fst cd) && match snd cd with DUnchanged => true | _ => false end.

Definition zip_name (cd : Column * Datum) : string := col_name (fst cd).

Lemma row_step_spec acc c d :
  row_step json_from_str keys_only acc (c, d) =
  (match cell c d with Some v => obj_insert (col_name c) v (fst acc) | None => fst acc end,
   snd acc ++ (if is_unchanged (c, d) then [col_name c] else [])).
Proof.
  destruct acc as [row u]. unfold row_step, cell, is_unchanged, selected. simpl.
  destruct keys_only, (key c), d; simpl; by rewrite ?app_nil_r.
Qed.

Lemma row_fold_spec cds acc :
  NoDup (map zip_name cds) ->
  (forall k, k ∉ map zip_name cds ->
     obj_get k (fst (fold_left (row_step json_from_str keys_only) cds acc)) = obj_get k (fst acc)) /\
  (forall c d, (c, d) ∈ cds -> obj_get (col_name c) (fst acc) = None ->
     obj_get (col_name c) (fst (fold_left (row_step json_from_str keys_only) cds acc)) = cell c d) /\
  snd (fold_left (row_step json_from_str keys_only) cds acc)
  = snd acc ++ map zip_name (List.filter is_unchanged cds).
Proof.
  revert acc. induction cds as [|[c0 d0] cds IH]; intros acc Hnd.
  { simpl. split_and!; [done| |by rewrite app_nil_r]. by intros c d ?%elem_of_nil. }
  cbn [map] in Hnd. apply NoDup_cons in Hnd as [Hni Hnd]. cbn [fold_left]. rewrite row_step_spec.
  destruct (IH (match cell c0 d0 with Some v => obj_insert (col_name c0) v (fst acc) | None => fst acc end,
                snd acc ++ (if is_unchanged (c0, d0) then [col_name c0] else [])) Hnd)
    as (IH1 & IH2 & IH3).
  cbn [fst snd] in IH1, IH2, IH3.
  assert (forall k, k <> col_name c0 ->
    obj_get k (match cell c0 d0 with Some v => obj_insert (col_name c0) v (fst acc) | None => fst acc end)
    = obj_get k (fst acc)) as Hother.
  { intros k Hk. destruct (cell c0 d0); [|done]. rewrite obj_get_insert.
    by rewrite (proj2 (String.eqb_neq _ _) Hk). }
  split_and!.
  - intros k Hk. cbn [map] in Hk. apply not_elem_of_cons in Hk as [Hk Hk'].
    rewrite IH1 by done. by apply Hother.
  - intros c d Hin Hnone. apply elem_of_cons in Hin as [[= -> ->]|Hin].
    + rewrite IH1 by done. destruct (cell c0 d0); [|done]. by rewrite obj_get_insert, String.eqb_refl.
    + apply IH2; [done|]. rewrite Hother; [done|]. intros E. apply Hni.
      change (zip_name (c0, d0)) with (col_name c0). rewrite <- E.
      apply (list_elem_of_fmap_2 zip_name cds (c, d)). done.
  - rewrite IH3. cbn [List.filter]. destruct (is_unchanged (c0, d0)); simpl; by rewrite <- app_assoc.
Qed.
End RowFacts.

(** A tuple as a row, for a table whose columns have distinct names:
    each selected column with a value or a null is in the row with that value
    by its type, a column a change left unchanged is absent from the row and
    listed, in order; with [keys_only] a column outside the key is neither;
    and the row has nothing else. *)
Theorem row_of_cells json_from_str relation datums keys_only :
  NoDup (map col_name (columns relation)) ->
  let '(row, unchanged) := row_of json_from_str relation datums keys_only in
  (forall c d, (c, d) ∈ combine (columns relation) datums ->
     obj_get (col_name c) row = cell json_from_str keys_only c d) /\
  (forall k, k ∉ map col_name (columns relation) -> obj_get k row = None) /\
  unchanged = map zip_name (List.filter (is_unchanged keys_only) (combine (columns relation) datums)).
Proof.
  intros Hnd. unfold row_of.
  assert (forall ds, map zip_name (combine (columns relation) ds) `prefix_of` map col_name (columns relation))
    as Hpre.
  { induction (columns relation) as [|c cs IH]; intros [|d ds]; simpl; try apply prefix_nil.
    apply prefix_cons. inversion Hnd; subst. by apply IH. }
  assert (NoDup (map zip_name (combine (columns relation) datums))) as Hnd'.
  { destruct (Hpre datums) as [l E]. rewrite E in Hnd. by apply NoDup_app in Hnd as [? _]. }
  destruct (row_fold_spec json_from_str keys_only (combine (columns relation) datums) ([], []) Hnd')
    as (H1 & H2 & H3).
  destruct (fold_left _ _ _) as [row u]. cbn [fst snd] in *. split_and!.
  - intros c d Hin. by apply H2.
  - intros k Hk. rewrite H1; [done|]. intros Hin. apply Hk. destruct (Hpre datums) as [l ->].
    apply elem_of_app. by left.
  - done.
Qed.

Definition demo_relation : Relation :=
  mkRelation "public" "t"
    [mkColumn "id" 23 true; mkColumn "body" 25 false; mkColumn "ok" 16 false].

Lemma row_of_cells_witness :
  row_of (fun _ => None) demo_relation [DText "7"; DUnchanged; DText "t"] false
  = ([("id", VNumber (PosInt 7)); ("ok", VBool true)], ["body"])%string /\
  obj_get "id" (fst (row_of (fun _ => None) demo_relation [DText "7"; DUnchanged; DText "t"] true))
  = Some (VNumber (PosInt 7)).
Proof.
  split; [reflexivity|].
  destruct (row_of (fun _ => None) demo_relation [DText "7"%string; DUnchanged; DText "t"%string] true)
    as [row u] eqn:E.
  pose proof (row_of_cells (fun _ => None) demo_relation
                [DText "7"%string; DUnchanged; DText "t"%string] true) as H.
  rewrite E in H. destruct H as [H _].
  - by apply (bool_decide_unpack _).
  - apply (H (mkColumn "id" 23 true) (DText "7"%string)). by apply list_elem_of_here.
Defined.

End PgOutput.
