(* ===== verification/Interval.v ===== *)
(** Postgres [INTERVAL] to ISO 8601 of [src/src/driver/interval.rs].

    The three components keep their widths ([i32], [i32], [i64]); the
    divisions are on the [unsigned_abs] values.  [parse_iso8601] is an
    independent reader of the ISO text used to state that nothing is lost. *)

From Stdlib Require Import ZArith Lia Bool Ascii String.
From stdpp Require Import base list strings.
From S2P Require Import Prelude RustStd F64.

Module Interval.

Record PgInterval : Type := { months : Z; days : Z; microseconds : Z }.

Definition in_width (iv : PgInterval) : Prop :=
  i32_min <= months iv <= i32_max /\ i32_min <= days iv <= i32_max /\
  i64_min <= microseconds iv <= i64_max.

Definition US_PER_SEC : Z := 1000000.
Definition SEC_PER_MIN : Z := 60.
Definition SEC_PER_HOUR : Z := 3600.

Inductive Sign : Type := Positive | Negative | Mixed.

Definition classify_sign (months days micros : Z) : Sign :=
  let any_pos := (0 <? months) || (0 <? days) || (0 <? micros) in
  let any_neg := (months <? 0) || (days <? 0) || (micros <? 0) in
  match any_pos, any_neg with
  | true, true => Mixed
  | false, true => Negative
  | _, _ => Positive
  end.

(** [format!("{n:06}")] for [n < 1_000_000]. *)
Definition six_digits (n : Z) : list Z :=
  map (fun k => n / 10 ^ k mod 10) [5; 4; 3; 2; 1; 0].

(** [while s.ends_with('0') { s.pop(); }]: drop the trailing zeros. *)
Fixpoint trim_zeros (ds : list Z) : list Z :=
  match ds with
  | [] => []
  | d :: ds' =>
      match trim_zeros ds' with
      | [] => if d =? 0 then [] else [d]
      | t => d :: t
      end
  end.

Definition format_frac_micros (frac : Z) : string := digits_string (trim_zeros (six_digits frac)).

(** [if v != 0 { write!(out, "{v}{c}") }]. *)
Definition field (v : Z) (c : ascii) : string :=
  if v =? 0 then EmptyString else (show_u v +:+ String c EmptyString)%string.

Definition seconds_field (seconds frac_micros : Z) : string :=
  if negb (seconds =? 0) || negb (frac_micros =? 0) then
    if frac_micros =? 0 then (show_u seconds +:+ "S")%string
    else (show_u seconds +:+ "." +:+ format_frac_micros frac_micros +:+ "S")%string
  else EmptyString.

(** [iN::unsigned_abs], an [uN]. *)
Definition unsigned_abs (w z : Z) : Z := wrapu w (Z.abs z).

Definition pg_interval_to_iso8601 (iv : PgInterval) : string :=
  if (months iv =? 0) && (days iv =? 0) && (microseconds iv =? 0) then "PT0S"%string
  else
    let sign := classify_sign (months iv) (days iv) (microseconds iv) in
    let abs_months := unsigned_abs 32 (months iv) in
    let abs_days := unsigned_abs 32 (days iv) in
    let abs_micros := unsigned_abs 64 (microseconds iv) in
    let years := abs_months / 12 in
    let rem_months := abs_months mod 12 in
    let total_secs := abs_micros / US_PER_SEC in
    let frac_micros := abs_micros mod US_PER_SEC in
    let hours := total_secs / SEC_PER_HOUR in
    let rem_after_hours := total_secs mod SEC_PER_HOUR in
    let minutes := rem_after_hours / SEC_PER_MIN in
    let seconds := rem_after_hours mod SEC_PER_MIN in
    let prefix := match sign with Negative => "-P"%string | _ => "P"%string end in
    let date := (field years "Y" +:+ field rem_months "M" +:+ field abs_days "D")%string in
    let time :=
      if abs_micros =? 0 then EmptyString
      else ("T" +:+ field hours "H" +:+ field minutes "M" +:+ seconds_field seconds frac_micros)%string in
    (prefix +:+ date +:+ time)%string.

(** * A reader of ISO 8601 durations *)

(** An optional number with designator [c]; 0 when it is not there. *)
Definition read_field (c : ascii) (s : string) : Z * string :=
  let '(v, n, rest) := span_digits 0 0 s in
  match rest with
  | String d rest' => if negb (Nat.eqb n 0) && Ascii.eqb d c then (v, rest') else (0, s)
  | EmptyString => (0, s)
  end.

Fixpoint read_fields (cs : list ascii) (s : string) : list Z * string :=
  match cs with
  | [] => ([], s)
  | c :: cs' =>
      let (v, s') := read_field c s in
      let (vs, s'') := read_fields cs' s' in
      (v :: vs, s'')
  end.

(** Seconds with an optional decimal fraction, in microseconds. *)
Definition read_seconds (s : string) : option Z :=
  match s with
  | EmptyString => Some 0
  | _ =>
      let '(v, n, rest) := span_digits 0 0 s in
      match rest with
      | String "S" EmptyString => Some (v * 1000000)
      | String "." rest' =>
          let '(f, k, rest'') := span_digits 0 0 rest' in
          if String.eqb rest'' "S" then Some (v * 1000000 + f * 10 ^ (6 - Z.of_nat k)) else None
      | _ => None
      end
  end.

Definition read_time (s : string) : option Z :=
  match s with
  | EmptyString => Some 0
  | String "T" s' =>
      match read_fields ["H"; "M"]%char s' with
      | ([h; m], s'') =>
          match read_seconds s'' with
          | Some us => Some ((h * 3600 + m * 60) * 1000000 + us)
          | None => None
          end
      | _ => None
      end
  | _ => None
  end.

(** Sign, months, days and microseconds of a duration. *)
Definition parse_iso8601 (s : string) : option (bool * Z * Z * Z) :=
  let '(neg, s) := match s with String "-" t => (true, t) | _ => (false, s) end in
  match s with
  | String "P" s' =>
      match read_fields ["Y"; "M"; "D"]%char s' with
      | ([y; m; d], s'') =>
          match read_time s'' with
          | Some us => Some (neg, 12 * y + m, d, us)
          | None => None
          end
      | _ => None
      end
  | _ => None
  end.

(** * Facts *)

Definition non_digit (c : ascii) : Prop := char_digit 10 c = None.

Definition no_digit_head (s : string) : Prop :=
  match s with String c _ => non_digit c | EmptyString => True end.

Lemma span_digits_string acc n ds rest :
  Forall (fun d => 0 <= d < 10) ds -> no_digit_head rest ->
  span_digits acc n (digits_string ds +:+ rest) = (of_digits_from 10 acc ds, (n + length ds)%nat, rest).
Proof.
  intros Hds Hr. revert acc n. induction Hds as [|d ds Hd _ IH]; intros acc n.
  - simpl. rewrite Nat.add_0_r. destruct rest as [|c r]; [done|]. simpl.
    change (String c r) with (EmptyString +:+ String c r)%string.
    cbn. by rewrite Hr.
  - change (digits_string (d :: ds) +:+ rest)%string
      with (String (digit_char d) (digits_string ds +:+ rest)).
    cbn [span_digits]. rewrite char_digit_char by lia. rewrite IH.
    simpl. f_equal; f_equal. lia.
Qed.

Lemma span_show v rest :
  0 <= v -> no_digit_head rest ->
  span_digits 0 0 (show_u v +:+ rest) = (v, length (to_digits 10 v), rest).
Proof.
  intros Hv Hr. unfold show_u, show_radix.
  rewrite span_digits_string by (done || by apply to_digits_range; lia).
  f_equal. f_equal. by apply of_to_digits.
Qed.

Lemma to_digits_some b v : Nat.eqb (length (to_digits b v)) 0 = false.
Proof.
  pose proof (to_digits_nonempty b v). destruct (to_digits b v); [done|]. done.
Qed.

Lemma read_field_show c d v rest :
  0 <= v -> non_digit d ->
  read_field c (show_u v +:+ String d rest) =
  if Ascii.eqb d c then (v, rest) else (0, (show_u v +:+ String d rest)%string).
Proof.
  intros Hv Hd. unfold read_field. rewrite span_show by done. rewrite to_digits_some.
  simpl. by destruct (Ascii.eqb d c).
Qed.

Lemma read_field_absent c s : no_digit_head s -> read_field c s = (0, s).
Proof.
  intros Hs. unfold read_field. destruct s as [|d s]; [done|]. simpl in Hs |- *. by rewrite Hs.
Qed.

(** The printed fields followed by [rest]. *)
Fixpoint fields (fs : list (Z * ascii)) (rest : string) : string :=
  match fs with
  | [] => rest
  | (v, c) :: fs' => (field v c +:+ fields fs' rest)%string
  end.

Definition good_field (f : Z * ascii) : Prop := 0 <= fst f /\ non_digit (snd f).

Lemma field_cons v c s : v <> 0 -> (field v c +:+ s = show_u v +:+ String c s)%string.
Proof.
  intros Hv. unfold field. destruct (Z.eqb_spec v 0); [done|]. by rewrite str_app_assoc.
Qed.

Lemma read_field_fields c fs rest :
  Forall good_field fs -> c ∉ map snd fs -> read_field c rest = (0, rest) ->
  read_field c (fields fs rest) = (0, fields fs rest).
Proof.
  induction 1 as [|[v d] fs [Hv Hd] Hfs IH]; intros Hc Hr; [done|]. cbn [fields map fst snd] in *.
  apply not_elem_of_cons in Hc as [Hcd Hc].
  destruct (Z.eq_dec v 0) as [->|Hnz]; [by apply IH|].
  rewrite field_cons by done. rewrite read_field_show by done.
  destruct (Ascii.eqb_spec d c); [by subst|done].
Qed.

Lemma read_fields_spec fs rest :
  Forall good_field fs -> NoDup (map snd fs) ->
  Forall (fun c => read_field c rest = (0, rest)) (map snd fs) ->
  read_fields (map snd fs) (fields fs rest) = (map fst fs, rest).
Proof.
  induction 1 as [|[v c] fs [Hv Hc] Hfs IH]; intros Hnd Hr; [done|]. cbn [map fst snd] in *.
  apply NoDup_cons in Hnd as [Hni Hnd]. inversion Hr as [|? ? Hr0 Hr']; subst.
  specialize (IH Hnd Hr'). cbn [read_fields fields].
  destruct (Z.eq_dec v 0) as [->|Hnz].
  - change (field 0 c +:+ fields fs rest)%string with (fields fs rest).
    rewrite read_field_fields by done. by rewrite IH.
  - rewrite field_cons by done. rewrite read_field_show by done. rewrite Ascii.eqb_refl. by rewrite IH.
Qed.

Lemma six_digits_spec n :
  0 <= n < 1000000 ->
  of_digits 10 (six_digits n) = n /\ Forall (fun d => 0 <= d < 10) (six_digits n).
Proof.
  intros Hn. split.
  - unfold six_digits, of_digits, of_digits_from. cbn [map fold_left].
    change (10 ^ 5) with 100000. change (10 ^ 4) with 10000. change (10 ^ 3) with 1000.
    change (10 ^ 2) with 100. change (10 ^ 1) with 10. change (10 ^ 0) with 1.
    rewrite Z.div_1_r.
    replace (n / 100) with (n / 10 / 10) by (by rewrite Z.div_div by lia).
    replace (n / 1000) with (n / 10 / 10 / 10) by (by rewrite !Z.div_div by lia).
    replace (n / 10000) with (n / 10 / 10 / 10 / 10) by (by rewrite !Z.div_div by lia).
    replace (n / 100000) with (n / 10 / 10 / 10 / 10 / 10) by (by rewrite !Z.div_div by lia).
    assert (n / 10 / 10 / 10 / 10 / 10 / 10 = 0)
      by (rewrite !Z.div_div by lia; by apply Z.div_small).
    repeat match goal with |- context [?x mod 10] =>
      let E := fresh "E" in
      pose proof (Z.div_mod x 10 ltac:(lia)) as E; revert E; generalize (x mod 10); intros ? E end.
    lia.
  - unfold six_digits. repeat constructor; apply Z.mod_pos_bound; lia.
Qed.

Lemma trim_zeros_spec ds acc :
  Forall (fun d => 0 <= d < 10) ds ->
  (length (trim_zeros ds) <= length ds)%nat /\
  Forall (fun d => 0 <= d < 10) (trim_zeros ds) /\
  of_digits_from 10 acc (trim_zeros ds) * 10 ^ Z.of_nat (length ds - length (trim_zeros ds))
  = of_digits_from 10 acc ds.
Proof.
  intros H. revert acc. induction H as [|d ds Hd Hds IH]; intros acc; [simpl; split_and!; [lia|done|lia]|].
  unfold of_digits_from in *. cbn [trim_zeros fold_left length].
  destruct (IH (acc * 10 + d)) as (Hl & Hf & E).
  destruct (trim_zeros ds) as [|t ts] eqn:Et.
  - destruct (Z.eqb_spec d 0) as [->|]; cbn [fold_left length] in *.
    + split_and!; [lia|done|]. rewrite <- E, Nat.sub_0_r, Nat2Z.inj_succ, Z.pow_succ_r, Nat.sub_0_r by lia.
      lia.
    + split_and!; [lia|by constructor|]. by rewrite <- E.
  - cbn [fold_left length] in *. split_and!; [lia|by constructor|]. by rewrite <- E.
Qed.

Lemma read_seconds_field s f :
  0 <= s -> 0 <= f < 1000000 -> read_seconds (seconds_field s f) = Some (s * 1000000 + f).
Proof.
  intros Hs Hf. unfold seconds_field.
  assert (forall t, no_digit_head t -> t <> EmptyString -> read_seconds (show_u s +:+ t) =
    match t with
    | String "S" EmptyString => Some (s * 1000000)
    | String "." rest' =>
        let '(f, k, rest'') := span_digits 0 0 rest' in
        if String.eqb rest'' "S" then Some (s * 1000000 + f * 10 ^ (6 - Z.of_nat k)) else None
    | _ => None
    end) as Hread.
  { intros t Ht Hne. pose proof (span_show s t Hs Ht) as E. unfold read_seconds.
    destruct (show_u s +:+ t)%string eqn:Est; [|by rewrite E].
    exfalso. unfold show_u, show_radix, digits_string in Est.
    pose proof (to_digits_nonempty 10 s). by destruct (to_digits 10 s). }
  destruct (Z.eqb_spec f 0) as [->|Hfnz]; simpl.
  - rewrite orb_false_r. destruct (Z.eqb_spec s 0) as [->|]; [done|]. simpl.
    rewrite Hread by done. f_equal. lia.
  - rewrite orb_true_r. change ("." +:+ ?x)%string with (String "." x). rewrite Hread by done.
    destruct (six_digits_spec f Hf) as [Ev Hd].
    destruct (trim_zeros_spec (six_digits f) 0 Hd) as (Hl & Ht & E).
    unfold format_frac_micros. rewrite span_digits_string by done. simpl. f_equal. f_equal.
    etransitivity; [|exact Ev]. etransitivity; [|exact E]. do 2 f_equal. simpl in Hl |- *. lia.
Qed.

Lemma seconds_field_head c s f :
  0 <= s -> c <> "S"%char -> c <> "."%char ->
  read_field c (seconds_field s f) = (0, seconds_field s f).
Proof.
  intros Hs HS Hdot. unfold seconds_field.
  destruct (_ || _); [|done]. destruct (f =? 0).
  - change "S"%string with (String "S" EmptyString). rewrite read_field_show by done.
    destruct (Ascii.eqb_spec "S" c); [by subst|done].
  - change ("." +:+ ?x)%string with (String "." x). rewrite read_field_show by done.
    destruct (Ascii.eqb_spec "." c); [by subst|done].
Qed.

Lemma hms_spec us :
  let t := us / 1000000 in
  (t / 3600 * 3600 + t mod 3600 / 60 * 60) * 1000000
  + (t mod 3600 mod 60 * 1000000 + us mod 1000000) = us.
Proof.
  intros t. pose proof (Z.div_mod us 1000000 ltac:(lia)) as E1. fold t in E1.
  pose proof (Z.div_mod t 3600 ltac:(lia)). pose proof (Z.div_mod (t mod 3600) 60 ltac:(lia)).
  clearbody t. lia.
Qed.

Lemma read_time_spec us :
  0 < us ->
  let t := us / US_PER_SEC in
  read_time ("T" +:+ field (t / SEC_PER_HOUR) "H" +:+ field (t mod SEC_PER_HOUR / SEC_PER_MIN) "M" +:+
             seconds_field (t mod SEC_PER_HOUR mod SEC_PER_MIN) (us mod US_PER_SEC))
  = Some us.
Proof.
  intros Hus t. unfold US_PER_SEC, SEC_PER_HOUR, SEC_PER_MIN in *.
  pose proof (hms_spec us) as Hval. cbv zeta in Hval. fold t in Hval.
  assert (0 <= t) by (apply Z.div_pos; lia).
  pose proof (Z.mod_pos_bound us 1000000 ltac:(lia)) as Hfrac.
  clearbody t. remember (us mod 1000000) as frac eqn:Ef. clear Ef.
  assert (0 <= t / 3600) as Hh by (apply Z.div_pos; lia).
  assert (0 <= t mod 3600) as Hr by (apply Z.mod_pos_bound; lia).
  assert (0 <= t mod 3600 / 60) as Hm by (apply Z.div_pos; lia).
  assert (0 <= t mod 3600 mod 60) as Hs by (apply Z.mod_pos_bound; lia).
  revert Hval Hh Hm Hs. generalize (t / 3600) (t mod 3600 / 60) (t mod 3600 mod 60).
  intros h m sec Hval Hh Hm Hs.
  change ("T" +:+ ?x)%string with (String "T" x). cbn [read_time].
  pose proof (read_fields_spec [(h, "H"%char); (m, "M"%char)] (seconds_field sec frac)) as E.
  cbn [map fields fst snd] in E. rewrite E.
  - rewrite read_seconds_field by done. by f_equal.
  - by repeat constructor.
  - by apply (bool_decide_unpack _).
  - repeat constructor; by apply seconds_field_head.
Qed.

Lemma parse_iso8601_minus s m d us :
  parse_iso8601 (String "P" s) = Some (false, m, d, us) ->
  parse_iso8601 (String "-" (String "P" s)) = Some (true, m, d, us).
Proof.
  unfold parse_iso8601. cbn -[read_fields]. intros H. repeat case_match; by simplify_eq.
Qed.

(** The ISO 8601 text loses nothing but a mixed sign: reading it back
    gives the absolute months, days and microseconds of every interval, the
    extremes of the three widths included, and a leading minus exactly when
    the components are negative or zero and not all zero. *)
Theorem interval_roundtrip iv :
  in_width iv ->
  parse_iso8601 (pg_interval_to_iso8601 iv) =
  Some (match classify_sign (months iv) (days iv) (microseconds iv) with
        | Negative => true | _ => false end,
        Z.abs (months iv), Z.abs (days iv), Z.abs (microseconds iv)).
Proof.
  destruct iv as [mo da us]. intros (Hmo & Hda & Hus).
  unfold pg_interval_to_iso8601, unsigned_abs. cbn [months days microseconds] in *.
  unfold i32_min, i32_max, i64_min, i64_max in *. rewrite !wrapu_small by lia. clear Hmo Hda Hus.
  destruct ((mo =? 0) && (da =? 0) && (us =? 0)) eqn:Ez; [bool_hyps; by subst|].
  set (date := (field _ "Y" +:+ _)%string). set (time := if _ =? 0 then _ else _).
  assert (read_time time = Some (Z.abs us) /\
          Forall (fun c => read_field c time = (0, time)) ["Y"; "M"; "D"]%char) as [Ht Hh].
  { subst time. destruct (Z.eqb_spec (Z.abs us) 0) as [->|]; [by repeat constructor|].
    split; [apply read_time_spec; lia|]. repeat constructor; by apply read_field_absent. }
  pose proof (read_fields_spec
    [(Z.abs mo / 12, "Y"%char); (Z.abs mo mod 12, "M"%char); (Z.abs da, "D"%char)] time) as E.
  cbn [map fields fst snd] in E.
  assert (parse_iso8601 (String "P" (date +:+ time)) =
          Some (false, Z.abs mo, Z.abs da, Z.abs us)) as Hp.
  { unfold parse_iso8601, date. rewrite !str_app_assoc, E, Ht.
    - do 4 f_equal. symmetry. apply Z.div_mod. lia.
    - assert (0 <= Z.abs mo / 12) by (apply Z.div_pos; lia).
      assert (0 <= Z.abs mo mod 12) by (apply Z.mod_pos_bound; lia).
      repeat constructor; cbn [fst]; (done || lia).
    - by apply (bool_decide_unpack _).
    - done. }
  destruct (classify_sign mo da us); [exact Hp| |exact Hp].
  change ("-P" +:+ ?x)%string with (String "-" (String "P" x)).
  by apply parse_iso8601_minus.
Qed.

Lemma interval_roundtrip_witness :
  parse_iso8601 (pg_interval_to_iso8601 {| months := -13; days := -2; microseconds := i64_min |})
  = Some (true, 13, 2, 2 ^ 63).
Proof. apply interval_roundtrip. by repeat split; vm_compute. Defined.

Example interval_examples :
  pg_interval_to_iso8601 {| months := 25; days := 0; microseconds := 5400500000 |}
  = "P2Y1MT1H30M0.5S"%string /\
  pg_interval_to_iso8601 {| months := 1; days := -3; microseconds := 0 |} = "P1M3D"%string.
Proof. by vm_compute. Qed.

End Interval.
