(* ===== verification/InFlight.v ===== *)
(** The in-flight registry of [src/src/in_flight.rs] with its RAII guard, and
    the gauge of [src/src/metrics.rs] the guard refreshes.

    The [DashMap] is a finite map by request id.  An entry is only reached
    through the map, so its mutex-held [backend_id] lives in the map's value.
    Clocks are arguments of the operations that read them. *)

From Stdlib Require Import ZArith Lia Bool Ascii String.
From stdpp Require Import base list strings gmap relations.
From S2P Require Import Prelude RustStd Redact Errors.

Module InFlight.

Inductive BackendId : Type :=
| PgPid (pid : Z)
| MysqlConn (connection_id : Z)
| SqliteHandle (handle : Z).

Record InFlightEntry : Type := mkEntry {
  backend_name : string;
  entry_driver : DriverKind;
  started_at_wall : Z;
  started_at_mono : Z;
  backend_id : option BackendId;
}.

(** The registry, and the last value set on the gauge of each driver. *)
Record registry : Type := mkRegistry {
  entries : gmap string InFlightEntry;
  gauge : DriverKind -> option Z;
}.

Definition new : registry := mkRegistry ∅ (fun _ => None).

Definition len (r : registry) : nat := size (entries r).
Definition is_empty (r : registry) : bool := Nat.eqb (len r) 0.

Definition set_backend_id (request_id : string) (id : BackendId) (r : registry) : registry :=
  match entries r !! request_id with
  | Some e =>
      mkRegistry
        (<[request_id := mkEntry (backend_name e) (entry_driver e) (started_at_wall e)
                           (started_at_mono e) (Some id)]> (entries r))
        (gauge r)
  | None => r
  end.

Definition backend_id_for (request_id : string) (r : registry) : option BackendId :=
  match entries r !! request_id with
  | Some e => backend_id e
  | None => None
  end.

Definition insert_entry (request_id : string) (e : InFlightEntry) (r : registry) : registry :=
  mkRegistry (<[request_id := e]> (entries r)) (gauge r).

Definition remove (request_id : string) (r : registry) : registry :=
  mkRegistry (delete request_id (entries r)) (gauge r).

(** [metrics::record_in_flight]: set the gauge of one driver. *)
Definition record_in_flight (count : nat) (driver : DriverKind) (r : registry) : registry :=
  mkRegistry (entries r)
    (fun d => if decide (d = driver) then Some (Z.of_nat count) else gauge r d).

Record InFlightGuard : Type := mkGuard { request_id : string; guard_driver : DriverKind }.

Definition register (wall mono : Z) (id backend : string) (driver : DriverKind) (r : registry)
  : InFlightGuard * registry :=
  let r := insert_entry id (mkEntry backend driver wall mono None) r in
  let r := record_in_flight (len r) driver r in
  (mkGuard id driver, r).

Definition guard_drop (g : InFlightGuard) (r : registry) : registry :=
  let r := remove (request_id g) r in
  record_in_flight (len r) (guard_driver g) r.

Record InFlightSnapshot : Type := mkSnapshot {
  snap_request_id : string;
  snap_backend_name : string;
  snap_driver : DriverKind;
  snap_wall : Z;
  age_ms : Z;
  snap_backend_id : option BackendId;
}.

(** Monotonic clocks in milliseconds. *)
Definition snapshot (now_mono : Z) (r : registry) : list InFlightSnapshot :=
  map (fun '(id, e) =>
         mkSnapshot id (backend_name e) (entry_driver e) (started_at_wall e)
           (wrapu 64 (sat_sub now_mono (started_at_mono e))) (backend_id e))
    (map_to_list (entries r)).

(** * The registry with its live guards *)

Record world : Type := World { reg : registry; guards : list InFlightGuard }.

Inductive step : world -> world -> Prop :=
| step_register wall mono id backend driver r gs g r' :
    register wall mono id backend driver r = (g, r') ->
    step (World r gs) (World r' (g :: gs))
| step_drop r gs1 g gs2 :
    step (World r (gs1 ++ g :: gs2)) (World (guard_drop g r) (gs1 ++ gs2))
| step_backend_id id bid r gs :
    step (World r gs) (World (set_backend_id id bid r) gs).

(** The host gives every live call its own request id. *)
Definition fresh_step (w w' : world) : Prop :=
  step w w' /\ NoDup (map request_id (guards w')).

Definition ids (gs : list InFlightGuard) : list string := map request_id gs.

Lemma dom_set_backend_id id bid r :
  dom (entries (set_backend_id id bid r)) = dom (entries r).
Proof.
  unfold set_backend_id. destruct (entries r !! id) eqn:E; [|done]. simpl.
  rewrite dom_insert_lookup_L; [done|by eexists].
Qed.

Lemma ids_middle gs1 g gs2 : ids (gs1 ++ g :: gs2) ≡ₚ request_id g :: ids (gs1 ++ gs2).
Proof. unfold ids. rewrite !map_app. simpl. by rewrite Permutation_middle. Qed.

(** No entry without a guard, whatever ids the calls have. *)
Lemma no_leak_step w w' :
  dom (entries (reg w)) ⊆ list_to_set (ids (guards w)) -> step w w' ->
  dom (entries (reg w')) ⊆ list_to_set (ids (guards w')).
Proof.
  intros Hd Hs. destruct Hs as [wall mono id backend driver r gs g r' E|r gs1 g gs2|id bid r gs].
  - unfold register in E. injection E as <- <-. simpl in *. rewrite dom_insert_L. set_solver.
  - simpl in *. rewrite dom_delete_L.
    assert (list_to_set (C := gset string) (ids (gs1 ++ g :: gs2))
            = {[request_id g]} ∪ list_to_set (ids (gs1 ++ gs2))) as E
      by (rewrite ids_middle; done).
    rewrite E in Hd. set_solver.
  - simpl in *. by rewrite dom_set_backend_id.
Qed.

Lemma exact_step w w' :
  dom (entries (reg w)) = list_to_set (ids (guards w)) -> NoDup (ids (guards w)) ->
  step w w' -> dom (entries (reg w')) = list_to_set (ids (guards w')).
Proof.
  intros Hd Hnd Hs. destruct Hs as [wall mono id backend driver r gs g r' E|r gs1 g gs2|id bid r gs].
  - unfold register in E. injection E as <- <-. simpl in *. rewrite dom_insert_L, Hd. done.
  - simpl in *. rewrite dom_delete_L, Hd. rewrite ids_middle in Hnd |- *. simpl.
    apply NoDup_cons in Hnd as [Hni _]. set_solver.
  - simpl in *. by rewrite dom_set_backend_id.
Qed.

(** Entries never leak and live calls never go missing: after any
    sequence of registrations, guard drops (normal end, early return or
    panic) and backend-id updates, every entry belongs to a live guard, and
    when live calls have distinct request ids the entries are exactly the
    live calls, so the registry is empty when the last guard is gone. *)
Theorem registry_tracks_guards w :
  (rtc step (World new []) w ->
     dom (entries (reg w)) ⊆ list_to_set (map request_id (guards w)) /\
     (guards w = [] -> is_empty (reg w) = true)) /\
  (rtc fresh_step (World new []) w ->
     dom (entries (reg w)) = list_to_set (map request_id (guards w)) /\
     len (reg w) = length (guards w)).
Proof.
  split; intros Hr.
  - assert (dom (entries (reg w)) ⊆ list_to_set (ids (guards w))) as Hd.
    { refine (rtc_ind_r (fun w => dom (entries (reg w)) ⊆ list_to_set (ids (guards w)))
                (World new []) _ _ w Hr); [done|]. intros y z _ Hs Hy. by eapply no_leak_step. }
    split; [done|]. intros Hg. rewrite Hg in Hd. unfold is_empty, len.
    assert (entries (reg w) = ∅) as -> by (apply dom_empty_inv_L; set_solver). done.
  - assert (dom (entries (reg w)) = list_to_set (ids (guards w)) /\ NoDup (ids (guards w))) as [Hd Hnd].
    { refine (rtc_ind_r (fun w => dom (entries (reg w)) = list_to_set (ids (guards w)) /\ NoDup (ids (guards w)))
                (World new []) _ _ w Hr); [split; [done|constructor]|].
      intros y z _ [Hs Hnd] [Hy Hy']. split; [by eapply exact_step|done]. }
    split; [done|]. unfold len. rewrite <- size_dom, Hd, size_list_to_set by done.
    apply length_map.
Qed.

(** The gauge labelled with a driver is not that driver's count: after a
    Postgres call ends while a MySQL call is live, the Postgres gauge is left
    at one although no Postgres call is in flight. *)
Theorem gauge_counts_all_drivers :
  exists w, rtc fresh_step (World new []) w /\
    gauge (reg w) Postgres = Some 1 /\
    List.filter (fun g => bool_decide (guard_driver g = Postgres)) (guards w) = [].
Proof.
  eexists. split; [|split].
  - eapply rtc_l; [split; [by apply (step_register 0 0 "m" "b" Mysql new [])|by apply (bool_decide_unpack _)]|].
    eapply rtc_l; [split; [by apply (step_register 0 0 "p" "b" Postgres _ _)|by apply (bool_decide_unpack _)]|].
    apply rtc_once. split; [by apply (step_drop _ [] (mkGuard "p" Postgres) [mkGuard "m" Mysql])|].
    by apply (bool_decide_unpack _).
  - reflexivity.
  - reflexivity.
Qed.


Lemma registry_tracks_guards_witness :
  let w := World (snd (register 0 0 "r1" "orders" Postgres new)) [mkGuard "r1" Postgres] in
  dom (entries (reg w)) = list_to_set (map request_id (guards w)) /\ len (reg w) = length (guards w).
Proof.
  apply registry_tracks_guards. apply rtc_once. split; [by apply (step_register 0 0 "r1" "orders" Postgres new [])|].
  by apply (bool_decide_unpack _).
Defined.

End InFlight.
