(* ===== verification/Pool.v ===== *)
(** The per-credential pool cache of [src/src/pool.rs].

    [PoolHandle] belongs to the drivers and is a parameter, as is BLAKE3: a
    [CredDigest] is the digest as a 256-bit number, whose order is the order
    of the byte array.  Every method runs under the registry's mutex, so a
    method is one step; the clock value it read before locking and the result
    of the [build] future are arguments. *)

From Stdlib Require Import ZArith Lia Bool Ascii String.
From Stdlib Require Strings.Byte.
From stdpp Require Import base list strings gmap relations sorting.
From S2P Require Import Prelude RustStd Redact Errors.


Module Pool.

Abbreviation CredDigest := Z.

Section Digest.
Context (blake3 : list byte -> CredDigest).

Definition static_digest : CredDigest := blake3 (str_bytes "static").

(** The stable [sort_by] on keys, by insertion. *)
Fixpoint insert_pair (p : string * string) (l : list (string * string)) :=
  match l with
  | [] => [p]
  | q :: l' => if String.leb (fst p) (fst q) then p :: l else q :: insert_pair p l'
  end.

Fixpoint sort_pairs (l : list (string * string)) :=
  match l with
  | [] => []
  | p :: l' => insert_pair p (sort_pairs l')
  end.

Definition pair_bytes (p : string * string) : list byte :=
  str_bytes (fst p) ++ [ch "="] ++ str_bytes (snd p) ++ [Byte.x0a].

(** What the hasher is fed. *)
Definition bundle_bytes (pairs : list (string * string)) : list byte :=
  concat (map pair_bytes (sort_pairs pairs)).

Definition digest_credential_bundle (pairs : list (string * string)) : CredDigest :=
  blake3 (bundle_bytes pairs).
End Digest.

(** ** What the digest depends on *)

Lemma insert_pair_perm p l : insert_pair p l ≡ₚ p :: l.
Proof.
  induction l as [|q l IH]; [done|]. cbn [insert_pair]. destruct (String.leb _ _); [done|].
  rewrite IH. apply Permutation_swap.
Qed.

Lemma sort_pairs_perm l : sort_pairs l ≡ₚ l.
Proof. induction l as [|p l IH]; [done|]. cbn [sort_pairs]. by rewrite insert_pair_perm, IH. Qed.

(** Sorting the keys alone. *)
Fixpoint insert_key (k : string) (l : list string) :=
  match l with
  | [] => [k]
  | q :: l' => if String.leb k q then k :: l else q :: insert_key k l'
  end.

Lemma insert_pair_keys p l : map fst (insert_pair p l) = insert_key (fst p) (map fst l).
Proof.
  induction l as [|q l IH]; [done|]. cbn [insert_pair insert_key map].
  destruct (String.leb _ _); [done|]. cbn [map]. by rewrite IH.
Qed.

Lemma sort_pairs_keys l1 l2 :
  map fst l1 = map fst l2 -> map fst (sort_pairs l1) = map fst (sort_pairs l2).
Proof.
  revert l2. induction l1 as [|p l1 IH]; intros [|q l2] E; try done.
  cbn [map sort_pairs] in *. injection E as E1 E2. by rewrite !insert_pair_keys, E1, (IH _ E2).
Qed.

Lemma app_sep_inj {A} (x : A) a b r s :
  x ∉ a -> x ∉ b -> a ++ x :: r = b ++ x :: s -> a = b /\ r = s.
Proof.
  revert b. induction a as [|y a IH]; intros [|z b] Ha Hb E; simplify_eq/=.
  - done.
  - apply not_elem_of_cons in Hb. tauto.
  - apply not_elem_of_cons in Ha. tauto.
  - apply not_elem_of_cons in Ha as [_ Ha], Hb as [_ Hb].
    match goal with H : _ ++ _ = _ ++ _ |- _ => by destruct (IH b Ha Hb H) as [-> ->] end.
Qed.

Definition one_line (s : string) : Prop := Byte.x0a ∉ str_bytes s.

Lemma pairs_bytes_inj l1 l2 :
  map fst l1 = map fst l2 -> Forall (fun p => one_line (snd p)) (l1 ++ l2) ->
  concat (map pair_bytes l1) = concat (map pair_bytes l2) -> l1 = l2.
Proof.
  revert l2. induction l1 as [|[k v] l1 IH]; intros [|[k' v'] l2] Ek Hv E; try done.
  cbn [map fst concat] in *. injection Ek as -> Ek.
  apply Forall_app in Hv as [H1 H2]. inversion H1; inversion H2; subst. cbn [snd] in *.
  unfold pair_bytes in E at 1 3. cbn [fst snd] in E. rewrite <- !app_assoc in E.
  apply app_inv_head, app_inv_head in E. apply app_sep_inj in E as [Ev E]; [|done..].
  rewrite (IH l2 Ek) by (done || by apply Forall_app). f_equal. f_equal.
  by rewrite <- (bytes_str_bytes v), Ev, bytes_str_bytes.
Qed.

(** Two callers of one profile (the same bundle keys) whose resolved
    values are single lines share a digest only when every value agrees, or
    on a collision of the hash function itself: the bytes hashed differ
    whenever the credentials do. *)
Theorem digest_separates_callers blake3 l1 l2 :
  map fst l1 = map fst l2 -> Forall (fun p => one_line (snd p)) (l1 ++ l2) ->
  digest_credential_bundle blake3 l1 = digest_credential_bundle blake3 l2 ->
  l1 ≡ₚ l2 \/
  (bundle_bytes l1 <> bundle_bytes l2 /\ blake3 (bundle_bytes l1) = blake3 (bundle_bytes l2)).
Proof.
  intros Ek Hv E. destruct (decide (bundle_bytes l1 = bundle_bytes l2)) as [Eb|]; [left|by right].
  apply pairs_bytes_inj in Eb.
  - by rewrite <- (sort_pairs_perm l1), Eb, sort_pairs_perm.
  - by apply sort_pairs_keys.
  - by rewrite !sort_pairs_perm.
Qed.

Lemma digest_separates_callers_witness :
  [("url", "postgres://a@h")]%string ≡ₚ [("url", "postgres://a@h")]%string \/
  (bundle_bytes [("url", "postgres://a@h")]%string <> bundle_bytes [("url", "postgres://a@h")]%string /\
   from_be_bytes (bundle_bytes [("url", "postgres://a@h")]%string)
   = from_be_bytes (bundle_bytes [("url", "postgres://a@h")]%string)).
Proof.
  apply (digest_separates_callers from_be_bytes).
  - reflexivity.
  - repeat constructor; by apply (bool_decide_unpack _).
  - reflexivity.
Defined.

(** Values with line breaks are not separated: two different bundles
    with the same keys hash the same bytes, whatever the hash. *)
Theorem digest_collision_on_newlines :
  exists l1 l2, map fst l1 = map fst l2 /\ ~ l1 ≡ₚ l2 /\
    forall blake3, digest_credential_bundle blake3 l1 = digest_credential_bundle blake3 l2.
Proof.
  pose (nl := String "010" EmptyString).
  exists [("session_vars.a", "x" +:+ nl +:+ "session_vars.b=y"); ("session_vars.b", "z")]%string,
         [("session_vars.a", "x"); ("session_vars.b", "y" +:+ nl +:+ "session_vars.b=z")]%string.
  split_and!; [done| |intros blake3; reflexivity].
  intros H%Permutation_sym. assert (("session_vars.a", "x")%string ∈
    [("session_vars.a", "x" +:+ nl +:+ "session_vars.b=y"); ("session_vars.b", "z")]%string) as Hin.
  { rewrite <- H. by apply list_elem_of_here. }
  by apply (bool_decide_pack _) in Hin.
Qed.

Record PoolRegistryConfig : Type := {
  pool_max_entries : nat;
  idle_eviction_ms : Z;
}.

Definition default_config : PoolRegistryConfig :=
  {| pool_max_entries := 256; idle_eviction_ms := 15 * 60 * 1000 |}.

Section Registry.
Context {PoolHandle : Type}.

Record PoolEntry : Type := mkEntry {
  pool : PoolHandle;
  cred_keys : list (string * string);
  last_used : Z;
}.

Definition touch (now : Z) (e : PoolEntry) : PoolEntry := mkEntry (pool e) (cred_keys e) now.

Implicit Types m : gmap CredDigest PoolEntry.

(** [(last_used, digest)] in lexicographic order. *)
Definition older (a b : CredDigest * PoolEntry) : bool :=
  if last_used (snd a) =? last_used (snd b) then fst a <? fst b
  else last_used (snd a) <? last_used (snd b).

(** [Iterator::min_by_key] over the entries. *)
Fixpoint min_entry (best : CredDigest * PoolEntry) (l : list (CredDigest * PoolEntry)) :=
  match l with
  | [] => best
  | x :: l' => min_entry (if older x best then x else best) l'
  end.

Definition lru_key m : option CredDigest :=
  match map_to_list m with
  | [] => None
  | x :: l => Some (fst (min_entry x l))
  end.

(** [while len >= pool_max_entries]; each turn removes one entry. *)
Fixpoint evict_loop (fuel : nat) (max : nat) m : gmap CredDigest PoolEntry :=
  match fuel with
  | O => m
  | S f =>
      if (max <=? size m)%nat then
        match lru_key m with
        | Some k => evict_loop f max (delete k m)
        | None => m
        end
      else m
  end.

Definition evict_lru (max : nat) m : gmap CredDigest PoolEntry := evict_loop (S (size m)) max m.

(** [get_or_build]; [built] is the outcome [build()] has if it is run. *)
Definition get_or_build (cfg : PoolRegistryConfig) (now : Z) (digest : CredDigest)
    (keys : list (string * string)) (built : result SqlError PoolHandle) m
  : result SqlError PoolHandle * gmap CredDigest PoolEntry :=
  match m !! digest with
  | Some e => (Ok (pool e), <[digest := touch now e]> m)
  | None =>
      match built with
      | Err e => (Err e, m)
      | Ok p =>
          let m := evict_lru (pool_max_entries cfg) m in
          (Ok p, <[digest := mkEntry p keys now]> m)
      end
  end.

Definition uses_credential (plugin_id target : string) (e : PoolEntry) : bool :=
  existsb (fun pt => String.eqb (fst pt) plugin_id && String.eqb (snd pt) target) (cred_keys e).

(** Collect the keys to remove, then remove them. *)
Definition remove_where (p : PoolEntry -> bool) m : nat * gmap CredDigest PoolEntry :=
  let to_remove := map fst (List.filter (fun kv => p (snd kv)) (map_to_list m)) in
  (length to_remove, fold_left (fun m k => delete k m) to_remove m).

Definition evict_for (plugin_id target : string) m : nat * gmap CredDigest PoolEntry :=
  remove_where (uses_credential plugin_id target) m.

Definition evict_for_secret (secret_ref : string) m : nat * gmap CredDigest PoolEntry :=
  (size m, ∅).

Definition is_idle (cfg : PoolRegistryConfig) (now : Z) (e : PoolEntry) : bool :=
  idle_eviction_ms cfg <=? sat_sub now (last_used e).

Definition sweep_idle (cfg : PoolRegistryConfig) (now : Z) m : nat * gmap CredDigest PoolEntry :=
  remove_where (is_idle cfg now) m.

Definition snapshot_pools m : list PoolHandle := map (fun kv => pool (snd kv)) (map_to_list m).

(** * Eviction *)

Lemma min_entry_in best l : min_entry best l = best \/ In (min_entry best l) l.
Proof.
  revert best. induction l as [|x l IH]; intros best; [by left|]. cbn [min_entry].
  destruct (IH (if older x best then x else best)) as [->|H].
  - destruct (older x best); [right; by left|by left].
  - right. by right.
Qed.

Lemma older_trans a b c : older a b = true -> older b c = true -> older a c = true.
Proof. unfold older. intros. repeat case_match; bool_hyps; try lia; apply Z.ltb_lt; lia. Qed.

Lemma older_false a b c : older a b = false -> older b c = false -> older a c = false.
Proof. unfold older. intros. repeat case_match; bool_hyps; try lia; apply Z.ltb_ge; lia. Qed.

Lemma older_asym a b : older a b = true -> older b a = false.
Proof. unfold older. intros. repeat case_match; bool_hyps; try lia; apply Z.ltb_ge; lia. Qed.

Lemma older_irrefl a : older a a = false.
Proof. unfold older. rewrite Z.eqb_refl. apply Z.ltb_irrefl. Qed.

(** Nothing is older than the minimum. *)
Lemma min_entry_min best l x :
  x = best \/ In x l -> older x (min_entry best l) = false.
Proof.
  revert best x. induction l as [|y l IH]; intros best x [->|H].
  - apply older_irrefl.
  - done.
  - cbn [min_entry]. destruct (older y best) eqn:E.
    + apply (older_false _ y); [by apply older_asym|]. apply IH. by left.
    + apply IH. by left.
  - cbn [min_entry]. destruct H as [->|H]; [|apply IH; by right].
    destruct (older x best) eqn:E; [apply IH; by left|].
    apply (older_false _ best); [done|]. apply IH. by left.
Qed.

Lemma lru_key_spec m k :
  lru_key m = Some k ->
  exists e, m !! k = Some e /\ forall k' e', m !! k' = Some e' -> older (k', e') (k, e) = false.
Proof.
  unfold lru_key. destruct (map_to_list m) as [|x l] eqn:E; [done|]. intros [= <-].
  destruct (min_entry x l) as [k e] eqn:Em. exists e. split.
  - apply elem_of_map_to_list. rewrite E. apply list_elem_of_In.
    destruct (min_entry_in x l) as [H|H]; rewrite Em in H; [left|right]; done.
  - intros k' e' Hk'. apply elem_of_map_to_list in Hk'. rewrite E in Hk'.
    apply list_elem_of_In in Hk'. cbn [fst]. rewrite <- Em. apply min_entry_min.
    destruct Hk' as [<-|Hk']; [left|right]; done.
Qed.

Lemma lru_key_None m : lru_key m = None -> m = ∅.
Proof.
  unfold lru_key. destruct (map_to_list m) eqn:E; [|done]. intros _. by apply map_to_list_empty_iff.
Qed.

Lemma size_delete_S m k e : m !! k = Some e -> size m = S (size (delete k m)).
Proof.
  intros E. rewrite <- (insert_delete_id m k e E) at 1.
  apply map_size_insert_None, lookup_delete_eq.
Qed.

(** What eviction to below [max] leaves: a part of the map, below the bound,
    with no survivor older than an evicted entry; nothing goes when there is
    room already. *)
Lemma evict_loop_spec fuel max m :
  (size m < fuel)%nat ->
  evict_loop fuel max m ⊆ m /\
  (size (evict_loop fuel max m) < Nat.max 1 max)%nat /\
  ((size m < max)%nat -> evict_loop fuel max m = m) /\
  (forall k e k' e', m !! k = Some e -> evict_loop fuel max m !! k = None ->
     evict_loop fuel max m !! k' = Some e' -> older (k', e') (k, e) = false).
Proof.
  revert m. induction fuel as [|f IH]; intros m Hf; [lia|]. cbn [evict_loop].
  destruct (Nat.leb_spec max (size m)) as [Hle|Hlt]; cycle 1.
  { split_and!; [done|lia|done|]. intros k e k' e' E1 E2. by rewrite E1 in E2. }
  destruct (lru_key m) as [k0|] eqn:Ek.
  - destruct (lru_key_spec _ _ Ek) as (e0 & He0 & Hmin).
    assert (size m = S (size (delete k0 m))) as Hs by (by eapply size_delete_S).
    destruct (IH (delete k0 m)) as (H1 & H2 & H3 & H4); [lia|].
    assert (evict_loop f max (delete k0 m) ⊆ m) as Hsub
      by (etransitivity; [exact H1|apply delete_subseteq]).
    split_and!; [done|done|lia|]. intros k e k' e' E1 E2 E3.
    destruct (decide (k = k0)) as [->|Hne].
    + rewrite He0 in E1. injection E1 as <-. apply Hmin. by eapply lookup_weaken.
    + eapply H4; [|exact E2|exact E3]. by rewrite lookup_delete_ne.
  - apply lru_key_None in Ek as ->. rewrite map_size_empty in *.
    split_and!; [done|lia|done|]. intros k e k' e' E1. by rewrite lookup_empty in E1.
Qed.

Lemma evict_lru_spec max m :
  evict_lru max m ⊆ m /\
  (size (evict_lru max m) < Nat.max 1 max)%nat /\
  ((size m < max)%nat -> evict_lru max m = m) /\
  (forall k e k' e', m !! k = Some e -> evict_lru max m !! k = None ->
     evict_lru max m !! k' = Some e' -> older (k', e') (k, e) = false).
Proof. apply evict_loop_spec. lia. Qed.

Lemma fold_delete_lookup (ks : list CredDigest) m k :
  fold_left (fun m k => delete k m) ks m !! k = if decide (k ∈ ks) then None else m !! k.
Proof.
  revert m. induction ks as [|k0 ks IH]; intros m; [done|]. cbn [fold_left]. rewrite IH.
  destruct (decide (k = k0)) as [->|Hne].
  - rewrite lookup_delete_eq. repeat case_decide; set_solver.
  - rewrite lookup_delete_ne by done. repeat case_decide; set_solver.
Qed.

Lemma fold_delete_size (ks : list CredDigest) m :
  NoDup ks -> (forall k, k ∈ ks -> is_Some (m !! k)) ->
  (length ks + size (fold_left (fun m k => delete k m) ks m) = size m)%nat.
Proof.
  revert m. induction ks as [|k ks IH]; intros m Hnd Hin; [done|].
  apply NoDup_cons in Hnd as [Hni Hnd]. cbn [fold_left length].
  destruct (Hin k) as [e He]; [set_solver|].
  rewrite (size_delete_S m k e), <- (IH (delete k m)); [lia|done| |done].
  intros k' Hk'. rewrite lookup_delete_ne by set_solver. set_solver.
Qed.

Lemma NoDup_filter_fst (q : CredDigest * PoolEntry -> bool) l :
  NoDup (map fst l) -> NoDup (map fst (List.filter q l)).
Proof.
  induction l as [|[k e] l IH]; intros Hnd; [constructor|]. cbn [List.filter map] in *.
  apply NoDup_cons in Hnd as [Hni Hnd]. specialize (IH Hnd).
  destruct (q (k, e)); [|done]. cbn [map]. apply NoDup_cons. split; [|done].
  intros H. apply Hni. apply list_elem_of_fmap in H as (kv & E & H).
  apply list_elem_of_In, filter_In in H as [H _]. apply list_elem_of_fmap. exists kv.
  split; [done|]. by apply list_elem_of_In.
Qed.

(** Removing by a test: exactly the entries that pass it go, and they are
    counted. *)
Lemma remove_where_spec p m :
  (forall k, snd (remove_where p m) !! k =
     match m !! k with
     | Some e => if p e then None else Some e
     | None => None
     end) /\
  (fst (remove_where p m) + size (snd (remove_where p m)) = size m)%nat.
Proof.
  assert (forall k, k ∈ map fst (List.filter (fun kv => p (snd kv)) (map_to_list m)) <->
            exists e, m !! k = Some e /\ p e = true) as Hin.
  { intros k. rewrite list_elem_of_fmap. split.
    - intros ([k' e] & -> & H). apply list_elem_of_In, filter_In in H as [H Hp].
      exists e. split; [|done]. by apply elem_of_map_to_list, list_elem_of_In.
    - intros (e & He & Hp). exists (k, e). split; [done|]. apply list_elem_of_In, filter_In.
      split; [|done]. apply list_elem_of_In. by apply elem_of_map_to_list. }
  unfold remove_where. cbn [fst snd]. split.
  - intros k. rewrite fold_delete_lookup. case_decide as Hk.
    + apply Hin in Hk as (e & -> & ->). done.
    + destruct (m !! k) as [e|] eqn:E; [|done]. destruct (p e) eqn:Ep; [|done].
      destruct Hk. apply Hin. by exists e.
  - apply fold_delete_size.
    + apply NoDup_filter_fst, NoDup_fst_map_to_list.
    + intros k Hk. apply Hin in Hk as (e & He & _). by exists e.
Qed.

(** * The registry as a transition system *)

Inductive step (cfg : PoolRegistryConfig) : relation (gmap CredDigest PoolEntry) :=
| step_get now d keys built m r m' :
    get_or_build cfg now d keys built m = (r, m') -> step cfg m m'
| step_evict p t m : step cfg m (snd (evict_for p t m))
| step_secret s m : step cfg m (snd (evict_for_secret s m))
| step_sweep now m : step cfg m (snd (sweep_idle cfg now m)).

Lemma get_or_build_size cfg now d keys built m r m' :
  get_or_build cfg now d keys built m = (r, m') ->
  (size m <= Nat.max 1 (pool_max_entries cfg))%nat ->
  (size m' <= Nat.max 1 (pool_max_entries cfg))%nat.
Proof.
  unfold get_or_build. intros E Hm. destruct (m !! d) as [e|] eqn:Ed.
  - injection E as <- <-. rewrite map_size_insert_Some by by eexists. done.
  - destruct built as [p|e]; injection E as <- <-; [|done].
    destruct (evict_lru_spec (pool_max_entries cfg) m) as (Hsub & Hs & _).
    rewrite map_size_insert_None; [lia|]. by eapply lookup_weaken_None.
Qed.

(** C12.  The registry is bounded: whatever calls, revocations, rotations and
    sweeps happen in whatever order, it never holds more pools than
    [pool_max_entries], or one when that is zero. *)
Theorem registry_bounded cfg m :
  rtc (step cfg) ∅ m -> (size m <= Nat.max 1 (pool_max_entries cfg))%nat.
Proof.
  intros Hr. refine (rtc_ind_r (fun m => (size m <= Nat.max 1 (pool_max_entries cfg))%nat) ∅ _ _ m Hr);
    [rewrite map_size_empty; lia|].
  intros m1 m2 _ Hs Hm. destruct Hs as [now d keys built m1 r m2 E|p t m1|s m1|now m1].
  - by eapply get_or_build_size.
  - destruct (remove_where_spec (uses_credential p t) m1) as [_ H]. unfold evict_for. lia.
  - simpl. rewrite map_size_empty. lia.
  - destruct (remove_where_spec (is_idle cfg now) m1) as [_ H]. unfold sweep_idle. lia.
Qed.

(** [get_or_build]: a hit returns the cached pool whatever [build] would
    give and only refreshes that entry's last use; a failed build leaves the
    registry as it was; a successful one is stored under its digest and
    returned, other entries are kept or evicted unchanged, none is evicted
    while there is room, and no evicted entry was used later than one kept. *)
Theorem get_or_build_correct cfg now d keys built m :
  match m !! d with
  | Some e =>
      get_or_build cfg now d keys built m = (Ok (pool e), <[d := touch now e]> m)
  | None =>
      match built with
      | Err err => get_or_build cfg now d keys built m = (Err err, m)
      | Ok p =>
          exists kept, kept ⊆ m /\
            get_or_build cfg now d keys built m = (Ok p, <[d := mkEntry p keys now]> kept) /\
            kept !! d = None /\
            ((size m < pool_max_entries cfg)%nat -> kept = m) /\
            (forall k e k' e', m !! k = Some e -> kept !! k = None -> kept !! k' = Some e' ->
               last_used e <= last_used e')
      end
  end.
Proof.
  unfold get_or_build. destruct (m !! d) as [e|] eqn:Ed; [done|]. destruct built as [p|err]; [|done].
  destruct (evict_lru_spec (pool_max_entries cfg) m) as (Hsub & Hs & Hroom & Hold).
  exists (evict_lru (pool_max_entries cfg) m).
  split_and!; [done|done|by eapply lookup_weaken_None|done|].
  intros k e k' e' E1 E2 E3. specialize (Hold k e k' e' E1 E2 E3). unfold older in Hold.
  cbn [fst snd] in Hold. case_match; bool_hyps; lia.
Qed.

(** Revocation and idle sweeps remove exactly what they should: after
    [evict_for] no pool built from the revoked credential is left and every
    other pool is untouched; after [sweep_idle] exactly the pools unused for
    the idle window are gone; both return how many pools they removed. *)
Theorem eviction_exact cfg plugin_id target now m :
  (forall k, snd (evict_for plugin_id target m) !! k =
     match m !! k with
     | Some e => if uses_credential plugin_id target e then None else Some e
     | None => None
     end) /\
  (fst (evict_for plugin_id target m) + size (snd (evict_for plugin_id target m)) = size m)%nat /\
  (forall k, snd (sweep_idle cfg now m) !! k =
     match m !! k with
     | Some e => if idle_eviction_ms cfg <=? sat_sub now (last_used e) then None else Some e
     | None => None
     end) /\
  (fst (sweep_idle cfg now m) + size (snd (sweep_idle cfg now m)) = size m)%nat.
Proof.
  destruct (remove_where_spec (uses_credential plugin_id target) m) as [H1 H2].
  destruct (remove_where_spec (is_idle cfg now) m) as [H3 H4].
  by split_and!.
Qed.

End Registry.

Lemma registry_bounded_witness :
  (size (<[7%Z := mkEntry "pool"%string [] 0]> ∅ : gmap CredDigest PoolEntry) <= 1)%nat.
Proof.
  apply (registry_bounded {| pool_max_entries := 0; idle_eviction_ms := 0 |}).
  apply rtc_once. apply (step_get _ 0 7 [] (Ok "pool"%string) ∅ (Ok "pool"%string)). reflexivity.
Defined.

End Pool.
