(* ===== verification/SqliteCancel.v ===== *)
(** Query cancellation of the SQLite driver, [src/src/driver/sqlite.rs].

    An [Arc<Cancel>] is shared by the driver's table, the query's [Running]
    guard and the progress handler on the connection, so the flags live in a
    heap of cells addressed by location.  Queries start, are cancelled and end
    (or have their future dropped) in any order: [step]. *)

From Stdlib Require Import ZArith Lia Bool Ascii String.
From stdpp Require Import base list strings gmap relations.
From S2P Require Import Prelude RustStd Redact Errors InFlight.
Import InFlight.

Module SqliteCancel.

Record Cancel : Type := mkCancel { cancelled : bool; active : bool }.

Definition stops (c : Cancel) : bool := active c && cancelled c.

(** The driver, the heap of flags, and the progress handler installed on each
    connection (the location of the flag its closure reads). *)
Record driver : Type := mkDriver {
  cells : list Cancel;
  handles : gmap Z nat;
  next_handle : Z;
  handlers : gmap nat nat;
}.

Record Running : Type := mkRunning { nonce : Z; cancel : nat }.

Definition new : driver := mkDriver [] ∅ 1 ∅.

(** [SqliteDriver::start] once the connection's handle is locked. *)
Definition start (conn : nat) (d : driver) : Running * driver :=
  let l := length (cells d) in
  let n := next_handle d in
  (mkRunning n l,
   mkDriver (cells d ++ [mkCancel false true]) (<[n := l]> (handles d)) (wrapu 64 (n + 1))
     (<[conn := l]> (handlers d))).

Definition set_cell (l : nat) (f : Cancel -> Cancel) (d : driver) : driver :=
  mkDriver (alter f l (cells d)) (handles d) (next_handle d) (handlers d).

(** [Drop for Running]. *)
Definition running_drop (r : Running) (d : driver) : driver :=
  let d := set_cell (cancel r) (fun c => mkCancel (cancelled c) false) d in
  mkDriver (cells d) (delete (nonce r) (handles d)) (next_handle d) (handlers d).

(** [finish]: drop the guard, and take the handler off the connection when its
    handle can be locked. *)
Definition finish (locked : bool) (conn : nat) (r : Running) (d : driver) : driver :=
  let d := running_drop r d in
  if locked then mkDriver (cells d) (handles d) (next_handle d) (delete conn (handlers d))
  else d.

(** [cancel_backend]; [debug] prints the other backend ids. *)
Definition cancel_backend (debug : BackendId -> string) (id : BackendId) (d : driver)
  : result SqlError () * driver :=
  match id with
  | SqliteHandle n =>
      (Ok (),
       match handles d !! n with
       | Some l => set_cell l (fun c => mkCancel true (active c)) d
       | None => d
       end)
  | other =>
      (Err (InvalidSpec
              ("sqlite cancel_backend: expected Sqlite backend id, got " +:+ debug other)), d)
  end.

(** What the progress handler on a connection does at its next check. *)
Definition interrupts (conn : nat) (d : driver) : bool :=
  match handlers d !! conn with
  | Some l => match cells d !! l with Some c => stops c | None => false end
  | None => false
  end.

(** * Queries in flight

    [queries] is the list of queries whose guard is alive, with the connection
    each has pinned; [asked] the nonces of live queries some caller has asked to
    cancel. *)
Record world : Type := World {
  drv : driver;
  queries : list (nat * Running);
  asked : gset Z;
}.

Inductive step : world -> world -> Prop :=
| step_start conn d qs a r d' :
    conn ∉ map fst qs ->
    Z.of_nat (length (cells d)) + 1 < u64_max ->
    start conn d = (r, d') ->
    step (World d qs a) (World d' ((conn, r) :: qs) a)
| step_cancel debug n d qs a :
    step (World d qs a)
      (World (snd (cancel_backend debug (SqliteHandle n) d)) qs
         (if decide (n ∈ map (nonce ∘ snd) qs) then {[n]} ∪ a else a))
| step_finish locked conn r d qs1 qs2 a :
    step (World d (qs1 ++ (conn, r) :: qs2) a)
      (World (finish locked conn r d) (qs1 ++ qs2) a)
| step_dropped conn r d qs1 qs2 a :
    step (World d (qs1 ++ (conn, r) :: qs2) a) (World (running_drop r d) (qs1 ++ qs2) a).

Definition initial : world := World new [] ∅.

(** The nonce of the query whose flag is at a location. *)
Definition nonce_of (l : nat) : Z := Z.of_nat l + 1.

Definition locs (qs : list (nat * Running)) : list nat := map (cancel ∘ snd) qs.

Record inv (w : world) : Prop := {
  inv_next : next_handle (drv w) = nonce_of (length (cells (drv w)));
  inv_bound : next_handle (drv w) <= u64_max;
  inv_locs : NoDup (locs (queries w));
  inv_conns : NoDup (map fst (queries w));
  inv_query : forall conn r, (conn, r) ∈ queries w ->
    nonce r = nonce_of (cancel r) /\ (cancel r < length (cells (drv w)))%nat /\
    handlers (drv w) !! conn = Some (cancel r);
  inv_handles : forall n l, handles (drv w) !! n = Some l <-> n = nonce_of l /\ l ∈ locs (queries w);
  inv_cells : forall l c, cells (drv w) !! l = Some c ->
    (active c = true <-> l ∈ locs (queries w)) /\
    (active c = true -> cancelled c = bool_decide (nonce_of l ∈ asked w));
  inv_asked : forall n, n ∈ asked w -> n < next_handle (drv w);
  inv_handlers : forall conn l, handlers (drv w) !! conn = Some l ->
    (l < length (cells (drv w)))%nat /\
    (forall conn' r, (conn', r) ∈ queries w -> cancel r = l -> conn' = conn);
}.

Lemma nonce_of_inj l l' : nonce_of l = nonce_of l' -> l = l'.
Proof. unfold nonce_of. lia. Qed.

Lemma elem_of_locs l qs : l ∈ locs qs <-> exists conn r, (conn, r) ∈ qs /\ cancel r = l.
Proof.
  unfold locs. rewrite list_elem_of_fmap. split.
  - intros ([conn r] & -> & ?). eauto.
  - intros (conn & r & ? & <-). by exists (conn, r).
Qed.

Lemma elem_of_nonces w n :
  inv w -> n ∈ map (nonce ∘ snd) (queries w) <-> exists l, n = nonce_of l /\ l ∈ locs (queries w).
Proof.
  intros Hw. rewrite list_elem_of_fmap. split.
  - intros ([conn r] & -> & Hr). destruct (inv_query w Hw conn r Hr) as (En & _).
    exists (cancel r). split; [done|]. apply elem_of_locs. eauto.
  - intros (l & -> & Hl). apply elem_of_locs in Hl as (conn & r & Hr & <-).
    exists (conn, r). split; [|done]. by destruct (inv_query w Hw conn r Hr) as (En & _).
Qed.

Lemma inv_initial : inv initial.
Proof.
  split; simpl; intros; rewrite ?lookup_empty, ?lookup_nil in *; try by constructor.
  all: try match goal with H : _ ∈ [] |- _ => by apply not_elem_of_nil in H end.
  all: try done.
  split; [done|]. by intros [_ ?%not_elem_of_nil].
Qed.

Lemma lookup_snoc (cs : list Cancel) c0 l c :
  (cs ++ [c0]) !! l = Some c -> cs !! l = Some c \/ l = length cs /\ c = c0.
Proof.
  intros H. apply lookup_app_Some in H as [H|[H1 H2]]; [by left|right].
  apply list_lookup_singleton_Some in H2. split; [lia|]. by destruct H2.
Qed.

Lemma inv_start conn d qs a r d' :
  conn ∉ map fst qs -> Z.of_nat (length (cells d)) + 1 < u64_max ->
  start conn d = (r, d') -> inv (World d qs a) -> inv (World d' ((conn, r) :: qs) a).
Proof.
  intros Hc Hb [= <- <-] []; simpl in *.
  assert (length (cells d) ∉ locs qs) as Hf.
  { intros (c & r & Hr & E)%elem_of_locs. apply inv_query0 in Hr as (_ & ? & _). lia. }
  assert (wrapu 64 (next_handle d + 1) = nonce_of (length (cells d ++ [mkCancel false true]))) as En.
  { rewrite inv_next0, wrapu_small, length_app; unfold nonce_of, u64_max in *; simpl length; lia. }
  split; simpl; try done.
  - rewrite En, length_app. unfold nonce_of. simpl. lia.
  - by apply NoDup_cons.
  - by apply NoDup_cons.
  - intros conn' r' [[= -> ->]|Hr]%elem_of_cons; simpl.
    + rewrite length_app, lookup_insert_eq. simpl. repeat split; [done|lia].
    + destruct (inv_query0 _ _ Hr) as (? & ? & ?). rewrite length_app, lookup_insert_ne.
      * repeat split; [done|lia|done].
      * intros ->. apply Hc, list_elem_of_fmap. by exists (conn', r').
  - intros n l. rewrite lookup_insert_Some, inv_handles0, elem_of_cons, inv_next0. split.
    + intros [[<- <-]|(? & -> & ?)]; auto.
    + intros [-> [->|Hl]]; [by left|right]. repeat split; try done.
      intros E%nonce_of_inj. congruence.
  - intros l c [Hl|[-> ->]]%lookup_snoc; rewrite elem_of_cons; simpl.
    + destruct (inv_cells0 l c Hl) as [H1 H2]. split; [|done]. rewrite H1.
      apply lookup_lt_Some in Hl. split; [by right|]. intros [->|?]; [lia|done].
    + split; [by split; [left|]|]. intros _. symmetry. apply bool_decide_eq_false.
      intros E%inv_asked0. lia.
  - intros n Hn%inv_asked0. rewrite En, length_app. unfold nonce_of in *. simpl. lia.
  - intros conn' l. rewrite length_app. simpl. intros [[<- <-]|[Hne Hl]]%lookup_insert_Some.
    + split; [lia|]. intros c r [[= -> ->]|Hr]%elem_of_cons E; [done|].
      destruct Hf. apply elem_of_locs. eauto.
    + destruct (inv_handlers0 _ _ Hl) as [? Hh]. split; [lia|].
      intros c r [[= -> ->]|Hr]%elem_of_cons E; [simpl in E; lia|eauto].
Qed.

Lemma inv_cancel debug n d qs a :
  inv (World d qs a) ->
  inv (World (snd (cancel_backend debug (SqliteHandle n) d)) qs
         (if decide (n ∈ map (nonce ∘ snd) qs) then {[n]} ∪ a else a)).
Proof.
  intros Hw. pose proof (elem_of_nonces _ n Hw) as Hn. simpl in Hn. destruct Hw; simpl in *.
  destruct (handles d !! n) as [l|] eqn:El.
  - apply inv_handles0 in El as [-> Hl]. destruct (decide _) as [_|Hx]; [|by destruct Hx; apply Hn; eauto].
    split; simpl; rewrite ?length_alter; try done.
    + intros l' c. destruct (decide (l' = l)) as [->|Hne].
      * rewrite list_lookup_alter_eq. intros (c' & Hc & ->)%fmap_Some. simpl.
        split; [apply (inv_cells0 l c' Hc)|]. intros _. symmetry. apply bool_decide_eq_true. set_solver.
      * rewrite list_lookup_alter_ne by done. intros Hc. destruct (inv_cells0 l' c Hc) as [? Ha].
        split; [done|]. intros E. rewrite (Ha E). apply bool_decide_ext. rewrite elem_of_union, elem_of_singleton.
        split; [by right|]. intros [E'%nonce_of_inj|]; done.
    + intros n [->%elem_of_singleton|Hin]%elem_of_union; [|by apply inv_asked0].
      apply elem_of_locs in Hl as (conn & r & Hr & <-). apply inv_query0 in Hr as (_ & ? & _).
      rewrite inv_next0. unfold nonce_of. lia.
  - destruct (decide _) as [Hx|_].
    + apply Hn in Hx as (l & -> & Hl).
      assert (handles d !! nonce_of l = Some l) as E by (by apply inv_handles0). congruence.
    + by split.
Qed.

Lemma locs_split qs1 conn r qs2 :
  NoDup (locs (qs1 ++ (conn, r) :: qs2)) ->
  forall l, l ∈ locs (qs1 ++ qs2) <-> l ∈ locs (qs1 ++ (conn, r) :: qs2) /\ l <> cancel r.
Proof.
  unfold locs. rewrite !map_app. simpl. intros Hnd l.
  apply NoDup_app in Hnd as (_ & Hd & Hn). apply NoDup_cons in Hn as [Hn _].
  rewrite !elem_of_app, elem_of_cons. split.
  - intros [H|H]; (split; [tauto|]); intros ->; [apply (Hd _ H); left|done].
  - tauto.
Qed.

Lemma inv_dropped conn r d qs1 qs2 a :
  inv (World d (qs1 ++ (conn, r) :: qs2) a) -> inv (World (running_drop r d) (qs1 ++ qs2) a).
Proof.
  intros []; simpl in *. pose proof (locs_split _ _ _ _ inv_locs0) as Hs.
  assert (forall x, x ∈ qs1 ++ qs2 -> x ∈ qs1 ++ (conn, r) :: qs2) as Hsub by set_solver.
  assert (nonce r = nonce_of (cancel r)) as En by (by apply (inv_query0 conn r); set_solver).
  split; simpl; rewrite ?length_alter; try done; eauto.
  - unfold locs in *. rewrite !map_app in *. simpl in *. eapply sublist_NoDup; [exact inv_locs0|].
    apply sublist_app; [done|by apply sublist_cons, reflexivity].
  - rewrite !map_app in *. simpl in *. eapply sublist_NoDup; [exact inv_conns0|].
    apply sublist_app; [done|by apply sublist_cons, reflexivity].
  - intros n l. rewrite lookup_delete_Some, inv_handles0, Hs, En. split.
    + intros (Hne & -> & ?). repeat split; try done. by intros ->.
    + intros (-> & ? & Hne). repeat split; try done. by intros E%nonce_of_inj.
  - intros l c. rewrite Hs. destruct (decide (l = cancel r)) as [->|Hne].
    + rewrite list_lookup_alter_eq. intros (c' & Hc & ->)%fmap_Some. simpl. split; [|done]. naive_solver.
    + rewrite list_lookup_alter_ne by done. intros Hc. destruct (inv_cells0 l c Hc) as [H1 H2].
      split; [|done]. rewrite H1. tauto.
  - intros conn' l Hl. destruct (inv_handlers0 _ _ Hl) as [? Hh]. split; [done|]. eauto.
Qed.

Lemma inv_finish locked conn r d qs1 qs2 a :
  inv (World d (qs1 ++ (conn, r) :: qs2) a) -> inv (World (finish locked conn r d) (qs1 ++ qs2) a).
Proof.
  intros Hw. pose proof (inv_conns _ Hw) as Hnd. apply inv_dropped in Hw. unfold finish.
  destruct locked; [|done]. destruct Hw; split; simpl in *; try done.
  - intros conn' r' Hr. destruct (inv_query0 _ _ Hr) as (? & ? & ?). rewrite lookup_delete_ne; [done|].
    intros ->. rewrite map_app in Hnd. simpl in Hnd. apply NoDup_app in Hnd as (_ & Hd & Hn).
    apply NoDup_cons in Hn as [Hn _]. apply elem_of_app in Hr as [Hr|Hr].
    + eapply Hd; [|left]. apply list_elem_of_fmap. by exists (conn', r').
    + apply Hn, list_elem_of_fmap. by exists (conn', r').
  - intros conn' l [_ Hl]%lookup_delete_Some. eauto.
Qed.

Lemma inv_reachable w : rtc step initial w -> inv w.
Proof.
  intros Hr. refine (rtc_ind_r inv initial inv_initial _ w Hr).
  intros y z _ Hstep Hy. destruct Hstep; eauto using inv_start, inv_cancel, inv_finish, inv_dropped.
Qed.

(** C15.  A cancel ends exactly its own query.  Whatever the order in which
    queries start, are cancelled, end or have their future dropped, the
    progress handler on the connection of a running query interrupts it exactly
    when a cancel for that query was received; a connection with no running
    query is never interrupted, whatever handler was left on it; and the cancel
    table holds exactly the running queries. *)
Theorem cancel_exact w :
  rtc step initial w ->
  (forall conn r, (conn, r) ∈ queries w ->
     interrupts conn (drv w) = bool_decide (nonce r ∈ asked w)) /\
  (forall conn, conn ∉ map fst (queries w) -> interrupts conn (drv w) = false) /\
  (forall n, is_Some (handles (drv w) !! n) <-> n ∈ map (nonce ∘ snd) (queries w)).
Proof.
  intros Hw%inv_reachable. repeat split.
  - intros conn r Hr. unfold interrupts. destruct (inv_query w Hw _ _ Hr) as (-> & Hlt & ->).
    apply lookup_lt_is_Some_2 in Hlt as [c Hc]. rewrite Hc. destruct (inv_cells w Hw _ _ Hc) as [H1 H2].
    assert (active c = true) as E by (apply H1, elem_of_locs; eauto).
    unfold stops. rewrite E. simpl. auto.
  - intros conn Hn. unfold interrupts. destruct (handlers (drv w) !! conn) as [l|] eqn:E; [|done].
    destruct (cells (drv w) !! l) as [c|] eqn:Ec; [|done]. unfold stops.
    destruct (active c) eqn:Ea; [|done]. apply (inv_cells w Hw _ _ Ec), elem_of_locs in Ea as (conn' & r & Hr & El).
    destruct Hn. apply list_elem_of_fmap. exists (conn', r). split; [|done].
    symmetry. by apply (proj2 (inv_handlers w Hw _ _ E) _ r).
  - intros [l Hl]. apply (elem_of_nonces w n Hw). apply (inv_handles w Hw) in Hl as [-> ?]. eauto.
  - intros (l & -> & ?)%(elem_of_nonces w n Hw). exists l. by apply (inv_handles w Hw).
Qed.

(** Two queries run and the first is cancelled. *)
Definition demo : world :=
  let '(r0, d0) := start 0 new in
  let '(r1, d1) := start 1 d0 in
  World (snd (cancel_backend (fun _ => EmptyString) (SqliteHandle 1) d1)) [(1%nat, r1); (0%nat, r0)]
    {[1]}.

Lemma demo_reachable : rtc step initial demo.
Proof.
  eapply rtc_l; [apply (step_start 0); [set_solver|by vm_compute|reflexivity]|].
  eapply rtc_l; [apply (step_start 1); [set_solver|by vm_compute|reflexivity]|].
  eapply rtc_l; [apply (step_cancel (fun _ => EmptyString) 1)|]. apply rtc_refl.
Qed.

Lemma cancel_exact_witness :
  interrupts 0 (drv demo) = true /\ interrupts 1 (drv demo) = false /\
  interrupts 2 (drv demo) = false.
Proof.
  destruct (cancel_exact demo demo_reachable) as (H1 & H2 & _).
  assert ((0%nat, mkRunning 1 0) ∈ queries demo) as Q0 by (apply elem_of_cons; right; apply elem_of_cons; by left).
  assert ((1%nat, mkRunning 2 1) ∈ queries demo) as Q1 by (apply elem_of_cons; by left).
  assert (2%nat ∉ map fst (queries demo)) as Q2 by by apply (bool_decide_unpack _).
  exact (conj (H1 _ _ Q0) (conj (H1 _ _ Q1) (H2 _ Q2))).
Defined.

End SqliteCancel.
