(* ===== verification/Sqlx.v ===== *)
(** The driver layer's view of sqlx and the small monad its code is written in.

    sqlx and the database are not part of the repository: a server is an
    arbitrary function from the calls made so far and the current call to its
    reply ([Server]), a row answers typed [try_get]s ([SqlxRow]), and the
    third-party value types come with their printers ([SqlxTypes]).  The model
    records every call with its outcome; scopes that own a connection or a
    transaction record when the value is dropped.  The data types at the end
    are those of [src/src/session.rs] and [src/src/driver/mod.rs]. *)

From Stdlib Require Import ZArith Lia Bool Ascii String SpecFloat.
From stdpp Require Import base list strings gmap.
From S2P Require Import Prelude RustStd Redact Errors Json Params InFlight Interval SqliteCancel.

(** * Rows and values *)

(** A bound statement argument, by the Rust type it is bound as. *)
Inductive sqlx_arg : Type :=
| ArgNull                      (* Option::<String>::None *)
| ArgBool (b : bool)
| ArgI64 (n : Z)
| ArgI32 (n : Z)
| ArgF64 (f : spec_float)
| ArgText (s : string)
| ArgJson (v : value).

(** Value types of chrono, uuid and rust_decimal and the printers used. *)
Class SqlxTypes : Type := {
  Decimal : Type;
  Uuid : Type;
  DateTimeUtc : Type;
  NaiveDateTime : Type;
  NaiveDate : Type;
  NaiveTime : Type;
  decimal_to_string : Decimal -> string;
  uuid_to_string : Uuid -> string;
  to_rfc3339 : DateTimeUtc -> string;
  format_datetime : NaiveDateTime -> string;    (* %Y-%m-%dT%H:%M:%S%.6f *)
  date_to_string : NaiveDate -> string;
  format_time : NaiveTime -> string;            (* %H:%M:%S%.6f *)
  base64_standard : list byte -> string;
}.

(** [Row::columns] (name and type name) and [Row::try_get::<Option<T>, _>]; an
    error is its [to_string]. *)
Class SqlxRow `{SqlxTypes} (Row : Type) : Type := {
  row_columns : Row -> list (string * string);
  try_get_bool : Row -> nat -> result string (option bool);
  try_get_i16 : Row -> nat -> result string (option Z);
  try_get_i32 : Row -> nat -> result string (option Z);
  try_get_i64 : Row -> nat -> result string (option Z);
  try_get_f64 : Row -> nat -> result string (option spec_float);
  try_get_decimal : Row -> nat -> result string (option Decimal);
  try_get_json : Row -> nat -> result string (option value);
  try_get_uuid : Row -> nat -> result string (option Uuid);
  try_get_timestamptz : Row -> nat -> result string (option DateTimeUtc);
  try_get_timestamp : Row -> nat -> result string (option NaiveDateTime);
  try_get_date : Row -> nat -> result string (option NaiveDate);
  try_get_time : Row -> nat -> result string (option NaiveTime);
  try_get_interval : Row -> nat -> result string (option Interval.PgInterval);
  try_get_bytes : Row -> nat -> result string (option (list byte));
  try_get_string : Row -> nat -> result string (option string);
}.

(** * Calls *)

Inductive target : Type := OnPool | OnConn | OnTx.

#[export] Instance target_eq_dec : EqDecision target.
Proof. solve_decision. Defined.

Inductive call : Type :=
| Acquire
| Release                                                  (* PoolConnection dropped *)
| Begin (t : target)
| Commit
| Rollback
| DropTx                                                   (* open Transaction dropped *)
| Exec (t : target) (sql : string) (args : list sqlx_arg)
| FetchAll (t : target) (sql : string) (args : list sqlx_arg)
| FetchOne (t : target) (sql : string)
| FetchMany (t : target) (sql : string) (args : list sqlx_arg)
| LockHandle.

(** A call and whether it succeeded. *)
Abbreviation event := (call * bool)%type.

Class Server (Row : Type) : Type := {
  reply_unit : list event -> call -> result sqlx_error ();
  reply_count : list event -> call -> result sqlx_error Z;
  reply_rows : list event -> call -> result sqlx_error (list Row);
  reply_scalar : list event -> call -> result sqlx_error Z;
  (* the items [fetch_many] yields, a boundary or a row, and its error *)
  reply_many : list event -> call -> list (option Row) * option sqlx_error;
}.

(** * The monad *)

Record world : Type := World {
  events : list event;
  in_flight : InFlight.registry;
  sqlite : SqliteCancel.driver;
  tx_open : bool;       (* a transaction handle's mutex holds its transaction *)
}.

Definition M (A : Type) : Type := world -> result SqlError A * world.

Definition ret {A} (a : A) : M A := fun w => (Ok a, w).
Definition raise {A} (e : SqlError) : M A := fun w => (Err e, w).

Definition bind {A B} (m : M A) (k : A -> M B) : M B := fun w =>
  match m w with
  | (Ok a, w') => k a w'
  | (Err e, w') => (Err e, w')
  end.

Notation "'let!' x := m 'in' k" := (bind m (fun x => k))
  (at level 10, x pattern, m at level 200, k at level 200,
   format "'[v' 'let!'  x  :=  m  'in' '/' k ']'") : rust_scope.

(** Run [m] and hand its result to the continuation instead of returning. *)
Definition attempt {A} (m : M A) : M (result SqlError A) := fun w =>
  let '(r, w') := m w in (Ok r, w').

Definition lift {A} (r : result SqlError A) : M A := fun w => (r, w).

Definition log (c : call) (ok : bool) (w : world) : world :=
  World (events w ++ [(c, ok)]) (in_flight w) (sqlite w) (tx_open w).

(** A value going out of scope. *)
Definition drop_value (c : call) : M () := fun w => (Ok (), log c true w).

(** A call to sqlx, its error still a [sqlx::Error]. *)
Definition perform {A} (reply : list event -> call -> result sqlx_error A) (c : call)
  : M (result sqlx_error A) := fun w =>
  let r := reply (events w) c in (Ok r, log c (is_ok r) w).

(** [.await.map_err(SqlError::from_execute)?]. *)
Definition checked {A} (reply : list event -> call -> result sqlx_error A) (c : call) : M A :=
  let! r := perform reply c in lift (rmap_err from_execute r).

Definition modify_in_flight (f : InFlight.registry -> InFlight.registry) : M () := fun w =>
  (Ok (), World (events w) (f (in_flight w)) (sqlite w) (tx_open w)).

Definition on_sqlite {A} (f : SqliteCancel.driver -> A * SqliteCancel.driver) : M A := fun w =>
  let '(a, d) := f (sqlite w) in (Ok a, World (events w) (in_flight w) d (tx_open w)).

(** [for x in l { f(x)?; }]. *)
Fixpoint for_each {A} (f : A -> M ()) (l : list A) : M () :=
  match l with
  | [] => ret ()
  | x :: l' => let! _ := f x in for_each f l'
  end.

(** A pinned connection: it returns to the pool on every exit. *)
Definition with_conn `{Server Row} {A} (body : M A) : M A :=
  let! _ := checked reply_unit Acquire in
  let! r := attempt body in
  let! _ := drop_value Release in
  lift r.

(** A transaction begun on [t] and committed after [body]; an early return of
    [body] drops it. *)
Definition with_tx `{Server Row} {A} (t : target) (body : M A) : M A :=
  let! _ := checked reply_unit (Begin t) in
  let! r := attempt body in
  match r with
  | Ok a => let! _ := checked reply_unit Commit in ret a
  | Err e => let! _ := drop_value DropTx in raise e
  end.

(** * Session variables, contexts, pools and batches *)

(** A [BTreeMap<String, String>]: pairs in key order. *)
Record SessionVars : Type := { values : list (string * string) }.

Definition session_is_empty (s : SessionVars) : bool :=
  match values s with [] => true | _ => false end.

Record ExecCtx : Type := {
  ctx_request_id : option string;
  ctx_in_flight : bool;          (* the registry of the world is attached *)
}.

Inductive PoolHandle : Type := PgPool | MysqlPool | SqlitePool.

Record RowBatch : Type := {
  columns : list string;
  rows : list value;
  rows_affected : option Z;
  truncated : bool;
  has_more : bool;
}.

(** [if let (Some(registry), Some(rid)) = ... { registry.set_backend_id(..) }]. *)
Definition note_backend (ctx : ExecCtx) (id : InFlight.BackendId) : M () :=
  match ctx_request_id ctx with
  | Some rid =>
      if ctx_in_flight ctx then modify_in_flight (InFlight.set_backend_id rid id) else ret ()
  | None => ret ()
  end.
