(* ===== verification/Rows.v ===== *)
(** Binding JSON arguments and decoding rows for the three drivers:
    [src/src/driver/postgres.rs], [mysql.rs], [sqlite.rs] and the SQLite
    decoder of [src/src/transaction.rs]. *)

From Stdlib Require Import ZArith Lia Bool Ascii String SpecFloat.
From stdpp Require Import base list strings gmap.
From S2P Require Import Prelude RustStd Redact Text Errors Json Params F64 InFlight Interval SqliteCancel Sqlx.

(** * Binding *)

(** [Number::as_f64]: without arbitrary precision every number has one. *)
Definition number_as_f64 (n : number) : spec_float :=
  match n with
  | PosInt n | NegInt n => f64_of_Z n
  | Float f => f
  end.

(** [as_i64], else [as_f64]; the [to_string] arm is never reached. *)
Definition bind_number (n : number) : sqlx_arg :=
  match as_i64 (VNumber n) with
  | Some i => ArgI64 i
  | None => ArgF64 (number_as_f64 n)
  end.

Definition bind_pg (v : value) : sqlx_arg :=
  match v with
  | VNull => ArgNull
  | VBool b => ArgBool b
  | VNumber n => bind_number n
  | VString s => ArgText s
  | VArray _ | VObject _ => ArgJson v
  end.

Definition bind_mysql (v : value) : sqlx_arg :=
  match v with
  | VNull => ArgNull
  | VBool b => ArgBool b
  | VNumber n => bind_number n
  | VString s => ArgText s
  | VArray _ | VObject _ => ArgJson v
  end.

(** [Value::to_string] is serde_json's printer. *)
Definition bind_sqlite (to_json : value -> string) (v : value) : sqlx_arg :=
  match v with
  | VNull => ArgNull
  | VBool b => ArgBool b
  | VNumber n => bind_number n
  | VString s => ArgText s
  | VArray _ | VObject _ => ArgText (to_json v)
  end.

(** * Decoding *)

Section Decode.
Context `{SqlxRow Row}.

(** [Number::from_f64]. *)
Definition json_f64 (f : spec_float) : value :=
  if f64_is_finite f then VNumber (Float f) else VNull.

Definition json_base64 (bs : list byte) : value :=
  VObject [("base64", VString (base64_standard bs))]%string.

(** [match r { Ok(Some(v)) => Ok(f(v)), Ok(None) => Ok(Null), Err(e) => Err(e) }]. *)
Definition or_null {A} (f : A -> value) (r : result string (option A)) : result string value :=
  match r with
  | Ok (Some v) => Ok (f v)
  | Ok None => Ok VNull
  | Err e => Err e
  end.

(** [matches!(type_name, a | b | ..)]. *)
Definition one_of (names : list string) (s : string) : bool := existsb (String.eqb s) names.

Definition decode_pg_column (row : Row) (idx : nat) (type_name : string) : result string value :=
  if one_of ["BOOL"; "BOOLEAN"]%string type_name then or_null VBool (try_get_bool row idx)
  else if one_of ["INT2"; "SMALLINT"]%string type_name then or_null json_i64 (try_get_i16 row idx)
  else if one_of ["INT4"; "INTEGER"]%string type_name then or_null json_i64 (try_get_i32 row idx)
  else if one_of ["INT8"; "BIGINT"]%string type_name then or_null json_i64 (try_get_i64 row idx)
  else if one_of ["FLOAT4"; "FLOAT8"; "REAL"; "DOUBLE PRECISION"]%string type_name then
    or_null json_f64 (try_get_f64 row idx)
  else if one_of ["NUMERIC"; "DECIMAL"]%string type_name then
    or_null (fun d => VString (decimal_to_string d)) (try_get_decimal row idx)
  else if one_of ["JSON"; "JSONB"]%string type_name then or_null id (try_get_json row idx)
  else if one_of ["UUID"]%string type_name then
    or_null (fun u => VString (uuid_to_string u)) (try_get_uuid row idx)
  else if one_of ["TIMESTAMPTZ"; "TIMESTAMP WITH TIME ZONE"]%string type_name then
    or_null (fun t => VString (to_rfc3339 t)) (try_get_timestamptz row idx)
  else if one_of ["TIMESTAMP"; "TIMESTAMP WITHOUT TIME ZONE"]%string type_name then
    or_null (fun t => VString (format_datetime t)) (try_get_timestamp row idx)
  else if one_of ["DATE"]%string type_name then
    or_null (fun d => VString (date_to_string d)) (try_get_date row idx)
  else if one_of ["TIME"; "TIME WITHOUT TIME ZONE"]%string type_name then
    or_null (fun t => VString (format_time t)) (try_get_time row idx)
  else if one_of ["INTERVAL"]%string type_name then
    or_null (fun iv => VString (Interval.pg_interval_to_iso8601 iv)) (try_get_interval row idx)
  else if one_of ["BYTEA"]%string type_name then or_null json_base64 (try_get_bytes row idx)
  else or_null VString (try_get_string row idx).

(** [if cond && let Ok(v) = row.try_get(idx) { return Ok(..) }]: fall through
    to [next] when the condition or the decode fails. *)
Definition probe {A} (cond : bool) (r : result string (option A)) (f : A -> value)
  (next : result string value) : result string value :=
  if cond then
    match r with
    | Ok (Some v) => Ok (f v)
    | Ok None => Ok VNull
    | Err _ => next
    end
  else next.

Definition decode_mysql_column (row : Row) (idx : nat) (type_name : string) : result string value :=
  let upper := str_upper type_name in
  let is_boolean := str_contains "BOOLEAN" upper || String.eqb upper "TINYINT(1)" in
  let is_integer :=
    starts_with "INT" upper || starts_with "TINYINT" upper || starts_with "SMALLINT" upper ||
    starts_with "MEDIUMINT" upper || starts_with "BIGINT" upper in
  let is_float := String.eqb upper "FLOAT" || String.eqb upper "DOUBLE" in
  let is_decimal :=
    String.eqb upper "NUMERIC" || String.eqb upper "DECIMAL" || String.eqb upper "NEWDECIMAL" in
  let is_datetime := String.eqb upper "DATETIME" || String.eqb upper "TIMESTAMP" in
  let is_time :=
    starts_with "TIME" upper && negb (String.eqb upper "TIMESTAMP") &&
    negb (String.eqb upper "DATETIME") in
  let is_binary := str_contains "BLOB" upper || str_contains "BINARY" upper in
  probe is_boolean (try_get_bool row idx) VBool
  (probe is_integer (try_get_i64 row idx) json_i64
  (probe is_float (try_get_f64 row idx) json_f64
  (probe is_decimal (try_get_decimal row idx) (fun d => VString (decimal_to_string d))
  (probe (String.eqb upper "JSON") (try_get_json row idx) id
  (probe is_datetime (try_get_timestamp row idx) (fun t => VString (format_datetime t))
  (probe (String.eqb upper "DATE") (try_get_date row idx) (fun d => VString (date_to_string d))
  (probe is_time (try_get_string row idx) VString
  (probe is_binary (try_get_bytes row idx) json_base64
  (or_null VString (try_get_string row idx)))))))))).

Definition decode_sqlite_column (row : Row) (idx : nat) : result string value :=
  probe true (try_get_i64 row idx) json_i64
  (probe true (try_get_f64 row idx) json_f64
  (probe true (try_get_bool row idx) VBool
  (probe true (try_get_string row idx) VString
  (probe true (try_get_bytes row idx) json_base64
  (Err "no decode path matched"%string))))).

(** The decoder of [transaction::sqlite::execute]. *)
Definition decode_sqlite_tx_column (row : Row) (idx : nat) : result string value :=
  probe true (try_get_i64 row idx) json_i64
  (probe true (try_get_string row idx) VString
  (Ok VNull)).

(** [decode(..).unwrap_or_else(|e| { warn!(..); Value::Null })]. *)
Definition value_or_null (r : result string value) : value :=
  match r with Ok v => v | Err _ => VNull end.

(** [for (i, col) in row.columns().iter().enumerate() { obj.insert(..) }]. *)
Fixpoint insert_columns (decode : nat -> string -> result string value) (i : nat)
  (cols : list (string * string)) (obj : json_map) : json_map :=
  match cols with
  | [] => obj
  | (name, type_name) :: cols' =>
      insert_columns decode (S i) cols'
        (obj_insert name (value_or_null (decode i type_name)) obj)
  end.

Definition row_to_json_pg (row : Row) : result SqlError value :=
  Ok (VObject (insert_columns (decode_pg_column row) 0 (row_columns row) [])).

Definition row_to_json_mysql (row : Row) : result SqlError value :=
  Ok (VObject (insert_columns (decode_mysql_column row) 0 (row_columns row) [])).

Definition row_to_json_sqlite (row : Row) : result SqlError value :=
  Ok (VObject (insert_columns (fun i _ => decode_sqlite_column row i) 0 (row_columns row) [])).

Definition row_to_json_sqlite_tx (row : Row) : result SqlError value :=
  Ok (VObject (insert_columns (fun i _ => decode_sqlite_tx_column row i) 0 (row_columns row) [])).

(** [for row in &rows { out.push(f(row)?); }]. *)
Fixpoint decode_rows (f : Row -> result SqlError value) (rs : list Row)
  : result SqlError (list value) :=
  match rs with
  | [] => Ok []
  | r :: rs' => let? v := f r in let? vs := decode_rows f rs' in Ok (v :: vs)
  end.

(** [rows.first().map(|r| r.columns()..name()).unwrap_or_default()]. *)
Definition column_names (rs : list Row) : list string :=
  match rs with
  | [] => []
  | r :: _ => map fst (row_columns r)
  end.

(** [finish_rows], and the same lines inlined in the other drivers. *)
Definition finish_rows (f : Row -> result SqlError value) (rs : list Row)
  : result SqlError RowBatch :=
  let? out := decode_rows f rs in
  Ok {| columns := column_names rs; rows := out; rows_affected := None;
        truncated := false; has_more := false |}.
End Decode.

(** * MySQL grants *)

(** [grant_line_implies_kill]. *)
Definition grant_line_implies_kill (line : string) : bool :=
  let upper := str_upper line in
  let priv_list :=
    match split_once_str " ON " upper with
    | Some (before, _) => before
    | None => upper
    end in
  let priv_list := trim (trim_start_matches "GRANT" priv_list) in
  existsb (one_of ["PROCESS"; "CONNECTION_ADMIN"; "ALL PRIVILEGES"]%string)
    (map trim (split_char "," priv_list)).

Example grant_examples :
  map grant_line_implies_kill
    ["GRANT SELECT, process ON *.* TO `app`@`%`";
     "GRANT SELECT ON `process`.* TO `app`@`%`";
     "GRANT ALL PRIVILEGES ON `shop`.* TO `app`@`%`"]%string
  = [true; false; true].
Proof. reflexivity. Qed.

(** * Rows as objects *)

(** The last column called [k], counting from [i]. *)
Fixpoint last_column (k : string) (i : nat) (cols : list (string * string))
  : option (nat * string) :=
  match cols with
  | [] => None
  | (name, type_name) :: cols' =>
      match last_column k (S i) cols' with
      | Some c => Some c
      | None => if String.eqb k name then Some (i, type_name) else None
      end
  end.

Lemma insert_columns_get decode k cols : forall i obj,
  obj_get k (insert_columns decode i cols obj) =
  match last_column k i cols with
  | Some (j, t) => Some (value_or_null (decode j t))
  | None => obj_get k obj
  end.
Proof.
  induction cols as [|[name t] cols IH]; intros i obj; [done|]. simpl.
  rewrite IH, obj_get_insert. destruct (last_column k (S i) cols) as [[j t']|]; [done|].
  by destruct (String.eqb k name).
Qed.

Section RowFacts.
Context `{SqlxRow Row}.

(** [row_to_json] of a driver, its column decoder given. *)
Definition is_row_object (decode : nat -> string -> result string value) (row : Row)
  (r : result SqlError value) : Prop :=
  exists obj, r = Ok (VObject obj) /\
    forall k, obj_get k obj =
      match last_column k 0 (row_columns row) with
      | Some (j, t) => Some (value_or_null (decode j t))
      | None => None
      end.

(** Every driver turns a row into a JSON object and never fails on it: the
    keys are exactly the column names, a name that occurs twice carries its last
    column, and a column that does not decode is null. *)
Theorem rows_decode_to_objects (row : Row) :
  is_row_object (decode_pg_column row) row (row_to_json_pg row) /\
  is_row_object (decode_mysql_column row) row (row_to_json_mysql row) /\
  is_row_object (fun i _ => decode_sqlite_column row i) row (row_to_json_sqlite row) /\
  is_row_object (fun i _ => decode_sqlite_tx_column row i) row (row_to_json_sqlite_tx row).
Proof.
  repeat split; eexists; (split; [reflexivity|]); intros k; by rewrite insert_columns_get.
Qed.

Lemma decode_rows_ok f rs :
  (forall r, exists v, f r = Ok v) -> exists vs, decode_rows (Row := Row) f rs = Ok vs /\
    length vs = length rs.
Proof.
  intros Hf. induction rs as [|r rs (vs & IH & El)]; [by exists []|]. simpl.
  destruct (Hf r) as [v ->]. rewrite IH. simpl. exists (v :: vs). simpl. by rewrite El.
Qed.

Lemma finish_rows_ok f rs :
  (forall r, exists v, f r = Ok v) -> exists b, finish_rows (Row := Row) f rs = Ok b.
Proof.
  intros Hf. unfold finish_rows. destruct (decode_rows_ok f rs Hf) as (vs & -> & _). by eexists.
Qed.
End RowFacts.

(** * Strict rows

    sqlx refuses a [try_get] whose Rust type is not the column's own type (the
    comment on integer widths in [decode_pg_column] relies on it).  The rows
    below are strict: a cell carries its native type and value. *)

Section Strict.
Context `{SqlxTypes}.

Inductive cell : Type :=
| CNull (type_name : string)
| CBool (b : bool)
| CInt2 (n : Z)
| CInt4 (n : Z)
| CInt8 (n : Z)
| CFloat4 (f : spec_float)
| CFloat8 (f : spec_float)
| CNumeric (d : Decimal)
| CJson (v : value)
| CUuid (u : Uuid)
| CTimestamptz (t : DateTimeUtc)
| CTimestamp (t : NaiveDateTime)
| CDate (d : NaiveDate)
| CTime (t : NaiveTime)
| CInterval (iv : Interval.PgInterval)
| CBytes (bs : list byte)
| CText (s : string).

(** The names [PgTypeInfo::name] gives the built-in types; a null cell has its
    column's type. *)
Definition pg_type_name (c : cell) : string :=
  match c with
  | CNull t => t
  | CText _ => "TEXT"
  | CBool _ => "BOOL"
  | CInt2 _ => "INT2"
  | CInt4 _ => "INT4"
  | CInt8 _ => "INT8"
  | CFloat4 _ => "FLOAT4"
  | CFloat8 _ => "FLOAT8"
  | CNumeric _ => "NUMERIC"
  | CJson _ => "JSONB"
  | CUuid _ => "UUID"
  | CTimestamptz _ => "TIMESTAMPTZ"
  | CTimestamp _ => "TIMESTAMP"
  | CDate _ => "DATE"
  | CTime _ => "TIME"
  | CInterval _ => "INTERVAL"
  | CBytes _ => "BYTEA"
  end.

Definition strict_row : Type := list (string * cell).

Definition strict {A} (get : cell -> option A) (row : strict_row) (i : nat)
  : result string (option A) :=
  match row !! i with
  | None => Err "ColumnIndexOutOfBounds"%string
  | Some (_, CNull _) => Ok None
  | Some (_, c) => match get c with
                   | Some a => Ok (Some a)
                   | None => Err "mismatched types"%string
                   end
  end.

#[local] Instance strict_rows : SqlxRow strict_row := {|
  row_columns row := map (fun nc => (fst nc, pg_type_name (snd nc))) row;
  try_get_bool := strict (fun c => match c with CBool b => Some b | _ => None end);
  try_get_i16 := strict (fun c => match c with CInt2 n => Some n | _ => None end);
  try_get_i32 := strict (fun c => match c with CInt4 n => Some n | _ => None end);
  try_get_i64 := strict (fun c => match c with CInt8 n => Some n | _ => None end);
  try_get_f64 := strict (fun c => match c with CFloat8 f => Some f | _ => None end);
  try_get_decimal := strict (fun c => match c with CNumeric d => Some d | _ => None end);
  try_get_json := strict (fun c => match c with CJson v => Some v | _ => None end);
  try_get_uuid := strict (fun c => match c with CUuid u => Some u | _ => None end);
  try_get_timestamptz := strict (fun c => match c with CTimestamptz t => Some t | _ => None end);
  try_get_timestamp := strict (fun c => match c with CTimestamp t => Some t | _ => None end);
  try_get_date := strict (fun c => match c with CDate d => Some d | _ => None end);
  try_get_time := strict (fun c => match c with CTime t => Some t | _ => None end);
  try_get_interval := strict (fun c => match c with CInterval iv => Some iv | _ => None end);
  try_get_bytes := strict (fun c => match c with CBytes bs => Some bs | _ => None end);
  try_get_string := strict (fun c => match c with CText s => Some s | _ => None end);
|}.

(** The JSON value of a cell. *)
Definition cell_json (c : cell) : value :=
  match c with
  | CNull _ => VNull
  | CBool b => VBool b
  | CInt2 n | CInt4 n | CInt8 n => json_i64 n
  | CFloat4 f | CFloat8 f => json_f64 f
  | CNumeric d => VString (decimal_to_string d)
  | CJson v => v
  | CUuid u => VString (uuid_to_string u)
  | CTimestamptz t => VString (to_rfc3339 t)
  | CTimestamp t => VString (format_datetime t)
  | CDate d => VString (date_to_string d)
  | CTime t => VString (format_time t)
  | CInterval iv => VString (Interval.pg_interval_to_iso8601 iv)
  | CBytes bs => json_base64 bs
  | CText s => VString s
  end.

Definition is_float4 (c : cell) : bool := match c with CFloat4 _ => true | _ => false end.

(** Over strict rows the Postgres decoder carries every cell of every
    built-in type to its JSON value, null included, except [FLOAT4]: a [REAL]
    column is asked for as an [f64], does not decode, and comes out as null
    whatever its value. *)
Theorem pg_strict_cells (row : strict_row) i name c :
  row !! i = Some (name, c) ->
  value_or_null (decode_pg_column row i (pg_type_name c)) =
  (if is_float4 c then VNull else cell_json c).
Proof.
  intros E. destruct c; unfold decode_pg_column, or_null; simpl; unfold strict; rewrite E; try done.
  by repeat case_match.
Qed.

(** SQLite's storage classes. *)
Definition sqlite_class (c : cell) : bool :=
  match c with CNull _ | CInt8 _ | CFloat8 _ | CText _ | CBytes _ => true | _ => false end.

Definition tx_loses (c : cell) : bool :=
  match c with CFloat8 _ | CBytes _ => true | _ => false end.

(** Over strict rows the SQLite decoder carries every storage class to its
    JSON value; inside a transaction the decoder is another one, and real
    numbers and blobs come out as null. *)
Theorem sqlite_tx_decoder_differs (row : strict_row) i name c :
  row !! i = Some (name, c) -> sqlite_class c = true ->
  value_or_null (decode_sqlite_column row i) = cell_json c /\
  value_or_null (decode_sqlite_tx_column row i) = (if tx_loses c then VNull else cell_json c).
Proof.
  intros E Hc. destruct c; try discriminate Hc;
    unfold decode_sqlite_column, decode_sqlite_tx_column; simpl; unfold strict; by rewrite E.
Qed.
End Strict.

(** Value types printed as themselves: an instance of the parameters. *)
Module ToyTypes.

#[export] Instance types : SqlxTypes := {|
  Decimal := string; Uuid := string; DateTimeUtc := string; NaiveDateTime := string;
  NaiveDate := string; NaiveTime := string;
  decimal_to_string := id; uuid_to_string := id; to_rfc3339 := id; format_datetime := id;
  date_to_string := id; format_time := id; base64_standard := bytes_str;
|}.

Definition demo_row : strict_row :=
  [("id", CInt8 7); ("price", CFloat4 (f64_of_Z 3)); ("total", CFloat8 (f64_of_Z 3))]%string.

Lemma pg_strict_cells_witness :
  value_or_null (decode_pg_column (H0 := strict_rows) demo_row 0 "INT8") = json_i64 7 /\
  value_or_null (decode_pg_column (H0 := strict_rows) demo_row 1 "FLOAT4") = VNull.
Proof.
  exact (conj (pg_strict_cells demo_row 0 "id" (CInt8 7) eq_refl)
              (pg_strict_cells demo_row 1 "price" (CFloat4 (f64_of_Z 3)) eq_refl)).
Defined.

Lemma sqlite_tx_decoder_differs_witness :
  value_or_null (decode_sqlite_column (H0 := strict_rows) demo_row 2) = json_f64 (f64_of_Z 3) /\
  value_or_null (decode_sqlite_tx_column (H0 := strict_rows) demo_row 2) = VNull.
Proof.
  exact (sqlite_tx_decoder_differs demo_row 2 "total" (CFloat8 (f64_of_Z 3)) eq_refl eq_refl).
Defined.

End ToyTypes.

(** Integers bind exactly while they fit an [i64].  Larger [u64] values are
    bound as doubles by every driver, so different parameters reach the
    database as the same number. *)
Theorem integer_binding to_json :
  (forall n, i64_min <= n <= i64_max ->
     bind_pg (json_i64 n) = ArgI64 n /\ bind_mysql (json_i64 n) = ArgI64 n /\
     bind_sqlite to_json (json_i64 n) = ArgI64 n) /\
  (exists m n, i64_max < m < n /\ n <= u64_max /\
     let f := ArgF64 (f64_of_Z m) in
     bind_pg (json_i64 m) = f /\ bind_pg (json_i64 n) = f /\
     bind_mysql (json_i64 m) = f /\ bind_mysql (json_i64 n) = f /\
     bind_sqlite to_json (json_i64 m) = f /\ bind_sqlite to_json (json_i64 n) = f).
Proof.
  split.
  - intros n Hn. unfold json_i64, bind_pg, bind_mysql, bind_sqlite, bind_number, as_i64.
    destruct (n <? 0) eqn:E; [done|]. by rewrite (proj2 (Z.leb_le n i64_max)) by lia.
  - exists (2 ^ 63), (2 ^ 63 + 1). repeat split; by vm_compute.
Qed.

(** The cancel privilege probe reads the privilege list only: the scope a
    privilege is granted on does not change the answer, so [ALL PRIVILEGES] on
    one schema passes. *)
Theorem grant_scope_ignored privs scope scope' :
  str_contains " ON " (str_upper privs +:+ " ON") = false ->
  grant_line_implies_kill (privs +:+ " ON " +:+ scope) =
  grant_line_implies_kill (privs +:+ " ON " +:+ scope').
Proof.
  intros Hp. unfold grant_line_implies_kill, str_upper in *. rewrite !str_map_app.
  by rewrite !(split_once_str_first " ON" " ").
Qed.

Lemma grant_scope_ignored_witness :
  grant_line_implies_kill "GRANT ALL PRIVILEGES ON `shop`.* TO `app`@`%`" =
  grant_line_implies_kill "GRANT ALL PRIVILEGES ON *.* TO `app`@`%`".
Proof.
  apply (grant_scope_ignored "GRANT ALL PRIVILEGES" "`shop`.* TO `app`@`%`" "*.* TO `app`@`%`").
  reflexivity.
Defined.
