(* ===== verification/Drivers.v ===== *)
(** The execute paths of the three drivers: [src/src/driver/postgres.rs],
    [mysql.rs] and [sqlite.rs], over any server. *)

From Stdlib Require Import ZArith Lia Bool Ascii String SpecFloat.
From stdpp Require Import base list strings gmap.
From S2P Require Import Prelude RustStd Redact Text Errors Json Params F64 InFlight Interval SqliteCancel Sqlx Rows.

Section Drivers.
Context `{SqlxRow Row} `{!Server Row} (to_json : value -> string)
        (debug_id : InFlight.BackendId -> string) (debug_strings : list string -> string).

Definition wrong_pool {A} (driver what : string) : M A :=
  raise (InvalidSpec (driver +:+ " " +:+ what +:+ " with non-" +:+ driver +:+ " pool handle")).

(** * Postgres *)

Definition pg_args (args : list BoundParam) : list sqlx_arg :=
  map (fun a => bind_pg (bp_value a)) args.

(** [SELECT set_config($1, $2, true)] for every session variable. *)
Definition set_configs (session : SessionVars) : M () :=
  for_each (fun '(k, v) =>
    let! _ := checked reply_count
                (Exec OnTx "SELECT set_config($1, $2, true)" [ArgText k; ArgText v]) in
    ret ()) (values session).

Definition pg_execute (pool : PoolHandle) (stmt : PreparedStmt) (args : list BoundParam)
  (session : SessionVars) : M RowBatch :=
  match pool with
  | PgPool =>
      if session_is_empty session then
        let! rs := checked reply_rows (FetchAll OnPool (stmt_sql stmt) (pg_args args)) in
        lift (finish_rows row_to_json_pg rs)
      else
        with_tx OnPool
          (let! _ := set_configs session in
           let! rs := checked reply_rows (FetchAll OnTx (stmt_sql stmt) (pg_args args)) in
           lift (finish_rows row_to_json_pg rs))
  | _ => wrong_pool "postgres" "driver invoked"
  end.

Definition pg_execute_affected (pool : PoolHandle) (stmt : PreparedStmt) (args : list BoundParam)
  (session : SessionVars) : M Z :=
  match pool with
  | PgPool =>
      if session_is_empty session then
        checked reply_count (Exec OnPool (stmt_sql stmt) (pg_args args))
      else
        with_tx OnPool
          (let! _ := set_configs session in
           checked reply_count (Exec OnTx (stmt_sql stmt) (pg_args args)))
  | _ => wrong_pool "postgres" "driver invoked"
  end.

(** [SELECT pg_backend_pid()] on the pinned connection, noted in the registry. *)
Definition pg_capture_pid (ctx : ExecCtx) : M () :=
  let! pid := checked reply_scalar (FetchOne OnConn "SELECT pg_backend_pid()") in
  note_backend ctx (InFlight.PgPid pid).

Definition pg_execute_with_ctx (pool : PoolHandle) (stmt : PreparedStmt) (args : list BoundParam)
  (session : SessionVars) (ctx : ExecCtx) : M RowBatch :=
  match pool with
  | PgPool =>
      with_conn
        (let! _ := pg_capture_pid ctx in
         if negb (session_is_empty session) then
           with_tx OnConn
             (let! _ := set_configs session in
              let! rs := checked reply_rows (FetchAll OnTx (stmt_sql stmt) (pg_args args)) in
              lift (finish_rows row_to_json_pg rs))
         else
           let! rs := checked reply_rows (FetchAll OnConn (stmt_sql stmt) (pg_args args)) in
           lift (finish_rows row_to_json_pg rs))
  | _ => wrong_pool "postgres" "driver invoked"
  end.

Definition pg_execute_affected_with_ctx (pool : PoolHandle) (stmt : PreparedStmt)
  (args : list BoundParam) (session : SessionVars) (ctx : ExecCtx) : M Z :=
  match pool with
  | PgPool =>
      with_conn
        (let! _ := pg_capture_pid ctx in
         if negb (session_is_empty session) then
           with_tx OnConn
             (let! _ := set_configs session in
              checked reply_count (Exec OnTx (stmt_sql stmt) (pg_args args)))
         else checked reply_count (Exec OnConn (stmt_sql stmt) (pg_args args)))
  | _ => wrong_pool "postgres" "driver invoked"
  end.

Definition pg_cancel_backend (pool : PoolHandle) (id : InFlight.BackendId) : M () :=
  match pool with
  | PgPool =>
      match id with
      | InFlight.PgPid pid =>
          let! _ := checked reply_count
                      (Exec OnPool "SELECT pg_cancel_backend($1)" [ArgI32 pid]) in
          ret ()
      | other =>
          raise (InvalidSpec
                   ("postgres cancel_backend: expected Postgres backend id, got " +:+ debug_id other))
      end
  | _ => wrong_pool "postgres" "cancel_backend invoked"
  end.

Definition pg_health_check (pool : PoolHandle) : M () :=
  match pool with
  | PgPool => let! _ := checked reply_scalar (FetchOne OnPool "SELECT 1") in ret ()
  | _ => wrong_pool "postgres" "health_check invoked"
  end.

(** * MySQL / MariaDB *)

Definition mysql_args (args : list BoundParam) : list sqlx_arg :=
  map (fun a => bind_mysql (bp_value a)) args.

Definition set_var_sql (k : string) : string := "SET @" +:+ k +:+ " = ?".
Definition null_var_sql (k : string) : string := "SET @" +:+ k +:+ " = NULL".

(** [SET @k = ?] for every session variable, stopping at the first error. *)
Definition set_vars (t : target) (session : SessionVars) : M () :=
  for_each (fun '(k, v) =>
    let! _ := checked reply_count (Exec t (set_var_sql k) [ArgText v]) in ret ())
    (values session).

(** [let _ = SET @k = NULL] for every session variable: errors are ignored. *)
Definition clear_vars (t : target) (session : SessionVars) : M () :=
  for_each (fun '(k, _) =>
    let! _ := perform reply_count (Exec t (null_var_sql k) []) in ret ())
    (values session).

Definition mysql_execute (pool : PoolHandle) (stmt : PreparedStmt) (args : list BoundParam)
  (session : SessionVars) : M RowBatch :=
  match pool with
  | MysqlPool =>
      if session_is_empty session then
        let! rs := checked reply_rows (FetchAll OnPool (stmt_sql stmt) (mysql_args args)) in
        lift (finish_rows row_to_json_mysql rs)
      else
        with_conn
          (let! _ := set_vars OnConn session in
           let! exec_result := perform reply_rows (FetchAll OnConn (stmt_sql stmt) (mysql_args args)) in
           let! _ := clear_vars OnConn session in
           let! rs := lift (rmap_err from_execute exec_result) in
           lift (finish_rows row_to_json_mysql rs))
  | _ => wrong_pool "mysql" "driver invoked"
  end.

Definition mysql_execute_affected (pool : PoolHandle) (stmt : PreparedStmt)
  (args : list BoundParam) (session : SessionVars) : M Z :=
  match pool with
  | MysqlPool =>
      if session_is_empty session then
        checked reply_count (Exec OnPool (stmt_sql stmt) (mysql_args args))
      else
        with_conn
          (let! _ := set_vars OnConn session in
           let! exec_result := perform reply_count (Exec OnConn (stmt_sql stmt) (mysql_args args)) in
           let! _ := clear_vars OnConn session in
           lift (rmap_err from_execute exec_result))
  | _ => wrong_pool "mysql" "driver invoked"
  end.

Definition mysql_capture_id (ctx : ExecCtx) : M () :=
  let! conn_id := checked reply_scalar (FetchOne OnConn "SELECT CONNECTION_ID()") in
  note_backend ctx (InFlight.MysqlConn conn_id).

Definition mysql_execute_with_ctx (pool : PoolHandle) (stmt : PreparedStmt)
  (args : list BoundParam) (session : SessionVars) (ctx : ExecCtx) : M RowBatch :=
  match pool with
  | MysqlPool =>
      with_conn
        (let! _ := mysql_capture_id ctx in
         let! _ := set_vars OnConn session in
         let! exec_result := perform reply_rows (FetchAll OnConn (stmt_sql stmt) (mysql_args args)) in
         let! _ := clear_vars OnConn session in
         let! rs := lift (rmap_err from_execute exec_result) in
         lift (finish_rows row_to_json_mysql rs))
  | _ => wrong_pool "mysql" "driver invoked"
  end.

Definition mysql_execute_affected_with_ctx (pool : PoolHandle) (stmt : PreparedStmt)
  (args : list BoundParam) (session : SessionVars) (ctx : ExecCtx) : M Z :=
  match pool with
  | MysqlPool =>
      with_conn
        (let! _ := mysql_capture_id ctx in
         let! _ := set_vars OnConn session in
         let! exec_result := perform reply_count (Exec OnConn (stmt_sql stmt) (mysql_args args)) in
         let! _ := clear_vars OnConn session in
         lift (rmap_err from_execute exec_result))
  | _ => wrong_pool "mysql" "driver invoked"
  end.

(** The [while let Some(item) = stream.try_next()] loop of
    [execute_multi_result]: [None] is a boundary.  [sets] is in order,
    [current] the buffer; the row decoder may fail. *)
Fixpoint group_items (f : Row -> result SqlError value) (items : list (option Row))
  (sets : list (list value)) (current : list value)
  : result SqlError () * list (list value) * list value :=
  match items with
  | [] => (Ok (), sets, current)
  | Some row :: items' =>
      match f row with
      | Ok v => group_items f items' sets (current ++ [v])
      | Err e => (Err e, sets, current)
      end
  | None :: items' =>
      match current with
      | [] => group_items f items' sets []
      | _ => group_items f items' (sets ++ [current]) []
      end
  end.

(** The stream's own error comes after its items. *)
Definition stream_sets (f : Row -> result SqlError value)
  (reply : list (option Row) * option sqlx_error) : result SqlError () * list (list value) :=
  let '(r, sets, current) := group_items f (fst reply) [] [] in
  let r := match r, snd reply with
           | Ok (), Some e => Err (from_execute e)
           | r, _ => r
           end in
  (r, match current with [] => sets | _ => sets ++ [current] end).

Definition perform_many (c : call) : M (list (option Row) * option sqlx_error) := fun w =>
  let r := reply_many (events w) c in
  (Ok r, log c (match snd r with None => true | Some _ => false end) w).

Definition mysql_execute_multi_result (pool : PoolHandle) (stmt : PreparedStmt)
  (args : list BoundParam) (session : SessionVars) : M (list (list value)) :=
  match pool with
  | MysqlPool =>
      with_conn
        (let! _ := set_vars OnConn session in
         let! reply := perform_many (FetchMany OnConn (stmt_sql stmt) (mysql_args args)) in
         let streamed := stream_sets row_to_json_mysql reply in
         let! _ := clear_vars OnConn session in
         let! _ := lift (fst streamed) in
         ret (snd streamed))
  | _ => wrong_pool "mysql" "driver invoked"
  end.

Definition mysql_cancel_backend (pool : PoolHandle) (id : InFlight.BackendId) : M () :=
  match pool with
  | MysqlPool =>
      match id with
      | InFlight.MysqlConn connection_id =>
          let! _ := checked reply_count (Exec OnPool ("KILL QUERY " +:+ show_u connection_id) []) in
          ret ()
      | other =>
          raise (InvalidSpec
                   ("mysql cancel_backend: expected MySQL backend id, got " +:+ debug_id other))
      end
  | _ => wrong_pool "mysql" "cancel_backend invoked"
  end.

Definition mysql_health_check (pool : PoolHandle) : M () :=
  match pool with
  | MysqlPool => let! _ := checked reply_scalar (FetchOne OnPool "SELECT 1") in ret ()
  | _ => wrong_pool "mysql" "health_check invoked"
  end.

Definition missing_grant (grants : list string) : string :=
  "MySQL pool user lacks the PROCESS / CONNECTION_ADMIN privilege required " +:+
  "to cancel another connection's in-flight statement (KILL QUERY). " +:+
  "Grant one of these — `GRANT PROCESS ON *.* TO <user>@<host>` (MySQL 5.7+) " +:+
  "or `GRANT CONNECTION_ADMIN ON *.* TO <user>@<host>` (MySQL 8+) — or set " +:+
  "`pool.require_cancel_privilege: false` if cancel-on-timeout becoming a " +:+
  "no-op is intentional. Reported grants: " +:+ debug_strings grants.

(** [query_as::<(String,)>]: the text of each reported grant. *)
Definition mysql_verify_cancel_privilege (grant_text : Row -> string) (pool : PoolHandle) : M () :=
  match pool with
  | MysqlPool =>
      let! rs := checked reply_rows (FetchAll OnPool "SHOW GRANTS FOR CURRENT_USER" []) in
      let grants := map grant_text rs in
      if existsb grant_line_implies_kill grants then ret ()
      else raise (InvalidSpec (missing_grant grants))
  | _ => wrong_pool "mysql" "verify_cancel_privilege invoked"
  end.

(** * SQLite *)

Definition sqlite_args (args : list BoundParam) : list sqlx_arg :=
  map (fun a => bind_sqlite to_json (bp_value a)) args.

Definition sqlite_execute (pool : PoolHandle) (stmt : PreparedStmt) (args : list BoundParam)
  (session : SessionVars) : M RowBatch :=
  match pool with
  | SqlitePool =>
      let! rs := checked reply_rows (FetchAll OnPool (stmt_sql stmt) (sqlite_args args)) in
      lift (finish_rows row_to_json_sqlite rs)
  | _ => wrong_pool "sqlite" "driver invoked"
  end.

Definition sqlite_execute_affected (pool : PoolHandle) (stmt : PreparedStmt)
  (args : list BoundParam) (session : SessionVars) : M Z :=
  match pool with
  | SqlitePool => checked reply_count (Exec OnPool (stmt_sql stmt) (sqlite_args args))
  | _ => wrong_pool "sqlite" "driver invoked"
  end.

(** [SqliteDriver::start]: lock the handle, then install and register. *)
Definition sqlite_start (conn : nat) : M SqliteCancel.Running :=
  let! _ := checked reply_unit LockHandle in
  on_sqlite (SqliteCancel.start conn).

Definition sqlite_finish (conn : nat) (r : SqliteCancel.Running) : M () :=
  let! _ := on_sqlite (fun d => ((), SqliteCancel.running_drop r d)) in
  let! locked := perform reply_unit LockHandle in
  on_sqlite (fun d =>
    ((), if is_ok locked then
           SqliteCancel.mkDriver (SqliteCancel.cells d) (SqliteCancel.handles d)
             (SqliteCancel.next_handle d) (delete conn (SqliteCancel.handlers d))
         else d)).

(** [conn] names the pooled connection [acquire] returns. *)
Definition sqlite_execute_with_ctx (conn : nat) (pool : PoolHandle) (stmt : PreparedStmt)
  (args : list BoundParam) (session : SessionVars) (ctx : ExecCtx) : M RowBatch :=
  match pool with
  | SqlitePool =>
      with_conn
        (let! running := sqlite_start conn in
         let! _ := note_backend ctx (InFlight.SqliteHandle (SqliteCancel.nonce running)) in
         let! rows_result := attempt (checked reply_rows (FetchAll OnConn (stmt_sql stmt) (sqlite_args args))) in
         let! _ := sqlite_finish conn running in
         let! rs := lift rows_result in
         lift (finish_rows row_to_json_sqlite rs))
  | _ => wrong_pool "sqlite" "driver invoked"
  end.

Definition sqlite_execute_affected_with_ctx (conn : nat) (pool : PoolHandle) (stmt : PreparedStmt)
  (args : list BoundParam) (session : SessionVars) (ctx : ExecCtx) : M Z :=
  match pool with
  | SqlitePool =>
      with_conn
        (let! running := sqlite_start conn in
         let! _ := note_backend ctx (InFlight.SqliteHandle (SqliteCancel.nonce running)) in
         let! result := attempt (checked reply_count (Exec OnConn (stmt_sql stmt) (sqlite_args args))) in
         let! _ := sqlite_finish conn running in
         lift result)
  | _ => wrong_pool "sqlite" "driver invoked"
  end.

Definition sqlite_health_check (pool : PoolHandle) : M () :=
  match pool with
  | SqlitePool => let! _ := checked reply_scalar (FetchOne OnPool "SELECT 1") in ret ()
  | _ => wrong_pool "sqlite" "health_check invoked"
  end.
End Drivers.

(** * Scoping of connections and transactions *)

(** What the driver holds between two calls. *)
Inductive scope : Type :=
| Idle                        (* nothing *)
| Pinned                      (* a pooled connection *)
| InTx (pinned : bool).       (* an open transaction, on a pinned connection or the pool's *)

#[export] Instance scope_eq_dec : EqDecision scope.
Proof. solve_decision. Defined.

Definition scope_of (t : target) : scope -> bool := fun s =>
  match t, s with
  | OnPool, Idle | OnConn, Pinned | OnTx, InTx _ => true
  | _, _ => false
  end.

Definition outside (pinned : bool) : scope := if pinned then Pinned else Idle.

(** One call: [None] when it is not allowed in the scope. *)
Definition scope_step (s : scope) (e : event) : option scope :=
  match e, s with
  | (Acquire, ok), Idle => Some (if ok then Pinned else Idle)
  | (Release, _), Pinned => Some Idle
  | (Begin OnPool, ok), Idle => Some (if ok then InTx false else Idle)
  | (Begin OnConn, ok), Pinned => Some (if ok then InTx true else Pinned)
  | (Commit, _), InTx p | (Rollback, _), InTx p | (DropTx, _), InTx p => Some (outside p)
  | (Exec t _ _, _), s | (FetchAll t _ _, _), s | (FetchOne t _, _), s | (FetchMany t _ _, _), s =>
      if scope_of t s then Some s else None
  | (LockHandle, _), Pinned => Some Pinned
  | _, _ => None
  end.

Fixpoint run_scope (s : scope) (es : list event) : option scope :=
  match es with
  | [] => Some s
  | e :: es' => match scope_step s e with
                | Some s' => run_scope s' es'
                | None => None
                end
  end.

(** [m], started in scope [s], only makes calls allowed there and is back in
    [s] when it returns, on every path. *)
Definition keeps {A} (s : scope) (m : M A) : Prop := forall w,
  exists es, events (snd (m w)) = events w ++ es /\ run_scope s es = Some s.

Lemma run_scope_app s es1 es2 :
  run_scope s (es1 ++ es2) =
  match run_scope s es1 with Some s' => run_scope s' es2 | None => None end.
Proof.
  revert s. induction es1 as [|e es1 IH]; intros s; [done|]. simpl.
  by destruct (scope_step s e).
Qed.

(** * MySQL user variables *)

(** Whether [@k] is set on the connection after a sequence of calls. *)
Definition var_step (k : string) (live : bool) (e : event) : bool :=
  match e with
  | (Exec _ sql _, true) =>
      if String.eqb sql (set_var_sql k) then true
      else if String.eqb sql (null_var_sql k) then false
      else live
  | _ => live
  end.

#[local] Arguments var_step : simpl never.

Definition var_live (k : string) (es : list event) : bool := fold_left (var_step k) es false.

(** Calls appended by [m] from [w]. *)
Definition appends {A} (m : M A) (w : world) (es : list event) : Prop :=
  events (snd (m w)) = events w ++ es.

Section SessionVarFacts.
Context `{SqlxRow Row} `{!Server Row}.

Definition keys (session : SessionVars) : list string := map fst (values session).

(** The server accepts every [SET] of a session variable. *)
Definition accepts_sets : Prop := forall h t k args,
  is_ok (reply_count h (Exec t (set_var_sql k) args)) = true /\
  is_ok (reply_count h (Exec t (null_var_sql k) args)) = true.

Lemma suffix_quote_ne a b : (a +:+ "?" <> b +:+ "NULL")%string.
Proof.
  revert b. induction a as [|c a IH]; intros b E.
  - apply (f_equal String.length) in E. rewrite !str_length_app in E. simpl in E. lia.
  - destruct b as [|d b]; [|injection E as -> E; by apply (IH b)].
    destruct a as [|? [|? [|? a]]]; try discriminate E.
    apply (f_equal String.length) in E. rewrite !str_length_app in E. simpl in E. lia.
Qed.

Lemma set_var_ne_null k k' : String.eqb (null_var_sql k') (set_var_sql k) = false.
Proof.
  apply String.eqb_neq. intros E. apply (suffix_quote_ne ("SET @" +:+ k +:+ " = ") ("SET @" +:+ k' +:+ " = ")).
  rewrite !str_app_assoc. symmetry. exact E.
Qed.

Lemma for_each_exec (sql_of : string * string -> string) (args_of : string * string -> list sqlx_arg)
  (run : string * string -> M ()) t l w :
  (forall x w, run x w = (Ok (), log (Exec t (sql_of x) (args_of x)) true w)) ->
  exists w', for_each run l w = (Ok (), w') /\
    events w' = events w ++ map (fun x => (Exec t (sql_of x) (args_of x), true)) l /\
    in_flight w' = in_flight w.
Proof.
  intros Hr. revert w. induction l as [|x l IH]; intros w; simpl.
  - exists w. by rewrite app_nil_r.
  - unfold bind. rewrite Hr. destruct (IH (log (Exec t (sql_of x) (args_of x)) true w)) as (w' & -> & E & F).
    exists w'. rewrite E. simpl. by rewrite <- app_assoc.
Qed.

Definition set_events t session : list event :=
  map (fun kv => (Exec t (set_var_sql (fst kv)) [ArgText (snd kv)], true)) (values session).
Definition null_events t session : list event :=
  map (fun kv : string * string => (Exec t (null_var_sql (fst kv)) [], true)) (values session).

Lemma set_vars_ok t session w :
  accepts_sets -> exists w', set_vars t session w = (Ok (), w') /\
    events w' = events w ++ set_events t session /\ in_flight w' = in_flight w.
Proof.
  intros Ha. apply (for_each_exec (fun kv => set_var_sql (fst kv)) (fun kv => [ArgText (snd kv)])).
  intros [k v] w0. unfold bind, checked, perform, bind, lift. simpl.
  destruct (Ha (events w0) t k [ArgText v]) as [Hk _].
  by destruct (reply_count _ _).
Qed.

Lemma clear_vars_ok t session w :
  accepts_sets -> exists w', clear_vars t session w = (Ok (), w') /\
    events w' = events w ++ null_events t session /\ in_flight w' = in_flight w.
Proof.
  intros Ha. apply (for_each_exec (fun kv => null_var_sql (fst kv)) (fun _ => [])).
  intros [k v] w0. unfold bind, perform. simpl.
  destruct (Ha (events w0) t k []) as [_ Hk]. by rewrite Hk.
Qed.

Lemma var_step_null k k' live t args :
  var_step k live (Exec t (null_var_sql k') args, true) =
  if String.eqb (null_var_sql k') (null_var_sql k) then false else live.
Proof. unfold var_step. by rewrite set_var_ne_null. Qed.

Lemma var_live_null_events k t session live :
  k ∈ keys session -> fold_left (var_step k) (null_events t session) live = false.
Proof.
  unfold keys, null_events. intros Hk. revert live.
  assert (forall l, fold_left (var_step k)
            (map (fun kv : string * string => (Exec t (null_var_sql (fst kv)) [], true)) l) false = false) as Hf.
  { induction l as [|[k' v] l IH]; [done|]. simpl. rewrite var_step_null.
    by destruct (String.eqb _ _). }
  induction (values session) as [|[k' v] l IH]; intros live; [by apply not_elem_of_nil in Hk|].
  simpl in *. rewrite var_step_null. apply elem_of_cons in Hk as [<-|Hk].
  - by rewrite String.eqb_refl.
  - destruct (String.eqb _ _); auto.
Qed.

(** A call that does not touch session variables. *)
Definition quiet (c : call) : bool :=
  match c with Exec _ _ _ => false | _ => true end.

(** The shape every MySQL path has on its pinned connection: [pre] (capturing
    the id), set, [main], clear. *)
Lemma session_bracket {A B C} (k : string) (session : SessionVars) (pre : M A) (main : M B)
  (post : B -> M C) :
  accepts_sets -> k ∈ keys session ->
  (forall w, exists es, appends pre w es /\ Forall (fun e => quiet (fst e) = true) es) ->
  (forall w, exists es b, appends main w es /\ fst (main w) = Ok b) ->
  (forall b w, appends (post b) w []) ->
  forall w, exists es,
    appends (with_conn (let! _ := pre in let! _ := set_vars OnConn session in
                        let! b := main in let! _ := clear_vars OnConn session in post b)) w es /\
    var_live k es = false.
Proof.
  intros Ha Hk Hpre Hmain Hpost w.
  assert (forall es live, Forall (fun e : event => quiet (fst e) = true) es ->
            fold_left (var_step k) es live = live) as Hq.
  { induction es as [|[c ok] es IH]; intros live Hf; [done|]. inversion_clear Hf as [|? ? Hc Hes].
    simpl. rewrite (IH _ Hes). by destruct c, ok. }
  unfold appends, with_conn, bind at 1, checked, perform, bind, lift, attempt, drop_value; simpl.
  destruct (reply_unit (events w) Acquire) as [[]|e]; simpl.
  2: { by exists [(Acquire, false)]. }
  set (w0 := log Acquire true w). destruct (Hpre w0) as (es0 & E0 & F0). unfold appends in E0.
  destruct (pre w0) as [[a|e] w1]; simpl in E0 |- *.
  2: { exists ((Acquire, true) :: es0 ++ [(Release, true)]). rewrite E0. simpl.
       rewrite <- !app_assoc. split; [done|]. unfold var_live. simpl.
       rewrite fold_left_app, (Hq es0) by done. done. }
  destruct (set_vars_ok OnConn session w1 Ha) as (w2 & -> & E2 & _).
  destruct (Hmain w2) as (es3 & b & E3 & Eb). unfold appends in E3.
  destruct (main w2) as [r w3]. simpl in E3, Eb. subst r.
  destruct (clear_vars_ok OnConn session w3 Ha) as (w4 & -> & E4 & _).
  pose proof (Hpost b w4) as E5. unfold appends in E5. destruct (post b w4) as [r w5]. simpl in E5 |- *.
  exists ((Acquire, true) :: es0 ++ set_events OnConn session ++ es3 ++ null_events OnConn session ++
          [(Release, true)]).
  rewrite E5, E4, E3, E2, E0, app_nil_r. unfold w0. simpl. rewrite <- !app_assoc. split; [done|].
  unfold var_live. simpl. rewrite !fold_left_app. simpl.
  rewrite var_live_null_events by done. done.
Qed.

(** When the server accepts the [SET]s, a MySQL connection goes back to the
    pool without the session variables of the call, whatever the statement and
    its outcome, on all five execute paths. *)
Theorem mysql_vars_cleared stmt args session ctx k w :
  accepts_sets -> k ∈ keys session ->
  exists es1 es2 es3 es4 es5,
    appends (mysql_execute MysqlPool stmt args session) w es1 /\
    appends (mysql_execute_affected MysqlPool stmt args session) w es2 /\
    appends (mysql_execute_with_ctx MysqlPool stmt args session ctx) w es3 /\
    appends (mysql_execute_affected_with_ctx MysqlPool stmt args session ctx) w es4 /\
    appends (mysql_execute_multi_result MysqlPool stmt args session) w es5 /\
    map (var_live k) [es1; es2; es3; es4; es5] = repeat false 5.
Proof.
  intros Ha Hk.
  assert (session_is_empty session = false) as He.
  { unfold session_is_empty, keys in *. by destruct (values session); [apply not_elem_of_nil in Hk|]. }
  assert (forall w, exists es, appends (ret ()) w es /\ Forall (fun e => quiet (fst e) = true) es) as Hret.
  { intros w0. exists []. unfold appends. by rewrite app_nil_r. }
  assert (forall w, exists es, appends (mysql_capture_id ctx) w es /\
            Forall (fun e => quiet (fst e) = true) es) as Hcap.
  { intros w0. unfold appends, mysql_capture_id, note_backend, bind, checked, perform, bind, lift. simpl.
    destruct (reply_scalar _ _); simpl; [destruct (ctx_request_id ctx); [destruct (ctx_in_flight ctx)|]|];
      eexists; (split; [reflexivity|]); by constructor. }
  assert (forall A (m : M A) w', (exists r, m w' = (r, w')) -> appends m w' []) as Hnil.
  { intros A m w' [r E]. unfold appends. by rewrite E, app_nil_r. }
  pose proof (fun main post H1 H2 => session_bracket (C := RowBatch) k session (ret ())
    (perform reply_rows main) post Ha Hk Hret H1 H2 w) as B1.
  pose proof (fun main post H1 H2 => session_bracket (C := Z) k session (ret ())
    (perform reply_count main) post Ha Hk Hret H1 H2 w) as B2.
  pose proof (fun main post H1 H2 => session_bracket (C := RowBatch) k session (mysql_capture_id ctx)
    (perform reply_rows main) post Ha Hk Hcap H1 H2 w) as B3.
  pose proof (fun main post H1 H2 => session_bracket (C := Z) k session (mysql_capture_id ctx)
    (perform reply_count main) post Ha Hk Hcap H1 H2 w) as B4.
  pose proof (fun main post H1 H2 => session_bracket (C := list (list value)) k session (ret ())
    (perform_many main) post Ha Hk Hret H1 H2 w) as B5.
  unfold mysql_execute, mysql_execute_affected. rewrite He.
  assert (forall A (reply : list event -> call -> result sqlx_error A) c w0,
    exists es b, appends (perform reply c) w0 es /\ fst (perform reply c w0) = Ok b) as Hp
    by (intros; by eexists [_], _).
  edestruct B1 as (es1 & A1 & V1); [by apply Hp| |]; [|exists es1].
  2: edestruct B2 as (es2 & A2 & V2); [by apply Hp| |]; [|exists es2].
  3: edestruct B3 as (es3 & A3 & V3); [by apply Hp| |]; [|exists es3].
  4: edestruct B4 as (es4 & A4 & V4); [by apply Hp| |]; [|exists es4].
  5: edestruct B5 as (es5 & A5 & V5); [by intros; eexists [_], _| |]; [|exists es5].
  6: { repeat split; [exact A1|exact A2|exact A3|exact A4|exact A5|].
       simpl. by rewrite V1, V2, V3, V4, V5. }
  5: { intros r w0. apply Hnil. unfold bind, lift. destruct (fst (stream_sets _ r)); by eexists. }
  all: intros [|] ?; apply Hnil; by eexists.
Qed.
End SessionVarFacts.

(** Servers that accept everything except one statement: an instance of the
    parameters. *)
Module ToyServer.
Import ToyTypes.

Definition verdict {A} (refused : string) (c : call) (a : A) : result sqlx_error A :=
  match c with
  | Exec _ sql _ | FetchAll _ sql _ => if String.eqb sql refused then Err (OtherSqlx "refused") else Ok a
  | _ => Ok a
  end.

Definition refusing (refused : string) : Server strict_row := {|
  reply_unit _ c := verdict refused c ();
  reply_count _ c := verdict refused c 1;
  reply_rows _ c := verdict refused c [[("id", CInt8 7)]]%string;
  reply_scalar _ c := verdict refused c 42;
  reply_many _ c := ([Some [("id", CInt8 7)]; None]%string, None);
|}.

Definition fresh : world := World [] InFlight.new SqliteCancel.new false.

Definition demo_session : SessionVars :=
  {| values := [("role", "auditor"); ("tenant_id", "acme")] |}%string.

Definition demo_stmt : PreparedStmt :=
  {| stmt_sql := "SELECT * FROM invoices"; param_order := []; stmt_driver := Mysql |}.

Definition demo_ctx : ExecCtx := {| ctx_request_id := Some "r1"; ctx_in_flight := true |}%string.

(** No [SET] is the empty statement. *)
Lemma accepting : accepts_sets (Server0 := refusing EmptyString).
Proof. intros h t k args. by split. Qed.

Lemma mysql_vars_cleared_witness :
  exists es1 es2 es3 es4 es5,
    appends (mysql_execute (H0 := strict_rows) (Server0 := refusing EmptyString)
               MysqlPool demo_stmt [] demo_session) fresh es1 /\
    appends (mysql_execute_affected (Server0 := refusing EmptyString)
               MysqlPool demo_stmt [] demo_session) fresh es2 /\
    appends (mysql_execute_with_ctx (H0 := strict_rows) (Server0 := refusing EmptyString)
               MysqlPool demo_stmt [] demo_session demo_ctx) fresh es3 /\
    appends (mysql_execute_affected_with_ctx (Server0 := refusing EmptyString)
               MysqlPool demo_stmt [] demo_session demo_ctx) fresh es4 /\
    appends (mysql_execute_multi_result (H0 := strict_rows) (Server0 := refusing EmptyString)
               MysqlPool demo_stmt [] demo_session) fresh es5 /\
    map (var_live "role") [es1; es2; es3; es4; es5] = repeat false 5.
Proof.
  apply (mysql_vars_cleared (H0 := strict_rows) (Server0 := refusing EmptyString)
           demo_stmt [] demo_session demo_ctx "role" fresh accepting).
  by apply (bool_decide_unpack _).
Defined.

(** When the server refuses a later [SET], the earlier variables are not
    cleared: the call fails, its connection goes back to the pool, and the next
    caller that gets it sees the value. *)
Theorem mysql_vars_leak :
  let refused := refusing (set_var_sql "tenant_id") in
  Forall (fun m : world -> world =>
            let es := events (m fresh) in
            last es = Some (Release, true) /\ var_live "role" es = true)
                [ fun w => snd (mysql_execute (H0 := strict_rows) (Server0 := refused)
                                  MysqlPool demo_stmt [] demo_session w);
                  fun w => snd (mysql_execute_affected (Server0 := refused)
                                  MysqlPool demo_stmt [] demo_session w);
                  fun w => snd (mysql_execute_with_ctx (H0 := strict_rows) (Server0 := refused)
                                  MysqlPool demo_stmt [] demo_session demo_ctx w);
                  fun w => snd (mysql_execute_affected_with_ctx (Server0 := refused)
                                  MysqlPool demo_stmt [] demo_session demo_ctx w);
                  fun w => snd (mysql_execute_multi_result (H0 := strict_rows) (Server0 := refused)
                                  MysqlPool demo_stmt [] demo_session w) ].
Proof. intros refused. repeat (constructor; [by vm_compute|]). constructor. Qed.

End ToyServer.

(** * Result sets *)

Section ResultSets.
Context {Row : Type} (f : Row -> value).

(** The rows between consecutive boundaries. *)
Fixpoint segments (items : list (option Row)) : list (list Row) :=
  match items with
  | [] => [[]]
  | None :: items' => [] :: segments items'
  | Some r :: items' =>
      match segments items' with
      | [] => [[r]]
      | s :: ss => (r :: s) :: ss
      end
  end.

Definition nonempty {A} (l : list A) : bool := match l with [] => false | _ => true end.

Lemma segments_cons items : exists s ss, segments items = s :: ss.
Proof.
  destruct items as [|[r|] items]; simpl; [eauto| |eauto]. destruct (segments items); eauto.
Qed.

Lemma group_items_segments items : forall sets current,
  exists sets' current',
    group_items (fun r => Ok (f r)) items sets current = (Ok (), sets', current') /\
    (if nonempty current' then sets' ++ [current'] else sets') =
    sets ++ match segments items with
            | [] => []
            | s :: ss => List.filter nonempty ((current ++ map f s) :: map (map f) ss)
            end.
Proof.
  induction items as [|[r|] items IH]; intros sets current.
  - exists sets, current. split; [done|]. simpl. rewrite app_nil_r.
    destruct current; simpl; by rewrite ?app_nil_r.
  - destruct (IH sets (current ++ [f r])) as (s' & c' & E & IHs). exists s', c'. split; [exact E|].
    rewrite IHs. cbn [segments]. destruct (segments_cons items) as (s & ss & ->).
    cbn [map]. by rewrite <- app_assoc.
  - destruct (segments_cons items) as (s & ss & Es).
    destruct current as [|v current].
    + destruct (IH sets []) as (s' & c' & E & IHs). exists s', c'. split; [exact E|].
      rewrite IHs. cbn [segments map]. by rewrite Es.
    + destruct (IH (sets ++ [v :: current]) []) as (s' & c' & E & IHs). exists s', c'.
      split; [exact E|]. rewrite IHs, <- app_assoc. cbn [segments map]. rewrite Es.
      cbn [map List.filter nonempty app]. by rewrite app_nil_r.
Qed.

(** A multi-result call returns the non-empty groups of rows between
    result-set boundaries, in order and each in order, also when no boundary
    follows the last rows; the error of the stream is its result. *)
Theorem multi_result_groups items err :
  stream_sets (fun r => Ok (f r)) (items, err) =
  (match err with None => Ok () | Some e => Err (from_execute e) end,
   List.filter nonempty (map (map f) (segments items))).
Proof.
  unfold stream_sets. simpl. destruct (group_items_segments items [] []) as (s & c & -> & E).
  destruct (segments_cons items) as (s0 & ss & Es). rewrite Es in E. simpl in E. rewrite Es. simpl.
  rewrite <- E. by destruct err, c.
Qed.
End ResultSets.
