(* ===== verification/Plans.v ===== *)
(** What the execute paths of the drivers ask of a server, call by call: a plan
    per path, and that the path follows it whatever the server answers. *)

From Stdlib Require Import ZArith Lia Bool Ascii String SpecFloat.
From stdpp Require Import base list strings gmap.
From S2P Require Import Prelude RustStd Redact Text Errors Json Params F64 InFlight Interval SqliteCancel Sqlx Rows Drivers.

(** * Plans *)

(** What becomes of a call that fails: the path stops there ([Needed]), goes on
    and fails at the end ([Reported]), or goes on as if it had succeeded
    ([Ignored]). *)
Inductive care : Type := Needed | Reported | Ignored.

Definition step : Type := (call * care)%type.
Definition plan : Type := list step.

Definition need (c : call) : step := (c, Needed).

(** What goes out of scope when a path that was entered in [base] stops in [s]:
    an open transaction is dropped, a pinned connection released. *)
Definition closing (base s : scope) : option (list event) :=
  match base, s with
  | Idle, Idle | Pinned, Pinned => Some []
  | InTx p, InTx q => if Bool.eqb p q then Some [] else None
  | Idle, Pinned => Some [(Release, true)]
  | Idle, InTx false | Pinned, InTx true => Some [(DropTx, true)]
  | Idle, InTx true => Some [(DropTx, true); (Release, true)]
  | _, _ => None
  end.

(** [performs base s p ok es]: from scope [s], the calls [es] carry the plan [p] out and
    end in [base]; [ok] says whether everything that was not to be ignored
    succeeded. *)
Inductive performs (base : scope) : scope -> plan -> bool -> list event -> Prop :=
| performs_end : performs base base [] true []
| performs_needed s s' c p ok es :
    scope_step s (c, true) = Some s' -> performs base s' p ok es ->
    performs base s (need c :: p) ok ((c, true) :: es)
| performs_stop s s' c p es :
    scope_step s (c, false) = Some s' -> closing base s' = Some es ->
    performs base s (need c :: p) false ((c, false) :: es)
| performs_reported s s' c b p ok es :
    scope_step s (c, b) = Some s' -> performs base s' p ok es ->
    performs base s ((c, Reported) :: p) (b && ok) ((c, b) :: es)
| performs_ignored s s' c b p ok es :
    scope_step s (c, b) = Some s' -> performs base s' p ok es ->
    performs base s ((c, Ignored) :: p) ok ((c, b) :: es).

(** [m] carries [p] out on any server, and its result is an error exactly when a
    call the plan does not ignore failed. *)
Definition plays {A} (base : scope) (p : plan) (m : M A) : Prop := forall w,
  exists es, events (snd (m w)) = events w ++ es /\ performs base base p (is_ok (fst (m w))) es.

Abbreviation planned := (plays Idle).

(** It does nothing and refuses. *)
Definition refuses {A} (m : M A) : Prop := exists e, m = raise (InvalidSpec e).

(** ** Plans and scopes *)

Lemma closing_runs base s es : closing base s = Some es -> run_scope s es = Some base.
Proof. destruct base as [| |[]], s as [| |[]]; cbn; intros [= <-]; reflexivity. Qed.

Lemma performs_scope base s p ok es : performs base s p ok es -> run_scope s es = Some base.
Proof.
  induction 1 as [|s s' c p ok es Hs _ IH|s s' c p es Hs Hc|s s' c b p ok es Hs _ IH|s s' c b p ok es Hs _ IH];
    cbn [run_scope]; rewrite ?Hs; try done. by apply closing_runs.
Qed.

(** A path that follows a plan keeps its scope. *)
Lemma plays_keeps {A} base p (m : M A) : plays base p m -> keeps base m.
Proof. intros Hm w. destruct (Hm w) as (es & E & Hp). exists es. split; [done|]. by eapply performs_scope. Qed.

(** ** Composition *)

(** Nothing in the plan is reported late. *)
Definition prompt (p : plan) : Prop := Forall (fun st => snd st <> Reported) p.

Lemma performs_app base s p p' ok es es' :
  performs base s p true es -> performs base base p' ok es' -> performs base s (p ++ p') ok (es ++ es').
Proof.
  intros H1 H2. remember true as b eqn:Eb. revert Eb.
  induction H1 as [|s s' c p b es Hs _ IH|s s' c p es Hs Hc|s s' c b p ok0 es Hs _ IH|s s' c b p ok0 es Hs _ IH];
    intros Eb; cbn [app].
  - done.
  - eapply performs_needed; eauto.
  - done.
  - apply andb_true_iff in Eb as [-> ->]. change ok with (true && ok). eapply performs_reported; eauto.
  - eapply performs_ignored; eauto.
Qed.

Lemma performs_more base s p p' es :
  prompt p -> performs base s p false es -> performs base s (p ++ p') false es.
Proof.
  intros Hp H1. remember false as b eqn:Eb. revert Hp Eb.
  induction H1 as [|s s' c p b es Hs _ IH|s s' c p es Hs Hc|s s' c b p ok0 es Hs _ IH|s s' c b p ok0 es Hs _ IH];
    intros Hp Eb; cbn [app]; try done; apply Forall_cons in Hp as [Hn Hp].
  - eapply performs_needed; eauto.
  - eapply performs_stop; eauto.
  - done.
  - eapply performs_ignored; eauto.
Qed.

Lemma plays_lift_ok {A} base (r : result SqlError A) : is_ok r = true -> plays base [] (lift r).
Proof. intros Hr w. exists []. cbn. rewrite app_nil_r, Hr. split; [done|constructor]. Qed.

Lemma plays_ret {A} base (a : A) : plays base [] (ret a).
Proof. by apply (plays_lift_ok base (Ok a)). Qed.

Lemma plays_bind {A B} base p p' (m : M A) (k : A -> M B) :
  prompt p -> plays base p m -> (forall a, plays base p' (k a)) -> plays base (p ++ p') (bind m k).
Proof.
  intros Hp Hm Hk w. unfold bind. destruct (Hm w) as (es & E & P). destruct (m w) as [[a|e] w1]; cbn in E, P.
  - destruct (Hk a w1) as (es' & E' & P'). exists (es ++ es'). rewrite E', E, app_assoc. split; [done|].
    by eapply performs_app.
  - exists es. split; [done|]. by apply performs_more.
Qed.

(** No call: only the result and the rest of the world may change. *)
Lemma plays_quiet {A B} base p (m : M A) (k : A -> M B) :
  (forall w, exists a w', m w = (Ok a, w') /\ events w' = events w) ->
  (forall a, plays base p (k a)) -> plays base p (bind m k).
Proof.
  intros Hm Hk w. unfold bind. destruct (Hm w) as (a & w' & -> & <-). apply Hk.
Qed.

(** A result that is shaped without failing. *)
Lemma plays_shape {A B} base p (m : M A) (k : A -> result SqlError B) :
  prompt p -> plays base p m -> (forall a, is_ok (k a) = true) -> plays base p (bind m (fun a => lift (k a))).
Proof.
  intros Hp Hm Hk. rewrite <- (app_nil_r p). apply plays_bind; [done..|]. intros a. by apply plays_lift_ok.
Qed.

Lemma plays_checked {A} base (reply : list event -> call -> result sqlx_error A) c :
  (forall ok, scope_step base (c, ok) = Some base) -> closing base base = Some [] ->
  plays base [need c] (checked reply c).
Proof.
  intros Hs Hc w. unfold checked, bind, perform, lift. cbn. exists [(c, is_ok (reply (events w) c))]. split; [done|].
  destruct (reply (events w) c); cbn.
  - eapply performs_needed; [apply Hs|constructor].
  - by eapply performs_stop.
Qed.

Lemma plays_for_each {A} base (st : A -> step) (f : A -> M ()) l :
  (forall x, snd (st x) <> Reported) -> (forall x, plays base [st x] (f x)) -> plays base (map st l) (for_each f l).
Proof.
  intros Hr Hf. induction l as [|x l IH]; [apply plays_ret|]. cbn [map for_each].
  apply (plays_bind base [st x] (map st l)); [by repeat constructor|done|done].
Qed.

Lemma plays_ignored {A} base (reply : list event -> call -> result sqlx_error A) c :
  (forall ok, scope_step base (c, ok) = Some base) -> plays base [(c, Ignored)] (let! _ := perform reply c in ret ()).
Proof.
  intros Hs w. exists [(c, is_ok (reply (events w) c))]. split; [done|].
  eapply performs_ignored; [apply Hs|constructor].
Qed.

(** A call whose failure is kept while [cleanup] runs, and is the result then. *)
Lemma plays_reported {A B} base c p (good : A -> bool) (main : M A) (cleanup : M ()) (post : A -> M B) :
  (forall w, exists a, main w = (Ok a, log c (good a) w)) ->
  (forall ok, scope_step base (c, ok) = Some base) ->
  plays base p cleanup -> (forall w, fst (cleanup w) = Ok ()) ->
  (forall a w, exists r, post a w = (r, w) /\ is_ok r = good a) ->
  plays base ((c, Reported) :: p) (let! a := main in let! _ := cleanup in post a).
Proof.
  intros Hm Hs Hc Ht Hp w. unfold bind. destruct (Hm w) as (a & ->).
  destruct (Hc (log c (good a) w)) as (es & E & P). specialize (Ht (log c (good a) w)).
  destruct (cleanup (log c (good a) w)) as [r1 w1]. cbn in E, P, Ht. subst r1.
  destruct (Hp a w1) as (r & -> & Hr). exists ((c, good a) :: es). cbn. rewrite E, Hr, <- app_assoc. split; [done|].
  rewrite <- (andb_true_r (good a)) at 1. eapply performs_reported; [apply Hs|done].
Qed.

Lemma performs_release s p ok es :
  performs Pinned s p ok es -> performs Idle s (p ++ [need Release]) ok (es ++ [(Release, true)]).
Proof.
  induction 1 as [|s s' c p ok es Hs _ IH|s s' c p es Hs Hc|s s' c b p ok es Hs _ IH|s s' c b p ok es Hs _ IH]; cbn [app].
  - eapply performs_needed; [reflexivity|constructor].
  - eapply performs_needed; eauto.
  - eapply performs_stop; [done|]. destruct s' as [| |[]]; cbn in Hc |- *; try done; by injection Hc as <-.
  - eapply performs_reported; eauto.
  - eapply performs_ignored; eauto.
Qed.

Lemma plays_with_conn `{Server Row} {A} p (body : M A) :
  plays Pinned p body -> planned (need Acquire :: p ++ [need Release]) (with_conn body).
Proof.
  intros Hb w. unfold with_conn, bind, checked, perform, attempt, drop_value, lift, bind; simpl.
  destruct (reply_unit (events w) Acquire) as [[]|e] eqn:E; simpl.
  - destruct (Hb (log Acquire true w)) as (es & Ee & P). destruct (body _) as [r w1]. simpl in *.
    exists ((Acquire, true) :: es ++ [(Release, true)]). rewrite Ee, <- !app_assoc. split; [done|].
    eapply performs_needed; [reflexivity|]. by apply performs_release.
  - exists [(Acquire, false)]. split; [done|]. eapply performs_stop; reflexivity.
Qed.

Lemma performs_drop p s pl es :
  prompt pl -> performs (InTx p) s pl false es ->
  forall rest, performs (outside p) s (pl ++ rest) false (es ++ [(DropTx, true)]).
Proof.
  intros Hp H1 rest. remember false as b eqn:Eb. revert Hp Eb.
  induction H1 as [|s s' c pl b es Hs _ IH|s s' c pl es Hs Hc|s s' c b pl ok es Hs _ IH|s s' c b pl ok es Hs _ IH];
    intros Hp Eb; cbn [app]; try done; apply Forall_cons in Hp as [Hn Hp].
  - eapply performs_needed; eauto.
  - eapply performs_stop; [done|]. destruct s' as [| |[]], p; cbn in Hc |- *; try done; by injection Hc as <-.
  - done.
  - eapply performs_ignored; eauto.
Qed.

Lemma performs_commit p s pl es ok :
  performs (InTx p) s pl true es -> 
  performs (outside p) s (pl ++ [need Commit]) ok (es ++ [(Commit, ok)]).
Proof.
  intros H1. remember true as b eqn:Eb. revert Eb.
  induction H1 as [|s s' c pl b es Hs _ IH|s s' c pl es Hs Hc|s s' c b pl ok0 es Hs _ IH|s s' c b pl ok0 es Hs _ IH];
    intros Eb; cbn [app].
  - destruct ok; [eapply performs_needed; [reflexivity|constructor]|].
    eapply performs_stop; [reflexivity|by destruct p].
  - eapply performs_needed; eauto.
  - done.
  - apply andb_true_iff in Eb as [-> ->]. change ok with (true && ok). eapply performs_reported; eauto.
  - eapply performs_ignored; eauto.
Qed.

Lemma plays_with_tx `{Server Row} {A} (p : bool) pl (body : M A) :
  prompt pl -> plays (InTx p) pl body ->
  plays (outside p) (need (Begin (if p then OnConn else OnPool)) :: pl ++ [need Commit])
    (with_tx (if p then OnConn else OnPool) body).
Proof.
  set (t := if p then OnConn else OnPool).
  assert (forall ok, scope_step (outside p) (Begin t, ok) = Some (if ok then InTx p else outside p))
    as Hs by (by destruct p).
  intros Hp Hb w. unfold with_tx, bind, checked, perform, attempt, drop_value, lift, bind; simpl.
  destruct (reply_unit (events w) (Begin t)) as [[]|e] eqn:E; simpl.
  - destruct (Hb (log (Begin t) true w)) as (es & Ee & P). destruct (body _) as [[a|e] w1]; simpl in Ee, P |- *.
    + destruct (reply_unit (events w1) Commit) as [[]|e'] eqn:Ec; simpl;
        exists ((Begin t, true) :: es ++ [(Commit, is_ok (reply_unit (events w1) Commit))]);
        rewrite Ec, Ee, <- !app_assoc; (split; [done|]); (eapply performs_needed; [apply (Hs true)|by apply performs_commit]).
    + exists ((Begin t, true) :: es ++ [(DropTx, true)]). rewrite Ee, <- !app_assoc. split; [done|].
      eapply performs_needed; [apply (Hs true)|]. by apply performs_drop.
  - exists [(Begin t, false)]. split; [done|]. eapply performs_stop; [apply (Hs false)|by destruct p].
Qed.

Definition plays_with_tx_pool `{Server Row} {A} := @plays_with_tx _ _ A false.
Definition plays_with_tx_conn `{Server Row} {A} := @plays_with_tx _ _ A true.

Lemma prompt_needs cs : prompt (map need cs).
Proof. induction cs; by repeat constructor. Qed.

(** * The plans of the execute paths *)

(** A plan in terms of the main statement on a target. *)
Section PathPlans.
Context (main : target -> call) (session : SessionVars).

Definition config_steps : plan :=
  map (fun kv => need (Exec OnTx "SELECT set_config($1, $2, true)" [ArgText (fst kv); ArgText (snd kv)])) (values session).

Definition set_steps : plan :=
  map (fun kv => need (Exec OnConn (set_var_sql (fst kv)) [ArgText (snd kv)])) (values session).

Definition clear_steps : plan :=
  map (fun kv => (Exec OnConn (null_var_sql (fst kv)) [], Ignored)) (values session).

(** Postgres, from the pool or a pinned connection: session variables make a
    transaction, which holds them and the statement. *)
Definition pg_from (t : target) : plan :=
  if session_is_empty session then [need (main t)]
  else need (Begin t) :: (config_steps ++ [need (main OnTx)]) ++ [need Commit].

Definition pg_plan : plan := pg_from OnPool.

(** With a context the connection is pinned and its backend asked for first. *)
Definition pg_ctx_plan : plan :=
  need Acquire :: ([need (FetchOne OnConn "SELECT pg_backend_pid()")] ++ pg_from OnConn) ++ [need Release].

(** MySQL: on one connection, the variables are set before the statement and
    cleared after it, whatever became of it. *)
Definition mysql_bracket (capture : plan) : plan :=
  need Acquire :: (capture ++ set_steps ++ (main OnConn, Reported) :: clear_steps) ++ [need Release].

Definition mysql_plan : plan :=
  if session_is_empty session then [need (main OnPool)] else mysql_bracket [].

Definition mysql_ctx_plan : plan := mysql_bracket [need (FetchOne OnConn "SELECT CONNECTION_ID()")].

(** SQLite: with a context, between installing and removing the progress handler. *)
Definition sqlite_plan : plan := [need (main OnPool)].

Definition sqlite_ctx_plan : plan :=
  [need Acquire; need LockHandle; (main OnConn, Reported); (LockHandle, Ignored); need Release].

(** By the driver whose pool it is. *)
Definition path_plan (p : PoolHandle) : plan :=
  match p with PgPool => pg_plan | MysqlPool => mysql_plan | SqlitePool => sqlite_plan end.

Definition ctx_plan (p : PoolHandle) : plan :=
  match p with PgPool => pg_ctx_plan | MysqlPool => mysql_ctx_plan | SqlitePool => sqlite_ctx_plan end.
End PathPlans.

(** On the driver's own pool the plan is followed, on any other the call refused. *)
Definition follows {A} (own pool : PoolHandle) (p : plan) (m : M A) : Prop :=
  match own, pool with
  | PgPool, PgPool | MysqlPool, MysqlPool | SqlitePool, SqlitePool => planned p m
  | _, _ => refuses m
  end.

Section Paths.
Context `{SqlxRow Row} `{!Server Row} (to_json : value -> string).
Context (stmt : PreparedStmt) (args : list BoundParam) (session : SessionVars) (ctx : ExecCtx) (conn : nat).

(** The statement with its arguments, for its rows or for its row count. *)
Definition query_with (bound : list sqlx_arg) (t : target) : call := FetchAll t (stmt_sql stmt) bound.
Definition count_with (bound : list sqlx_arg) (t : target) : call := Exec t (stmt_sql stmt) bound.
Definition many_with (bound : list sqlx_arg) (t : target) : call := FetchMany t (stmt_sql stmt) bound.

Lemma rows_shape f (rs : list Row) : (forall r, exists v, f r = Ok v) -> is_ok (finish_rows f rs) = true.
Proof. intros Hf. by destruct (finish_rows_ok f rs Hf) as [b ->]. Qed.

Lemma note_quiet id w : exists a w', note_backend ctx id w = (Ok a, w') /\ events w' = events w.
Proof. unfold note_backend. destruct (ctx_request_id ctx); [destruct (ctx_in_flight ctx)|]; by do 2 eexists. Qed.

Lemma on_sqlite_quiet {A} (f : SqliteCancel.driver -> A * SqliteCancel.driver) w :
  exists a w', on_sqlite f w = (Ok a, w') /\ events w' = events w.
Proof. unfold on_sqlite. destruct (f (sqlite w)). by do 2 eexists. Qed.

Lemma plays_count base c :
  (forall ok, scope_step base (c, ok) = Some base) -> closing base base = Some [] ->
  plays base [need c] (checked reply_count c).
Proof. apply plays_checked. Qed.

Lemma plays_rows base f c :
  (forall r, exists v, f r = Ok v) ->
  (forall ok, scope_step base (c, ok) = Some base) -> closing base base = Some [] ->
  plays base [need c] (let! rs := checked reply_rows c in lift (finish_rows f rs)).
Proof.
  intros Hf Hs Hc. apply plays_shape; [by repeat constructor|by apply plays_checked|].
  intros rs. by apply rows_shape.
Qed.

Lemma plays_configs p : plays (InTx p) (config_steps session) (set_configs session).
Proof.
  apply plays_for_each; [done|]. intros [k v]. apply (plays_bind _ [_] []); [by repeat constructor| |intros; apply plays_ret].
  apply plays_checked; [by intros []|by destruct p].
Qed.

Lemma plays_sets : plays Pinned (set_steps session) (set_vars OnConn session).
Proof.
  apply plays_for_each; [done|]. intros [k v]. apply (plays_bind _ [_] []); [by repeat constructor| |intros; apply plays_ret].
  apply plays_checked; [by intros []|done].
Qed.

Lemma plays_clears : plays Pinned (clear_steps session) (clear_vars OnConn session).
Proof. apply plays_for_each; [done|]. intros [k v]. apply plays_ignored. by intros []. Qed.

Lemma clears_ok w : fst (clear_vars OnConn session w) = Ok ().
Proof.
  unfold clear_vars. revert w. induction (values session) as [|[k v] l IH]; intros w; [done|].
  cbn [for_each]. unfold bind at 1 2, perform. cbn. apply IH.
Qed.

Lemma prompt_configs : prompt (config_steps session).
Proof. unfold config_steps. induction (values session); by repeat constructor. Qed.

Lemma prompt_sets : prompt (set_steps session).
Proof. unfold set_steps. induction (values session); by repeat constructor. Qed.

Lemma plays_note base id : plays base [] (note_backend ctx id).
Proof.
  intros w. destruct (note_quiet id w) as (a & w' & -> & E). exists []. cbn. rewrite app_nil_r.
  split; [done|constructor].
Qed.

Lemma plays_pid : plays Pinned [need (FetchOne OnConn "SELECT pg_backend_pid()")] (pg_capture_pid ctx).
Proof.
  apply (plays_bind _ [_] []); [by repeat constructor| |intros; apply plays_note].
  apply plays_checked; [by intros []|done].
Qed.

Lemma plays_id : plays Pinned [need (FetchOne OnConn "SELECT CONNECTION_ID()")] (mysql_capture_id ctx).
Proof.
  apply (plays_bind _ [_] []); [by repeat constructor| |intros; apply plays_note].
  apply plays_checked; [by intros []|done].
Qed.

(** ** Postgres *)

Lemma pg_tx_body {A} p (c : call) (body : M A) :
  plays (InTx p) [need c] body ->
  plays (outside p) (need (Begin (if p then OnConn else OnPool)) :: (config_steps session ++ [need c]) ++ [need Commit])
    (with_tx (if p then OnConn else OnPool) (let! _ := set_configs session in body)).
Proof.
  intros Hb. apply plays_with_tx.
  - apply Forall_app. split; [apply prompt_configs|by repeat constructor].
  - apply plays_bind; [apply prompt_configs|apply plays_configs|done].
Qed.

Lemma pg_rows_on base t : (base, t) ∈ [(Idle, OnPool); (Pinned, OnConn); (InTx false, OnTx); (InTx true, OnTx)] ->
  plays base [need (query_with (pg_args args) t)]
    (let! rs := checked reply_rows (FetchAll t (stmt_sql stmt) (pg_args args)) in lift (finish_rows row_to_json_pg rs)) /\
  plays base [need (count_with (pg_args args) t)] (checked reply_count (Exec t (stmt_sql stmt) (pg_args args))).
Proof.
  rewrite !elem_of_cons, elem_of_nil. intros [[= -> ->]|[[= -> ->]|[[= -> ->]|[[= -> ->]|[]]]]];
    (split; [apply plays_rows; [by eexists|by intros []|done]|apply plays_checked; [by intros []|done]]).
Qed.

Lemma pg_paths :
  planned (pg_plan (query_with (pg_args args)) session) (pg_execute PgPool stmt args session) /\
  planned (pg_plan (count_with (pg_args args)) session) (pg_execute_affected PgPool stmt args session) /\
  planned (pg_ctx_plan (query_with (pg_args args)) session) (pg_execute_with_ctx PgPool stmt args session ctx) /\
  planned (pg_ctx_plan (count_with (pg_args args)) session) (pg_execute_affected_with_ctx PgPool stmt args session ctx).
Proof.
  destruct (pg_rows_on Idle OnPool ltac:(set_solver)) as [I1 I2].
  destruct (pg_rows_on Pinned OnConn ltac:(set_solver)) as [P1 P2].
  destruct (pg_rows_on (InTx false) OnTx ltac:(set_solver)) as [F1 F2].
  destruct (pg_rows_on (InTx true) OnTx ltac:(set_solver)) as [T1 T2].
  unfold pg_ctx_plan, pg_plan, pg_from, pg_execute, pg_execute_affected, pg_execute_with_ctx, pg_execute_affected_with_ctx.
  split_and!; try (apply plays_with_conn, plays_bind; [by repeat constructor|apply plays_pid|intros _]);
    destruct (session_is_empty session); simpl negb; cbv iota; try done;
    first [by apply (pg_tx_body false)|by apply (pg_tx_body true)].
Qed.

(** ** MySQL *)

Lemma bracketed {A B} capture (pre : M ()) (main : M A) c (good : A -> bool) (post : A -> M B) :
  prompt capture -> plays Pinned capture pre ->
  (forall w, exists a, main w = (Ok a, log (c OnConn) (good a) w)) ->
  (forall ok, scope_step Pinned (c OnConn, ok) = Some Pinned) ->
  (forall a w, exists r, post a w = (r, w) /\ is_ok r = good a) ->
  planned (mysql_bracket c session capture)
    (with_conn (let! _ := pre in let! _ := set_vars OnConn session in
                let! a := main in let! _ := clear_vars OnConn session in post a)).
Proof.
  intros Hp Hpre Hm Hs Hpost. apply plays_with_conn. apply plays_bind; [done..|]. intros _.
  apply plays_bind; [apply prompt_sets|apply plays_sets|]. intros _.
  by apply (plays_reported _ _ _ good); [| |apply plays_clears|apply clears_ok|].
Qed.

(** The shapes of [main] and of what follows the cleanup. *)
Lemma performed {A} (reply : list event -> call -> result sqlx_error A) c w :
  exists a, perform reply c w = (Ok a, log c (is_ok a) w).
Proof. by eexists. Qed.

Lemma rows_after f (a : result sqlx_error (list Row)) w :
  (forall r, exists v, f r = Ok v) ->
  exists r, (let! rs := lift (rmap_err from_execute a) in lift (finish_rows f rs)) w = (r, w) /\ is_ok r = is_ok a.
Proof. intros Hf. destruct a as [rs|e]; eexists; (split; [reflexivity|]); [by apply rows_shape|done]. Qed.

Lemma count_after (a : result sqlx_error Z) w :
  exists r, lift (rmap_err from_execute a) w = (r, w) /\ is_ok r = is_ok a.
Proof. destruct a; by eexists. Qed.

(** Rows decode, so only the stream's own error fails. *)
Lemma stream_ok (reply : list (option Row) * option sqlx_error) :
  is_ok (fst (stream_sets row_to_json_mysql reply)) = match snd reply with None => true | Some _ => false end.
Proof.
  destruct reply as [items err]. unfold stream_sets. cbn.
  assert (forall sets current, exists s c, group_items row_to_json_mysql items sets current = (Ok (), s, c)) as Hg.
  { induction items as [|[r|] items IH]; intros sets current; cbn; [by do 2 eexists|apply IH|].
    destruct current; apply IH. }
  destruct (Hg [] []) as (s & c & ->). by destruct err.
Qed.

Lemma mysql_paths :
  let bound := mysql_args args in
  planned (mysql_plan (query_with bound) session) (mysql_execute MysqlPool stmt args session) /\
  planned (mysql_plan (count_with bound) session) (mysql_execute_affected MysqlPool stmt args session) /\
  planned (mysql_ctx_plan (query_with bound) session) (mysql_execute_with_ctx MysqlPool stmt args session ctx) /\
  planned (mysql_ctx_plan (count_with bound) session) (mysql_execute_affected_with_ctx MysqlPool stmt args session ctx) /\
  planned (mysql_bracket (many_with bound) session []) (mysql_execute_multi_result MysqlPool stmt args session).
Proof.
  cbv zeta. unfold mysql_plan, mysql_execute, mysql_execute_affected.
  assert (forall r : Row, exists v, row_to_json_mysql r = Ok v) as Hr by (by eexists).
  assert (forall A (m : M A) p, planned p (with_conn (let! _ := ret () in m)) -> planned p (with_conn m)) as Hret by done.
  split_and!.
  - destruct (session_is_empty session); [apply plays_rows; [done|by intros []|done]|].
    apply Hret, (bracketed _ _ _ _ is_ok); [by constructor|apply plays_ret|apply performed|by intros []|].
    intros a w. by apply rows_after.
  - destruct (session_is_empty session); [apply plays_checked; [by intros []|done]|].
    apply Hret, (bracketed _ _ _ _ is_ok); [by constructor|apply plays_ret|apply performed|by intros []|apply count_after].
  - apply (bracketed _ _ _ _ is_ok); [by repeat constructor|apply plays_id|apply performed|by intros []|].
    intros a w. by apply rows_after.
  - apply (bracketed _ _ _ _ is_ok); [by repeat constructor|apply plays_id|apply performed|by intros []|apply count_after].
  - apply Hret, (bracketed _ _ _ _ (fun a => match snd a with None => true | Some _ => false end));
      [by constructor|apply plays_ret|by eexists|by intros []|].
    intros a w. rewrite <- stream_ok. unfold bind, lift.
    destruct (stream_sets row_to_json_mysql a) as [[[]|e] s]; by eexists.
Qed.

(** ** SQLite *)

Lemma sqlite_locked {A B} (main : M A) c (good : A -> bool) (post : A -> M B) :
  (forall w, exists a, main w = (Ok a, log (c OnConn) (good a) w)) ->
  (forall ok, scope_step Pinned (c OnConn, ok) = Some Pinned) ->
  (forall a w, exists r, post a w = (r, w) /\ is_ok r = good a) ->
  planned (sqlite_ctx_plan c)
    (with_conn
       (let! running := sqlite_start conn in
        let! _ := note_backend ctx (InFlight.SqliteHandle (SqliteCancel.nonce running)) in
        let! a := main in let! _ := sqlite_finish conn running in post a)).
Proof.
  intros Hm Hs Hp.
  apply (plays_with_conn [need LockHandle; (c OnConn, Reported); (LockHandle, Ignored)]).
  apply (plays_bind _ [need LockHandle]); [by repeat constructor| |].
  { apply (plays_bind _ [need LockHandle] []); [by repeat constructor|apply plays_checked; [by intros []|done]|].
    intros _ w. destruct (on_sqlite_quiet (SqliteCancel.start conn) w) as (a & w' & -> & E). exists []. cbn.
    rewrite app_nil_r. split; [done|constructor]. }
  intros running. apply plays_quiet; [apply note_quiet|]. intros _.
  apply (plays_reported _ _ _ good); [done|done| | |done].
  - apply plays_quiet; [intros; apply on_sqlite_quiet|]. intros _ w. unfold bind, perform, on_sqlite. cbn.
    eexists [(LockHandle, _)]. split; [reflexivity|]. eapply performs_ignored; [reflexivity|constructor].
  - intros w. unfold sqlite_finish, bind, perform, on_sqlite. reflexivity.
Qed.

Lemma sqlite_paths :
  let bound := sqlite_args to_json args in
  planned (sqlite_plan (query_with bound)) (sqlite_execute to_json SqlitePool stmt args session) /\
  planned (sqlite_plan (count_with bound)) (sqlite_execute_affected to_json SqlitePool stmt args session) /\
  planned (sqlite_ctx_plan (query_with bound)) (sqlite_execute_with_ctx to_json conn SqlitePool stmt args session ctx) /\
  planned (sqlite_ctx_plan (count_with bound)) (sqlite_execute_affected_with_ctx to_json conn SqlitePool stmt args session ctx).
Proof.
  cbv zeta. assert (forall r : Row, exists v, row_to_json_sqlite r = Ok v) as Hr by (by eexists).
  assert (forall A (reply : list event -> call -> result sqlx_error A) c w,
    exists a, attempt (checked reply c) w = (Ok a, log c (is_ok a) w)) as Ha.
  { intros A reply c w. exists (rmap_err from_execute (reply (events w) c)).
    unfold attempt, checked, bind, perform, lift. by destruct (reply (events w) c). }
  split_and!.
  - apply plays_rows; [done|by intros []|done].
  - apply plays_checked; [by intros []|done].
  - apply (sqlite_locked _ _ is_ok); [intros w; apply Ha|by intros []|]. intros [rs|e] w; eexists; (split; [reflexivity|]);
      [by apply rows_shape|done].
  - apply (sqlite_locked _ _ is_ok); [intros w; apply Ha|by intros []|]. intros [n|e] w; by eexists.
Qed.

(** C5.  On any server and whatever it answers, each execute path of the three
    drivers makes the calls of its plan, in its order and in the scope each is
    written for: on Postgres session variables and statement run in one
    transaction that is committed last; on MySQL the variables are set on the
    connection the statement runs on and cleared after it; with a context the
    backend is asked for, or the progress handler installed, on the pinned
    connection of the statement.  A needed call that fails ends the path, which
    drops the transaction and releases the connection it holds; the result is an
    error exactly when a call that is not to be ignored failed.  On a pool of
    another driver each path refuses without a call. *)
Theorem execute_paths_scoped pool :
  let pg := pg_args args in let my := mysql_args args in let lite := sqlite_args to_json args in
  follows PgPool pool (pg_plan (query_with pg) session) (pg_execute pool stmt args session) /\
  follows PgPool pool (pg_plan (count_with pg) session) (pg_execute_affected pool stmt args session) /\
  follows PgPool pool (pg_ctx_plan (query_with pg) session) (pg_execute_with_ctx pool stmt args session ctx) /\
  follows PgPool pool (pg_ctx_plan (count_with pg) session) (pg_execute_affected_with_ctx pool stmt args session ctx) /\
  follows MysqlPool pool (mysql_plan (query_with my) session) (mysql_execute pool stmt args session) /\
  follows MysqlPool pool (mysql_plan (count_with my) session) (mysql_execute_affected pool stmt args session) /\
  follows MysqlPool pool (mysql_ctx_plan (query_with my) session) (mysql_execute_with_ctx pool stmt args session ctx) /\
  follows MysqlPool pool (mysql_ctx_plan (count_with my) session) (mysql_execute_affected_with_ctx pool stmt args session ctx) /\
  follows MysqlPool pool (mysql_bracket (many_with my) session []) (mysql_execute_multi_result pool stmt args session) /\
  follows SqlitePool pool (sqlite_plan (query_with lite)) (sqlite_execute to_json pool stmt args session) /\
  follows SqlitePool pool (sqlite_plan (count_with lite)) (sqlite_execute_affected to_json pool stmt args session) /\
  follows SqlitePool pool (sqlite_ctx_plan (query_with lite)) (sqlite_execute_with_ctx to_json conn pool stmt args session ctx) /\
  follows SqlitePool pool (sqlite_ctx_plan (count_with lite)) (sqlite_execute_affected_with_ctx to_json conn pool stmt args session ctx).
Proof.
  cbv zeta. destruct pg_paths as (P1 & P2 & P3 & P4). destruct mysql_paths as (M1 & M2 & M3 & M4 & M5).
  destruct sqlite_paths as (S1 & S2 & S3 & S4).
  destruct pool; split_and!; try done; by eexists.
Qed.
End Paths.

(** ** Examples *)

Module PlansDemo.
Import ToyTypes ToyServer.

Definition run (refused : string) : list event :=
  events (snd (mysql_execute_with_ctx (H0 := strict_rows) (Server0 := refusing refused)
                 MysqlPool demo_stmt [] demo_session demo_ctx fresh)).

(** The statement is refused: the variables are still cleared. *)
Example refused_statement :
  run "SELECT * FROM invoices" =
    [(Acquire, true); (FetchOne OnConn "SELECT CONNECTION_ID()", true);
     (Exec OnConn "SET @role = ?" [ArgText "auditor"], true); (Exec OnConn "SET @tenant_id = ?" [ArgText "acme"], true);
     (FetchAll OnConn "SELECT * FROM invoices" [], false);
     (Exec OnConn "SET @role = NULL" [], true); (Exec OnConn "SET @tenant_id = NULL" [], true); (Release, true)]%string.
Proof. by vm_compute. Qed.

(** The second variable is refused: the statement is not sent, the connection
    goes back. *)
Example refused_variable :
  run "SET @tenant_id = ?" =
    [(Acquire, true); (FetchOne OnConn "SELECT CONNECTION_ID()", true);
     (Exec OnConn "SET @role = ?" [ArgText "auditor"], true); (Exec OnConn "SET @tenant_id = ?" [ArgText "acme"], false);
     (Release, true)]%string.
Proof. by vm_compute. Qed.
End PlansDemo.
