(* ===== verification/Transaction.v ===== *)
(** Transaction handles of [src/src/transaction.rs].

    The handle's [Mutex<Option<Transaction>>] is the [tx_open] field of the
    world.  A call takes the transaction out, works on it and puts it back (or
    consumes it); a transaction the call still owns when it returns early is
    dropped.  [cstep] interleaves the elementary steps of concurrent calls. *)

From Stdlib Require Import ZArith Lia Bool Ascii String SpecFloat.
From stdpp Require Import base list strings gmap relations.
From S2P Require Import Prelude RustStd Redact Text Errors Json Params F64 InFlight Interval SqliteCancel Sqlx Rows Drivers.

Definition closed_error : SqlError := InvalidSpec "transaction already closed".

Definition set_tx (b : bool) (w : world) : world :=
  World (events w) (in_flight w) (sqlite w) b.

Definition take : M () := fun w =>
  if tx_open w then (Ok (), set_tx false w) else (Err closed_error, w).

Definition put : M () := fun w => (Ok (), set_tx true w).

Section Handles.
Context `{SqlxRow Row} `{!Server Row} (to_json : value -> string).

(** [self.put(tx); return Err(e)]. *)
Definition put_err {A} (e : SqlError) : M A := let! _ := put in raise e.

(** Decode the rows, then put the transaction back; the [?] of the decoder
    returns with the transaction still owned, which drops it. *)
Definition finish_tx (batch : result SqlError RowBatch) : M RowBatch :=
  match batch with
  | Ok b => let! _ := put in ret b
  | Err e => let! _ := drop_value DropTx in raise e
  end.

(** The [match exec_res { .. }] that ends the [execute_affected]s. *)
Definition finish_affected (r : result sqlx_error Z) : M Z :=
  match r with
  | Ok n => let! _ := put in ret n
  | Err e => put_err (from_execute e)
  end.

(** * Postgres *)

Definition pg_tx_execute (stmt : PreparedStmt) (args : list BoundParam) (session : SessionVars)
  : M RowBatch :=
  let! _ := take in
  let! s := attempt (set_configs session) in
  match s with
  | Err e => put_err e
  | Ok _ =>
      let! rows_res := perform reply_rows (FetchAll OnTx (stmt_sql stmt) (pg_args args)) in
      match rows_res with
      | Err e => put_err (from_execute e)
      | Ok rs => finish_tx (finish_rows row_to_json_pg rs)
      end
  end.

Definition pg_tx_execute_affected (stmt : PreparedStmt) (args : list BoundParam)
  (session : SessionVars) : M Z :=
  let! _ := take in
  let! s := attempt (set_configs session) in
  match s with
  | Err e => put_err e
  | Ok _ =>
      let! result_res := perform reply_count (Exec OnTx (stmt_sql stmt) (pg_args args)) in
      finish_affected result_res
  end.

(** * MySQL *)

(** The session variables of the pinned connection, set and cleared. *)
Definition apply_session_vars (session : SessionVars) : M () := set_vars OnTx session.
Definition clear_session_vars (session : SessionVars) : M () := clear_vars OnTx session.

Definition mysql_tx_execute (stmt : PreparedStmt) (args : list BoundParam)
  (session : SessionVars) : M RowBatch :=
  let! _ := take in
  let! s := attempt (apply_session_vars session) in
  match s with
  | Err e => put_err e
  | Ok _ =>
      let! rows_res := perform reply_rows (FetchAll OnTx (stmt_sql stmt) (mysql_args args)) in
      let! _ := clear_session_vars session in
      match rows_res with
      | Err e => put_err (from_execute e)
      | Ok rs => finish_tx (finish_rows row_to_json_mysql rs)
      end
  end.

Definition mysql_tx_execute_affected (stmt : PreparedStmt) (args : list BoundParam)
  (session : SessionVars) : M Z :=
  let! _ := take in
  let! s := attempt (apply_session_vars session) in
  match s with
  | Err e => put_err e
  | Ok _ =>
      let! exec_res := perform reply_count (Exec OnTx (stmt_sql stmt) (mysql_args args)) in
      let! _ := clear_session_vars session in
      finish_affected exec_res
  end.

(** * SQLite *)

(** The batch of the SQLite handle names no columns. *)
Definition sqlite_tx_batch (rs : list Row) : result SqlError RowBatch :=
  let? out := decode_rows row_to_json_sqlite_tx rs in
  Ok {| columns := []; rows := out; rows_affected := None; truncated := false; has_more := false |}.

Definition sqlite_tx_execute (stmt : PreparedStmt) (args : list BoundParam)
  (session : SessionVars) : M RowBatch :=
  let! _ := take in
  let! rows_res := perform reply_rows (FetchAll OnTx (stmt_sql stmt) (sqlite_args to_json args)) in
  match rows_res with
  | Err e => put_err (from_execute e)
  | Ok rs => finish_tx (sqlite_tx_batch rs)
  end.

Definition sqlite_tx_execute_affected (stmt : PreparedStmt) (args : list BoundParam)
  (session : SessionVars) : M Z :=
  let! _ := take in
  let! result_res := perform reply_count (Exec OnTx (stmt_sql stmt) (sqlite_args to_json args)) in
  finish_affected result_res.

(** * Termination: the same lines in the three handles *)

Definition commit : M () := let! _ := take in checked reply_unit Commit.
Definition rollback : M () := let! _ := take in checked reply_unit Rollback.
Definition is_closed (w : world) : bool := negb (tx_open w).

(** [Drop] of the handle: an open transaction goes with it. *)
Definition handle_drop : M () := fun w =>
  if tx_open w then (Ok (), log DropTx true (set_tx false w)) else (Ok (), w).
End Handles.

(** * Elementary steps of concurrent calls *)

(** A world and the number of calls that hold the transaction. *)
Definition cworld : Type := (world * nat)%type.

Definition ends (c : call) : bool :=
  match c with Commit | Rollback | DropTx => true | _ => false end.

Definition on_tx (c : call) : bool :=
  match c with
  | Exec OnTx _ _ | FetchAll OnTx _ _ => true
  | _ => false
  end.

Inductive cstep : cworld -> cworld -> Prop :=
| c_take w n w' : take w = (Ok (), w') -> cstep (w, n) (w', S n)
| c_refused w n e : take w = (Err e, w) -> cstep (w, n) (w, n)
| c_call c ok w n : on_tx c = true -> cstep (w, S n) (log c ok w, S n)
| c_put w n : cstep (w, S n) (snd (put w), n)
| c_end c ok w n : ends c = true -> cstep (w, S n) (log c ok w, n)
| c_dropped w w' : handle_drop w = (Ok (), w') -> cstep (w, 0%nat) (w', 0%nat).

(** The calls of a handle's life. *)
Definition terminations (es : list event) : nat :=
  length (List.filter (fun e => ends (fst e)) es).

Definition silent (e : event) : Prop := on_tx (fst e) = false /\ ends (fst e) = false.

(** A life of the handle so far: the transaction is in the mutex, held by one
    call, or was ended once; nothing was submitted after the end. *)
Definition life (es0 : list event) (cw : cworld) : Prop := exists es,
  events (fst cw) = es0 ++ es /\
  (snd cw + terminations es + Nat.b2n (tx_open (fst cw)) = 1)%nat /\
  (forall es1 e es2, es = es1 ++ e :: es2 -> ends (fst e) = true -> Forall silent es2).

Lemma terminations_app es1 es2 : terminations (es1 ++ es2) = (terminations es1 + terminations es2)%nat.
Proof. unfold terminations. by rewrite List.filter_app, length_app. Qed.

(** Appending a call while the transaction was not ended. *)
Lemma silent_snoc es e :
  terminations es = 0%nat ->
  forall es1 e' es2, es ++ [e] = es1 ++ e' :: es2 -> ends (fst e') = true -> Forall silent es2.
Proof.
  intros H0 es1 e' es2 E He'. destruct es2 as [|x es2 _] using rev_ind; [constructor|].
  change (e' :: es2 ++ [x]) with ((e' :: es2) ++ [x]) in E. rewrite app_assoc in E.
  apply app_inj_tail in E as [-> _]. rewrite terminations_app in H0.
  unfold terminations in H0. simpl in H0. rewrite He' in H0. simpl in H0. lia.
Qed.

Lemma life_log es0 es c ok w n' :
  events w = es0 ++ es -> terminations es = 0%nat ->
  (n' + terminations [(c, ok)] + Nat.b2n (tx_open w) = 1)%nat ->
  life es0 (log c ok w, n').
Proof.
  intros E H0 Hn. exists (es ++ [(c, ok)]). simpl. rewrite E, app_assoc. split; [done|].
  rewrite terminations_app, H0. split; [done|]. by apply silent_snoc.
Qed.

Lemma life_step es0 cw cw' : cstep cw cw' -> life es0 cw -> life es0 cw'.
Proof.
  intros Hs (es & E & Hn & Hq).
  destruct Hs as [w n w' Ht|w n e Ht|c ok w n Hc|w n|c ok w n Hc|w w' Hd]; simpl in *.
  - unfold take in Ht. destruct (tx_open w) eqn:Eo; [|done]. injection Ht as <-.
    exists es. simpl in *. repeat split; [done|lia|done].
  - exists es. by repeat split.
  - assert (terminations [(c, ok)] = 0%nat) by (by destruct c).
    apply (life_log _ es); [done|lia|lia].
  - exists es. simpl. repeat split; [done| |done]. destruct (tx_open w); simpl in *; lia.
  - assert (terminations [(c, ok)] = 1%nat) by (by destruct c).
    apply (life_log _ es); [done|lia|lia].
  - unfold handle_drop in Hd. destruct (tx_open w) eqn:Eo; injection Hd as <-.
    + apply (life_log _ es); simpl in *; [done|lia|done].
    + exists es. simpl. rewrite Eo. by repeat split.
Qed.

(** However calls on a handle interleave, fail, are refused or have their
    futures dropped, the transaction is in exactly one place: in the handle,
    with one call, or ended; it is ended (committed, rolled back or dropped) at
    most once, and nothing is submitted on it after that. *)
Theorem tx_terminates_once w0 w n :
  tx_open w0 = true -> rtc cstep (w0, 0%nat) (w, n) ->
  exists es, events w = events w0 ++ es /\
    (n + terminations es + Nat.b2n (tx_open w) = 1)%nat /\
    (forall es1 e es2, es = es1 ++ e :: es2 -> ends (fst e) = true -> Forall silent es2).
Proof.
  intros Ho Hr.
  refine (rtc_ind_r (life (events w0)) (w0, 0%nat) _ _ (w, n) Hr).
  - exists []. simpl. rewrite app_nil_r, Ho. repeat split. intros es1 e es2 E. by destruct es1.
  - intros y z _ Hs Hy. by eapply life_step.
Qed.

(** * Whole calls are runs of elementary steps *)

Definition works {A} (m : M A) : Prop := forall w n, rtc cstep (w, S n) (snd (m w), S n).
Definition hands_back {A} (m : M A) : Prop := forall w n, rtc cstep (w, S n) (snd (m w), n).

Create HintDb txn discriminated.

Lemma works_lift {A} (r : result SqlError A) : works (lift r).
Proof. intros w n. apply rtc_refl. Qed.

Lemma works_bind {A B} (m : M A) (k : A -> M B) : works m -> (forall a, works (k a)) -> works (bind m k).
Proof.
  intros Hm Hk w n. unfold bind. pose proof (Hm w n) as Hr. destruct (m w) as [[a|e] w1]; [|done].
  etrans; [exact Hr|apply Hk].
Qed.

Lemma works_attempt {A} (m : M A) : works m -> works (attempt m).
Proof. intros Hm w n. pose proof (Hm w n) as Hr. unfold attempt. by destruct (m w). Qed.

Lemma works_perform {A} (reply : list event -> call -> result sqlx_error A) c :
  on_tx c = true -> works (perform reply c).
Proof. intros Hc w n. by apply rtc_once, c_call. Qed.

Lemma works_checked {A} (reply : list event -> call -> result sqlx_error A) c :
  on_tx c = true -> works (checked reply c).
Proof. intros Hc. apply works_bind; [by apply works_perform|]. intros r. apply works_lift. Qed.

Lemma works_for_each {A} (f : A -> M ()) l : (forall x, works (f x)) -> works (for_each f l).
Proof. intros Hf. induction l; [apply works_lift|]. simpl. by apply works_bind. Qed.

Lemma hands_back_bind {A B} (m : M A) (k : A -> M B) :
  works m -> (forall w, exists a, fst (m w) = Ok a) -> (forall a, hands_back (k a)) ->
  hands_back (bind m k).
Proof.
  intros Hm Hok Hk w n. unfold bind. pose proof (Hm w n) as Hr. destruct (Hok w) as [a Ha].
  destruct (m w) as [r w1]. simpl in *. subst r. etrans; [exact Hr|apply Hk].
Qed.

Lemma hands_back_put_err {A} e : hands_back (put_err (A := A) e).
Proof. intros w n. apply rtc_once, (c_put w). Qed.

Lemma hands_back_finish_tx b : hands_back (finish_tx b).
Proof.
  intros w n. destruct b; apply rtc_once; [apply (c_put w)|by apply (c_end DropTx true w)].
Qed.

Lemma hands_back_finish_affected r : hands_back (finish_affected r).
Proof. destruct r; [|apply hands_back_put_err]. intros w n. apply rtc_once, (c_put w). Qed.

Lemma take_then {A} (k : M A) w :
  hands_back k -> rtc cstep (w, 0%nat) (snd (bind take (fun _ => k) w), 0%nat).
Proof.
  intros Hk. unfold bind. destruct (take w) as [[[]|e] w'] eqn:E.
  - eapply rtc_l; [by apply c_take|apply Hk].
  - unfold take in *. destruct (tx_open w) eqn:Eo; [done|]. injection E as <- <-.
    apply rtc_once, (c_refused w 0 closed_error). unfold take. by rewrite Eo.
Qed.

Lemma checked_end c w n `{Server Row} :
  ends c = true -> rtc cstep (w, S n) (snd (checked reply_unit c w), n).
Proof.
  intros Hc. unfold checked, bind, perform, lift. simpl. by apply rtc_once, c_end.
Qed.

Lemma for_each_total {A} (f : A -> M ()) l w :
  (forall x w, exists a, fst (f x w) = Ok a) -> exists a, fst (for_each f l w) = Ok a.
Proof.
  intros Hf. revert w. induction l as [|x l IH]; intros w; simpl; [by eexists|]. unfold bind.
  destruct (Hf x w) as [a Ha]. destruct (f x w) as [r w1]. simpl in Ha. subst r. apply IH.
Qed.

#[export] Hint Resolve works_lift works_bind works_attempt works_perform works_checked
  works_for_each hands_back_put_err hands_back_finish_tx hands_back_finish_affected
  hands_back_bind : txn.

Section Refinement.
Context `{SqlxRow Row} `{!Server Row} (to_json : value -> string).

Lemma attempt_total {A} (m : M A) w : exists a, fst (attempt m w) = Ok a.
Proof. unfold attempt. destruct (m w). by eexists. Qed.

Lemma perform_total {A} (reply : list event -> call -> result sqlx_error A) c w :
  exists a, fst (perform reply c w) = Ok a.
Proof. by eexists. Qed.

Lemma works_set_configs session : works (set_configs session).
Proof. apply works_for_each. intros []. apply works_bind; eauto with txn. Qed.

Lemma works_set_vars session : works (apply_session_vars session).
Proof. apply works_for_each. intros []. apply works_bind; eauto with txn. Qed.

Lemma works_clear_vars session : works (clear_session_vars session).
Proof. apply works_for_each. intros []. apply works_bind; eauto with txn. Qed.

Lemma clear_vars_total session w : exists a, fst (clear_session_vars session w) = Ok a.
Proof. apply for_each_total. intros [] w'. by eexists. Qed.

Hint Resolve works_set_configs works_set_vars works_clear_vars attempt_total perform_total
  clear_vars_total : txn.

(** A whole call on a handle, of any driver and with any outcome, is a run
    of the elementary steps that starts and ends with no call holding the
    transaction: what is proved of the interleaved steps holds of every
    sequence of calls. *)
Theorem tx_calls_refine stmt args session w :
  let runs {A} (op : M A) := rtc cstep (w, 0%nat) (snd (op w), 0%nat) in
  runs (pg_tx_execute stmt args session) /\
  runs (pg_tx_execute_affected stmt args session) /\
  runs (mysql_tx_execute stmt args session) /\
  runs (mysql_tx_execute_affected stmt args session) /\
  runs (sqlite_tx_execute to_json stmt args session) /\
  runs (sqlite_tx_execute_affected to_json stmt args session) /\
  runs commit /\ runs rollback /\ runs handle_drop.
Proof.
  cbv zeta beta.
  repeat split; try (apply take_then).
  - apply hands_back_bind; auto with txn. intros [[]|]; auto with txn.
    apply hands_back_bind; auto with txn. intros []; auto with txn.
  - apply hands_back_bind; auto with txn. intros [[]|]; auto with txn.
  - apply hands_back_bind; auto with txn. intros [[]|]; auto with txn.
    apply hands_back_bind; auto with txn. intros r. apply hands_back_bind; auto with txn.
    intros []. destruct r; auto with txn.
  - apply hands_back_bind; auto with txn. intros [[]|]; auto with txn.
  - apply hands_back_bind; auto with txn. intros []; auto with txn.
  - apply hands_back_bind; auto with txn.
  - intros w0 n. by apply checked_end.
  - intros w0 n. by apply checked_end.
  - apply rtc_once, c_dropped. unfold handle_drop. by destruct (tx_open w).
Qed.
End Refinement.

(** * Functional behaviour *)

Definition reopens {A} (m : M A) : Prop := forall w, tx_open (snd (m w)) = true.

Lemma reopens_bind {A B} (m : M A) (k : A -> M B) :
  (forall w, exists a, fst (m w) = Ok a) -> (forall a, reopens (k a)) -> reopens (bind m k).
Proof.
  intros Hok Hk w. unfold bind. destruct (Hok w) as [a Ha]. destruct (m w) as [r w1].
  simpl in Ha. subst r. apply Hk.
Qed.

Lemma reopens_finish_affected r : reopens (finish_affected r).
Proof. by destruct r. Qed.

Section Functional.
Context `{SqlxRow Row} `{!Server Row} (to_json : value -> string).

Lemma reopens_put_err {A} e : reopens (put_err (A := A) e).
Proof. done. Qed.

Lemma reopens_finish_rows f (rs : list Row) :
  (forall r, exists v, f r = Ok v) -> reopens (finish_tx (finish_rows f rs)).
Proof. intros Hf. by destruct (finish_rows_ok f rs Hf) as [b ->]. Qed.

Lemma reopens_sqlite_batch (rs : list Row) : reopens (finish_tx (sqlite_tx_batch rs)).
Proof.
  unfold sqlite_tx_batch. destruct (decode_rows_ok row_to_json_sqlite_tx rs) as (vs & -> & _); [|done].
  by eexists.
Qed.

Hint Resolve reopens_put_err reopens_finish_affected reopens_sqlite_batch attempt_total
  perform_total clear_vars_total : txn.

Lemma reopens_rows (rs : list Row) :
  reopens (finish_tx (finish_rows row_to_json_pg rs)) /\
  reopens (finish_tx (finish_rows row_to_json_mysql rs)).
Proof. split; apply reopens_finish_rows; by eexists. Qed.

Ltac reopens_step :=
  match goal with
  | |- reopens (bind _ _) => apply reopens_bind; [auto with txn|intros ?]
  | |- reopens (match ?a with _ => _ end) => destruct a
  end.

(** The operations of the three handles. *)
Definition handle_ops stmt args session : list (world -> option SqlError * world) :=
  let run {A} (m : M A) w :=
    let '(r, w') := m w in (match r with Ok _ => None | Err e => Some e end, w') in
  [run (pg_tx_execute stmt args session); run (pg_tx_execute_affected stmt args session);
   run (mysql_tx_execute stmt args session); run (mysql_tx_execute_affected stmt args session);
   run (sqlite_tx_execute to_json stmt args session);
   run (sqlite_tx_execute_affected to_json stmt args session);
   run commit; run rollback].

(** On a closed handle every operation fails with [transaction already
    closed] and does nothing.  On an open one an execute leaves the handle open
    whether it succeeds or fails, and a commit or rollback closes it whether it
    succeeds or fails. *)
Theorem tx_open_closed stmt args session w :
  (tx_open w = false ->
     Forall (fun op => op w = (Some closed_error, w)) (handle_ops stmt args session)) /\
  (tx_open w = true ->
     map (fun op => is_closed (snd (op w))) (handle_ops stmt args session) =
     repeat false 6 ++ repeat true 2).
Proof.
  assert (forall A (k : M A), tx_open w = true -> bind take (fun _ => k) w = k (set_tx false w)) as Ht.
  { intros A k Ho. unfold bind, take. by rewrite Ho. }
  split; intros Ho.
  - assert (forall A (k : () -> M A), bind take k w = (Err closed_error, w)) as Hc.
    { intros A k. unfold bind, take. by rewrite Ho. }
    unfold handle_ops, pg_tx_execute, pg_tx_execute_affected, mysql_tx_execute,
      mysql_tx_execute_affected, sqlite_tx_execute, sqlite_tx_execute_affected, commit, rollback.
    repeat constructor; by rewrite Hc.
  - assert (forall A (m : M A) b, tx_open (snd (m w)) = b ->
      is_closed (snd (let '(r, w') := m w in (match r with Ok _ => None | Err e => Some e end, w'))) = negb b) as Hb.
    { intros A m b <-. by destruct (m w). }
    assert (forall A (k : M A), reopens k -> tx_open (snd (bind take (fun _ => k) w)) = true) as Hx.
    { intros A k Hk. rewrite Ht by done. apply Hk. }
    unfold handle_ops. cbn [map repeat app].
    rewrite !(Hb _ (_ stmt args session) true), (Hb _ commit false), (Hb _ rollback false); [done|..].
    1-2: unfold commit, rollback; by rewrite Ht.
    all: apply Hx; repeat (reopens_step; auto with txn); apply reopens_rows.
Qed.
End Functional.

Module TxDemo.
Import ToyTypes ToyServer.

Definition opened : world := set_tx true fresh.

(** Two calls race: the second is refused while the first holds the
    transaction, whose future is then dropped. *)
Definition raced : world := log DropTx true (log (Exec OnTx "UPDATE t" []) true (set_tx false opened)).

Lemma raced_reachable : rtc cstep (opened, 0%nat) (raced, 0%nat).
Proof.
  eapply rtc_l; [by apply c_take|]. eapply rtc_l; [by apply (c_refused _ _ closed_error)|].
  eapply rtc_l; [by apply (c_call (Exec OnTx "UPDATE t" []) true)|].
  apply rtc_once. by apply (c_end DropTx true).
Qed.

Lemma tx_terminates_once_witness :
  exists es, events raced = es /\ terminations es = 1%nat /\
    (forall es1 e es2, es = es1 ++ e :: es2 -> ends (fst e) = true -> Forall silent es2).
Proof.
  destruct (tx_terminates_once opened raced 0 eq_refl raced_reachable) as (es & E & Hn & Hs).
  exists es. split; [exact E|]. split; [|exact Hs].
  rewrite Nat.add_0_r in Hn. exact Hn.
Defined.

Lemma tx_open_closed_witness :
  map (fun op => is_closed (snd (op opened)))
    (handle_ops (H0 := strict_rows) (Server0 := refusing "COMMIT") (fun _ => EmptyString)
       demo_stmt [] demo_session) = repeat false 6 ++ repeat true 2 /\
  Forall (fun op => op fresh = (Some closed_error, fresh))
    (handle_ops (H0 := strict_rows) (Server0 := refusing "COMMIT") (fun _ => EmptyString)
       demo_stmt [] demo_session).
Proof.
  exact (conj
    (proj2 (tx_open_closed (H0 := strict_rows) (Server0 := refusing "COMMIT") (fun _ => EmptyString)
              demo_stmt [] demo_session opened) eq_refl)
    (proj1 (tx_open_closed (H0 := strict_rows) (Server0 := refusing "COMMIT") (fun _ => EmptyString)
              demo_stmt [] demo_session fresh) eq_refl)).
Defined.

(** The same leak as on the pooled paths: a refused later [SET] leaves the
    earlier variable set on the transaction's connection, and a commit returns
    it to the pool that way. *)
Example mysql_tx_vars_leak :
  let refused := refusing (set_var_sql "tenant_id") in
  let w := snd (mysql_tx_execute (H0 := strict_rows) (Server0 := refused) demo_stmt [] demo_session opened) in
  var_live "role" (events (snd (commit (Server0 := refused) w))) = true /\
  fst (commit (Server0 := refused) w) = Ok ().
Proof. by vm_compute. Qed.

End TxDemo.
