(* ===== verification/Stream.v ===== *)
(** Keyset paging: [src/src/stream.rs], and [apply_stream_cursor],
    [mint_next_cursor] and [json_type] of [src/src/lib.rs].

    Base64url, HMAC-SHA-256, blake3 and serde_json's (de)serialisation of the
    cursor payload are parameters ([CursorOps]) with their documented laws
    ([CursorLaws]). *)

From Stdlib Require Import ZArith Lia Bool Ascii String.
From stdpp Require Import base list strings.
From S2P Require Import Prelude RustStd Redact Text Errors Json.

Module Stream.

Record StreamConfig : Type := {
  cursor_columns : list string;
  initial : json_map;
  signing_key : option string;
}.

Definition is_safe_column_name (s : string) : bool :=
  negb (str_is_empty s) && str_forall (fun c => is_ascii_alnum c || Ascii.eqb c "_") s.

Fixpoint check_columns (cols : list string) : result SqlError () :=
  match cols with
  | [] => Ok ()
  | col :: cols' =>
      if negb (is_safe_column_name col) then
        Err (InvalidSpec
          ("stream.cursor_columns: '" +:+ col +:+ "' is not a safe column name " +:+
           "(allowed: ASCII letters, digits, `_`)"))
      else check_columns cols'
  end.

Fixpoint check_initial (debug_strings : list string -> string) (cols keys : list string)
  : result SqlError () :=
  match keys with
  | [] => Ok ()
  | k :: keys' =>
      if negb (existsb (fun c => String.eqb c k) cols) then
        Err (InvalidSpec
          ("stream.initial['" +:+ k +:+ "'] is not a declared cursor column " +:+
           "(cursor_columns: " +:+ debug_strings cols +:+ ")"))
      else check_initial debug_strings cols keys'
  end.

(** [StreamConfig::validate]. *)
Definition validate (debug_strings : list string -> string) (c : StreamConfig)
  : result SqlError () :=
  match cursor_columns c with
  | [] => Err (InvalidSpec "stream.cursor_columns must not be empty when row_mode is stream")
  | cols =>
      let? _ := check_columns cols in
      check_initial debug_strings cols (map fst (initial c))
  end.

Definition after_name (c : string) : string := "_after_" +:+ c.

Definition placeholder_names (c : StreamConfig) : list string := map after_name (cursor_columns c).

Record StreamCursorPayload : Type := {
  version : Z;
  binding : string;
  profile : string;
  keyset : list value;
}.

Class CursorOps : Type := {
  b64_encode : list byte -> string;
  b64_decode : string -> option (list byte);
  hmac : list byte -> list byte -> list byte;          (* HMAC::mac(input, key) *)
  blake3 : list byte -> list byte;
  payload_to_vec : StreamCursorPayload -> list byte;
  payload_from_slice : list byte -> option StreamCursorPayload;
}.

Class CursorLaws `{CursorOps} : Prop := {
  b64_roundtrip bs : b64_decode (b64_encode bs) = Some bs;
  b64_alphabet bs : str_forall (fun c => negb (Ascii.eqb c ".")) (b64_encode bs) = true;
}.

(** serde_json reads the payload back. *)
Definition reads_back `{CursorOps} (p : StreamCursorPayload) : Prop :=
  payload_from_slice (payload_to_vec p) = Some p.

(** The loop of [constant_time_eq] over the zipped bytes. *)
Fixpoint diff_bytes (diff : Z) (a b : list byte) : Z :=
  match a, b with
  | x :: a', y :: b' => diff_bytes (Z.lor diff (Z.lxor (byte_Z x) (byte_Z y))) a' b'
  | _, _ => diff
  end.

Definition constant_time_eq (a b : list byte) : bool :=
  if negb (Nat.eqb (length a) (length b)) then false else diff_bytes 0 a b =? 0.

Section Cursor.
Context `{CursorOps}.

(** [CursorSigningKey::from_bytes]. *)
Definition key_from_bytes (input : list byte) : list byte := blake3 input.

Definition encode_cursor (payload : StreamCursorPayload) (key : list byte) : string :=
  let payload_b64 := b64_encode (payload_to_vec payload) in
  let mac := hmac (str_bytes payload_b64) key in
  "s." +:+ payload_b64 +:+ "." +:+ b64_encode mac.

Definition decode_cursor (token : string) (key : list byte) : option StreamCursorPayload :=
  match strip_prefix "s." token with
  | None => None
  | Some body =>
      match split_once "." body with
      | None => None
      | Some (payload_b64, mac_b64) =>
          let expected := hmac (str_bytes payload_b64) key in
          match b64_decode mac_b64 with
          | None => None
          | Some actual =>
              if negb (constant_time_eq expected actual) then None
              else
                match b64_decode payload_b64 with
                | None => None
                | Some json_bytes =>
                    match payload_from_slice json_bytes with
                    | None => None
                    | Some payload =>
                        if negb (version payload =? 1) then None else Some payload
                    end
                end
          end
      end
  end.

(** * Paging *)

Record StreamRuntime : Type := { cfg : StreamConfig; key : list byte }.

Definition json_type (v : value) : string :=
  match v with
  | VNull => "null"
  | VBool _ => "boolean"
  | VNumber _ => "number"
  | VString _ => "string"
  | VArray _ => "array"
  | VObject _ => "object"
  end.

Definition bad_token : SqlError :=
  InvalidSpec ("stream cursor: token failed verification (malformed, " +:+
    "tampered, signed by a different gateway instance " +:+
    "without shared signing_key, or for a different binding)").

(** The keyset of a page: the cursor's, or the declared initial values. *)
Definition page_keyset (rt : StreamRuntime) (backend_name : string) (raw_cursor : option value)
  : result SqlError (list value) :=
  let first_page :=
    map (fun col => match obj_get col (initial (cfg rt)) with Some v => v | None => VNull end)
      (cursor_columns (cfg rt)) in
  let not_a_token other :=
    Err (InvalidSpec ("stream cursor: `_cursor` must be a string token (or null/absent), got " +:+
                      json_type other)) in
  match raw_cursor with
  | Some (VString token) =>
      if negb (str_is_empty token) then
        let? decoded := ok_or (decode_cursor token (key rt)) bad_token in
        if negb (String.eqb (binding decoded) backend_name) then
          Err (InvalidSpec
            ("stream cursor: token was minted for binding `" +:+ binding decoded +:+
             "` but submitted to `" +:+ backend_name +:+ "` — bindings MUST match"))
        else if negb (Nat.eqb (length (keyset decoded)) (length (cursor_columns (cfg rt)))) then
          Err (InvalidSpec
            ("stream cursor: token carries " +:+ show_u (Z.of_nat (length (keyset decoded))) +:+
             " keyset values but binding declares " +:+
             show_u (Z.of_nat (length (cursor_columns (cfg rt)))) +:+
             " cursor_columns — config drift between mint and consume"))
        else Ok (keyset decoded)
      else not_a_token (VString token)
  | Some VNull | None => Ok first_page
  | Some other => not_a_token other
  end.

(** [for (col, val) in cursor_columns.iter().zip(keyset) { obj.insert(..) }]. *)
Definition bind_keyset (cols : list string) (vals : list value) (obj : json_map) : json_map :=
  fold_left (fun o cv => obj_insert (after_name (fst cv)) (snd cv) o) (zip cols vals) obj.

Definition apply_stream_cursor (args : value) (rt : StreamRuntime) (backend_name : string)
  : result SqlError value :=
  let? obj := match args with
              | VObject m => Ok m
              | VNull => Ok []
              | _ => Err (InvalidSpec "stream-mode args must be a JSON object (or null)")
              end in
  let? vals := page_keyset rt backend_name (obj_get "_cursor" obj) in
  Ok (VObject (bind_keyset (cursor_columns (cfg rt)) vals (obj_remove "_cursor" obj))).

(** [for col in cursor_columns { match last.get(col) { .. } }]. *)
Fixpoint last_keyset (cols : list string) (row : json_map) : option (list value) :=
  match cols with
  | [] => Some []
  | col :: cols' =>
      match obj_get col row with
      | Some v => match last_keyset cols' row with
                  | Some vs => Some (v :: vs)
                  | None => None
                  end
      | None => None
      end
  end.

Definition mint_next_cursor (payload : value) (rt : StreamRuntime) (backend_name : string) : value :=
  match (match payload with VObject o => obj_get "rows" o | _ => None end) with
  | Some (VArray rows) =>
      match last rows with
      | Some (VObject row) =>
          match last_keyset (cursor_columns (cfg rt)) row with
          | Some ks =>
              VString (encode_cursor
                {| version := 1; binding := backend_name; profile := EmptyString; keyset := ks |}
                (key rt))
          | None => VNull
          end
      | _ => VNull
      end
  | _ => VNull
  end.
End Cursor.

(** * Cursors *)

Lemma diff_bytes_zero a : forall b d,
  0 <= d -> length a = length b -> diff_bytes d a b = 0 <-> d = 0 /\ a = b.
Proof.
  induction a as [|x a IH]; intros [|y b] d Hd Hl; try done; simpl in *.
  - by split; [split|intros []].
  - assert (0 <= Z.lor d (Z.lxor (byte_Z x) (byte_Z y))).
    { apply Z.lor_nonneg. split; [done|]. apply Z.lxor_nonneg.
      pose proof (byte_Z_range x). pose proof (byte_Z_range y). lia. }
    rewrite IH by lia.
    rewrite Z.lor_eq_0_iff, Z.lxor_eq_0_iff. split.
    + intros [[-> E] ->]. apply byte_Z_inj in E as ->. done.
    + by intros [-> [= -> ->]].
Qed.

Lemma constant_time_eq_spec a b : constant_time_eq a b = true <-> a = b.
Proof.
  unfold constant_time_eq. destruct (Nat.eqb (length a) (length b)) eqn:E; simpl.
  - apply Nat.eqb_eq in E. rewrite Z.eqb_eq, diff_bytes_zero by done. naive_solver.
  - apply Nat.eqb_neq in E. split; [done|]. by intros ->.
Qed.

Section CursorFacts.
Context `{CursorLaws}.

Lemma decode_encode p k :
  version p = 1 -> reads_back p -> decode_cursor (encode_cursor p k) k = Some p.
Proof.
  intros Hv Hp. unfold decode_cursor, encode_cursor.
  rewrite strip_prefix_app.
  change (b64_encode (payload_to_vec p) +:+ "." +:+ b64_encode (hmac (str_bytes (b64_encode (payload_to_vec p))) k))%string
    with (b64_encode (payload_to_vec p) +:+ String "." (b64_encode (hmac (str_bytes (b64_encode (payload_to_vec p))) k)))%string.
  rewrite split_once_app by apply b64_alphabet. rewrite !b64_roundtrip.
  rewrite (proj2 (constant_time_eq_spec _ _) eq_refl). simpl.
  unfold reads_back in Hp. by rewrite Hp, Hv.
Qed.

(** C11.  A minted cursor decodes to its payload, and a token is accepted only
    if it has the form [s.payload.mac] with the exact HMAC of that payload
    under the key, and the payload decodes to a version 1 cursor: nothing else
    passes. *)
Theorem cursor_authentic k :
  (forall p, version p = 1 -> reads_back p -> decode_cursor (encode_cursor p k) k = Some p) /\
  (forall token p, decode_cursor token k = Some p ->
     version p = 1 /\ exists payload_b64 mac_b64 bytes,
       token = ("s." +:+ payload_b64 +:+ "." +:+ mac_b64)%string /\
       b64_decode mac_b64 = Some (hmac (str_bytes payload_b64) k) /\
       b64_decode payload_b64 = Some bytes /\ payload_from_slice bytes = Some p).
Proof.
  split; [intros p; apply decode_encode|]. intros token p. unfold decode_cursor.
  destruct (strip_prefix "s." token) as [body|] eqn:E1; [|done].
  destruct (split_once "." body) as [[pb mb]|] eqn:E2; [|done].
  destruct (b64_decode mb) as [mac|] eqn:E3; [|done].
  destruct (constant_time_eq _ mac) eqn:E4; [|done]. simpl.
  destruct (b64_decode pb) as [bytes|] eqn:E5; [|done].
  destruct (payload_from_slice bytes) as [q|] eqn:E6; [|done].
  destruct (version q =? 1) eqn:E7; [|done]. simpl. intros [= ->]. bool_hyps. split; [done|].
  exists pb, mb, bytes. apply constant_time_eq_spec in E4 as <-.
  apply strip_prefix_Some in E1 as ->. by apply split_once_Some in E2 as ->.
Qed.

(** * Paging *)

Lemma after_name_inj a b : after_name a = after_name b -> a = b.
Proof. intros E. by injection E. Qed.

Lemma bind_keyset_other k cols vals obj :
  (forall c, c ∈ cols -> k <> after_name c) -> obj_get k (bind_keyset cols vals obj) = obj_get k obj.
Proof.
  unfold bind_keyset. revert vals obj. induction cols as [|c cols IH]; intros [|v vals] obj Hk; try done.
  cbn [zip zip_with fold_left fst snd]. rewrite IH by (intros c' ?; apply Hk; by right).
  rewrite obj_get_insert. destruct (String.eqb k (after_name c)) eqn:E; [|done].
  apply String.eqb_eq in E. destruct (Hk c); [by left|done].
Qed.

(** What a keyset leaves at a column: the last value given for it. *)
Lemma bind_keyset_ext c cols vals obj obj' :
  c ∈ cols -> length vals = length cols ->
  obj_get (after_name c) (bind_keyset cols vals obj) =
  obj_get (after_name c) (bind_keyset cols vals obj').
Proof.
  intros Hc Hl. unfold bind_keyset. revert vals obj obj' Hl.
  induction cols as [|c' cols IH]; intros [|v vals] obj obj' Hl; try done.
  { by apply not_elem_of_nil in Hc. }
  cbn [zip zip_with fold_left fst snd]. destruct (decide (c ∈ cols)) as [Hin|Hout].
  - apply IH; [done|]. by injection Hl.
  - apply elem_of_cons in Hc as [->|]; [|done].
    pose proof (fun o => bind_keyset_other (after_name c') cols vals o) as Ho. unfold bind_keyset in Ho.
    rewrite !Ho, !obj_get_insert, String.eqb_refl; [done|..]; intros c ? E%after_name_inj; congruence.
Qed.

Lemma bind_keyset_row cols vals row obj c :
  last_keyset cols row = Some vals -> c ∈ cols ->
  obj_get (after_name c) (bind_keyset cols vals obj) = obj_get c row.
Proof.
  unfold bind_keyset. revert vals obj. induction cols as [|c' cols IH]; intros vals obj Hl Hc.
  { by apply not_elem_of_nil in Hc. }
  simpl in Hl. destruct (obj_get c' row) as [v|] eqn:Ev; [|done].
  destruct (last_keyset cols row) as [vs|] eqn:Es; [|done]. injection Hl as <-.
  cbn [zip zip_with fold_left fst snd]. destruct (decide (c ∈ cols)) as [Hin|Hout]; [by apply IH|].
  apply elem_of_cons in Hc as [->|]; [|done].
  pose proof (fun o => bind_keyset_other (after_name c') cols vs o) as Ho. unfold bind_keyset in Ho.
  rewrite Ho, obj_get_insert, String.eqb_refl; [done|]. intros c ? E%after_name_inj. congruence.
Qed.

Lemma last_keyset_length cols row vs : last_keyset cols row = Some vs -> length vs = length cols.
Proof.
  revert vs. induction cols as [|c cols IH]; intros vs; simpl; [by intros [= <-]|].
  destruct (obj_get c row); [|done]. destruct (last_keyset cols row); [|done].
  intros [= <-]. simpl. by rewrite (IH _ eq_refl).
Qed.

Lemma page_keyset_length rt name raw vs :
  page_keyset rt name raw = Ok vs -> length vs = length (cursor_columns (cfg rt)).
Proof.
  unfold page_keyset. destruct raw as [[| | |token| |]|]; try done.
  - intros [= <-]. by rewrite length_map.
  - destruct (negb (str_is_empty token)); [|done]. unfold rbind, ok_or.
    destruct (decode_cursor token (key rt)); [|done]. destruct (negb (String.eqb _ _)); [done|].
    destruct (Nat.eqb _ _) eqn:E; simpl; [|done]. intros [= <-]. by apply Nat.eqb_eq.
  - intros [= <-]. by rewrite length_map.
Qed.

(** Paging resumes where the page ended: the cursor minted from a page,
    sent back with any arguments, binds every [_after_] placeholder to the value
    its column has in the last row, consumes the cursor and leaves every other
    argument as it was. *)
Theorem paging_resumes rt name payload rows row ks obj :
  obj_get "rows" payload = Some (VArray rows) -> last rows = Some (VObject row) ->
  last_keyset (cursor_columns (cfg rt)) row = Some ks ->
  reads_back {| version := 1; binding := name; profile := EmptyString; keyset := ks |} ->
  exists out,
    apply_stream_cursor
      (VObject (obj_insert "_cursor" (mint_next_cursor (VObject payload) rt name) obj)) rt name
    = Ok (VObject out) /\
    (forall c, c ∈ cursor_columns (cfg rt) -> obj_get (after_name c) out = obj_get c row) /\
    obj_get "_cursor" out = None /\
    (forall k, k <> "_cursor"%string -> k ∉ placeholder_names (cfg rt) -> obj_get k out = obj_get k obj).
Proof.
  intros Hr Hl Hk Hb.
  set (p := {| version := 1; binding := name; profile := EmptyString; keyset := ks |}).
  assert (mint_next_cursor (VObject payload) rt name = VString (encode_cursor p (key rt))) as ->.
  { unfold mint_next_cursor. by rewrite Hr, Hl, Hk. }
  unfold apply_stream_cursor, rbind. rewrite obj_get_insert, String.eqb_refl.
  assert (page_keyset rt name (Some (VString (encode_cursor p (key rt)))) = Ok ks) as Hp.
  { unfold page_keyset. change (str_is_empty (encode_cursor p (key rt))) with false. simpl negb. cbv iota.
    rewrite decode_encode by done. simpl. rewrite String.eqb_refl. simpl.
    by rewrite (last_keyset_length _ _ _ Hk), Nat.eqb_refl. }
  rewrite Hp. eexists. split; [reflexivity|]. split; [|split].
  - intros c Hc. by eapply bind_keyset_row.
  - rewrite bind_keyset_other by (intros; discriminate). by rewrite obj_get_remove.
  - intros k Hk1 Hk2. rewrite bind_keyset_other.
    + apply String.eqb_neq in Hk1. by rewrite obj_get_remove, obj_get_insert, Hk1.
    + intros c Hc ->. apply Hk2, list_elem_of_fmap. eauto.
Qed.

(** Keyset positions are server-controlled: whatever [_after_] values two
    callers put in their arguments, with the same [_cursor] they get the same
    positions. *)
Theorem positions_server_controlled rt name obj1 obj2 o1 o2 c :
  apply_stream_cursor (VObject obj1) rt name = Ok (VObject o1) ->
  apply_stream_cursor (VObject obj2) rt name = Ok (VObject o2) ->
  obj_get "_cursor" obj1 = obj_get "_cursor" obj2 -> c ∈ cursor_columns (cfg rt) ->
  obj_get (after_name c) o1 = obj_get (after_name c) o2.
Proof.
  unfold apply_stream_cursor, rbind. intros H1 H2 E Hc. rewrite <- E in H2.
  destruct (page_keyset rt name (obj_get "_cursor" obj1)) as [vs|e] eqn:Ev; [|done].
  injection H1 as <-. injection H2 as <-. apply bind_keyset_ext; [done|].
  by eapply page_keyset_length.
Qed.
End CursorFacts.

(** Bytes as two letters each, a toy MAC and a serializer for one payload: an
    instance of the parameters. *)
Module ToyCursor.

Definition nibble (z : Z) : ascii := ascii_of_N (Z.to_N (97 + z)).
Definition unnibble (c : ascii) : Z := char_Z c - 97.

Fixpoint letters (bs : list byte) : string :=
  match bs with
  | [] => EmptyString
  | b :: bs' => String (nibble (byte_Z b / 16)) (String (nibble (byte_Z b mod 16)) (letters bs'))
  end.

Fixpoint unletters (s : string) : option (list byte) :=
  match s with
  | EmptyString => Some []
  | String h (String l s') =>
      match unletters s' with
      | Some bs => Some (Z_byte (unnibble h * 16 + unnibble l) :: bs)
      | None => None
      end
  | _ => None
  end.

Definition demo_payload : StreamCursorPayload :=
  {| version := 1; binding := "orders"; profile := EmptyString; keyset := [json_i64 7] |}%string.

#[export] Instance ops : CursorOps := {|
  b64_encode := letters;
  b64_decode := unletters;
  hmac input key := rev input ++ key;
  blake3 input := input;
  payload_to_vec _ := [];
  payload_from_slice _ := Some demo_payload;
|}.

#[export] Instance laws : CursorLaws.
Proof.
  split.
  - intros bs. cbn. induction bs as [|b bs IH]; [done|]. cbn [letters unletters]. rewrite IH.
    do 2 f_equal. by destruct b.
  - intros bs. cbn. induction bs as [|b bs IH]; [done|]. cbn [letters str_forall]. rewrite IH.
    by destruct b.
Qed.

Definition rt : StreamRuntime :=
  {| cfg := {| cursor_columns := ["id"]; initial := []; signing_key := None |};
     key := str_bytes "k" |}%string.

Definition page : json_map :=
  [("rows", VArray [VObject [("id", json_i64 3)]; VObject [("id", json_i64 7); ("name", VNull)]])]%string.

Lemma cursor_authentic_witness :
  decode_cursor (encode_cursor demo_payload (key rt)) (key rt) = Some demo_payload.
Proof. exact (proj1 (cursor_authentic (key rt)) demo_payload eq_refl eq_refl). Defined.

Lemma paging_resumes_witness :
  exists out,
    apply_stream_cursor
      (VObject (obj_insert "_cursor" (mint_next_cursor (VObject page) rt "orders") [("_after_id", VNull)]))
      rt "orders" = Ok (VObject out) /\
    (forall c, c ∈ ["id"] -> obj_get (after_name c) out =
       obj_get c [("id", json_i64 7); ("name", VNull)]) /\
    obj_get "_cursor" out = None /\
    (forall k, k <> "_cursor" -> k ∉ placeholder_names (cfg rt) ->
       obj_get k out = obj_get k [("_after_id", VNull)])%string.
Proof.
  exact (paging_resumes rt "orders" page _ _ _ [("_after_id", VNull)] eq_refl eq_refl eq_refl eq_refl)%string.
Defined.

Lemma positions_server_controlled_witness :
  obj_get (after_name "id") [("_after_id", VNull)]%string =
  obj_get (after_name "id") [("_after_id", VNull); ("tenant", VNull)]%string.
Proof.
  apply (positions_server_controlled rt "orders" [("_after_id", json_i64 9)] [("tenant", VNull)])%string;
    [reflexivity|reflexivity|reflexivity|]. by apply (bool_decide_unpack _).
Defined.

End ToyCursor.

End Stream.
