(* ===== verification/Cache.v ===== *)
(** Cache keys and cache invalidation of [src/src/cache.rs].

    The hasher is fed byte by byte, so a key is the digest of the concatenated
    updates; [digest] (blake3, then hex) and serde_json's printer of numbers are
    parameters.  A poll of the invalidator is its tracking query's outcome; the
    task that polls is in [Invalidator]. *)

From Stdlib Require Import ZArith Lia Bool Ascii String SpecFloat.
From stdpp Require Import base list strings.
From S2P Require Import Prelude RustStd Redact Errors Json Params F64 InFlight Interval SqliteCancel Sqlx Pool.

Module Cache.

Section Keys.
Context (digest : list byte -> string) (number_str : number -> string).

(** [(i as u32).to_le_bytes()]. *)
Definition index_bytes (i : nat) : list byte := to_le_bytes 4 (wrapu 32 (Z.of_nat i)).

(** [write_value]: a [BTreeMap]'s keys are sorted already. *)
Fixpoint write_value (v : value) : list byte :=
  match v with
  | VNull => [ch "n"]
  | VBool true => [ch "t"]
  | VBool false => [ch "f"]
  | VNumber n => ch "#" :: str_bytes (number_str n)
  | VString s => quote2 :: str_bytes s ++ [quote2]
  | VArray l =>
      ch "[" ::
      (fix items (i : nat) (l : list value) : list byte :=
         match l with
         | [] => []
         | x :: l' => index_bytes i ++ write_value x ++ items (S i) l'
         end) O l ++ [ch "]"]
  | VObject m =>
      ch "{" ::
      (fix fields (m : json_map) : list byte :=
         match m with
         | [] => []
         | (k, x) :: m' => str_bytes k ++ ch ":" :: write_value x ++ ch ";" :: fields m'
         end) m ++ [ch "}"]
  end.

Fixpoint write_params_from (i : nat) (ps : list BoundParam) : list byte :=
  match ps with
  | [] => []
  | p :: ps' =>
      index_bytes i ++ str_bytes (bp_name p) ++ ch "=" :: write_value (bp_value p) ++ ch ";" ::
      write_params_from (S i) ps'
  end.

Definition write_canonical_params : list BoundParam -> list byte := write_params_from 0.

Definition var_bytes (kv : string * string) : list byte :=
  str_bytes (fst kv) ++ ch "=" :: str_bytes (snd kv) ++ [ch ";"].

Definition write_session_vars (vars : list (string * string)) : list byte :=
  concat (map var_bytes vars).

Definition nul : byte := Byte.x00.

(** The bytes [build_cache_key] feeds to the hasher. *)
Definition key_bytes (backend_name sql_text : string) (bound_params : list BoundParam)
  (session_vars : SessionVars) (version : Z) : list byte :=
  str_bytes "sql" ++ nul :: str_bytes backend_name ++ nul :: str_bytes sql_text ++ nul ::
  write_canonical_params bound_params ++ nul :: write_session_vars (values session_vars) ++ nul ::
  to_le_bytes 8 version.

Definition build_cache_key (backend_name sql_text : string) (bound_params : list BoundParam)
  (session_vars : SessionVars) (version : Z) : string :=
  digest (key_bytes backend_name sql_text bound_params session_vars version).

Definition collision : Prop := exists x y, x <> y /\ digest x = digest y.

(** No ["; "] separator in a value. *)
Definition no_semicolon (s : string) : Prop := ch ";" ∉ str_bytes s.

Lemma vars_bytes_inj l1 l2 :
  map fst l1 = map fst l2 -> Forall (fun p => no_semicolon (snd p)) (l1 ++ l2) ->
  write_session_vars l1 = write_session_vars l2 -> l1 = l2.
Proof.
  revert l2. induction l1 as [|[k v] l1 IH]; intros [|[k' v'] l2] Ek Hv E; try done.
  unfold write_session_vars in *. cbn [map fst concat] in *. injection Ek as -> Ek.
  apply Forall_app in Hv as [H1 H2]. inversion H1; inversion H2; subst. cbn [snd] in *.
  unfold var_bytes in E at 1 3. cbn [fst snd] in E.
  change (ch "=" :: ?x ++ ?y) with ([ch "="] ++ x ++ y) in E. rewrite <- !app_assoc in E.
  apply app_inv_head, app_inv_head in E. apply Pool.app_sep_inj in E as [Ev E]; [|done..].
  rewrite (IH l2 Ek) by (done || by apply Forall_app). f_equal. f_equal.
  by rewrite <- (bytes_str_bytes v), Ev, bytes_str_bytes.
Qed.
(** For one binding, statement and parameters, two calls share a cache key
    only when every session variable agrees and the cache version is the same,
    or on a collision of the hash: in particular a version bump makes every
    earlier entry miss.  The session variables are those of one profile (the
    same names) with values that contain no semicolon. *)
Theorem cache_key_separates name sql params s1 s2 v1 v2 :
  map fst (values s1) = map fst (values s2) ->
  Forall (fun p => no_semicolon (snd p)) (values s1 ++ values s2) ->
  0 <= v1 <= u64_max -> 0 <= v2 <= u64_max ->
  build_cache_key name sql params s1 v1 = build_cache_key name sql params s2 v2 ->
  values s1 = values s2 /\ v1 = v2 \/ collision.
Proof.
  intros Hk Hs H1 H2 E.
  destruct (decide (key_bytes name sql params s1 v1 = key_bytes name sql params s2 v2)) as [Eb|Hne].
  - left. unfold key_bytes in Eb. repeat (apply app_inv_head in Eb; injection Eb as Eb).
    apply app_inj_2 in Eb as [Ev E8]; [|reflexivity].
    apply (f_equal (drop 1)) in E8. split; [by apply vars_bytes_inj|].
    apply (to_le_bytes_inj 8); [..|done]; unfold u64_max in *; lia.
  - right. by exists (key_bytes name sql params s1 v1), (key_bytes name sql params s2 v2).
Qed.

(** A semicolon in a value breaks the separation: two identities with the
    same session variable names and different values have one cache key, with
    any hash function, statement and parameters. *)
Theorem session_vars_collide name sql params v :
  let alice := {| values := [("role", "user;tenant=acme"); ("tenant", "globex")] |}%string in
  let bob := {| values := [("role", "user"); ("tenant", "acme;tenant=globex")] |}%string in
  map fst (values alice) = map fst (values bob) /\ values alice <> values bob /\
  build_cache_key name sql params alice v = build_cache_key name sql params bob v.
Proof. done. Qed.
End Keys.

Lemma cache_key_separates_witness :
  [("tenant", "acme")]%string = [("tenant", "acme")]%string /\ 3 = 3 \/ collision bytes_str.
Proof.
  apply (cache_key_separates bytes_str (fun _ => EmptyString) "orders" "SELECT 1" []
           {| values := [("tenant", "acme")] |} {| values := [("tenant", "acme")] |} 3 3)%string;
    [reflexivity| |by vm_compute|by vm_compute|reflexivity].
  unfold no_semicolon. by apply (bool_decide_unpack _).
Defined.

(** * Invalidation *)

(** [PartialEq] of serde_json's numbers and values. *)
Definition number_eqb (a b : number) : bool :=
  match a, b with
  | PosInt x, PosInt y | NegInt x, NegInt y => x =? y
  | Float x, Float y => f64_eqb x y
  | _, _ => false
  end.

Fixpoint value_eqb (a b : value) : bool :=
  match a, b with
  | VNull, VNull => true
  | VBool x, VBool y => Bool.eqb x y
  | VNumber x, VNumber y => number_eqb x y
  | VString x, VString y => String.eqb x y
  | VArray l, VArray l' =>
      (fix go (l l' : list value) : bool :=
         match l, l' with
         | [], [] => true
         | x :: l, y :: l' => value_eqb x y && go l l'
         | _, _ => false
         end) l l'
  | VObject m, VObject m' =>
      (fix go (m m' : json_map) : bool :=
         match m, m' with
         | [], [] => true
         | (k, x) :: m, (k', y) :: m' => String.eqb k k' && value_eqb x y && go m m'
         | _, _ => false
         end) m m'
  | _, _ => false
  end.

Definition cursor_eqb (a b : option value) : bool :=
  match a, b with
  | None, None => true
  | Some x, Some y => value_eqb x y
  | _, _ => false
  end.

Definition first_scalar (rows : list value) : option value :=
  match rows with
  | [] => None
  | VObject m :: _ => match m with [] => None | (_, v) :: _ => Some v end
  | other :: _ => Some other
  end.

(** The loop's [last_cursor] and the invalidator's version. *)
Record invalidator : Type := { last_cursor : option value; inv_version : Z }.

Definition new_invalidator : invalidator := {| last_cursor := None; inv_version := 0 |}.

Definition bump (v : Z) : Z := wrapu 64 (v + 1).

(** One tick of [invalidation_loop]. *)
Definition poll (r : result SqlError RowBatch) (s : invalidator) : invalidator :=
  match r with
  | Ok batch =>
      let cursor := first_scalar (rows batch) in
      if negb (cursor_eqb cursor (last_cursor s)) then
        {| last_cursor := cursor;
           inv_version := match last_cursor s with
                          | Some _ => bump (inv_version s)
                          | None => inv_version s
                          end |}
      else s
  | Err _ => s
  end.

Definition polls (rs : list (result SqlError RowBatch)) (s : invalidator) : invalidator :=
  fold_left (fun s r => poll r s) rs s.

(** What the tracking query showed, failed polls left out. *)
Fixpoint cursors (rs : list (result SqlError RowBatch)) : list (option value) :=
  match rs with
  | [] => []
  | Ok b :: rs' => first_scalar (rows b) :: cursors rs'
  | Err _ :: rs' => cursors rs'
  end.

(** Changes away from a known cursor, between consecutive observations. *)
Fixpoint changes (prev : option value) (cs : list (option value)) : Z :=
  match cs with
  | [] => 0
  | c :: cs' =>
      (match prev with
       | Some _ => if cursor_eqb c prev then 0 else 1
       | None => 0
       end) + changes (if cursor_eqb c prev then prev else c) cs'
  end.

Lemma changes_nonneg cs : forall prev, 0 <= changes prev cs.
Proof.
  induction cs as [|c cs IH]; intros prev; [done|]. simpl.
  pose proof (IH (if cursor_eqb c prev then prev else c)).
  destruct prev; [destruct (cursor_eqb c _)|]; lia.
Qed.

Lemma polls_version rs : forall s,
  0 <= inv_version s <= u64_max ->
  inv_version (polls rs s) = wrapu 64 (inv_version s + changes (last_cursor s) (cursors rs)).
Proof.
  unfold polls. induction rs as [|[b|e] rs IH]; intros s Hs; cbn [fold_left cursors changes].
  - rewrite Z.add_0_r. symmetry. apply wrapu_small. unfold u64_max in Hs. lia.
  - unfold poll at 2. destruct (cursor_eqb (first_scalar (rows b)) (last_cursor s)) eqn:E; cbn [negb].
    + rewrite IH by done. destruct (last_cursor s); done.
    + rewrite IH; destruct (last_cursor s); cbn [last_cursor inv_version]; try done.
      * unfold bump, wrapu. rewrite Zplus_mod_idemp_l. f_equal. lia.
      * unfold bump. pose proof (wrapu_range 64 (inv_version s + 1)). unfold u64_max. lia.
  - by rewrite IH.
Qed.

(** The cache version of a profile counts, modulo 2^64, the changes of its
    tracking query away from a value already seen: the first value is the
    baseline, failed polls count nothing and lose nothing, and an empty result
    counts as a change once but not when a value comes back. *)
Theorem invalidations_counted rs :
  inv_version (polls rs new_invalidator) = wrapu 64 (changes None (cursors rs)).
Proof. by rewrite polls_version. Qed.

Example invalidation_examples :
  let obs v := Ok {| columns := []; rows := v; rows_affected := None; truncated := false; has_more := false |} in
  let one := [VObject [("max", json_i64 1)]]%string in
  let two := [VObject [("max", json_i64 2)]]%string in
  map (fun rs => inv_version (polls rs new_invalidator))
    [[obs one; obs one; Err (Timeout 5); obs two]; [obs one; obs []; obs two]; [obs []; obs two]]
  = [1; 1; 0].
Proof. reflexivity. Qed.

(** The scalar is that of the alphabetically first column, whatever the select
    list: a [BTreeMap] iterates in key order. *)
Example first_scalar_is_alphabetical :
  first_scalar [VObject (obj_insert "updated_at" (json_i64 9) (obj_insert "count" (json_i64 5) []))]
  = Some (json_i64 5).
Proof. reflexivity. Qed.

End Cache.
