(* ===== verification/SqlText.v ===== *)
(** The statement checks of [src/src/config.rs]: single statements, identifiers
    and privileged DDL. *)

From Stdlib Require Import ZArith Lia Bool Ascii String.
From stdpp Require Import base list strings sets.
From S2P Require Import Prelude RustStd Redact Text Errors Json Params.

Definition semicolon : byte := ch ";".

Definition stacked_error (i : nat) : SqlError :=
  InvalidSpec ("query.sql contains multiple statements (unquoted `;` at byte " +:+
    show_u (Z.of_nat i) +:+
    "); split the work into pipeline steps or use `kind: pipeline` + `sql_tx` for atomic multi-step work").

Definition trailing_error (prev : nat) : SqlError :=
  InvalidSpec ("query.sql contains content after trailing `;` (byte " +:+
    show_u (Z.of_nat prev) +:+ "); single-statement bodies only").

(** [s.chars().any(|ch| !ch.is_whitespace())]. *)
Definition any_non_whitespace (s : string) : bool := negb (str_is_empty (trim_start s)).

(** The scan of [reject_multi_statement]: the position and the rest after the
    last unquoted semicolon, or the position of a second one. *)
Fixpoint scan_statements (i : nat) (in_single in_double : bool)
  (last_semi : option (nat * list byte)) (bs : list byte)
  : result nat (option (nat * list byte)) :=
  match bs with
  | [] => Ok last_semi
  | c :: bs' =>
      if byte_eqb c quote1 && negb in_double then
        scan_statements (S i) (negb in_single) in_double last_semi bs'
      else if byte_eqb c quote2 && negb in_single then
        scan_statements (S i) in_single (negb in_double) last_semi bs'
      else if byte_eqb c semicolon && negb in_single && negb in_double then
        match last_semi with
        | Some _ => Err i
        | None => scan_statements (S i) in_single in_double (Some (i, bs')) bs'
        end
      else scan_statements (S i) in_single in_double last_semi bs'
  end.

Definition reject_multi_statement (sql : string) : result SqlError () :=
  match scan_statements 0 false false None (str_bytes sql) with
  | Err i => Err (stacked_error i)
  | Ok None => Ok ()
  | Ok (Some (prev, tail)) =>
      if any_non_whitespace (trim (bytes_str tail)) then Err (trailing_error prev) else Ok ()
  end.

Definition is_safe_sql_identifier (s : string) : bool :=
  negb (str_is_empty s) &&
  str_forall (fun c => is_ascii_alnum c || Ascii.eqb c "_" || Ascii.eqb c ".") s &&
  match s with
  | String c _ => is_ascii_alpha c || Ascii.eqb c "_"
  | EmptyString => false
  end.

(** [s.find(p)] and the rest after the match. *)
Definition after_first (p s : string) : option string :=
  match split_once_str p s with
  | Some (_, r) => Some r
  | None => None
  end.

Definition newline : string := String "010" EmptyString.

(** [strip_leading_whitespace_and_comments]: every turn of the loop drops at
    least the two bytes of a comment opener, so the length of the text is fuel
    enough. *)
Fixpoint strip_comments (fuel : nat) (rest : string) : string :=
  let next := trim_start rest in
  match fuel with
  | O => next
  | S fuel' =>
      match strip_prefix "--" next with
      | Some after_line =>
          match after_first newline after_line with
          | Some r => strip_comments fuel' r
          | None => EmptyString
          end
      | None =>
          match strip_prefix "/*" next with
          | Some after_open =>
              match after_first "*/" after_open with
              | Some r => strip_comments fuel' r
              | None => EmptyString
              end
          | None => next
          end
      end
  end.

Definition strip_leading_whitespace_and_comments (s : string) : string :=
  strip_comments (String.length s) s.

(** [s.split(|c| !c.is_ascii_alphabetic() && c != '_').next()]. *)
Fixpoint first_token (s : string) : string :=
  match s with
  | EmptyString => EmptyString
  | String c s' => if is_ascii_alpha c || Ascii.eqb c "_" then String c (first_token s') else EmptyString
  end.

Fixpoint str_skip (n : nat) (s : string) : string :=
  match n, s with
  | S n', String _ s' => str_skip n' s'
  | _, _ => s
  end.

Definition mem (l : list string) (s : string) : bool := existsb (String.eqb s) l.

Definition reject_privileged_ddl (sql : string) : result SqlError () :=
  let trimmed := strip_leading_whitespace_and_comments sql in
  let first := str_upper (first_token trimmed) in
  if str_is_empty first then Ok ()
  else if mem ["GRANT"; "REVOKE"]%string first then
    Err (InvalidSpec ("query.sql leads with privileged DDL keyword `" +:+ first +:+
      "`. Auth/role management must live in a separately-scoped admin binding — not a tool-accessible SQL binding."))
  else if mem ["CREATE"; "ALTER"; "DROP"]%string first then
    let rest := str_skip (String.length first) trimmed in
    let second := str_upper (first_token (strip_leading_whitespace_and_comments rest)) in
    if mem ["USER"; "ROLE"; "DATABASE"; "GROUP"]%string second then
      Err (InvalidSpec ("query.sql starts with privileged DDL `" +:+ first +:+ " " +:+ second +:+
        "`. Role / user / database management must live in a separately-scoped admin binding — not a tool-accessible SQL binding."))
    else Ok ()
  else Ok ().

Example ddl_examples :
  map (fun s => is_ok (reject_privileged_ddl s))
    ["-- admin" +:+ newline +:+ "  GRANT ALL ON t TO PUBLIC"; "/* x */ create /* y */ user u";
     "CREATE TABLE t (i int)"; "SELECT 1"; "CREATE OR REPLACE USER u";
     "/*!50000 GRANT ALL ON *.* TO u */"]%string
  = [false; false; true; true; true; true].
Proof. reflexivity. Qed.

(** * Single statements *)

(** A semicolon of [bs] outside quotes, when the scan enters in state [q]; the
    quoting is that of the placeholder rewriter. *)
Definition unquoted (q : bool * bool) (a : list byte) (bs b : list byte) : Prop :=
  bs = a ++ semicolon :: b /\ quotes q a = (false, false).

Definition has_unquoted (q : bool * bool) (bs : list byte) : Prop :=
  exists a b, unquoted q a bs b.

Definition is_unquoted_semi (q : bool * bool) (c : byte) : bool :=
  byte_eqb c semicolon && negb (fst q) && negb (snd q).

(** One step of the scan. *)
Lemma scan_cons i q last c bs :
  scan_statements i (fst q) (snd q) last (c :: bs) =
  if is_unquoted_semi q c then
    match last with
    | Some _ => Err i
    | None => scan_statements (S i) (fst q) (snd q) (Some (i, bs)) bs
    end
  else scan_statements (S i) (fst (quote_step q c)) (snd (quote_step q c)) last bs.
Proof.
  destruct q as [s d]. unfold is_unquoted_semi. cbn [scan_statements fst snd quote_step].
  destruct (byte_eqb c quote1) eqn:E1; [apply byte_eqb_eq in E1 as ->; by destruct s, d|].
  destruct (byte_eqb c quote2) eqn:E2; [apply byte_eqb_eq in E2 as ->; by destruct s, d|].
  cbn [andb]. by destruct (byte_eqb c semicolon && negb s && negb d).
Qed.

Lemma has_unquoted_cons q c bs :
  has_unquoted q (c :: bs) <-> is_unquoted_semi q c = true \/ has_unquoted (quote_step q c) bs.
Proof.
  unfold is_unquoted_semi. split.
  - intros (a & b & E & Q). destruct a as [|x a]; injection E as -> ->.
    + left. unfold quotes in Q. simpl in Q. by subst q.
    + right. by exists a, b.
  - intros [H|(a & b & -> & Q)].
    + bool_hyps. apply byte_eqb_eq in H as ->. destruct q as [[] []]; try done. by exists [], bs.
    + by exists (c :: a), b.
Qed.

Lemma unquoted_semi_state q c :
  is_unquoted_semi q c = true -> q = (false, false) /\ c = semicolon.
Proof.
  unfold is_unquoted_semi. destruct q as [s d]. intros H. bool_hyps. simpl in *. subst.
  split; [done|]. by apply byte_eqb_eq.
Qed.

Lemma has_unquoted_nil q : ~ has_unquoted q [].
Proof. intros (a & b & E & _). by destruct a. Qed.

Lemma scan_after bs : forall i q x,
  (~ has_unquoted q bs /\ scan_statements i (fst q) (snd q) (Some x) bs = Ok (Some x)) \/
  (has_unquoted q bs /\ exists j, scan_statements i (fst q) (snd q) (Some x) bs = Err j).
Proof.
  induction bs as [|c bs IH]; intros i q x; [left; split; [apply has_unquoted_nil|done]|].
  rewrite scan_cons, has_unquoted_cons. destruct (is_unquoted_semi q c) eqn:E; [right; eauto|].
  destruct (IH (S i) (quote_step q c) x) as [[Hn ->]|[Hy [j ->]]]; [left|right]; [|by eauto].
  split; [|done]. by intros [|].
Qed.

(** The scan stops at the first unquoted semicolon, if any. *)
Lemma scan_none bs : forall i q,
  (~ has_unquoted q bs /\ scan_statements i (fst q) (snd q) None bs = Ok None) \/
  (exists a b, unquoted q a bs b /\ ~ has_unquoted q a /\
     ((~ has_unquoted (false, false) b /\
       scan_statements i (fst q) (snd q) None bs = Ok (Some ((i + length a)%nat, b))) \/
      (has_unquoted (false, false) b /\
       exists j, scan_statements i (fst q) (snd q) None bs = Err j))).
Proof.
  induction bs as [|c bs IH]; intros i q; [left; split; [apply has_unquoted_nil|done]|].
  rewrite scan_cons, has_unquoted_cons. destruct (is_unquoted_semi q c) eqn:E.
  - right. apply unquoted_semi_state in E as [-> ->].
    exists [], bs. split; [done|]. split; [apply has_unquoted_nil|].
    rewrite Nat.add_0_r. apply (scan_after bs (S i) (false, false)).
  - destruct (IH (S i) (quote_step q c)) as [[Hn ->]|(a & b & [-> Q] & Ha & H)].
    + left. split; [|done]. by intros [|].
    + right. exists (c :: a), b. split; [done|]. split.
      * rewrite has_unquoted_cons, E. by intros [|].
      * simpl length. rewrite Nat.add_succ_r. exact H.
Qed.

Lemma first_unquoted_unique q a b a' b' bs :
  unquoted q a bs b -> ~ has_unquoted q a -> unquoted q a' bs b' -> ~ has_unquoted q a' -> b = b'.
Proof.
  assert (forall a b a' b', unquoted q a bs b -> unquoted q a' bs b' -> (length a < length a')%nat ->
            has_unquoted q a') as Hlt.
  { intros a0 b0 a1 b1 [E Q] [E' _] Hl. rewrite E in E'.
    apply app_eq_inv in E' as [(k & -> & Ek)|(k & -> & Ek)]; [rewrite length_app in Hl; lia|].
    destruct k as [|x k]; [rewrite app_nil_r in Hl; lia|]. injection Ek as <- _. by exists a0, k. }
  intros Hu Ha Hu' Ha'. destruct (Nat.lt_trichotomy (length a) (length a')) as [Hl|[Hl|Hl]];
    [destruct Ha'; eauto| |destruct Ha; eauto].
  destruct Hu as [E _], Hu' as [E' _]. rewrite E in E'. by apply app_inj_1 in E' as [_ [= ->]].
Qed.

(** A statement passes exactly when it has no semicolon outside quotes, or
    one with only white space after it: quoting is read as the placeholder
    rewriter reads it, and every other statement is refused. *)
Lemma multi_statement_cases sql :
  is_ok (reject_multi_statement sql) = true <->
  ~ has_unquoted (false, false) (str_bytes sql) \/
  exists a b, unquoted (false, false) a (str_bytes sql) b /\
    ~ has_unquoted (false, false) a /\ ~ has_unquoted (false, false) b /\
    any_non_whitespace (trim (bytes_str b)) = false.
Proof.
  unfold reject_multi_statement.
  pose proof (scan_none (str_bytes sql) 0 (false, false)) as H. cbn [fst snd] in H.
  destruct H as [[Hn ->]|(a & b & Hu & Ha & [[Hb ->]|[Hb [j ->]]])].
  - split; [by left|done].
  - destruct (any_non_whitespace (trim (bytes_str b))) eqn:Ew.
    + split; [done|]. intros [Hn|(a' & b' & Hu' & Ha' & _ & Ew')]; [destruct Hn; by exists a, b|].
      rewrite (first_unquoted_unique _ _ _ _ _ _ Hu Ha Hu' Ha') in Ew. congruence.
    + split; [|done]. intros _. right. by exists a, b.
  - split; [done|]. intros [Hn|(a' & b' & Hu' & Ha' & Hb' & Ew')]; [destruct Hn; by exists a, b|].
    rewrite (first_unquoted_unique _ _ _ _ _ _ Hu Ha Hu' Ha') in Hb. done.
Qed.

(** * What the checks mean *)

(** ** White space *)

(** A white space character. *)
Definition white (w : string) : Prop := w <> EmptyString /\ ws_len w = String.length w.

Inductive all_white : string -> Prop :=
| all_white_nil : all_white EmptyString
| all_white_cons w s : white w -> all_white s -> all_white (w +:+ s).

Lemma ws_len_bound s : (ws_len s <= String.length s)%nat.
Proof.
  unfold ws_len, str_codes, str_bytes. destruct s as [|a [|b [|c s]]]; cbn; repeat case_match; lia.
Qed.

(** More text after a white space character changes nothing. *)
Lemma ws_len_more s t : ws_len s <> 0%nat -> ws_len (s +:+ t) = ws_len s.
Proof.
  destruct s as [|a [|b [|c s]]]; [done|..].
  - change (String a EmptyString +:+ t)%string with (String a t). unfold ws_len, str_codes, str_bytes. cbn.
    destruct (_ || _); [done|]. destruct (byte_Z _ =? 194); done.
  - change (String a (String b EmptyString) +:+ t)%string with (String a (String b t)). unfold ws_len, str_codes, str_bytes. cbn.
    destruct (_ || _); [done|]. destruct (byte_Z _ =? 194); done.
  - change (String a (String b (String c s)) +:+ t)%string with (String a (String b (String c (s +:+ t)))). done.
Qed.

Lemma ws_len_split s n : ws_len s = S n -> exists w r, s = w +:+ r /\ white w /\ ws_len s = String.length w.
Proof.
  unfold white. unfold ws_len, str_codes, str_bytes. destruct s as [|a [|b [|c s]]]; cbn; try done; intros E.
  - exists (String a EmptyString), EmptyString. cbn. by repeat case_match.
  - destruct (_ || _) eqn:E1.
    + exists (String a EmptyString), (String b EmptyString). cbn. by rewrite E1.
    + exists (String a (String b EmptyString)), EmptyString. cbn. rewrite E1. by repeat case_match.
  - destruct (_ || _) eqn:E1; [|destruct (byte_Z _ =? 194) eqn:E2].
    + exists (String a EmptyString), (String b (String c s)). cbn. by rewrite E1.
    + exists (String a (String b EmptyString)), (String c s). cbn. rewrite E1, E2. by repeat case_match.
    + exists (String a (String b (String c EmptyString))), s. cbn. rewrite E1, E2. by repeat case_match.
Qed.

Lemma trim_go_skip w s : trim_start_go (String.length w) (w +:+ s) = trim_start s.
Proof. induction w as [|c w IH]; [done|exact IH]. Qed.

Lemma trim_white w s : white w -> trim_start (w +:+ s) = trim_start s.
Proof.
  intros [Hn Hl]. destruct w as [|c w]; [done|]. unfold trim_start at 1.
  assert (ws_len (String c w +:+ s) = S (String.length w)) as E by (rewrite ws_len_more; rewrite Hl; done).
  change (String c w +:+ s)%string with (String c (w +:+ s)) in *. cbn [trim_start_go]. rewrite E. apply trim_go_skip.
Qed.

Lemma trim_black s : ws_len s = 0%nat -> trim_start s = s.
Proof. destruct s; [done|]. unfold trim_start. cbn [trim_start_go]. by intros ->. Qed.

(** Reading [trim_start] from the left. *)
Lemma trim_cases s :
  trim_start s = s /\ ws_len s = 0%nat \/
  exists w r, s = w +:+ r /\ white w /\ trim_start s = trim_start r /\ (String.length r < String.length s)%nat.
Proof.
  destruct (ws_len s) as [|n] eqn:E; [left; split; [by apply trim_black|done]|right].
  destruct (ws_len_split s n E) as (w & r & -> & Hw & _). exists w, r. split_and!; [done..|by apply trim_white|].
  rewrite str_length_app. destruct Hw as [Hw _]. destruct w; [done|cbn; lia].
Qed.

Lemma trim_start_black s : ws_len (trim_start s) = 0%nat.
Proof.
  induction s as [s IH] using (induction_ltof1 _ String.length). unfold ltof in IH.
  destruct (trim_cases s) as [[-> E]|(w & r & _ & _ & -> & Hl)]; auto.
Qed.

Lemma trim_start_white s : trim_start s = EmptyString <-> all_white s.
Proof.
  split.
  - induction s as [s IH] using (induction_ltof1 _ String.length). unfold ltof in IH. intros E.
    destruct (trim_cases s) as [[E' _]|(w & r & -> & Hw & E' & Hl)].
    + rewrite <- E', E. constructor.
    + constructor; [done|]. apply IH; [done|]. by rewrite <- E'.
  - induction 1 as [|w s Hw _ IH]; [done|]. by rewrite trim_white.
Qed.

Lemma trim_end_prefix s : exists z, s = trim_end s +:+ z.
Proof.
  induction s as [|c s [z IH]]; [by exists EmptyString|]. cbn [trim_end].
  destruct (trim_start (String c s)); [by exists (String c s)|]. exists z.
  change (String c (trim_end s) +:+ z)%string with (String c (trim_end s +:+ z)). by rewrite <- IH.
Qed.

Lemma black_trim_end t : ws_len t = 0%nat -> trim_start (trim_end t) = EmptyString -> t = EmptyString.
Proof.
  intros Hb. destruct t as [|c t]; [done|]. pose proof (trim_black _ Hb) as Ht.
  destruct (trim_end_prefix (String c t)) as [z Ez]. cbn [trim_end] in *. rewrite Ht in Ez |- *.
  rewrite trim_black; [done|]. destruct (ws_len (String c (trim_end t))) eqn:E; [done|].
  rewrite Ez, ws_len_more in Hb by (by rewrite E). congruence.
Qed.

(** Only white space, as the check of the text after a semicolon sees it. *)
Lemma only_white s : any_non_whitespace (trim s) = false <-> all_white s.
Proof.
  unfold any_non_whitespace, trim. rewrite <- trim_start_white, negb_false_iff.
  pose proof (trim_start_black s) as Hb. split.
  - intros E. apply black_trim_end; [done|]. by destruct (trim_start (trim_end _)).
  - by intros ->.
Qed.

(** ** One statement *)

(** No semicolon outside quotes, or a single one with nothing but white space
    after it.  Quotes are read as the placeholder rewriter reads them: a comment
    is not skipped. *)
Definition stands_alone (sql : string) : Prop :=
  ~ has_unquoted (false, false) (str_bytes sql) \/
  exists a b, unquoted (false, false) a (str_bytes sql) b /\
    ~ has_unquoted (false, false) a /\ ~ has_unquoted (false, false) b /\ all_white (bytes_str b).

Theorem multi_statement_iff sql : is_ok (reject_multi_statement sql) = true <-> stands_alone sql.
Proof.
  rewrite multi_statement_cases. unfold stands_alone. split; (intros [H|(a & b & H1 & H2 & H3 & H4)]; [by left|right]);
    exists a, b; split_and!; try done; by apply only_white.
Qed.

(** ** Privileged statements *)

(** [skips s r]: white space and complete comments of [s] up to [r]. *)
Inductive skips : string -> string -> Prop :=
| skips_done s : skips s s
| skips_white w s r : white w -> skips s r -> skips (w +:+ s) r
| skips_line t s r : str_contains newline t = false -> skips s r -> skips ("--" +:+ t +:+ newline +:+ s) r
| skips_block t s r : str_contains "*/" (t +:+ "*") = false -> skips s r -> skips ("/*" +:+ t +:+ "*/" +:+ s) r.

Definition word_char (c : ascii) : bool := is_ascii_alpha c || Ascii.eqb c "_".

(** [w] is the whole word that [w +:+ r] starts with. *)
Definition leading_word (w r : string) : Prop :=
  w <> EmptyString /\ str_forall word_char w = true /\
  match r with String c _ => word_char c = false | EmptyString => True end.

(** [sql] starts, after white space and comments, with a statement about roles,
    users or databases, in any case of its letters. *)
Definition privileged (sql : string) : Prop :=
  exists w r, skips sql (w +:+ r) /\ leading_word w r /\
    (str_upper w ∈ ["GRANT"; "REVOKE"]%string \/
     str_upper w ∈ ["CREATE"; "ALTER"; "DROP"]%string /\
     exists w2 r2, skips r (w2 +:+ r2) /\ leading_word w2 r2 /\
       str_upper w2 ∈ ["USER"; "ROLE"; "DATABASE"; "GROUP"]%string).

Lemma split_once_str_free p c s a b :
  split_once_str (p +:+ String c EmptyString) s = Some (a, b) ->
  str_contains (p +:+ String c EmptyString) (a +:+ p) = false.
Proof.
  set (q := (p +:+ String c EmptyString)%string).
  assert (String.length q = S (String.length p)) as El by (unfold q; rewrite str_length_app; simpl; lia).
  assert (forall x t z, strip_prefix x t = Some z -> (String.length x <= String.length t)%nat) as Hlen.
  { intros x t z Hz. apply strip_prefix_Some in Hz as ->. rewrite str_length_app. lia. }
  assert (forall t, (String.length t <= String.length p)%nat -> str_contains q t = false) as Hshort.
  { induction t as [|d t IH]; intros Hl; cbn [str_contains]; unfold starts_with.
    - destruct (strip_prefix q EmptyString) eqn:E; [|done]. apply Hlen in E. cbn in E. lia.
    - destruct (strip_prefix q (String d t)) eqn:E; [apply Hlen in E; lia|]. apply IH. cbn in Hl. lia. }
  revert a b. induction s as [|d s IH]; intros a b; cbn [split_once_str].
  - destruct (strip_prefix q EmptyString) eqn:E; [|done]. intros [= <- <-]. by apply Hshort.
  - destruct (strip_prefix q (String d s)) eqn:E; [intros [= <- <-]; by apply Hshort|].
    destruct (split_once_str q s) as [[a' b']|] eqn:E'; [|done]. intros [= <- <-].
    change (String d a' +:+ p)%string with (String d (a' +:+ p)). cbn [str_contains].
    rewrite (IH _ _ eq_refl), orb_false_r. unfold starts_with.
    destruct (strip_prefix q (String d (a' +:+ p))) as [z|] eqn:Ez; [|done]. exfalso.
    apply strip_prefix_Some in Ez. apply split_once_str_Some in E'. subst s.
    replace (String d (a' +:+ q +:+ b'))%string with (q +:+ (z +:+ (String c EmptyString +:+ b')))%string in E.
    + by rewrite strip_prefix_app in E.
    + rewrite <- str_app_assoc, <- Ez. unfold q. 
      change (String d (a' +:+ p) +:+ (String c EmptyString +:+ b'))%string with (String d ((a' +:+ p) +:+ (String c EmptyString +:+ b'))).
      by rewrite !str_app_assoc.
Qed.

Lemma ascii_black c s : 33 <= byte_Z (byte_of_ascii c) <= 127 -> ws_len (String c s) = 0%nat.
Proof.
  intros Hb. unfold ws_len, str_codes, str_bytes. cbn. generalize dependent (byte_Z (byte_of_ascii c)). intros z Hb.
  assert ((z <=? 13) = false /\ (z =? 32) = false /\ (z =? 194) = false /\ (z =? 225) = false /\
    (z =? 226) = false /\ (z =? 227) = false) as (-> & -> & -> & -> & -> & ->) by lia.
  rewrite andb_false_r. cbn. by destruct (map byte_Z _) as [|? []].
Qed.

Lemma word_char_black c s : word_char c = true -> ws_len (String c s) = 0%nat.
Proof. intros Hc. apply ascii_black. destruct c as [[] [] [] [] [] [] [] []]; try discriminate Hc; by split; vm_compute. Qed.

(** A comment opener is no white space. *)
Lemma opener_black c s : c ∈ ["-"; "/"]%char -> trim_start (String c s) = String c s.
Proof.
  rewrite !elem_of_cons, elem_of_nil. intros [->|[->|[]]]; apply trim_black, ascii_black; by split; vm_compute.
Qed.

(** ** The loop and the relation agree *)

Lemma strip_reads s x c t :
  skips s x -> x = String c t -> word_char c = true ->
  forall fuel, (String.length s <= fuel)%nat -> strip_comments fuel s = x.
Proof.
  induction 1 as [s|w s r Hw _ IH|a s r Ha _ IH|a s r Ha _ IH]; intros -> Hc fuel Hf.
  - pose proof (trim_black _ (word_char_black c t Hc)) as Ht. destruct fuel; cbn [strip_comments]; rewrite Ht; [done|].
    assert (forall d p, word_char d = false -> strip_prefix (String d p) (String c t) = None) as Hno.
    { intros d p Hd. cbn. destruct (Ascii.eqb d c) eqn:E; [|done]. apply Ascii.eqb_eq in E as ->. congruence. }
    by rewrite !Hno.
  - assert (forall f, strip_comments f (w +:+ s) = strip_comments f s) as ->.
    { intros [|f]; cbn [strip_comments]; by rewrite trim_white. }
    apply IH; [done..|]. rewrite str_length_app in Hf. lia.
  - rewrite !str_length_app in Hf. destruct fuel as [|fuel]; [cbn in Hf; lia|]. cbn [strip_comments].
    assert (trim_start ("--" +:+ a +:+ newline +:+ s) = "--" +:+ a +:+ newline +:+ s)%string as -> by (apply opener_black; set_solver).
    rewrite strip_prefix_app. unfold after_first.
    assert (split_once_str newline (a +:+ newline +:+ s) = Some (a, s)) as ->
      by (apply (split_once_str_first EmptyString "010"); rewrite str_app_nil_r; exact Ha).
    apply IH; [done..|]. cbn in Hf. lia.
  - rewrite !str_length_app in Hf. destruct fuel as [|fuel]; [cbn in Hf; lia|]. cbn [strip_comments].
    assert (trim_start ("/*" +:+ a +:+ "*/" +:+ s) = "/*" +:+ a +:+ "*/" +:+ s)%string as -> by (apply opener_black; set_solver).
    replace (strip_prefix "--" ("/*" +:+ a +:+ "*/" +:+ s)) with (@None string) by done.
    rewrite strip_prefix_app. unfold after_first.
    assert (split_once_str "*/" (a +:+ "*/" +:+ s) = Some (a, s)) as ->
      by (apply (split_once_str_first "*" "/"); exact Ha).
    apply IH; [done..|]. cbn in Hf. lia.
Qed.

Lemma skips_trim s r : skips (trim_start s) r -> skips s r.
Proof.
  induction s as [s IH] using (induction_ltof1 _ String.length). unfold ltof in IH.
  destruct (trim_cases s) as [[-> _]|(w & r' & -> & Hw & -> & Hl)]; [done|].
  intros Hr. constructor; [done|]. by apply IH.
Qed.

Lemma strip_skips fuel s : strip_comments fuel s <> EmptyString -> skips s (strip_comments fuel s).
Proof.
  revert s. induction fuel as [|fuel IH]; intros s; cbn [strip_comments].
  { intros _. apply skips_trim. constructor. }
  intros Hn. apply skips_trim. unfold after_first in *. destruct (strip_prefix "--" (trim_start s)) as [a|] eqn:E1.
  - apply strip_prefix_Some in E1 as ->. destruct (split_once_str newline a) as [[t r]|] eqn:E; [|done].
    pose proof (split_once_str_free EmptyString "010" _ _ _ E) as Hf. rewrite str_app_nil_r in Hf.
    apply split_once_str_Some in E as ->. apply skips_line; [exact Hf|by apply IH].
  - destruct (strip_prefix "/*" (trim_start s)) as [a|] eqn:E2; [|constructor].
    apply strip_prefix_Some in E2 as ->. destruct (split_once_str "*/" a) as [[t r]|] eqn:E; [|done].
    pose proof (split_once_str_free "*" "/" _ _ _ E) as Hf.
    apply split_once_str_Some in E as ->. apply skips_block; [exact Hf|by apply IH].
Qed.

Lemma first_token_split s :
  exists r, s = first_token s +:+ r /\ str_forall word_char (first_token s) = true /\
    match r with String c _ => word_char c = false | EmptyString => True end.
Proof.
  induction s as [|c s (r & E & F & R)]; [by exists EmptyString|]. cbn [first_token]. fold (word_char c).
  destruct (word_char c) eqn:Hc; [|by exists (String c s)]. exists r. split_and!; [|by cbn; rewrite Hc|done].
  change (String c (first_token s) +:+ r)%string with (String c (first_token s +:+ r)). by rewrite <- E.
Qed.

Lemma first_token_word w r : leading_word w r -> first_token (w +:+ r) = w.
Proof.
  intros (_ & Hw & Hr). induction w as [|c w IH].
  - change (EmptyString +:+ r)%string with r. destruct r as [|c r]; [done|]. cbn. fold (word_char c). by rewrite Hr.
  - cbn in Hw. bool_hyps. change (String c w +:+ r)%string with (String c (w +:+ r)). cbn [first_token].
    fold (word_char c). by rewrite H, IH.
Qed.

(** What follows white space and comments, when it is a word. *)
Lemma strip_word s w r :
  leading_word w r -> skips s (w +:+ r) -> strip_leading_whitespace_and_comments s = w +:+ r.
Proof.
  intros (Hn & Hw & _) Hs. destruct w as [|c w]; [done|]. cbn in Hw. bool_hyps.
  eapply strip_reads; [exact Hs|done|done|done].
Qed.

(** The token of the loop is the word of the relation. *)
Lemma token_word s :
  let t := strip_leading_whitespace_and_comments s in
  first_token t <> EmptyString ->
  exists r, t = first_token t +:+ r /\ leading_word (first_token t) r /\ skips s (first_token t +:+ r).
Proof.
  cbv zeta. set (t := strip_leading_whitespace_and_comments s). intros Hn.
  destruct (first_token_split t) as (r & E & F & R). exists r. split_and!; [done|by repeat split|].
  rewrite <- E. apply strip_skips. intros Hx. fold (strip_leading_whitespace_and_comments s) in Hx.
  change (t = EmptyString) in Hx. by rewrite Hx in Hn.
Qed.

Lemma upper_length s : String.length (str_upper s) = String.length s.
Proof. unfold str_upper. induction s as [|c s IH]; [done|]. cbn. by rewrite IH. Qed.

Lemma str_skip_app w r : str_skip (String.length w) (w +:+ r) = r.
Proof. induction w as [|c w IH]; [by destruct r|exact IH]. Qed.

Lemma mem_elem l s : mem l s = true <-> s ∈ l.
Proof.
  unfold mem. rewrite existsb_exists, list_elem_of_In. split.
  - intros (x & Hx & E). apply String.eqb_eq in E as ->. done.
  - intros Hs. exists s. by rewrite String.eqb_refl.
Qed.

(** The second word is a privileged one. *)
Lemma second_word_iff r :
  mem ["USER"; "ROLE"; "DATABASE"; "GROUP"]%string (str_upper (first_token (strip_leading_whitespace_and_comments r))) = true <->
  exists w2 r2, skips r (w2 +:+ r2) /\ leading_word w2 r2 /\ str_upper w2 ∈ ["USER"; "ROLE"; "DATABASE"; "GROUP"]%string.
Proof.
  rewrite mem_elem. split.
  - intros Hm. destruct (token_word r) as (r2 & _ & Hw & Hs).
    + intros E. rewrite E in Hm. set_solver.
    + by exists (first_token (strip_leading_whitespace_and_comments r)), r2.
  - intros (w2 & r2 & Hs & Hw & Hm). by rewrite (strip_word _ _ _ Hw Hs), first_token_word.
Qed.

(** The check refuses exactly the privileged statements. *)
Theorem ddl_iff sql : is_ok (reject_privileged_ddl sql) = true <-> ~ privileged sql.
Proof.
  assert (forall b : bool, (b = true <-> privileged sql) ->
    (is_ok (if b then Err (InvalidSpec EmptyString) else Ok ()) = true <-> ~ privileged sql)) as Hb.
  { intros [] [H1 H2]; cbn; split; try done; [intros Hn; destruct Hn; auto|intros _ Hp; by specialize (H2 Hp)]. }
  unfold reject_privileged_ddl. set (t := strip_leading_whitespace_and_comments sql).
  assert (forall w r, skips sql (w +:+ r) -> leading_word w r -> t = w +:+ r /\ first_token t = w) as Hdet.
  { intros w r Hs Hw. pose proof (strip_word _ _ _ Hw Hs) as E. fold t in E. rewrite E. split; [done|by apply first_token_word]. }
  destruct (decide (first_token t = EmptyString)) as [E0|Hn].
  { rewrite E0. cbn. split; [|done]. intros _ (w & r & Hs & Hw & _). destruct (Hdet _ _ Hs Hw) as [_ E]. 
    destruct Hw as [Hne _]. congruence. }
  destruct (token_word sql Hn) as (r & Et & Hw & Hs). fold t in Et, Hw, Hs.
  assert (str_is_empty (str_upper (first_token t)) = false) as -> by (by destruct (first_token t)).
  assert (str_skip (String.length (str_upper (first_token t))) t = r) as ->.
  { rewrite upper_length. rewrite Et at 2. apply str_skip_app. }
  assert (privileged sql <->
    str_upper (first_token t) ∈ ["GRANT"; "REVOKE"]%string \/
    str_upper (first_token t) ∈ ["CREATE"; "ALTER"; "DROP"]%string /\
    exists w2 r2, skips r (w2 +:+ r2) /\ leading_word w2 r2 /\ str_upper w2 ∈ ["USER"; "ROLE"; "DATABASE"; "GROUP"]%string) as ->.
  { split.
    - intros (w & r' & Hs' & Hw' & Hp). destruct (Hdet _ _ Hs' Hw') as [E1 <-]. rewrite E1 in Et at 1.
      assert (r' = r) as <-; [|exact Hp].
      rewrite <- (str_skip_app (first_token t) r'), <- (str_skip_app (first_token t) r). by f_equal.
    - intros Hp. by exists (first_token t), r. }
  rewrite <- second_word_iff, <- !mem_elem.
  destruct (mem ["GRANT"; "REVOKE"]%string _); [split; [done|intros Hx; destruct Hx; by left]|].
  destruct (mem ["CREATE"; "ALTER"; "DROP"]%string _); [|split; [by intros _ [|[]]|done]].
  destruct (mem _ _); [split; [done|intros Hx; destruct Hx; by right]|split; [by intros _ [|[]]|done]].
Qed.

(** ** Identifiers *)

Definition name_start (c : ascii) : Prop := is_ascii_alpha c = true \/ c = "_"%char.

(** A letter or underscore, then letters, digits, underscores and dots. *)
Definition identifier (s : string) : Prop :=
  match list_ascii_of_string s with
  | c :: cs => name_start c /\ Forall (fun d => is_ascii_alnum d = true \/ d = "_"%char \/ d = "."%char) cs
  | [] => False
  end.

Theorem identifier_iff s : is_safe_sql_identifier s = true <-> identifier s.
Proof.
  unfold is_safe_sql_identifier, identifier, name_start. destruct s as [|c s]; [done|]. cbn [list_ascii_of_string str_forall str_is_empty negb].
  assert (forall s, str_forall (fun c => is_ascii_alnum c || Ascii.eqb c "_" || Ascii.eqb c ".") s = true <->
    Forall (fun d => is_ascii_alnum d = true \/ d = "_"%char \/ d = "."%char) (list_ascii_of_string s)) as Hf.
  { clear. induction s as [|c s IH]; cbn; [by split|].
    rewrite andb_true_iff, Forall_cons, IH, !orb_true_iff, !Ascii.eqb_eq. tauto. }
  rewrite !andb_true_iff, Hf, !orb_true_iff, !Ascii.eqb_eq. unfold is_ascii_alnum at 1. rewrite orb_true_iff. tauto.
Qed.

(** A comment is not skipped: an apostrophe in one hides the semicolons after
    it, and a stacked statement passes. *)
Example comment_hides_stacked_statement :
  reject_multi_statement ("SELECT 1 -- it's fine" +:+ newline +:+ "; DROP TABLE accounts") = Ok () /\
  is_ok (reject_multi_statement ("SELECT 1 -- fine" +:+ newline +:+ "; DROP TABLE accounts")) = false.
Proof. by vm_compute. Qed.
