(* ===== verification/Cost.v ===== *)
(** Cost specifications ([CostSpec] and [CostUnit] of [src/src/config.rs]) and
    charging, [src/src/cost.rs].

    The CEL engine is a parameter ([Cel]); amounts are binary64.  The
    recorders a charge feeds are in [Metrics]; log events are not modelled. *)

From Stdlib Require Import ZArith Lia Bool Ascii String SpecFloat.
From stdpp Require Import base list strings.
From S2P Require Import Prelude RustStd Redact Text Errors Json F64.

(** [cel::objects::Key] and [cel::Value].  A [HashMap] is the list of its
    entries in iteration order; a duration and a timestamp are the texts they
    print as. *)
Inductive cel_key : Type :=
| KeyString (s : string)
| KeyInt (n : Z)
| KeyUint (n : Z)
| KeyBool (b : bool).

#[warnings="-register-all"]
Inductive cel_value : Type :=
| CelNull
| CelBool (b : bool)
| CelInt (n : Z)
| CelUInt (n : Z)
| CelFloat (f : spec_float)
| CelString (s : string)
| CelList (l : list cel_value)
| CelBytes (b : list byte)
| CelMap (m : list (cel_key * cel_value))
| CelDuration (shown : string)
| CelTimestamp (rfc3339 : string)
| CelOther.                         (* functions and opaque values *)

(** [cel::Program] and its debug printer. *)
Class Cel : Type := {
  Program : Type;
  cel_compile : string -> result string Program;
  cel_execute : Program -> list (string * cel_value) -> result string cel_value;
  cel_debug : cel_value -> string;
}.

(** [lib::cel_value_from_json]. *)
Fixpoint cel_value_from_json (v : value) : cel_value :=
  match v with
  | VNull => CelNull
  | VBool b => CelBool b
  | VNumber (PosInt n) => if n <=? i64_max then CelInt n else CelUInt n
  | VNumber (NegInt n) => CelInt n
  | VNumber (Float f) => CelFloat f
  | VString s => CelString s
  | VArray l => CelList (map cel_value_from_json l)
  | VObject m => CelMap (map (fun kv => (KeyString (fst kv), cel_value_from_json (snd kv))) m)
  end.

Inductive CostUnit : Type := PerCall | PerRow | PerByte | PerQuery.

Definition CostUnit_as_str (u : CostUnit) : string :=
  match u with
  | PerCall => "per_call"
  | PerRow => "per_row"
  | PerByte => "per_byte"
  | PerQuery => "per_query"
  end.

Record CostSpec : Type := {
  spec_unit : CostUnit;
  spec_amount : option string;
  spec_expression : option string;
  spec_currency : string;
  spec_max_per_call : option string;
}.

Definition parse_decimal_amount (s field : string) : result SqlError f64 :=
  let trimmed := trim s in
  if str_is_empty trimmed then Err (InvalidSpec (field +:+ " must not be empty"))
  else
    let? v := ok_or (parse_f64 trimmed)
                (InvalidSpec (field +:+ " '" +:+ trimmed +:+
                              "' is not a valid decimal: invalid float literal")) in
    if negb (f64_is_finite v) then
      Err (InvalidSpec (field +:+ " '" +:+ trimmed +:+ "' is not a finite number"))
    else if f64_ltb v (f64_of_Z 0) then
      Err (InvalidSpec (field +:+ " '" +:+ trimmed +:+ "' must be non-negative"))
    else Ok v.

(** [char::is_control] on UTF-8: C0, DEL and C1 (0xC2 0x80 - 0x9F). *)
Fixpoint has_control (s : string) : bool :=
  match s with
  | EmptyString => false
  | String c s' =>
      (char_Z c <? 32) || (char_Z c =? 127) ||
      ((char_Z c =? 194) && match s' with
                            | String d _ => (128 <=? char_Z d) && (char_Z d <=? 159)
                            | EmptyString => false
                            end) ||
      has_control s'
  end.

Record BackendCost `{Cel} : Type := {
  unit : CostUnit;
  currency : string;
  amount : option f64;
  expression : option Program;
  source : string;
  max_per_call : option f64;
}.

Section Cost.
Context `{Cel} (show_f64 : f64 -> string).

Definition compile_expression (expr : string) : result SqlError Program :=
  rmap_err (fun e => InvalidSpec ("cost.expression does not compile as CEL: " +:+ e))
    (cel_compile expr).

(** [CostSpec::validate]. *)
Definition cost_validate (spec : CostSpec) : result SqlError () :=
  let? _ :=
    match spec_amount spec, spec_expression spec with
    | Some _, Some _ =>
        Err (InvalidSpec "cost spec must set exactly one of `amount` or `expression`, not both")
    | None, None => Err (InvalidSpec "cost spec must set exactly one of `amount` or `expression`")
    | Some amt, None => let? _ := parse_decimal_amount amt "cost.amount" in Ok ()
    | None, Some expr =>
        if str_is_empty (trim expr) then Err (InvalidSpec "cost.expression must not be empty")
        else let? _ := compile_expression expr in Ok ()
    end in
  if str_is_empty (trim (spec_currency spec)) then
    Err (InvalidSpec "cost.currency must not be empty")
  else if has_control (spec_currency spec) then
    Err (InvalidSpec ("cost.currency '" +:+ spec_currency spec +:+ "' contains control characters"))
  else
    match spec_max_per_call spec with
    | Some cap => let? _ := parse_decimal_amount cap "cost.max_per_call" in Ok ()
    | None => Ok ()
    end.

(** [opt.map(f).transpose()]. *)
Definition map_opt {A B} (f : A -> result SqlError B) (o : option A) : result SqlError (option B) :=
  match o with
  | Some a => let? b := f a in Ok (Some b)
  | None => Ok None
  end.

(** [BackendCost::compile]. *)
Definition cost_compile (spec : CostSpec) : result SqlError BackendCost :=
  let? amount := map_opt (fun s => parse_decimal_amount s "cost.amount") (spec_amount spec) in
  let? expression := map_opt compile_expression (spec_expression spec) in
  let? cap := map_opt (fun s => parse_decimal_amount s "cost.max_per_call") (spec_max_per_call spec) in
  let source :=
    match spec_amount spec with
    | Some a => a
    | None => match spec_expression spec with Some e => e | None => EmptyString end
    end in
  Ok {| unit := spec_unit spec; currency := spec_currency spec; amount := amount;
        expression := expression; source := source; max_per_call := cap |}.

Definition cel_value_to_f64 (v : cel_value) : option f64 :=
  match v with
  | CelInt n | CelUInt n => Some (f64_of_Z n)
  | CelFloat f => Some f
  | CelString s => parse_f64 s
  | _ => None
  end.

Definition resolve_base (c : BackendCost) (arguments : value) : result SqlError f64 :=
  match amount c with
  | Some amt => Ok amt
  | None =>
      let? program := ok_or (expression c)
        (InvalidSpec "cost spec has neither amount nor expression — should be unreachable") in
      let? result :=
        rmap_err (fun e => InvalidSpec ("cost.expression evaluation failed: " +:+ e +:+
                                        " (source: " +:+ source c +:+ ")"))
          (cel_execute program [("arguments"%string, cel_value_from_json arguments)]) in
      ok_or (cel_value_to_f64 result)
        (InvalidSpec ("cost.expression must evaluate to a positive number, got " +:+
                      cel_debug result +:+ " (source: " +:+ source c +:+ ")"))
  end.

Definition compute (c : BackendCost) (arguments : value) (row_count payload_bytes : Z)
  : result SqlError f64 :=
  let? base := resolve_base c arguments in
  let amplified :=
    match unit c with
    | PerCall | PerQuery => base
    | PerRow => f64_mul base (f64_of_Z row_count)
    | PerByte => f64_mul base (f64_of_Z payload_bytes)
    end in
  if negb (f64_is_finite amplified) || f64_ltb amplified (f64_of_Z 0) then
    Err (InvalidSpec ("cost computed to non-finite or negative amount " +:+ show_f64 amplified +:+
      " (base=" +:+ show_f64 base +:+ ", unit=" +:+ CostUnit_as_str (unit c) +:+ ", rows=" +:+
      show_u row_count +:+ ", bytes=" +:+ show_u payload_bytes +:+ ")"))
  else
    match max_per_call c with
    | Some cap =>
        if f64_ltb cap amplified then
          Err (InvalidSpec ("cost " +:+ show_f64 amplified +:+ " " +:+ currency c +:+
            " exceeds cost.max_per_call (" +:+ show_f64 cap +:+ " " +:+ currency c +:+
            "); refusing the call"))
        else Ok amplified
    | None => Ok amplified
    end.

(** The amount [emit_refund] records. *)
Definition refund_amount (c : BackendCost) (arguments : value) : f64 :=
  match unit c with
  | PerCall | PerQuery =>
      match resolve_base c arguments with
      | Ok b => b
      | Err _ => f64_of_Z 0
      end
  | PerRow | PerByte => f64_of_Z 0
  end.
End Cost.

(** [refund_reason_for] of [src/src/lib.rs]. *)
Definition refund_reason_for (e : BackendError) : string :=
  match e with
  | BTimeout _ => "timeout"
  | BTransport _ => "transport"
  | BInvalidSpec _ => "invalid_spec"
  | BProfileNotFound _ => "invalid_spec"
  end.

(** * Facts *)

Definition valid_amount (f : f64) : Prop :=
  f64_is_finite f = true /\ f64_ltb f (f64_of_Z 0) = false.

Lemma parse_decimal_amount_valid s field v :
  parse_decimal_amount s field = Ok v -> valid_amount v.
Proof.
  unfold parse_decimal_amount. destruct (str_is_empty _); [done|]. intros H. unfold rbind, ok_or in H.
  destruct (parse_f64 _) as [f|]; [|done]. destruct (f64_is_finite f) eqn:Ef; [|done]. cbn [negb] in H.
  destruct (f64_ltb f (f64_of_Z 0)) eqn:El; [done|]. injection H as <-. done.
Qed.

Section CostFacts.
Context `{Cel} (show_f64 : f64 -> string).

Lemma cost_validate_compile spec :
  cost_validate spec = Ok () -> exists c, cost_compile spec = Ok c.
Proof.
  unfold cost_validate, cost_compile, rbind, map_opt, rbind.
  assert (
    (if str_is_empty (trim (spec_currency spec)) then Err (InvalidSpec "cost.currency must not be empty")
     else if has_control (spec_currency spec) then
       Err (InvalidSpec ("cost.currency '" +:+ spec_currency spec +:+ "' contains control characters"))
     else match spec_max_per_call spec with
          | Some cap => match parse_decimal_amount cap "cost.max_per_call" with
                        | Ok _ => Ok () | Err e => Err e end
          | None => Ok () end) = Ok () ->
    exists cap, (match spec_max_per_call spec with
                 | Some a => match parse_decimal_amount a "cost.max_per_call" with
                             | Ok b => Ok (Some b) | Err e => Err e end
                 | None => Ok None end) = Ok (E := SqlError) cap) as Hcap.
  { destruct (str_is_empty (trim (spec_currency spec))), (has_control (spec_currency spec)); try done.
    destruct (spec_max_per_call spec); [|by eexists].
    destruct (parse_decimal_amount _ _); [by eexists|done]. }
  destruct (spec_amount spec) as [am|], (spec_expression spec) as [ex|]; try done; intros Hv.
  - destruct (parse_decimal_amount _ "cost.amount"); [|done].
    destruct (Hcap Hv) as [cap ->]. by eexists.
  - destruct (str_is_empty (trim ex)); [done|]. destruct (compile_expression ex); [|done].
    destruct (Hcap Hv) as [cap ->]. by eexists.
Qed.

Definition flat (u : CostUnit) : bool := match u with PerCall | PerQuery => true | _ => false end.

(** A validated cost specification compiles; every charge is a finite,
    non-negative amount no greater than the per-call cap; a flat charge is the
    base rate, and the refund of a failed call on a flat unit is exactly what
    the call would have been charged, while row and byte units refund zero. *)
Theorem charges_sound spec :
  cost_validate spec = Ok () ->
  exists c, cost_compile spec = Ok c /\
    (forall args rows bytes a, compute show_f64 c args rows bytes = Ok a ->
       valid_amount a /\
       (forall cap, max_per_call c = Some cap -> f64_ltb cap a = false) /\
       refund_amount c args = (if flat (unit c) then a else f64_of_Z 0)) /\
    (forall a, amount c = Some a -> valid_amount a) /\
    (forall cap, max_per_call c = Some cap -> valid_amount cap).
Proof.
  intros Hv. destruct (cost_validate_compile spec Hv) as [c Hc]. exists c. split; [done|].
  unfold cost_compile, rbind in Hc.
  destruct (map_opt _ (spec_amount spec)) as [am|] eqn:Ea; [|done].
  destruct (map_opt compile_expression _) as [ex|] eqn:Ee; [|done].
  destruct (map_opt _ (spec_max_per_call spec)) as [cap|] eqn:Em; [|done]. injection Hc as <-. simpl.
  assert (forall field o (r : option f64), map_opt (fun s => parse_decimal_amount s field) o = Ok r ->
            forall a, r = Some a -> valid_amount a) as Hm.
  { intros field [s|] r E a ->; unfold map_opt, rbind in E; [|done].
    destruct (parse_decimal_amount s field) eqn:Ep; [|done]. injection E as <-.
    by eapply parse_decimal_amount_valid. }
  split; [|split; eauto]. intros args rows bytes a Hcomp.
  unfold compute, rbind in Hcomp. set (c := Build_BackendCost _ _ _ _ _ _ _) in *.
  destruct (resolve_base c args) as [base|e] eqn:Eb; [|done].
  set (amp := match unit c with PerCall | PerQuery => base | PerRow => _ | PerByte => _ end) in Hcomp.
  destruct (f64_is_finite amp) eqn:Ef; [|done]. cbn [negb orb] in Hcomp.
  destruct (f64_ltb amp (f64_of_Z 0)) eqn:El; [done|].
  assert (amp = a /\ forall k, cap = Some k -> f64_ltb k amp = false) as [<- Hcap].
  { change (max_per_call c) with cap in Hcomp. destruct cap as [k|].
    - destruct (f64_ltb k amp) eqn:Ek; [done|]. injection Hcomp as <-. split; [done|].
      intros k0 Hk. injection Hk as <-. exact Ek.
    - by injection Hcomp as <-. }
  split; [done|]. split; [done|]. unfold refund_amount. rewrite Eb. unfold amp.
  change (unit c) with (spec_unit spec). by destruct (spec_unit spec).
Qed.
End CostFacts.

(** An engine whose every program is the constant 3: an instance of the
    parameters. *)
Module ToyCel.

#[export] Instance cel : Cel := {|
  Program := string;
  cel_compile s := Ok s;
  cel_execute _ _ := Ok (CelInt 3);
  cel_debug _ := EmptyString;
|}.

Definition spec : CostSpec :=
  {| spec_unit := PerRow; spec_amount := Some "0.5"; spec_expression := None;
     spec_currency := "USD"; spec_max_per_call := Some "10" |}%string.

Example charge_examples :
  let c := {| unit := PerRow; currency := "USD"; amount := parse_f64 "0.5"; expression := None;
              source := "0.5"; max_per_call := parse_f64 "10" |}%string in
  cost_compile spec = Ok c /\
  compute (fun _ => EmptyString) c VNull 4 0 = Ok (f64_of_Z 2) /\
  is_ok (compute (fun _ => EmptyString) c VNull 21 0) = false.
Proof. by vm_compute. Qed.

Lemma charges_sound_witness :
  exists c, cost_compile spec = Ok c /\
    (forall args rows bytes a, compute (fun _ => EmptyString) c args rows bytes = Ok a ->
       valid_amount a /\
       (forall cap, max_per_call c = Some cap -> f64_ltb cap a = false) /\
       refund_amount c args = (if flat (unit c) then a else f64_of_Z 0)) /\
    (forall a, amount c = Some a -> valid_amount a) /\
    (forall cap, max_per_call c = Some cap -> valid_amount cap).
Proof. apply (charges_sound (fun _ => EmptyString) spec). by vm_compute. Defined.

End ToyCel.
