(* ===== verification/Config.v ===== *)
(** The operator configuration and its validation, [src/src/config.rs], with
    [AuthConfig::validate] of [src/src/auth/mod.rs].

    [validate] is the sequence of checks of [SqlBackendConfig::validate]; each
    group of checks is a definition of its own.  The url crate, the CEL
    compiler, the credential-token scanner of the plugin protocol and the
    [Debug] printers are parameters.  A path is its text. *)

From Stdlib Require Import ZArith Lia Bool Ascii String SpecFloat.
From stdpp Require Import base list strings.
From S2P Require Import Prelude RustStd Redact Text Errors Breaker Json Params F64 Stream SqlText Cost.

(** * Data *)

Inductive CacheInvalidateOn : Type := Watch (sql : string) (interval_ms : Z).

Record CacheSpec : Type := {
  enabled : bool;
  ttl_seconds : Z;
  invalidate_on : option CacheInvalidateOn;
}.

Definition default_cache : CacheSpec :=
  {| enabled := false; ttl_seconds := 60; invalidate_on := None |}.

Record AwaitStep : Type := { step_sql : string; step_params : list string }.

Record AwaitConfig : Type := {
  trigger : option AwaitStep;
  check : AwaitStep;
  predicate : string;
  poll_interval_ms : Z;
  await_timeout_ms : Z;
}.

Inductive ListQueryMode : Type := Keyset | Offset.

Record ListQueryConfig : Type := {
  list_sql : string;
  mode : ListQueryMode;
  cursor_column : option string;
  page_size : Z;
}.

Record PoolConfig : Type := {
  max_connections : Z;
  min_idle : Z;
  acquire_timeout_ms : Z;
  idle_timeout_ms : Z;
  max_lifetime_ms : Z;
  test_before_acquire : bool;
  require_cancel_privilege : bool;
}.

Definition default_pool : PoolConfig :=
  {| max_connections := 10; min_idle := 0; acquire_timeout_ms := 5000; idle_timeout_ms := 300000;
     max_lifetime_ms := 1800000; test_before_acquire := true; require_cancel_privilege := true |}.

Inductive QueryBody : Type :=
| Sql (sql : string)
| Procedure (procedure : string)
| SqlFile (sql_file : string).

Inductive RowMode : Type :=
| Single | Many | Scalar | AffectedRows | ResourceContents | StreamMode | ResultSets.

Record QueryShape : Type := {
  body : QueryBody;
  params : list string;
  param_exprs : list (string * string);
  row_mode : RowMode;
  max_rows : Z;
  timeout_ms : option Z;
  read_only : bool;
  progress_heartbeat_ms : option Z;
  stream : option Stream.StreamConfig;
}.

Inductive AuthConfig : Type :=
| RdsIam (region username : string) (profile : option string)
| AzureAd (scope : string) (tenant_id : option string)
| GcpIam (username : string)
| AuroraFailover (endpoints : list string).

(** The schema-derivation block has no checks of its own. *)
Record SqlBackendConfig : Type := {
  driver : DriverKind;
  url : string;
  pool : PoolConfig;
  allow_private_backends : bool;
  query : QueryShape;
  session_vars : list (string * string);
  circuit_breaker : option Breaker.CircuitBreakerConfig;
  list_query : option ListQueryConfig;
  await_ : option AwaitConfig;
  isolation_level : option IsolationLevel;
  cache : option CacheSpec;
  cost : option CostSpec;
  auth : option AuthConfig;
}.

(** * Validation of the blocks *)

Definition spec_error {A} (m : string) : result SqlError A := Err (InvalidSpec m).

(** [if cond { return Err(InvalidSpec(m)) }]. *)
Definition reject_if (cond : bool) (m : string) : result SqlError () :=
  if cond then spec_error m else Ok ().

Definition is_blank (s : string) : bool := str_is_empty (trim s).

Definition validate_statement (sql : string) : result SqlError () :=
  let? _ := reject_multi_statement sql in reject_privileged_ddl sql.

Definition validate_invalidate_on (i : CacheInvalidateOn) : result SqlError () :=
  match i with
  | Watch sql interval_ms =>
      let? _ := reject_if (is_blank sql) "cache.invalidate_on.sql must not be empty" in
      let? _ := validate_statement sql in
      reject_if (interval_ms <? 100)
        ("cache.invalidate_on.interval_ms (" +:+ show_u interval_ms +:+ " ms) is below the 100 ms floor")
  end.

Definition validate_await (a : AwaitConfig) : result SqlError () :=
  let? _ := reject_if (is_blank (step_sql (check a))) "await.check.sql must not be empty" in
  let? _ := validate_statement (step_sql (check a)) in
  let? _ :=
    match trigger a with
    | Some trig =>
        let? _ := reject_if (is_blank (step_sql trig))
                    "await.trigger.sql must not be empty when trigger is declared" in
        validate_statement (step_sql trig)
    | None => Ok ()
    end in
  let? _ := reject_if (is_blank (predicate a)) "await.predicate must be a non-empty CEL expression" in
  let? _ := reject_if (poll_interval_ms a <? 100)
              ("await.poll_interval_ms (" +:+ show_u (poll_interval_ms a) +:+ ") must be >= 100") in
  let? _ := reject_if (await_timeout_ms a =? 0) "await.timeout_ms must be > 0" in
  reject_if (await_timeout_ms a <? poll_interval_ms a)
    ("await.timeout_ms (" +:+ show_u (await_timeout_ms a) +:+ ") must be >= poll_interval_ms (" +:+
     show_u (poll_interval_ms a) +:+ ")").

Definition validate_list_query (l : ListQueryConfig) : result SqlError () :=
  let? _ := reject_if (is_blank (list_sql l)) "list_query.sql must not be empty" in
  let? _ := validate_statement (list_sql l) in
  let? _ := reject_if ((page_size l =? 0) || (1000 <? page_size l))
              ("list_query.page_size (" +:+ show_u (page_size l) +:+ ") must be in 1..=1000") in
  match mode l with
  | Keyset =>
      let col := trim (match cursor_column l with Some c => c | None => EmptyString end) in
      let? _ := reject_if (str_is_empty col) "list_query.cursor_column is required for mode: keyset" in
      reject_if (negb (is_safe_sql_identifier col))
        ("list_query.cursor_column '" +:+ col +:+ "' is not a safe SQL identifier")
  | Offset => Ok ()
  end.

Definition auth_scheme (a : AuthConfig) : string :=
  match a with
  | RdsIam _ _ _ => "rds_iam"
  | AzureAd _ _ => "azure_ad"
  | GcpIam _ => "gcp_iam"
  | AuroraFailover _ => "aurora_failover"
  end.

(** [AuthConfig::validate], its [InvalidConfig] converted to [SqlError]. *)
Definition validate_auth_config (a : AuthConfig) : result SqlError () :=
  match a with
  | RdsIam region username _ =>
      let? _ := reject_if (is_blank region) "auth config: rds_iam.region is required (e.g. 'us-east-1')" in
      reject_if (is_blank username) "auth config: rds_iam.username is required"
  | AzureAd scope _ => reject_if (is_blank scope) "auth config: azure_ad.scope must be non-empty"
  | GcpIam username => reject_if (is_blank username) "auth config: gcp_iam.username is required"
  | AuroraFailover endpoints =>
      reject_if (match endpoints with [] => true | _ => false end)
        "auth config: aurora_failover.endpoints must list at least one host"
  end.

(** [for x in l { f(x)?; }]. *)
Fixpoint check_all {A} (f : A -> result SqlError ()) (l : list A) : result SqlError () :=
  match l with
  | [] => Ok ()
  | x :: l' => let? _ := f x in check_all f l'
  end.

(** [key.replace('.', "_")]. *)
Definition undot (s : string) : string := str_map (fun c => if Ascii.eqb c "." then "_"%char else c) s.

Definition contains_dot (s : string) : bool := str_exists (fun c => Ascii.eqb c ".") s.

Section Validate.
Context {Url : Type} `{UrlOps Url} `{Cel}
        (url_scheme : Url -> string) (url_error : string -> string)
        (cred_tokens : string -> list string)
        (debug_strings : list string -> string).

Definition validate_scheme (d : DriverKind) (scheme : string) : result SqlError () :=
  match d with
  | Postgres =>
      reject_if (negb (String.eqb scheme "postgres") && negb (String.eqb scheme "postgresql"))
        ("driver=postgres expects url scheme 'postgres' or 'postgresql', got '" +:+ scheme +:+ "'")
  | Mysql | Mariadb =>
      reject_if (negb (String.eqb scheme "mysql") && negb (String.eqb scheme "mariadb"))
        ("driver=mysql expects url scheme 'mysql' or 'mariadb', got '" +:+ scheme +:+ "'")
  | Sqlite =>
      reject_if (negb (String.eqb scheme "sqlite"))
        ("driver=sqlite expects url scheme 'sqlite', got '" +:+ scheme +:+ "'")
  end.

Definition validate_auth (c : SqlBackendConfig) (parsed : Url) : result SqlError () :=
  match auth c with
  | None => Ok ()
  | Some a =>
      let? _ := validate_auth_config a in
      let? _ :=
        match driver c with
        | Postgres => Ok ()
        | _ => spec_error ("auth: { kind: " +:+ auth_scheme a +:+
                 " } requires driver: postgres in this build; MySQL/MariaDB on RDS is not yet supported, SQLite cannot be IAM-authed")
        end in
      let? _ := reject_if
                  (negb (str_is_empty (match url_password parsed with Some p => p | None => EmptyString end)))
                  "auth: { ... } block is mutually exclusive with a password embedded in `url`. Drop the `:password@` segment; the auth provider supplies the password at connect time." in
      reject_if (match cred_tokens (url c) with [] => false | _ => true end)
        "auth: { ... } block is mutually exclusive with `${cred://…}` tokens in `url`. Pick one: cloud-IAM auth, or per-caller dynamic creds."
  end.

Definition validate_pool (p : PoolConfig) : result SqlError () :=
  let? _ := reject_if (max_connections p =? 0) "pool.max_connections must be > 0" in
  reject_if (max_connections p <? min_idle p) "pool.min_idle must be <= pool.max_connections".

Definition validate_stream (q : QueryShape) : result SqlError () :=
  match row_mode q with
  | StreamMode =>
      match stream q with
      | None => spec_error "row_mode: stream requires a `stream:` block declaring cursor_columns"
      | Some s =>
          let? _ := Stream.validate debug_strings s in
          match body q with
          | Sql sql =>
              check_all (fun ph =>
                reject_if (negb (str_contains (":" +:+ ph) sql))
                  ("row_mode: stream — query.sql must reference placeholder `:" +:+ ph +:+
                   "` (one per declared stream.cursor_columns column). The plugin binds last-row keyset values to these placeholders for continuation calls."))
                (Stream.placeholder_names s)
          | _ => Ok ()
          end
      end
  | _ =>
      reject_if (match stream q with Some _ => true | None => false end)
        "query.stream is only valid when row_mode is `stream` — remove the block or set row_mode: stream."
  end.

Definition is_procedure (b : QueryBody) : bool := match b with Procedure _ => true | _ => false end.

Definition validate_result_sets (c : SqlBackendConfig) : result SqlError () :=
  match row_mode (query c) with
  | ResultSets =>
      let? _ := reject_if (negb (is_procedure (body (query c))))
        "row_mode: result_sets requires `query.procedure` — only stored procedures yield multiple result sets. Switch to `row_mode: many` for SELECTs that return a single set." in
      match driver c with
      | Mysql | Mariadb => Ok ()
      | Postgres => spec_error "row_mode: result_sets is not supported on Postgres — `CALL <proc>` returns at most one result set. Use `row_mode: many` instead."
      | Sqlite => spec_error "row_mode: result_sets is not supported on SQLite — the engine has no stored-procedure concept. Use `row_mode: many` for SELECTs."
      end
  | _ => Ok ()
  end.

Definition validate_heartbeat (q : QueryShape) : result SqlError () :=
  match progress_heartbeat_ms q with
  | Some ms => reject_if (ms <? 50)
                 ("query.progress_heartbeat_ms (" +:+ show_u ms +:+ " ms) is below the 50 ms floor")
  | None => Ok ()
  end.

(** [if let Some(x) = o { f(x)?; }]. *)
Definition if_some {A} (f : A -> result SqlError ()) (o : option A) : result SqlError () :=
  match o with Some a => f a | None => Ok () end.

Definition validate_cache (c : SqlBackendConfig) : result SqlError () :=
  match cache c with
  | Some k =>
      if enabled k then
        let? _ :=
          match row_mode (query c) with
          | Single | Many | Scalar | ResourceContents => Ok ()
          | AffectedRows => spec_error "cache.enabled is invalid for row_mode: affected_rows — caching a write statement would silently skip its side effect on hits."
          | StreamMode => spec_error "cache.enabled is invalid for row_mode: stream — streaming responses are paged via keyset cursor and each page would need its own cache entry; not yet supported."
          | ResultSets => spec_error "cache.enabled is invalid for row_mode: result_sets — stored procedures may have side effects (OUT params, implicit transactions) that must run every call."
          end in
        let? _ := reject_if (is_procedure (body (query c)))
          "cache.enabled is invalid when query.body is a procedure — procedures may have side effects that must run every call." in
        if_some validate_invalidate_on (invalidate_on k)
      else Ok ()
  | None => Ok ()
  end.

Definition validate_session_vars (c : SqlBackendConfig) : result SqlError () :=
  let keys := map fst (session_vars c) in
  let? _ := check_all (fun key =>
              reject_if (negb (is_safe_sql_identifier key))
                ("session_vars: '" +:+ key +:+
                 "' is not a safe SQL identifier (allowed: ASCII letters, digits, `_`, `.`)")) keys in
  match keys with
  | [] => Ok ()
  | _ =>
      match driver c with
      | Postgres => Ok ()
      | Mysql | Mariadb =>
          check_all (fun key =>
            reject_if (contains_dot key)
              ("session_vars: '" +:+ key +:+
               "' contains '.', which is not valid in a MySQL/MariaDB user-variable name. Rename to '" +:+
               undot key +:+ "' (replace dots with underscores).")) keys
      | Sqlite => spec_error "session_vars: SQLite has no transaction-scoped session-variable concept (no SET LOCAL, no user variables). Remove `session_vars` or switch the binding to Postgres / MySQL."
      end
  end.

Definition validate_body (b : QueryBody) : result SqlError () :=
  match b with
  | Procedure procedure =>
      reject_if (negb (is_safe_sql_identifier procedure))
        ("query.procedure: '" +:+ procedure +:+
         "' is not a safe SQL identifier (allowed: ASCII letters, digits, `_`, `.`). Embedded as `CALL <procedure>(...)` — binding a non-identifier would corrupt the statement structure.")
  | Sql sql => validate_statement sql
  | SqlFile _ => Ok ()
  end.

(** [Debug] of an isolation level. *)
Definition debug_level (l : IsolationLevel) : string :=
  match l with
  | ReadCommitted => "ReadCommitted"
  | RepeatableRead => "RepeatableRead"
  | Serializable => "Serializable"
  end.

Definition validate_isolation (c : SqlBackendConfig) : result SqlError () :=
  match isolation_level c, driver c with
  | Some Serializable, _ | None, _ => Ok ()
  | Some level, Sqlite =>
      spec_error ("isolation_level=" +:+ debug_level level +:+
        ": SQLite is always serializable; drop the field or set it to 'serializable'")
  | Some _, _ => Ok ()
  end.

Definition validate (c : SqlBackendConfig) : result SqlError () :=
  let? parsed := ok_or (url_parse (url c))
                   (InvalidSpec ("url parse failed: " +:+ url_error (url c))) in
  let? _ := validate_scheme (driver c) (url_scheme parsed) in
  let? _ := validate_auth c parsed in
  let? _ := validate_pool (pool c) in
  let? _ := validate_stream (query c) in
  let? _ := validate_result_sets c in
  let? _ := validate_heartbeat (query c) in
  let? _ := if_some Breaker.validate (circuit_breaker c) in
  let? _ := if_some validate_list_query (list_query c) in
  let? _ := if_some validate_await (await_ c) in
  let? _ := validate_cache c in
  let? _ := if_some cost_validate (cost c) in
  let? _ := validate_session_vars c in
  let? _ := validate_body (body (query c)) in
  validate_isolation c.
End Validate.

(** * What a validated configuration guarantees *)

Lemma reject_if_ok b m : reject_if b m = Ok () -> b = false.
Proof. by destruct b. Qed.

Lemma check_all_ok {A} (f : A -> result SqlError ()) l :
  check_all f l = Ok () -> Forall (fun x => f x = Ok ()) l.
Proof.
  induction l as [|x l IH]; [constructor|]. simpl. unfold rbind.
  destruct (f x) as [[]|] eqn:E; [|done]. constructor; auto.
Qed.

(** Split [H : let? _ := r in k = Ok _], naming the first part. *)
Ltac next_ok H H' :=
  let u := fresh in
  apply rbind_ok in H as (u & H' & H); try destruct u.

(** An identifier without dots. *)
Definition plain_name (s : string) : Prop :=
  identifier s /\ Forall (fun c => c <> "."%char) (list_ascii_of_string s).

Lemma safe_undotted s : is_safe_sql_identifier s = true -> contains_dot s = false -> plain_name s.
Proof.
  intros Hi%identifier_iff Hd. split; [done|]. clear Hi. revert Hd. unfold contains_dot.
  induction s as [|c s IH]; cbn; [by constructor|]. intros [Hc Hs]%orb_false_iff. constructor; [|auto].
  by apply Ascii.eqb_neq.
Qed.

Section Safe.
Context {Url : Type} `{UrlOps Url} `{Cel}
        (url_scheme : Url -> string) (url_error : string -> string)
        (cred_tokens : string -> list string)
        (debug_strings : list string -> string).

Definition schemes (d : DriverKind) : list string :=
  match d with
  | Postgres => ["postgres"; "postgresql"]
  | Mysql | Mariadb => ["mysql"; "mariadb"]
  | Sqlite => ["sqlite"]
  end%string.

(** A single statement, in the sense of [stands_alone], that does not lead with
    privileged DDL. *)
Definition single_statement (sql : string) : Prop := stands_alone sql /\ ~ privileged sql.

Record safe_config (c : SqlBackendConfig) : Prop := {
  safe_url : exists u, url_parse (url c) = Some u /\ url_scheme u ∈ schemes (driver c);
  safe_pool : max_connections (pool c) <> 0 /\ min_idle (pool c) <= max_connections (pool c);
  safe_body : match body (query c) with
              | Sql sql => single_statement sql
              | Procedure p => identifier p
              | SqlFile _ => True
              end;
  safe_vars : forall k, k ∈ map fst (session_vars c) ->
    match driver c with
    | Postgres => identifier k
    | Mysql | Mariadb => plain_name k
    | Sqlite => False
    end;
  safe_cache : forall k, cache c = Some k -> enabled k = true ->
    is_procedure (body (query c)) = false /\
    row_mode (query c) ∈ [Single; Many; Scalar; ResourceContents];
  safe_result_sets : row_mode (query c) = ResultSets ->
    is_procedure (body (query c)) = true /\ (driver c = Mysql \/ driver c = Mariadb);
  safe_stream : (row_mode (query c) = StreamMode <-> is_Some (stream (query c))) /\
    forall s sql, stream (query c) = Some s -> body (query c) = Sql sql ->
      Forall (fun ph => str_contains (":" +:+ ph) sql = true) (Stream.placeholder_names s);
  safe_auth : forall a, auth c = Some a ->
    driver c = Postgres /\ cred_tokens (url c) = [] /\
    forall u, url_parse (url c) = Some u -> url_password u = None \/ url_password u = Some EmptyString;
  safe_await : forall a, await_ c = Some a ->
    single_statement (step_sql (check a)) /\ 100 <= poll_interval_ms a <= await_timeout_ms a;
  safe_isolation : forall l, isolation_level c = Some l -> driver c = Sqlite -> l = Serializable;
}.

Lemma validate_statement_ok sql : validate_statement sql = Ok () -> single_statement sql.
Proof.
  unfold validate_statement, single_statement, rbind. rewrite <- multi_statement_iff, <- ddl_iff.
  destruct (reject_multi_statement sql); [|done]. by intros ->.
Qed.

Lemma validate_scheme_ok d s : validate_scheme d s = Ok () -> s ∈ schemes d.
Proof.
  assert (forall a b, negb (String.eqb s a) && negb (String.eqb s b) = false -> s ∈ [a; b]) as H2.
  { intros a b E. destruct (String.eqb s a) eqn:Ea; [apply String.eqb_eq in Ea as ->; by left|].
    destruct (String.eqb s b) eqn:Eb; [|done]. apply String.eqb_eq in Eb as ->. by right; left. }
  destruct d; unfold validate_scheme; intros E%reject_if_ok; [exact (H2 _ _ E)..|].
  apply negb_false_iff, String.eqb_eq in E as ->. by left.
Qed.

Lemma validate_vars_ok c k :
  validate_session_vars c = Ok () -> k ∈ map fst (session_vars c) ->
  match driver c with
  | Postgres => identifier k
  | Mysql | Mariadb => plain_name k
  | Sqlite => False
  end.
Proof.
  unfold validate_session_vars. intros E Hk. next_ok E E1. apply check_all_ok in E1.
  rewrite Forall_forall in E1. pose proof (E1 k Hk) as Hs. apply reject_if_ok, negb_false_iff in Hs.
  destruct (map fst (session_vars c)) as [|k0 ks] eqn:Ek; [by apply not_elem_of_nil in Hk|].
  destruct (driver c); try done; [by apply identifier_iff|..];
    (apply check_all_ok in E; rewrite Forall_forall in E; specialize (E k Hk);
     apply reject_if_ok in E; by apply safe_undotted).
Qed.

Lemma validate_stream_ok q :
  validate_stream debug_strings q = Ok () ->
  (row_mode q = StreamMode <-> is_Some (stream q)) /\
  forall s sql, stream q = Some s -> body q = Sql sql ->
    Forall (fun ph => str_contains (":" +:+ ph) sql = true) (Stream.placeholder_names s).
Proof.
  unfold validate_stream. intros E.
  destruct (row_mode q); try (apply reject_if_ok in E; destruct (stream q); [done|];
    split; [split; [done|by intros []]|done]).
  destruct (stream q) as [s|]; [|done]. split; [by split|]. intros s' sql [= <-] Hb.
  next_ok E E1. rewrite Hb in E. apply check_all_ok in E. eapply Forall_impl; [exact E|].
  intros ph Hp%reject_if_ok. by apply negb_false_iff.
Qed.

Lemma validate_cache_ok c k :
  validate_cache c = Ok () -> cache c = Some k -> enabled k = true ->
  is_procedure (body (query c)) = false /\ row_mode (query c) ∈ [Single; Many; Scalar; ResourceContents].
Proof.
  unfold validate_cache. intros E Hc Hk. rewrite Hc, Hk in E. next_ok E E1. next_ok E E2.
  split; [by apply reject_if_ok in E2|]. destruct (row_mode (query c)); try done; rewrite !elem_of_cons; tauto.
Qed.

Lemma validate_auth_ok c u a :
  validate_auth cred_tokens c u = Ok () -> auth c = Some a ->
  driver c = Postgres /\ cred_tokens (url c) = [] /\
  (url_password u = None \/ url_password u = Some EmptyString).
Proof.
  unfold validate_auth. intros E Ha. rewrite Ha in E. next_ok E E1. next_ok E E2. next_ok E E3.
  apply reject_if_ok in E, E3. split; [by destruct (driver c)|]. split; [by destruct (cred_tokens _)|].
  destruct (url_password u) as [[|]|]; auto; done.
Qed.

Lemma validate_await_ok a :
  validate_await a = Ok () ->
  single_statement (step_sql (check a)) /\ 100 <= poll_interval_ms a <= await_timeout_ms a.
Proof.
  unfold validate_await. intros E. next_ok E E1. next_ok E E2. next_ok E E3. next_ok E E4.
  next_ok E E5. next_ok E E6. apply reject_if_ok in E, E5. bool_hyps.
  split; [by apply validate_statement_ok|lia].
Qed.

(** The guarantees, one group of checks after the other. *)
Lemma validate_safe c :
  validate url_scheme url_error cred_tokens debug_strings c = Ok () -> safe_config c.
Proof.
  unfold validate. intros E. apply rbind_ok in E as (u & Eu & E).
  next_ok E E1. next_ok E E2. next_ok E E3. next_ok E E4. next_ok E E5. next_ok E E6.
  next_ok E E7. next_ok E E8. next_ok E E9. next_ok E E10. next_ok E E11. next_ok E E12. next_ok E E13.
  unfold ok_or in Eu. destruct (url_parse (url c)) as [u'|] eqn:Ep; [|done]. injection Eu as ->.
  split.
  - exists u. split; [done|]. by apply validate_scheme_ok.
  - unfold validate_pool in E3. next_ok E3 E3'. apply reject_if_ok in E3, E3'. bool_hyps. lia.
  - destruct (body (query c)); [by apply validate_statement_ok| |done].
    by apply reject_if_ok, negb_false_iff, identifier_iff in E13.
  - intros k. by apply validate_vars_ok.
  - intros k. by apply validate_cache_ok.
  - intros Hr. unfold validate_result_sets in E5. rewrite Hr in E5. next_ok E5 E5'.
    apply reject_if_ok, negb_false_iff in E5'. split; [done|]. destruct (driver c); auto; done.
  - by apply validate_stream_ok.
  - intros a Ha. destruct (validate_auth_ok c u a E2 Ha) as (? & ? & ?). repeat split; try done.
    rewrite Ep. by intros u' [= <-].
  - intros a Ha. rewrite Ha in E9. by apply validate_await_ok.
  - intros l Hl Hd. unfold validate_isolation in E. rewrite Hl, Hd in E. by destruct l.
Qed.

(** C3.  A configuration that validates has the guarantees the rest of the
    plugin relies on: a URL of the driver's scheme; a usable pool; a body that
    has at most one semicolon outside quotes and only white space after it, and
    does not lead, after white space and comments, with [GRANT], [REVOKE] or the
    creation, change or removal of a user, role, database or group, or that is a
    safe procedure name (quotes are read without regard to comments, so a comment
    with an apostrophe can still hide a second statement; what follows other
    leading words is not looked at); session variable names that can be inlined
    in [SET] (plain names on MySQL, none on SQLite); caching only for read shapes
    that are not procedures; result sets only for MySQL procedures; a stream
    block exactly for stream mode, with every keyset placeholder in the SQL; one
    credential surface; bounded polling. *)
Theorem validated_config_safe c :
  validate url_scheme url_error cred_tokens debug_strings c = Ok () -> safe_config c.
Proof. apply validate_safe. Qed.
End Safe.

Module ConfigDemo.
Import ToyUrl ToyCel.

Definition demo : SqlBackendConfig := {|
  driver := Mysql;
  url := "u:secret";
  pool := default_pool;
  allow_private_backends := false;
  query := {| body := Sql "SELECT id FROM t WHERE tenant = :tenant;"; params := ["tenant"];
              param_exprs := []; row_mode := Many; max_rows := 1000; timeout_ms := None;
              read_only := true; progress_heartbeat_ms := Some 50; stream := None |};
  session_vars := [("tenant_id", "acme")];
  circuit_breaker := Some Breaker.default_config;
  list_query := None;
  await_ := Some {| trigger := None;
                    check := {| step_sql := "SELECT 1"; step_params := [] |};
                    predicate := "true"; poll_interval_ms := 100; await_timeout_ms := 100 |};
  isolation_level := Some ReadCommitted;
  cache := Some {| enabled := true; ttl_seconds := 60; invalidate_on := Some (Watch "SELECT 1" 1000) |};
  cost := Some ToyCel.spec;
  auth := None;
|}%string.

Lemma validated_config_safe_witness :
  safe_config (Url := ToyUrl.t) (fun _ => "mysql"%string) (fun _ => []) demo.
Proof.
  apply (validated_config_safe (Url := ToyUrl.t) (fun _ => "mysql"%string) (fun _ => EmptyString)
           (fun _ => []) (fun _ => EmptyString)).
  by vm_compute.
Defined.

(** A dot in a MySQL variable name, a stacked statement and a second
    credential surface are refused. *)
Example refused_examples :
  let check c := is_ok (validate (Url := ToyUrl.t) (fun _ => "mysql"%string) (fun _ => EmptyString)
                          (fun _ => []) (fun _ => EmptyString) c) in
  let with_query b := {| body := b; params := []; param_exprs := []; row_mode := Many;
                         max_rows := 1; timeout_ms := None; read_only := false;
                         progress_heartbeat_ms := None; stream := None |} in
  let base q vars := {| driver := Mysql; url := "u:"; pool := default_pool;
                        allow_private_backends := false; query := with_query q;
                        session_vars := vars; circuit_breaker := None; list_query := None;
                        await_ := None; isolation_level := None; cache := None; cost := None;
                        auth := None |} in
  map check [base (Sql "SELECT 1") []; base (Sql "SELECT 1") [("app.tenant", "x")];
             base (Sql "SELECT 1; DROP TABLE t") []; base (Procedure "p(); --") []]%string
  = [true; false; false; false].
Proof. by vm_compute. Qed.

End ConfigDemo.
