(* ===== verification/WatchChanges.v ===== *)
(** The [sql_changes] watcher, [src/src/watch_changes.rs].

    The database is a function from the page number and the bound arguments to
    the outcome of the keyset query; clocks and the cancellation token are read
    per page.  chrono, blake3 and serde_json's printers are parameters. *)

From Stdlib Require Import ZArith Lia Bool Ascii String SpecFloat.
From stdpp Require Import base list strings.
From S2P Require Import Prelude RustStd Serde Redact Text Errors Breaker Json Params F64 Stream SqlText Cost Config.

Module WatchChanges.

Definition LIMIT_PLACEHOLDER : string := "_limit".
Definition SETTLE_PLACEHOLDER : string := "_settle_before".
Definition AFTER_PREFIX : string := "_after_".
Definition CURSOR_VERSION : Z := 1.
Definition MIN_INTERVAL_MS : Z := 100.
Definition MAX_BATCH_SIZE : Z := 500.
Definition MAX_ROWS_PER_TICK : nat := 500.
Definition MAX_EVENT_BYTES : Z := 256 * 1024.
Definition DEFAULT_TIMEOUT_MS : Z := 30000.
Definition EVENT_TYPE : string := "sql.row.changed".

Inductive ChangesStart : Type := Latest | Beginning.

Inductive ChangeOp : Type := OpInsert | OpUpdate | OpDelete.

Definition op_str (op : ChangeOp) : string :=
  match op with OpInsert => "insert" | OpUpdate => "update" | OpDelete => "delete" end.

(** [ChangeOp::of]. *)
Definition op_of (v : value) : option ChangeOp :=
  match as_str v with
  | None => None
  | Some s =>
      let s := str_lower s in
      if String.eqb s "insert" then Some OpInsert
      else if String.eqb s "update" then Some OpUpdate
      else if String.eqb s "delete" then Some OpDelete
      else None
  end.

Record SqlChangesWatchSpec : Type := {
  connection : SqlBackendConfig;
  spec_key_columns : list string;
  spec_initial : json_map;
  spec_start : ChangesStart;
  latest_sql : option string;
  spec_batch_size : Z;
  interval_ms : Z;
  spec_occurred_at_column : option string;
  spec_op_column : option string;
  settle_ms : option Z;
}.

Record Cursor : Type := { v : Z; k : list value }.

(** The derived [Serialize] and [Deserialize] of a cursor. *)
Definition cursor_codec : codec Cursor := {|
  ser := fun c => VObject (object [("v", ser (uint 64) (v c)); ("k", ser (vec json) (k c))]%string);
  de := fun x =>
    m ← entries false ["v"; "k"]%string x;
    a ← required (uint 64) "v" m;
    b ← required (vec json) "k" m;
    Some {| v := a; k := b |} |}.

(** A cursor of this version is read back from what it is written as. *)
Lemma cursor_back key : de cursor_codec (ser cursor_codec {| v := CURSOR_VERSION; k := key |}) = Some {| v := CURSOR_VERSION; k := key |}.
Proof.
  cbn [ser de cursor_codec]. read_struct.
Qed.

(** Durations in milliseconds. *)
Record Plan : Type := {
  stmt : PreparedStmt;
  latest : option PreparedStmt;
  key_columns : list string;
  initial : list value;
  start : ChangesStart;
  batch_size : Z;
  interval : Z;
  timeout : Z;
  occurred_at_column : option string;
  op_column : option string;
  settle : option Z;
}.

Definition is_column_name (s : string) : bool :=
  negb (str_is_empty s) && str_forall (fun c => is_ascii_alnum c || Ascii.eqb c "_") s.

Definition invalid {A} (m : string) : result SqlError A := Err (InvalidSpec ("sql_changes: " +:+ m)).

Definition refuse_if (b : bool) (m : string) : result SqlError () := if b then invalid m else Ok ().

Definition is_null (v : value) : bool := match v with VNull => true | _ => false end.

(** The initial key, one non-null value per key column. *)
Fixpoint initial_key (init : json_map) (cols : list string) : result SqlError (list value) :=
  match cols with
  | [] => Ok []
  | column :: cols' =>
      match obj_get column init with
      | Some value =>
          if negb (is_null value) then
            let? rest := initial_key init cols' in Ok (value :: rest)
          else invalid ("initial must give a value for key column `" +:+ column +:+ "`")
      | None => invalid ("initial must give a value for key column `" +:+ column +:+ "`")
      end
  end.

Definition memb (l : list string) (s : string) : bool := existsb (String.eqb s) l.

Definition check_column_opt (field : string) (column : option string) : result SqlError () :=
  match column with
  | Some c => refuse_if (negb (is_column_name c))
                (field +:+ ": `" +:+ c +:+ "` is not a column name of [A-Za-z0-9_]")
  | None => Ok ()
  end.

(** The placeholders the query may and must bind. *)
Definition allowed_placeholders (s : SqlChangesWatchSpec) : list string :=
  map (fun c => AFTER_PREFIX +:+ c) (spec_key_columns s) ++ [LIMIT_PLACEHOLDER] ++
  match settle_ms s with Some _ => [SETTLE_PLACEHOLDER] | None => [] end.

Definition check_placeholders (s : SqlChangesWatchSpec) (order : list string) : result SqlError () :=
  let allowed := allowed_placeholders s in
  let? _ := match List.find (fun name => negb (memb allowed name)) order with
            | Some unknown =>
                invalid ("query.sql binds `:" +:+ unknown +:+ "`; it may bind only " +:+
                         join ", " (map (fun n => ":" +:+ n) allowed))
            | None => Ok ()
            end in
  match List.find (fun name => negb (memb order name)) allowed with
  | Some missing =>
      invalid ("query.sql must bind `:" +:+ missing +:+ "`: the rows after the last key, at most :" +:+
               LIMIT_PLACEHOLDER +:+ " of them" +:+
               match settle_ms s with Some _ => ", older than :_settle_before" | None => EmptyString end)
  | None => Ok ()
  end.

Definition compile_latest (s : SqlChangesWatchSpec) : result SqlError (option PreparedStmt) :=
  match spec_start s, latest_sql s with
  | Latest, None =>
      invalid "start: latest needs latest_sql, a query giving the newest key; or set start: beginning"
  | _, Some sql =>
      let? _ := validate_statement sql in
      let '(rewritten, order) := rewrite_placeholders sql (driver (connection s)) in
      match order with
      | name :: _ => invalid ("latest_sql binds `:" +:+ name +:+ "`; it takes no placeholders")
      | [] => Ok (Some {| stmt_sql := rewritten; param_order := [];
                          stmt_driver := driver (connection s) |})
      end
  | Beginning, None => Ok None
  end.

Section Compile.
Context {Url : Type} `{UrlOps Url} `{Cel}
        (url_scheme : Url -> string) (url_error : string -> string)
        (cred_tokens : string -> list string) (debug_strings : list string -> string).

(** [SqlChangesWatchSpec::compile]. *)
Definition compile (s : SqlChangesWatchSpec) : result SqlError Plan :=
  let? _ := validate url_scheme url_error cred_tokens debug_strings (connection s) in
  let q := query (connection s) in
  let? _ := refuse_if (match row_mode q with Many => false | _ => true end)
              "query.row_mode must be `many`" in
  let? sql := match body q with
              | Sql sql => Ok sql
              | _ => invalid "query needs `sql`: a keyset SELECT, not a procedure or file"
              end in
  let? _ := refuse_if (match spec_key_columns s with [] => true | _ => false end)
              "key_columns must name at least one column" in
  let? _ := check_all (fun column =>
              refuse_if (negb (is_column_name column))
                ("key_columns: `" +:+ column +:+ "` is not a column name of [A-Za-z0-9_]"))
              (spec_key_columns s) in
  let? init := initial_key (spec_initial s) (spec_key_columns s) in
  let? _ := match List.find (fun k => negb (memb (spec_key_columns s) k)) (map fst (spec_initial s)) with
            | Some extra => invalid ("initial: `" +:+ extra +:+ "` is not a key column")
            | None => Ok ()
            end in
  let? _ := refuse_if (negb ((1 <=? spec_batch_size s) && (spec_batch_size s <=? MAX_BATCH_SIZE)))
              ("batch_size must be 1 to 500, not " +:+ show_u (spec_batch_size s)) in
  let? _ := refuse_if (interval_ms s <? MIN_INTERVAL_MS) "interval_ms must be at least 100" in
  let? _ := check_column_opt "occurred_at_column" (spec_occurred_at_column s) in
  let? _ := check_column_opt "op_column" (spec_op_column s) in
  let? _ := refuse_if (match settle_ms s with Some ms => ms =? 0 | None => false end)
              "settle_ms must be greater than 0" in
  let? _ := validate_statement sql in
  let '(rewritten, order) := rewrite_placeholders sql (driver (connection s)) in
  let? _ := check_placeholders s order in
  let? latest := compile_latest s in
  Ok {| stmt := {| stmt_sql := rewritten; param_order := order; stmt_driver := driver (connection s) |};
        latest := latest; key_columns := spec_key_columns s; initial := init; start := spec_start s;
        batch_size := spec_batch_size s; interval := interval_ms s;
        timeout := match timeout_ms q with Some t => t | None => DEFAULT_TIMEOUT_MS end;
        occurred_at_column := spec_occurred_at_column s; op_column := spec_op_column s;
        settle := settle_ms s |}.
End Compile.

(** * Pages and events *)

(** [iter().position(|c| c == column)]. *)
Fixpoint position (column : string) (cols : list string) : option nat :=
  match cols with
  | [] => None
  | c :: cols' => if String.eqb c column then Some O
                  else match position column cols' with Some i => Some (S i) | None => None end
  end.

(** The value of one placeholder; [key[index]] panics out of range, which a
    compiled plan and a key of the right length exclude. *)
Definition page_arg (plan : Plan) (key : list value) (now_secs : Z) (name : string) : value :=
  if String.eqb name LIMIT_PLACEHOLDER then json_i64 (batch_size plan)
  else if String.eqb name SETTLE_PLACEHOLDER then
    let secs := match settle plan with Some ms => ms / 1000 | None => 0 end in
    json_i64 (now_secs - secs)
  else
    let column := str_skip (String.length AFTER_PREFIX) name in
    let index := match position column (key_columns plan) with Some i => i | None => O end in
    match key !! index with Some v => v | None => VNull end.

Definition page_args (plan : Plan) (key : list value) (now_secs : Z) : list BoundParam :=
  map (fun name => {| bp_name := name; bp_value := page_arg plan key now_secs name |})
    (param_order (stmt plan)).

(** [Value::get] with a string index. *)
Definition value_get (row : value) (column : string) : option value :=
  match row with VObject m => obj_get column m | _ => None end.

Fixpoint key_of (cols : list string) (row : value) : option (list value) :=
  match cols with
  | [] => Some []
  | column :: cols' =>
      match value_get row column with
      | Some v => if is_null v then None
                  else match key_of cols' row with Some vs => Some (v :: vs) | None => None end
      | None => None
      end
  end.

Definition row_key (plan : Plan) (row : value) : option (list value) := key_of (key_columns plan) row.

Record WatchEvent : Type := {
  event_id : option string;
  event_type : option string;
  event_occurred_at : option string;
  data : option value;
  upstream_cursor : option value;
  event_gap : bool;
  event_user_id : option string;
  event_session_id : option string;
}.

(** [WatchEvent::default()]. *)
Definition default_event : WatchEvent :=
  {| event_id := None; event_type := None; event_occurred_at := None; data := None;
     upstream_cursor := None; event_gap := false; event_user_id := None; event_session_id := None |}.

(** The host's errors of a watch that the watchers return. *)
Inductive WatchError : Type := WatchInvalidSpec (message : string) | WatchSubscribe (message : string).

Section Events.
Context (hash_hex : list byte -> string)          (* blake3, in hex *)
        (to_json : list value -> string)          (* serde_json::to_string *)
        (occurred_at : value -> option string)    (* chrono parsing and printing *)
        (serde_error : value -> string)           (* what a refused value is told *)
        (event_size : WatchEvent -> option Z)     (* serde_json::to_vec *)
        (debug_strings : list string -> string).

Fixpoint str_take (n : nat) (s : string) : string :=
  match n, s with
  | S n', String c s' => String c (str_take n' s')
  | _, _ => EmptyString
  end.

Definition row_event (plan : Plan) (uri : string) (row : value) (key : list value)
  : option WatchEvent :=
  let op :=
    match op_column plan with
    | Some column => match value_get row column with Some v => op_of v | None => None end
    | None => Some OpInsert
    end in
  match op with
  | None => None
  | Some op =>
      let digest := hash_hex (str_bytes uri ++ Byte.x00 :: str_bytes (to_json key)) in
      Some {| event_id := Some ("row-" +:+ str_take 32 digest);
              event_type := Some EVENT_TYPE;
              event_occurred_at :=
                match occurred_at_column plan with
                | Some column => match value_get row column with Some v => occurred_at v | None => None end
                | None => None
                end;
              data := Some (VObject [("op", VString (op_str op)); ("row", row)]);
              upstream_cursor := Some (ser cursor_codec {| v := CURSOR_VERSION; k := key |});
              event_gap := false; event_user_id := None; event_session_id := None |}%string
  end.

Definition resume_key (plan : Plan) (resume : value) : result WatchError (list value) :=
  let? cursor := rmap_err (fun e => WatchInvalidSpec
      ("sql_changes: the stored position is not one this plugin wrote: " +:+ e))
      (ok_or (de cursor_codec resume) (serde_error resume)) in
  if negb (v cursor =? CURSOR_VERSION) || negb (Nat.eqb (length (k cursor)) (length (key_columns plan)))
  then Err (WatchInvalidSpec ("sql_changes: the stored position has " +:+ show_u (Z.of_nat (length (k cursor))) +:+
         " key values for " +:+ show_u (Z.of_nat (length (key_columns plan))) +:+
         " key columns; the key changed, so the source starts over under a new event type"))
  else Ok (k cursor).

(** The event a row contributes: none when its op is unknown or it is larger
    than an event can be. *)
Definition emitted_event (plan : Plan) (uri : string) (row : value) (key : list value)
  : option WatchEvent :=
  match row_event plan uri row key with
  | None => None
  | Some e =>
      match event_size e with
      | Some size => if MAX_EVENT_BYTES <? size then None else Some e
      | None => None
      end
  end.

(** Where a poll is: the key, how many events it emitted, and the sink. *)
Record progress : Type := mkProgress { at_key : list value; emitted : nat; sink : list WatchEvent }.

(** [for row in batch.rows.into_iter().take(batch_size) { .. }]. *)
Fixpoint emit_rows (plan : Plan) (uri : string) (rs : list value) (p : progress)
  : result SqlError () * progress :=
  match rs with
  | [] => (Ok (), p)
  | row :: rs' =>
      match row_key plan row with
      | None =>
          (Err (InvalidSpec ("sql_changes: a row has no value for a key column of " +:+
                  debug_strings (key_columns plan) +:+ "; select every key column, never null")), p)
      | Some next =>
          let p := match emitted_event plan uri row next with
                   | None => p
                   | Some e => mkProgress (at_key p) (S (emitted p)) (sink p ++ [e])
                   end in
          emit_rows plan uri rs' (mkProgress next (emitted p) (sink p))
      end
  end.

(** The loop of [poll], page [n] first; out of fuel is [None]. *)
Fixpoint poll_pages (fuel : nat) (n : nat) (plan : Plan) (uri : string)
  (exec : nat -> list BoundParam -> result SqlError (list value))
  (now : nat -> Z) (cancelled : nat -> bool) (p : progress)
  : option (result SqlError () * progress) :=
  match fuel with
  | O => None
  | S fuel' =>
      if cancelled (2 * n)%nat then Some (Ok (), p)
      else
        match exec n (page_args plan (at_key p) (now n)) with
        | Err e => Some (Err e, p)
        | Ok rs =>
            let full := batch_size plan <=? Z.of_nat (length rs) in
            match emit_rows plan uri (take (Z.to_nat (batch_size plan)) rs) p with
            | (Err e, p') => Some (Err e, p')
            | (Ok (), p') =>
                if negb full || (MAX_ROWS_PER_TICK <=? emitted p')%nat || cancelled (2 * n + 1)%nat
                then Some (Ok (), p')
                else poll_pages fuel' (S n) plan uri exec now cancelled p'
            end
        end
  end.

Definition poll (fuel : nat) (plan : Plan) (uri : string)
  (exec : nat -> list BoundParam -> result SqlError (list value))
  (now : nat -> Z) (cancelled : nat -> bool) (key : list value) (out : list WatchEvent)
  : option (result SqlError () * progress) :=
  poll_pages fuel 0 plan uri exec now cancelled (mkProgress key 0 out).

(** [start_key]; [None] when cancelled. *)
Definition start_key (plan : Plan) (exec_latest : PreparedStmt -> result SqlError (list value))
  (cancelled : bool) : result SqlError (option (list value)) :=
  match latest plan, start plan with
  | Some l, Latest =>
      if cancelled then Ok None
      else
        let? rs := exec_latest l in
        Ok (Some (match rs with
                  | row :: _ => match row_key plan row with Some key => key | None => initial plan end
                  | [] => initial plan
                  end))
  | _, _ => Ok (Some (initial plan))
  end.
End Events.

(** [Backoff]: the delay in seconds, and the next count of attempts. *)
Definition MAX_BACKOFF : Z := 60.
Definition backoff_delay (attempts : Z) : Z := Z.min (Z.shiftl 1 (Z.min attempts 6)) MAX_BACKOFF.
Definition backoff_next (attempts : Z) : Z := Z.min (attempts + 1) u32_max.

(** * The loop

    [run] waits at each [select!] and each sleep; these are its phases.  The
    environment's answers are its inputs: cancellation, the outcome of a
    connection attempt, the end of a backoff, the rows of the start query, and
    a tick with what the database, the clock and the token answer during the
    poll.  An input that the phase does not wait for changes nothing. *)

Inductive phase : Type :=
| Connecting
| ConnectWait (delay : Z)
| Starting
| StartWait (delay : Z)
| Polling (key : list value)
| Stopped.

Inductive input : Type :=
| Cancelled
| Attempt (r : result SqlError ())
| Waited
| StartRows (r : result SqlError (list value))
| Tick (exec : nat -> list BoundParam -> result SqlError (list value))
       (now : nat -> Z) (cancelled : nat -> bool).

Record watcher : Type := mkWatcher { at_phase : phase; attempts : Z; sent : list WatchEvent }.

Section Run.
Context (hash_hex : list byte -> string) (to_json : list value -> string)
        (occurred_at : value -> option string)
        (event_size : WatchEvent -> option Z) (debug_strings : list string -> string).
Context (plan : Plan) (uri : string) (resume : option (list value)).

(** [start_key] on the answer of its query. *)
Definition started (w : watcher) (r : result SqlError (list value)) (cancelled : bool) : watcher :=
  match start_key plan (fun _ => r) cancelled with
  | Ok (Some key) => mkWatcher (Polling key) (attempts w) (sent w)
  | Ok None => mkWatcher Stopped (attempts w) (sent w)
  | Err _ => mkWatcher (StartWait (backoff_delay (attempts w))) (backoff_next (attempts w)) (sent w)
  end.

(** One input; out of fuel is [None]. *)
Definition run_step (fuel : nat) (w : watcher) (i : input) : option watcher :=
  match at_phase w, i with
  | Connecting, Cancelled | ConnectWait _, Cancelled | StartWait _, Cancelled | Polling _, Cancelled =>
      Some (mkWatcher Stopped (attempts w) (sent w))
  | Connecting, Attempt (Ok ()) =>
      Some (mkWatcher (match resume with Some key => Polling key | None => Starting end) 0 (sent w))
  | Connecting, Attempt (Err _) =>
      Some (mkWatcher (ConnectWait (backoff_delay (attempts w))) (backoff_next (attempts w)) (sent w))
  | ConnectWait _, Waited => Some (mkWatcher Connecting (attempts w) (sent w))
  | Starting, Cancelled => Some (started w (Ok []) true)
  | Starting, StartRows r => Some (started w r false)
  | StartWait _, Waited => Some (mkWatcher Starting (attempts w) (sent w))
  | Polling key, Tick exec now cancelled =>
      match poll hash_hex to_json occurred_at event_size debug_strings
              fuel plan uri exec now cancelled key (sent w) with
      | None => None
      | Some (r, p) =>
          Some (mkWatcher (Polling (at_key p)) (if is_ok r then 0 else attempts w) (sink p))
      end
  | _, _ => Some w
  end.

Fixpoint run (fuel : nat) (w : watcher) (inputs : list input) : option watcher :=
  match inputs with
  | [] => Some w
  | i :: inputs' => match run_step fuel w i with Some w' => run fuel w' inputs' | None => None end
  end.
End Run.

(** * What a compiled watch binds *)

Lemma refuse_if_ok b m : refuse_if b m = Ok () -> b = false.
Proof. by destruct b. Qed.

Lemma find_none_in order l :
  List.find (fun name => negb (memb order name)) l = None -> Forall (fun name => name ∈ order) l.
Proof.
  intros Hf. apply Forall_forall. intros x Hx. apply list_elem_of_In in Hx.
  pose proof (List.find_none _ _ Hf x Hx) as E. apply negb_false_iff, existsb_exists in E as (y & Hy & E).
  apply String.eqb_eq in E as <-. by apply list_elem_of_In.
Qed.

(** The query binds the limit and every key column, and the page size is in
    range. *)
Record plan_ok (plan : Plan) : Prop := {
  plan_limit : LIMIT_PLACEHOLDER ∈ param_order (stmt plan);
  plan_after : Forall (fun c => AFTER_PREFIX +:+ c ∈ param_order (stmt plan)) (key_columns plan);
  plan_bound : Forall (fun n => n = LIMIT_PLACEHOLDER \/ n = SETTLE_PLACEHOLDER /\ settle plan <> None \/
                                exists c, n = AFTER_PREFIX +:+ c /\ c ∈ key_columns plan)
                 (param_order (stmt plan));
  plan_batch : 1 <= batch_size plan <= MAX_BATCH_SIZE;
  plan_columns : key_columns plan <> [];
  plan_initial : length (initial plan) = length (key_columns plan);
  plan_settle : settle plan <> Some 0;
  plan_start : start plan = Latest -> latest plan <> None;
}.

Lemma initial_key_length init cols ks : initial_key init cols = Ok ks -> length ks = length cols.
Proof.
  revert ks. induction cols as [|c cols IH]; intros ks; simpl; [by intros [= <-]|].
  destruct (obj_get c init) as [x|]; [|done]. destruct (negb (is_null x)); [|done].
  intros E. apply rbind_ok in E as (rest & E1 & [= <-]). simpl. f_equal. by apply IH.
Qed.

Lemma check_placeholders_ok s order :
  check_placeholders s order = Ok () ->
  Forall (fun n => n ∈ order) (allowed_placeholders s) /\
  Forall (fun n => n ∈ allowed_placeholders s) order.
Proof.
  unfold check_placeholders. intros E. next_ok E E1.
  destruct (List.find _ order) eqn:F1; [done|].
  destruct (List.find _ (allowed_placeholders s)) eqn:F2; [done|].
  split; by apply find_none_in.
Qed.

Lemma allowed_elim s n :
  n ∈ allowed_placeholders s ->
  n = LIMIT_PLACEHOLDER \/ n = SETTLE_PLACEHOLDER /\ settle_ms s <> None \/
  exists c, n = AFTER_PREFIX +:+ c /\ c ∈ spec_key_columns s.
Proof.
  unfold allowed_placeholders. rewrite !elem_of_app, list_elem_of_fmap, list_elem_of_singleton.
  intros [(c & -> & Hc)|[->|Hn]]; eauto.
  destruct (settle_ms s); [|by apply elem_of_nil in Hn].
  apply list_elem_of_singleton in Hn. auto.
Qed.

Lemma compile_latest_ok s l :
  compile_latest s = Ok l -> spec_start s = Latest -> l <> None.
Proof.
  unfold compile_latest. intros E Hs. rewrite Hs in E. destruct (latest_sql s) as [sql|]; [|done].
  next_ok E E1. destruct (rewrite_placeholders _ _) as [? [|]]; [|done]. by injection E as <-.
Qed.

Section CompileOk.
Context {Url : Type} `{UrlOps Url} `{Cel}
        (url_scheme : Url -> string) (url_error : string -> string)
        (cred_tokens : string -> list string) (debug_strings : list string -> string).

Lemma compile_plan_ok s plan :
  compile url_scheme url_error cred_tokens debug_strings s = Ok plan -> plan_ok plan.
Proof.
  unfold compile. intros E.
  next_ok E Ev. next_ok E Em. apply rbind_ok in E as (sql & Eb & E). next_ok E Ek. next_ok E Ec.
  apply rbind_ok in E as (init & Ei & E). next_ok E Ex. next_ok E Es. next_ok E En. next_ok E Eo. next_ok E Ep.
  next_ok E Et. next_ok E Est. destruct (rewrite_placeholders sql _) as [rewritten order].
  next_ok E Epl. apply rbind_ok in E as (l & El & [= <-]).
  apply check_placeholders_ok in Epl as [Hmust Hmay]. apply refuse_if_ok in Ek, Es, Et.
  unfold allowed_placeholders in Hmust. rewrite !Forall_app in Hmust. destruct Hmust as (Ha & Hl & _).
  split; simpl.
  - apply Forall_cons in Hl. by destruct Hl.
  - by apply Forall_fmap in Ha.
  - eapply Forall_impl; [exact Hmay|]. intros n Hn. by apply allowed_elim in Hn.
  - bool_hyps. unfold MAX_BATCH_SIZE in *. lia.
  - by destruct (spec_key_columns s).
  - by eapply initial_key_length.
  - intros Hz. rewrite Hz in Et. done.
  - intros Hs. by eapply compile_latest_ok.
Qed.
End CompileOk.

(** * The keyset query

    The query an operator writes for the watch: of the rows visible when it
    runs, the first [:_limit] whose key comes after [:_after_*] in the order
    [klt], read from the bound arguments alone. *)

Definition arg (name : string) (args : list BoundParam) : option value :=
  match List.find (fun p => String.eqb (bp_name p) name) args with
  | Some p => Some (bp_value p)
  | None => None
  end.

Definition limit_arg (args : list BoundParam) : nat :=
  match arg LIMIT_PLACEHOLDER args with Some (VNumber (PosInt n)) => Z.to_nat n | _ => O end.

Definition after_args (cols : list string) (args : list BoundParam) : option (list value) :=
  mapM (fun c => arg (AFTER_PREFIX +:+ c) args) cols.

Definition keyset_page (plan : Plan) (klt : list value -> list value -> bool)
  (visible : list value) (args : list BoundParam) : list value :=
  match after_args (key_columns plan) args with
  | None => []
  | Some after =>
      take (limit_arg args)
        (List.filter (fun row => match row_key plan row with Some k => klt after k | None => false end)
           visible)
  end.

(** The database during a poll: at query [n] the first [avail n] rows of the
    log are visible, or the query fails. *)
Definition keyset_exec (plan : Plan) (klt : list value -> list value -> bool) (log : list value)
  (avail : nat -> nat) (fault : nat -> option SqlError) (n : nat) (args : list BoundParam)
  : result SqlError (list value) :=
  match fault n with
  | Some e => Err e
  | None => Ok (keyset_page plan klt (take (avail n) log) args)
  end.

Lemma arg_page_args plan key now n :
  n ∈ param_order (stmt plan) -> arg n (page_args plan key now) = Some (page_arg plan key now n).
Proof.
  unfold page_args, arg. induction (param_order (stmt plan)) as [|m l IH]; [by intros ?%elem_of_nil|].
  intros Hn. simpl. destruct (String.eqb_spec m n) as [->|Hne]; [done|].
  apply IH. apply elem_of_cons in Hn as [->|]; done.
Qed.

Lemma limit_page_args plan key now :
  plan_ok plan -> limit_arg (page_args plan key now) = Z.to_nat (batch_size plan).
Proof.
  intros P. unfold limit_arg. rewrite (arg_page_args _ _ _ _ (plan_limit _ P)).
  unfold page_arg. rewrite String.eqb_refl. unfold json_i64.
  pose proof (plan_batch _ P). by destruct (Z.ltb_spec (batch_size plan) 0); [lia|].
Qed.

Lemma position_NoDup cols i c : NoDup cols -> cols !! i = Some c -> position c cols = Some i.
Proof.
  revert i. induction cols as [|d cols IH]; intros i Hn Hi; [done|].
  apply NoDup_cons in Hn as [Hd Hn]. destruct i as [|i]; simpl in *.
  - injection Hi as <-. by rewrite String.eqb_refl.
  - destruct (String.eqb_spec d c) as [->|_].
    + destruct Hd. by apply list_elem_of_lookup_2 in Hi.
    + by rewrite (IH i Hn Hi).
Qed.

Lemma page_arg_after plan key now i c :
  NoDup (key_columns plan) -> key_columns plan !! i = Some c ->
  page_arg plan key now (AFTER_PREFIX +:+ c) = match key !! i with Some v => v | None => VNull end.
Proof.
  intros Hn Hi. unfold page_arg.
  change (String.eqb (AFTER_PREFIX +:+ c) LIMIT_PLACEHOLDER) with false.
  change (String.eqb (AFTER_PREFIX +:+ c) SETTLE_PLACEHOLDER) with false.
  change (str_skip (String.length AFTER_PREFIX) (AFTER_PREFIX +:+ c)) with c.
  cbn beta iota zeta. by rewrite (position_NoDup _ i _ Hn Hi).
Qed.

(** The whole key reaches the query. *)
Lemma after_page_args plan key now :
  plan_ok plan -> NoDup (key_columns plan) -> length key = length (key_columns plan) ->
  after_args (key_columns plan) (page_args plan key now) = Some key.
Proof.
  intros P Hn Hl. unfold after_args. apply mapM_Some. apply Forall2_same_length_lookup_2; [done|].
  intros i c v Hc Hv. rewrite arg_page_args.
  - by rewrite (page_arg_after _ _ _ i), Hv.
  - exact (Forall_lookup_1 _ _ _ _ (plan_after _ P) Hc).
Qed.

Lemma key_of_length cols row ks : key_of cols row = Some ks -> length ks = length cols.
Proof.
  revert ks. induction cols as [|c cols IH]; intros ks; simpl; [by intros [= <-]|].
  destruct (value_get row c) as [x|]; [|done]. destruct (is_null x); [done|].
  destruct (key_of cols row) as [ks'|]; [|done]. intros [= <-]. simpl. by rewrite (IH ks').
Qed.

(** Section [Feed]: a log of rows in key order, a key in it is a position. *)
Section Feed.
Context (plan : Plan) (klt : list value -> list value -> bool) (log : list value)
        (keys : list (list value)).

Record feed_log : Prop := {
  feed_columns : NoDup (key_columns plan);
  feed_irrefl : forall k, klt k k = false;
  feed_trans : forall a b c, klt a b = true -> klt b c = true -> klt a c = true;
  feed_keys : Forall2 (fun row k => row_key plan row = Some k) log keys;
  feed_sorted : forall i j a b, keys !! i = Some a -> keys !! j = Some b -> (i < j)%nat -> klt a b = true;
}.

Record feed_ok : Prop := { feed_plan : plan_ok plan; feed_rows :> feed_log }.

(** [key] separates the first [i] rows from the others. *)
Definition at_position (key : list value) (i : nat) : Prop :=
  length key = length (key_columns plan) /\ (i <= length log)%nat /\
  forall j k, keys !! j = Some k -> klt key k = (i <=? j)%nat.

Lemma position_after (F : feed_log) i k : keys !! i = Some k -> at_position k (S i).
Proof.
  intros Hi. pose proof (Forall2_length _ _ _ (feed_keys F)) as Hlen.
  destruct (Forall2_lookup_r _ _ _ _ _ (feed_keys F) Hi) as (row & Hrow & Hk).
  split; [by apply key_of_length in Hk|]. split; [apply lookup_lt_Some in Hi; lia|].
  intros j k' Hj. destruct (lt_eq_lt_dec i j) as [[Hlt| ->]|Hgt].
  - rewrite (feed_sorted F _ _ _ _ Hi Hj Hlt). symmetry. apply Nat.leb_le. lia.
  - simplify_eq. rewrite (feed_irrefl F). symmetry. apply Nat.leb_gt. lia.
  - destruct (klt k k') eqn:E; [|symmetry; apply Nat.leb_gt; lia].
    pose proof (feed_trans F _ _ _ E (feed_sorted F _ _ _ _ Hj Hi Hgt)) as E'.
    by rewrite (feed_irrefl F) in E'.
Qed.

Context (F : feed_ok).

Lemma filter_position key i (rows : list value) (ks : list (list value)) :
  Forall2 (fun row k => row_key plan row = Some k) rows ks ->
  (forall j k, ks !! j = Some k -> klt key k = (i <=? j)%nat) ->
  List.filter (fun row => match row_key plan row with Some k => klt key k | None => false end) rows
  = drop i rows.
Proof.
  intros HF. revert i. induction HF as [|row k rows ks Hrow HF IH]; intros i Hp.
  { by rewrite drop_nil. }
  simpl. rewrite Hrow, (Hp O k eq_refl). destruct i as [|i]; simpl.
  - f_equal. rewrite (IH O); [done|]. intros j k' Hj. by rewrite (Hp (S j) k').
  - apply IH. intros j k' Hj. by rewrite (Hp (S j) k').
Qed.

Lemma keyset_page_position key i av now :
  at_position key i ->
  keyset_page plan klt (take av log) (page_args plan key now)
  = take (Z.to_nat (batch_size plan)) (drop i (take av log)).
Proof.
  intros (Hl & _ & Hp). unfold keyset_page.
  rewrite (after_page_args _ _ _ (feed_plan F) (feed_columns F) Hl), (limit_page_args _ _ _ (feed_plan F)).
  f_equal. eapply filter_position; [by apply Forall2_take, (feed_keys F)|].
  intros j k Hj. apply Hp. by apply lookup_take_Some in Hj as [].
Qed.
End Feed.

(** * Delivery *)

Lemma take_length_self {A} n (l : list A) : take (length (take n l)) l = take n l.
Proof.
  rewrite length_take. destruct (decide (n <= length l)%nat).
  - by rewrite Nat.min_l.
  - by rewrite Nat.min_r, !take_ge by lia.
Qed.

Lemma slice_app {A} i d j (l : list A) :
  (i + d <= j)%nat ->
  take (j - i) (drop i l) = take d (drop i l) ++ take (j - (i + d)) (drop (i + d) l).
Proof.
  intros H. replace (j - i)%nat with (d + (j - (i + d)))%nat by lia.
  rewrite <- take_take_drop. f_equal. by rewrite drop_drop.
Qed.

Section Delivery.
Context (hash_hex : list byte -> string) (to_json : list value -> string)
        (occurred_at : value -> option string)
        (event_size : WatchEvent -> option Z) (debug_strings : list string -> string)
        (plan : Plan) (uri : string).

Definition row_delivery (row : value) : option WatchEvent :=
  match row_key plan row with
  | Some k => emitted_event hash_hex to_json occurred_at event_size plan uri row k
  | None => None
  end.

(** The events of a list of rows, in order: one per row whose op is known and
    which fits into an event. *)
Definition row_events (rs : list value) : list WatchEvent := omap row_delivery rs.

Lemma row_events_app a b : row_events (a ++ b) = row_events a ++ row_events b.
Proof. apply omap_app. Qed.

Lemma row_events_cons r rs :
  row_events (r :: rs) = match row_delivery r with Some e => e :: row_events rs | None => row_events rs end.
Proof. done. Qed.

Lemma row_events_length rs : (length (row_events rs) <= length rs)%nat.
Proof.
  induction rs as [|r rs IH]; [done|]. rewrite row_events_cons.
  destruct (row_delivery r); cbn [length]; lia.
Qed.

Abbreviation emit := (emit_rows hash_hex to_json occurred_at event_size debug_strings plan uri).

Lemma emit_rows_spec rs ks p :
  Forall2 (fun row k => row_key plan row = Some k) rs ks ->
  emit rs p = (Ok (), mkProgress (default (at_key p) (last ks))
                        (emitted p + length (row_events rs)) (sink p ++ row_events rs)).
Proof.
  intros HF. revert p. induction HF as [|row k rs ks Hrow HF IH]; intros p.
  { destruct p; cbn. by rewrite Nat.add_0_r, app_nil_r. }
  cbn [emit_rows]. rewrite Hrow, IH.
  assert (default k (last ks) = default (at_key p) (last (k :: ks))) as Hlast.
  { rewrite last_cons. by destruct (last ks). }
  rewrite row_events_cons. unfold row_delivery at 1 2. rewrite Hrow.
  destruct (emitted_event _ _ _ _ plan uri row k) as [e|]; cbn [at_key emitted sink length].
  - rewrite Hlast, <- app_assoc. do 2 f_equal. lia.
  - by rewrite Hlast.
Qed.

Context (klt : list value -> list value -> bool) (log : list value) (keys : list (list value)).
Context (F : feed_ok plan klt log keys).

Lemma last_of_page i d key :
  (i + d <= length log)%nat -> at_position plan klt log keys key i ->
  at_position plan klt log keys (default key (last (take d (drop i keys)))) (i + d).
Proof.
  intros Hd Hp. pose proof (Forall2_length _ _ _ (feed_keys _ _ _ _ F)) as Hlen.
  destruct d as [|d]; [by rewrite Nat.add_0_r|].
  destruct (lookup_lt_is_Some_2 keys (i + d)) as [k Hk]; [lia|].
  assert (last (take (S d) (drop i keys)) = Some k) as ->.
  { rewrite last_lookup, length_take, length_drop. rewrite Nat.min_l by lia. cbn [pred].
    rewrite lookup_take_lt by lia. by rewrite lookup_drop. }
  cbn. rewrite Nat.add_succ_r. by apply (position_after _ _ _ _ F).
Qed.

Abbreviation pages fuel n exec now canc p :=
  (poll_pages hash_hex to_json occurred_at event_size debug_strings
     fuel n plan uri exec now canc p).

(** The outcome of reading pages from position [i]. *)
Definition delivered_from (avail : nat -> nat) (fault : nat -> option SqlError) (canc : nat -> bool)
  (p : progress) (i : nat) (r : result SqlError ()) (p' : progress) : Prop :=
  exists j, (i <= j)%nat /\ at_position plan klt log keys (at_key p') j /\
    sink p' = sink p ++ row_events (take (j - i) (drop i log)) /\
    emitted p' = (emitted p + length (row_events (take (j - i) (drop i log))))%nat /\
    ((forall m, fault m = None /\ canc m = false /\ length log <= avail m)%nat ->
     r = Ok () /\ (j = length log \/ MAX_ROWS_PER_TICK <= emitted p')%nat).

Lemma delivered_stop avail fault canc p i r :
  at_position plan klt log keys (at_key p) i ->
  (exists m, fault m <> None \/ canc m = true) ->
  delivered_from avail fault canc p i r p.
Proof.
  intros Hp (m & Hm). exists i. rewrite Nat.sub_diag, take_0. cbn.
  rewrite app_nil_r, Nat.add_0_r. repeat split; try done; try apply Hp.
  all: destruct (H m) as (? & ? & ?); destruct Hm; congruence.
Qed.

Lemma page_rows key i av now :
  at_position plan klt log keys key i ->
  let rs := keyset_page plan klt (take av log) (page_args plan key now) in
  rs = take (length rs) (drop i log) /\ (i + length rs <= length log)%nat /\
  (Z.of_nat (length rs) <= batch_size plan) /\
  ((length log <= av)%nat -> Z.of_nat (length rs) < batch_size plan -> (i + length rs)%nat = length log).
Proof.
  intros Hp. cbn zeta. rewrite (keyset_page_position _ _ _ _ F _ _ _ _ Hp).
  rewrite skipn_firstn_comm, take_take, take_length_self.
  pose proof (plan_batch _ (feed_plan _ _ _ _ F)). destruct Hp as (_ & Hi & _).
  rewrite length_take, length_drop. repeat split; lia.
Qed.

Lemma poll_pages_spec fuel n avail fault now canc p i :
  at_position plan klt log keys (at_key p) i -> (length log - i < fuel)%nat ->
  exists r p', pages fuel n (keyset_exec plan klt log avail fault) now canc p = Some (r, p') /\
    delivered_from avail fault canc p i r p'.
Proof.
  revert n p i. induction fuel as [|fuel IH]; intros n p i Hp Hf; [lia|]. cbn [poll_pages].
  destruct (canc (2 * n)%nat) eqn:Ec.
  { do 2 eexists. split; [done|]. apply delivered_stop; eauto. }
  unfold keyset_exec at 1. destruct (fault n) as [e|] eqn:Ef.
  { do 2 eexists. split; [done|]. apply delivered_stop; [done|]. exists n. left. congruence. }
  destruct (page_rows _ _ (avail n) (now n) Hp) as (Hrs & Hlen & Hb & Hend).
  set (rs := keyset_page _ _ _ _) in *. set (d := length rs) in *.
  rewrite (take_ge rs) by lia.
  rewrite (emit_rows_spec rs (take d (drop i keys))); cycle 1.
  { rewrite Hrs. apply Forall2_take, Forall2_drop, (feed_keys _ _ _ _ F). }
  set (p1 := mkProgress _ _ _).
  assert (at_position plan klt log keys (at_key p1) (i + d)) as Hp1 by (apply last_of_page; auto).
  destruct (negb (batch_size plan <=? Z.of_nat d) || _ || _) eqn:Estop.
  - do 2 eexists. split; [done|]. exists (i + d)%nat. split; [lia|]. split; [done|].
    replace (i + d - i)%nat with d by lia. rewrite <- Hrs. split; [done|]. split; [done|].
    intros Hq. split; [done|]. destruct (Hq n) as (_ & _ & Hav).
    apply orb_true_iff in Estop as [Estop|Estop]; [|by destruct (Hq (2 * n + 1)%nat) as (_ & ? & _); congruence].
    apply orb_true_iff in Estop as [Estop|Estop]; [left|right; by apply Nat.leb_le].
    bool_hyps. by apply Hend.
  - bool_hyps. pose proof (plan_batch _ (feed_plan _ _ _ _ F)).
    destruct (IH (S n) p1 (i + d)%nat Hp1) as (r & p' & Hrun & j & Hj & Hpos & Hs & He & Hq); [lia|].
    do 2 eexists. split; [exact Hrun|]. exists j. rewrite (slice_app i d j) by lia.
    rewrite row_events_app, length_app, <- Hrs. cbn [sink emitted p1] in Hs, He.
    split; [lia|]. split; [done|]. split; [by rewrite Hs, app_assoc|]. split; [lia|done].
Qed.

(** ** Whole runs *)

(** The environment follows the keyset contract on every tick. *)
Definition keyset_input (inp : input) : Prop :=
  match inp with
  | Tick exec _ _ => exists avail fault, exec = keyset_exec plan klt log avail fault
  | _ => True
  end.

Definition phase_at (resume : option (list value)) (i : nat) (ph : phase) (j : nat) : Prop :=
  match ph with
  | Polling key => at_position plan klt log keys key j
  | Stopped => True
  | Starting | StartWait _ => j = i /\ resume = None
  | Connecting | ConnectWait _ => j = i
  end.

(** What has been sent when the watcher started at position [i]: the events of
    the rows up to its position, each once and in order. *)
Definition sent_from (resume : option (list value)) (i : nat) (w : watcher) : Prop :=
  exists j, (i <= j <= length log)%nat /\ sent w = row_events (take (j - i) (drop i log)) /\
    phase_at resume i (at_phase w) j.

Abbreviation step := (run_step hash_hex to_json occurred_at event_size debug_strings plan uri).
Abbreviation runs := (run hash_hex to_json occurred_at event_size debug_strings plan uri).

(** The start key: the stored position, or [initial] for a first start from
    the beginning. *)
Definition starts_at (resume : option (list value)) (key0 : list value) : Prop :=
  resume = Some key0 \/ resume = None /\ start plan = Beginning /\ initial plan = key0.

Lemma started_beginning w r c :
  start plan = Beginning -> started plan w r c = mkWatcher (Polling (initial plan)) (attempts w) (sent w).
Proof. intros Hs. unfold started, start_key. rewrite Hs. by destruct (latest plan). Qed.

Lemma tick_sent resume i fuel exec now canc key att out :
  (length log < fuel)%nat -> keyset_input (Tick exec now canc) ->
  sent_from resume i (mkWatcher (Polling key) att out) ->
  exists w', step resume fuel (mkWatcher (Polling key) att out) (Tick exec now canc) = Some w' /\
    sent_from resume i w'.
Proof.
  intros Hf (avail & fault & ->) (j & Hj & Hout & Hpos). unfold run_step, poll. cbn in Hout, Hpos |- *.
  destruct (poll_pages_spec fuel 0 avail fault now canc (mkProgress key 0 out) j Hpos)
    as (r & p' & -> & j' & Hj' & Hpos' & Hs & _); [lia|].
  eexists. split; [reflexivity|]. exists j'. cbn [sent at_phase phase_at].
  destruct Hpos' as (Hl & Hle & Hp). split; [lia|]. split; [|done].
  rewrite Hs. cbn [sink]. rewrite Hout, <- row_events_app.
  rewrite (slice_app i (j - i) j') by lia. by replace (i + (j - i))%nat with j by lia.
Qed.

Lemma run_step_sent resume key0 i fuel w inp :
  (length log < fuel)%nat -> at_position plan klt log keys key0 i -> starts_at resume key0 ->
  keyset_input inp -> sent_from resume i w ->
  exists w', step resume fuel w inp = Some w' /\ sent_from resume i w'.
Proof.
  intros Hf Hk Hst Hin Hw. destruct w as [ph att out].
  assert (forall ph' a j, (i <= j <= length log)%nat -> out = row_events (take (j - i) (drop i log)) ->
          phase_at resume i ph' j -> sent_from resume i (mkWatcher ph' a out)) as Hmk
    by (intros ph' a j ? ? ?; by exists j).
  destruct inp as [|[[]|e]| |r|exec now canc]; destruct ph as [|d| |d|key|];
    try (by eexists; split; [reflexivity|]); try (by apply tick_sent).
  all: destruct Hw as (j & Hj & Hout & Hph); cbn in Hout, Hph.
  all: try (by eexists; split; [reflexivity|]; apply (Hmk _ _ j)).
  - destruct Hph as [-> ->]. destruct Hst as [|(_ & Hs & <-)]; [done|].
    eexists. split; [reflexivity|]. rewrite started_beginning by done. by apply (Hmk _ _ i).
  - subst j. eexists. split; [reflexivity|]. apply (Hmk _ _ i); [done..|].
    by destruct Hst as [->|(-> & _)].
  - destruct Hph as [-> ->]. destruct Hst as [|(_ & Hs & <-)]; [done|].
    eexists. split; [reflexivity|]. rewrite started_beginning by done. by apply (Hmk _ _ i).
Qed.

Lemma step_stopped resume fuel w inp w' :
  step resume fuel w inp = Some w' -> at_phase w' = Stopped -> at_phase w = Stopped \/ inp = Cancelled.
Proof.
  destruct w as [ph att out].
  destruct inp as [|[[]|e]| |r|exec now canc]; [by right|..]; destruct ph as [|d| |d|key|]; auto;
    unfold run_step; cbn; try (by intros [= <-]).
  - intros [= <-]. by destruct resume.
  - intros [= <-]. unfold started, start_key. destruct (latest plan), (start plan); try done.
    by destruct r.
  - destruct (poll _ _ _ _ _ _ _ _ _ _ _ _ _) as [[]|]; [|done]. by intros [= <-].
Qed.

Lemma run_stopped resume fuel w inputs w' :
  runs resume fuel w inputs = Some w' -> at_phase w' = Stopped ->
  at_phase w = Stopped \/ In Cancelled inputs.
Proof.
  revert w. induction inputs as [|inp inputs IH]; intros w; cbn; [intros [= ->]; auto|].
  destruct (step resume fuel w inp) as [w1|] eqn:E; [|done]. intros Hr Hs.
  destruct (IH _ Hr Hs) as [H1|]; [|auto]. destruct (step_stopped _ _ _ _ _ E H1); auto.
Qed.

Lemma run_sent resume key0 i fuel inputs w :
  (length log < fuel)%nat -> at_position plan klt log keys key0 i -> starts_at resume key0 ->
  Forall keyset_input inputs -> sent_from resume i w ->
  exists w', runs resume fuel w inputs = Some w' /\ sent_from resume i w'.
Proof.
  intros Hf Hk Hst HF. revert w. induction HF as [|inp inputs Hin HF IH]; intros w Hw; [by eexists|].
  cbn. destruct (run_step_sent resume key0 i fuel w inp) as (w1 & -> & H1); auto.
Qed.

(** A tick on which every query succeeds and sees the whole log. *)
Definition quiet_tick (inp : input) : Prop :=
  exists avail fault now canc, inp = Tick (keyset_exec plan klt log avail fault) now canc /\
    forall m, (fault m = None /\ canc m = false /\ length log <= avail m)%nat.

Lemma quiet_ticks resume fuel inputs key i att out :
  (length log < fuel)%nat -> at_position plan klt log keys key i -> Forall quiet_tick inputs ->
  exists key' j att', (i <= j)%nat /\
    runs resume fuel (mkWatcher (Polling key) att out) inputs
    = Some (mkWatcher (Polling key') att' (out ++ row_events (take (j - i) (drop i log)))) /\
    at_position plan klt log keys key' j /\
    (Nat.min (length log) (i + MAX_ROWS_PER_TICK * length inputs) <= j)%nat.
Proof.
  intros Hf Hk HF. revert key i att out Hk.
  induction HF as [|inp inputs (avail & fault & now & canc & -> & Hq) HF IH]; intros key i att out Hk.
  { exists key, i, att. rewrite Nat.sub_diag, take_0. cbn. rewrite app_nil_r. split_and!; try done; lia. }
  cbn [run run_step at_phase sent attempts]. unfold poll.
  destruct (poll_pages_spec fuel 0 avail fault now canc (mkProgress key 0 out) i Hk)
    as (r & p' & -> & j & Hj & Hpos & Hs & He & Hend); [lia|].
  destruct (Hend Hq) as [-> Hdone]. cbn [sink emitted] in Hs, He.
  destruct (IH (at_key p') j 0 (sink p') Hpos) as (key' & j' & att' & Hj' & Hrun & Hpos' & Hmin).
  exists key', j', att'. split; [lia|]. cbn [is_ok]. rewrite Hrun. split; [|split; [done|]].
  - rewrite Hs, <- app_assoc, <- row_events_app. do 4 f_equal.
    rewrite (slice_app i (j - i) j') by lia. by replace (i + (j - i))%nat with j by lia.
  - pose proof (row_events_length (take (j - i) (drop i log))) as Hlen.
    rewrite length_take in Hlen. cbn [length]. lia.
Qed.

End Delivery.

(** * Properties *)

Section Properties.
Context (hash_hex : list byte -> string) (to_json : list value -> string)
        (occurred_at : value -> option string) (serde_error : value -> string)
        (event_size : WatchEvent -> option Z) (debug_strings : list string -> string)
        (plan : Plan) (uri : string) (klt : list value -> list value -> bool)
        (log : list value) (keys : list (list value)).
Context {Url : Type} `{UrlOps Url} `{Cel} (url_scheme : Url -> string) (url_error : string -> string)
        (cred_tokens : string -> list string) (spec : SqlChangesWatchSpec).

Abbreviation compiled := (compile url_scheme url_error cred_tokens debug_strings spec).

Abbreviation runs := (run hash_hex to_json occurred_at event_size debug_strings plan uri).
Abbreviation events := (row_events hash_hex to_json occurred_at event_size plan uri).

(** C23.  Whatever the sequence of connection failures, backoffs, ticks, query
    failures, partial visibility and cancellations, a [sql_changes] watch whose
    query follows the keyset contract has sent, in key order and each once, the
    events of exactly the rows from its start position to its current one, and
    it ends only when cancelled. *)
Theorem changes_exactly_once resume key0 i inputs fuel :
  compiled = Ok plan -> feed_log plan klt log keys ->
  at_position plan klt log keys key0 i -> starts_at plan resume key0 ->
  Forall (keyset_input plan klt log) inputs -> (length log < fuel)%nat ->
  exists w j, runs resume fuel (mkWatcher Connecting 0 []) inputs = Some w /\
    (i <= j <= length log)%nat /\ sent w = events (take (j - i) (drop i log)) /\
    (forall key, at_phase w = Polling key -> at_position plan klt log keys key j) /\
    (at_phase w = Stopped -> In Cancelled inputs).
Proof.
  intros Hc Hlog Hk Hst Hin Hf. pose proof (Build_feed_ok _ _ _ _ (compile_plan_ok _ _ _ _ _ _ Hc) Hlog) as F.
  destruct (run_sent hash_hex to_json occurred_at event_size debug_strings plan uri
              klt log keys F resume key0 i fuel inputs (mkWatcher Connecting 0 [])) as (w & Hw & j & Hj & Hs & Hp);
    [done..| |].
  { exists i. destruct Hk as (_ & Hi & _). rewrite Nat.sub_diag, take_0. by split_and!. }
  exists w, j. split_and!; try done; try lia.
  - intros key E. by rewrite E in Hp.
  - intros E. by destruct (run_stopped _ _ _ _ _ _ _ _ _ _ _ _ Hw E).
Qed.

(** C36.  Delivery does not fall behind for good: after enough undisturbed
    ticks, 500 rows each, every row of the log after the position has been
    sent and the position is at its end. *)
Theorem changes_all_delivered resume key i att out inputs fuel :
  compiled = Ok plan -> feed_log plan klt log keys ->
  at_position plan klt log keys key i -> Forall (quiet_tick plan klt log) inputs ->
  (length log < fuel)%nat -> (length log - i <= MAX_ROWS_PER_TICK * length inputs)%nat ->
  exists key' att', runs resume fuel (mkWatcher (Polling key) att out) inputs
    = Some (mkWatcher (Polling key') att' (out ++ events (drop i log))) /\
    at_position plan klt log keys key' (length log).
Proof.
  intros Hc Hlog Hk Hq Hf Hn. pose proof (Build_feed_ok _ _ _ _ (compile_plan_ok _ _ _ _ _ _ Hc) Hlog) as F.
  destruct (quiet_ticks hash_hex to_json occurred_at event_size debug_strings plan uri
              klt log keys F resume fuel inputs key i att out) as (key' & j & att' & Hj & Hr & Hp & Hm); try done.
  assert (j = length log) as -> by (destruct Hp as (_ & ? & _); lia).
  exists key', att'. rewrite take_ge in Hr by (rewrite length_drop; lia). done.
Qed.

(** The cursor of a key of the plan resumes at that key. *)
Lemma resume_key_back key :
  length key = length (key_columns plan) ->
  resume_key serde_error plan (ser cursor_codec {| v := CURSOR_VERSION; k := key |}) = Ok key.
Proof. intros Hl. unfold resume_key. rewrite cursor_back. cbn. by rewrite Hl, Nat.eqb_refl. Qed.

(** The cursor stored with a row's event resumes the watch right after
    that row. *)
Theorem resume_after_event i row e :
  feed_log plan klt log keys ->
  log !! i = Some row ->
  row_delivery hash_hex to_json occurred_at event_size plan uri row = Some e ->
  exists c key, upstream_cursor e = Some c /\ resume_key serde_error plan c = Ok key /\
    row_key plan row = Some key /\ at_position plan klt log keys key (S i).
Proof.
  intros F Hi He. destruct (Forall2_lookup_l _ _ _ _ _ (feed_keys _ _ _ _ F) Hi) as (key & Hkey & Hrow).
  unfold row_delivery, emitted_event in He. rewrite Hrow in He.
  destruct (row_event _ _ _ _ _ _ _) as [e0|] eqn:Er; [|done].
  destruct (event_size e0) as [size|]; [|done]. destruct (MAX_EVENT_BYTES <? size); [done|].
  injection He as ->. unfold row_event in Er. case_match; [|done]. injection Er as <-.
  exists (ser cursor_codec {| v := CURSOR_VERSION; k := key |}), key. split; [done|].
  split; [by apply resume_key_back, key_of_length with row|].
  split; [done|]. by apply (position_after _ _ _ _ F).
Qed.

(** A [settle_ms] under a second has no effect: the bound the query gets
    is the current time itself. *)
Lemma settle_below_second key now ms :
  settle plan = Some ms -> 0 < ms < 1000 ->
  page_arg plan key now SETTLE_PLACEHOLDER = json_i64 now.
Proof.
  intros Hs Hm. unfold page_arg.
  change (String.eqb SETTLE_PLACEHOLDER LIMIT_PLACEHOLDER) with false. rewrite String.eqb_refl, Hs.
  rewrite Z.div_small by lia. cbn beta iota zeta. by rewrite Z.sub_0_r.
Qed.
End Properties.

(** * A concrete feed *)

Module Demo.
Import ToyUrl ToyCel.

Definition spec : SqlChangesWatchSpec := {|
  connection := {|
    driver := Postgres; url := "u:secret"; pool := default_pool; allow_private_backends := false;
    query := {| body := Sql "SELECT id FROM t WHERE id > :_after_id AND at < :_settle_before ORDER BY id LIMIT :_limit";
                params := []; param_exprs := []; row_mode := Many; max_rows := 1000; timeout_ms := None;
                read_only := true; progress_heartbeat_ms := None; stream := None |};
    session_vars := []; circuit_breaker := None; list_query := None; await_ := None;
    isolation_level := None; cache := None; cost := None; auth := None |};
  spec_key_columns := ["id"]; spec_initial := [("id", json_i64 0)]; spec_start := Beginning;
  latest_sql := None; spec_batch_size := 2; interval_ms := 1000; spec_occurred_at_column := None;
  spec_op_column := None; settle_ms := Some 500 |}%string.

Definition plan : Plan := {|
  stmt := {| stmt_sql := "SELECT id FROM t WHERE id > $1 AND at < $2 ORDER BY id LIMIT $3";
             param_order := ["_after_id"; "_settle_before"; "_limit"]; stmt_driver := Postgres |};
  latest := None; key_columns := ["id"]; initial := [json_i64 0]; start := Beginning;
  batch_size := 2; interval := 1000; timeout := 30000; occurred_at_column := None; op_column := None;
  settle := Some 500 |}%string.

Lemma spec_compiles :
  compile (Url := ToyUrl.t) (fun _ => "postgres"%string) (fun _ => EmptyString) (fun _ => [])
    (fun _ => EmptyString) spec = Ok plan.
Proof. by vm_compute. Qed.

(** Integer keys in their order. *)
Definition int_key (k : list value) : Z :=
  match k with [VNumber (PosInt n)] => n | _ => 0 end.
Definition klt (a b : list value) : bool := int_key a <? int_key b.
Definition row (n : Z) : value := VObject [("id", json_i64 n)]%string.
Definition log : list value := map row [1; 2; 3].
Definition keys : list (list value) := map (fun n => [json_i64 n]) [1; 2; 3].

Definition hash (b : list byte) : string := "00".
Definition json (l : list value) : string := "[]".
Definition at_none (v : value) : option string := None.
Definition unreadable (x : value) : string := "not a cursor".
Definition size (e : WatchEvent) : option Z := Some 100.
Definition debug (l : list string) : string := EmptyString.

Lemma feed : feed_log plan klt log keys.
Proof.
  split.
  - apply (bool_decide_unpack _). by vm_compute.
  - intros a. unfold klt. lia.
  - unfold klt. intros. lia.
  - repeat constructor.
  - intros i j a b Hi Hj Hlt. unfold keys in *.
    destruct i as [|[|[|]]]; simpl in Hi; try done; destruct j as [|[|[|]]]; simpl in Hj; try done;
      simplify_eq; try lia; by vm_compute.
Qed.

Lemma initial_position : at_position plan klt log keys [json_i64 0] 0.
Proof.
  split; [done|]. split; [simpl; lia|]. intros j k Hj. unfold keys in Hj.
  destruct j as [|[|[|]]]; simpl in Hj; try done; simplify_eq; by vm_compute.
Qed.

(** The first tick's second query fails, the next one catches up. *)
Definition flaky (n : nat) : option SqlError := if Nat.eqb n 1 then Some (Timeout 30000) else None.
Definition quiet (n : nat) : option SqlError := None.
Definition tick (fault : nat -> option SqlError) : input :=
  Tick (keyset_exec plan klt log (fun _ => 3%nat) fault) (fun _ => 1700000000) (fun _ => false).
Definition inputs : list input :=
  [Attempt (Err (Timeout 1)); Waited; Attempt (Ok ()); StartRows (Ok []); tick flaky; tick quiet].

Definition the_run : option watcher :=
  run hash json at_none size debug plan "sql://t"%string None 4 (mkWatcher Connecting 0 []) inputs.

Example run_sends_all :
  (w ← the_run; Some (map upstream_cursor (sent w))) =
  Some (map (fun n => Some (ser cursor_codec {| v := 1; k := [json_i64 n] |})) [1; 2; 3]).
Proof. by vm_compute. Qed.

Lemma changes_exactly_once_witness :
  exists w j, the_run = Some w /\ (0 <= j <= length log)%nat /\
    sent w = row_events hash json at_none size plan "sql://t"%string (take (j - 0) (drop 0 log)) /\
    (forall key, at_phase w = Polling key -> at_position plan klt log keys key j) /\
    (at_phase w = Stopped -> In Cancelled inputs).
Proof.
  apply (changes_exactly_once hash json at_none size debug plan "sql://t"%string klt log keys
           (Url := ToyUrl.t) (fun _ => "postgres"%string) (fun _ => EmptyString) (fun _ => []) spec
           None [json_i64 0] 0 inputs 4).
  - by vm_compute.
  - apply feed.
  - apply initial_position.
  - right. done.
  - unfold inputs. rewrite !Forall_cons. split_and!; try done; do 2 eexists; reflexivity.
  - simpl. lia.
Defined.

Lemma changes_all_delivered_witness :
  exists key' att',
    run hash json at_none size debug plan "sql://t"%string None 4
      (mkWatcher (Polling [json_i64 0]) 0 []) [tick quiet]
    = Some (mkWatcher (Polling key') att'
              ([] ++ row_events hash json at_none size plan "sql://t"%string (drop 0 log))) /\
    at_position plan klt log keys key' (length log).
Proof.
  apply (changes_all_delivered hash json at_none size debug plan "sql://t"%string klt log keys
           (Url := ToyUrl.t) (fun _ => "postgres"%string) (fun _ => EmptyString) (fun _ => []) spec
           None [json_i64 0] 0 0 [] [tick quiet] 4).
  - by vm_compute.
  - apply feed.
  - apply initial_position.
  - constructor; [|constructor]. do 4 eexists. split; [reflexivity|]. done.
  - simpl. lia.
  - simpl. unfold MAX_ROWS_PER_TICK. lia.
Defined.

Lemma resume_after_event_witness :
  let e := {| event_id := Some "row-00"; event_type := Some EVENT_TYPE; event_occurred_at := None;
              data := Some (VObject [("op", VString "insert"); ("row", row 2)]);
              upstream_cursor := Some (ser cursor_codec {| v := 1; k := [json_i64 2] |}); event_gap := false;
              event_user_id := None; event_session_id := None |}%string in
  exists c key, upstream_cursor e = Some c /\ resume_key unreadable plan c = Ok key /\
    row_key plan (row 2) = Some key /\ at_position plan klt log keys key 2.
Proof.
  intros e. apply (resume_after_event hash json at_none unreadable size plan "sql://t"%string
    klt log keys 1 (row 2) e).
  - apply feed.
  - done.
  - by vm_compute.
Defined.

Lemma settle_below_second_witness :
  page_arg plan [json_i64 0] 1700000000 SETTLE_PLACEHOLDER = json_i64 1700000000.
Proof. apply (settle_below_second plan [json_i64 0] 1700000000 500); [reflexivity|lia]. Defined.
End Demo.

End WatchChanges.
