(* ===== verification/Cdc.v ===== *)
(** The [postgres_cdc] watcher, [src/src/watch_pg_cdc.rs].

    The database side of one watch: what a peek of the replication slot
    delivers, what acknowledgements and releases record, and when the slot is
    advanced.  The rows of a peek, the outcome of an advance and of the
    statements of [prepare] are parameters; the sets and maps of the code are
    [gset] and [gmap], its [BTreeMap] a list in key order. *)

From Stdlib Require Import ZArith Lia Bool Ascii String SpecFloat.
From stdpp Require Import base list strings gmap sorting.
From S2P Require Import Prelude RustStd Text Json F64 PgOutput WatchChanges.

Module Cdc.
Import PgOutput.PgOutput.

Definition WATCH_KIND : string := "postgres_cdc".
Definition ROW_CHANGED_EVENT_TYPE : string := "sql.row.changed".
Definition TRUNCATED_EVENT_TYPE : string := "sql.table.truncated".
Definition CURSOR_VERSION : Z := 1.
Definition MAX_PEEK_ROWS : Z := 65536.

(** * Names *)

Definition valid_slot (name : string) : bool :=
  negb (str_is_empty name) && (String.length name <=? 63)%nat &&
  str_forall (fun c => is_ascii_lower c || is_ascii_digit c || Ascii.eqb c "_") name.

Definition dquote : string := String (ascii_of_nat 34) EmptyString.

(** An identifier quoted for SQL: quotes doubled. *)
Fixpoint double_quotes (s : string) : string :=
  match s with
  | EmptyString => EmptyString
  | String c s' =>
      if Ascii.eqb c (ascii_of_nat 34) then String c (String c (double_quotes s'))
      else String c (double_quotes s')
  end.

Definition quoted (identifier : string) : string := dquote +:+ double_quotes identifier +:+ dquote.

(** [str::split] on a character. *)
Fixpoint split_on (d : ascii) (s : string) : list string :=
  match s with
  | EmptyString => [EmptyString]
  | String c s' =>
      if Ascii.eqb c d then EmptyString :: split_on d s'
      else match split_on d s' with
           | [] => [String c EmptyString]
           | w :: ws => String c w :: ws
           end
  end.

Definition quoted_table (name : string) : string := join "." (map quoted (split_on "." name)).

(** * Progress *)

Record Transaction : Type := mkTransaction {
  changes : gset Z;
  complete : bool;
  acked : gset Z;
}.

Definition default_tx : Transaction := mkTransaction ∅ false ∅.

(** [transactions] is in ascending order of its keys. *)
Record Progress : Type := mkProgress {
  delivered : gset Z;
  transactions : list (Z * Transaction);
  owner : gmap Z Z;
  consumed : Z;
}.

Definition default_progress : Progress := mkProgress ∅ [] ∅ 0.

(** [BTreeMap::get]. *)
Fixpoint bt_get (k : Z) (m : list (Z * Transaction)) : option Transaction :=
  match m with
  | [] => None
  | (k', t) :: m' => if k =? k' then Some t else bt_get k m'
  end.

(** Replace or insert, in order. *)
Fixpoint bt_insert (k : Z) (t : Transaction) (m : list (Z * Transaction)) : list (Z * Transaction) :=
  match m with
  | [] => [(k, t)]
  | (k', t') :: m' =>
      if k =? k' then (k, t) :: m'
      else if k <? k' then (k, t) :: (k', t') :: m'
      else (k', t') :: bt_insert k t m'
  end.

Definition settled (tx : Transaction) : bool :=
  complete tx && (size (changes tx) <=? size (acked tx))%nat.

(** The loop of [Progress::advance] over the transactions in order. *)
Fixpoint advance_go (txs : list (Z * Transaction)) (deliv : gset Z) (own : gmap Z Z) (cons : Z)
  (to : option Z) : option Z * Progress :=
  match txs with
  | [] => (to, mkProgress deliv [] own cons)
  | (end_, tx) :: txs' =>
      if negb (settled tx) then (to, mkProgress deliv txs own cons)
      else advance_go txs' (deliv ∖ changes tx) (filter (fun '(c, _) => c ∉ changes tx) own)
             (Z.max cons end_) (Some end_)
  end.

Definition advance (p : Progress) : option Z * Progress :=
  advance_go (transactions p) (delivered p) (owner p) (consumed p) None.

(** * Events of a change *)

Section Events.
Context (json_from_str : string -> option value) (occurred_at_from_millis : Z -> option string).

Record ctx : Type := mkCtx { slot_ : string; lsn_ : Z; begin_ : option (Z * Z); relations_ : gmap Z Relation }.

Definition relation_of (c : ctx) (oid : Z) : result string Relation :=
  ok_or (relations_ c !! oid) ("pgoutput change of relation " +:+ show_u oid +:+ " before its Relation").

Definition committed (c : ctx) : option string :=
  match begin_ c with Some (_, micros) => commit_time occurred_at_from_millis micros | None => None end.

Definition base (c : ctx) : json_map :=
  let m := obj_insert "lsn" (VString (lsn_text (lsn_ c))) [] in
  let m := match begin_ c with Some (xid, _) => obj_insert "xid" (json_i64 xid) m | None => m end in
  match committed c with Some at_ => obj_insert "commitTime" (VString at_) m | None => m end.

Definition mk_event (c : ctx) (ty id : string) (d : json_map) : WatchChanges.WatchEvent :=
  {| WatchChanges.event_id := Some id;
     WatchChanges.event_type := Some ty;
     WatchChanges.event_occurred_at := committed c;
     WatchChanges.data := Some (VObject d);
     WatchChanges.upstream_cursor :=
       Some (VObject [("lsn", VString (lsn_text (lsn_ c))); ("v", json_i64 CURSOR_VERSION)]);
     WatchChanges.event_gap := false; WatchChanges.event_user_id := None;
     WatchChanges.event_session_id := None |}%string.

Definition row_event (c : ctx) (op : string) (r : Relation) (row : json_map) (old : option json_map)
  (unchanged : list string) : WatchChanges.WatchEvent :=
  let d := obj_insert "op" (VString op) (base c) in
  let d := obj_insert "schema" (VString (schema r)) d in
  let d := obj_insert "table" (VString (rel_name r)) d in
  let d := obj_insert "row" (VObject row) d in
  let d := match old with Some o => obj_insert "old" (VObject o) d | None => d end in
  let d := match unchanged with [] => d | _ => obj_insert "unchanged" (VArray (map VString unchanged)) d end in
  mk_event c ROW_CHANGED_EVENT_TYPE (slot_ c +:+ "/" +:+ lsn_text (lsn_ c)) d.

Definition truncate_event (c : ctx) (cascade restart_identity : bool) (oid : Z)
  : result string WatchChanges.WatchEvent :=
  let? r := relation_of c oid in
  let d := obj_insert "schema" (VString (schema r)) (base c) in
  let d := obj_insert "table" (VString (rel_name r)) d in
  let d := obj_insert "cascade" (VBool cascade) d in
  let d := obj_insert "restartIdentity" (VBool restart_identity) d in
  Ok (mk_event c TRUNCATED_EVENT_TYPE
        (slot_ c +:+ "/" +:+ lsn_text (lsn_ c) +:+ "/" +:+ show_u oid) d).

(** [collect::<Result<_, _>>]. *)
Fixpoint collect {A B} (f : A -> result string B) (l : list A) : result string (list B) :=
  match l with
  | [] => Ok []
  | x :: l' => let? y := f x in let? ys := collect f l' in Ok (y :: ys)
  end.

Definition change_events (c : ctx) (change : Message) : result string (list WatchChanges.WatchEvent) :=
  match change with
  | Insert oid new =>
      let? r := relation_of c oid in
      let (row, unchanged) := row_of json_from_str r new false in
      Ok [row_event c "insert" r row None unchanged]
  | Update oid old new =>
      let? r := relation_of c oid in
      let (row, unchanged) := row_of json_from_str r new false in
      let old := match old with
                 | Some (o, full) => Some (fst (row_of json_from_str r o (negb full)))
                 | None => None
                 end in
      Ok [row_event c "update" r row old unchanged]
  | Delete oid old full =>
      let? r := relation_of c oid in
      let (row, _) := row_of json_from_str r old (negb full) in
      Ok [row_event c "delete" r row None []]
  | Truncate oids cascade restart_identity =>
      collect (truncate_event c cascade restart_identity) oids
  | _ => Ok []
  end.

(** * A peek *)

Record Delivery : Type := mkDelivery { event : WatchChanges.WatchEvent; receipt : value }.

(** The receipt that settles the change at [lsn]. *)
Definition lsn_receipt (lsn : Z) : value := VObject [("lsn", json_i64 lsn)]%string.

(** The last event of a change settles it. *)
Fixpoint deliveries_of (lsn : Z) (events : list WatchChanges.WatchEvent) : list Delivery :=
  match events with
  | [] => []
  | [e] => [mkDelivery e (lsn_receipt lsn)]
  | e :: es => mkDelivery e VNull :: deliveries_of lsn es
  end.

Definition is_change (m : Message) : bool :=
  match m with Begin _ _ _ | Commit _ | RelationMsg _ _ | Other => false | _ => true end.

Definition fresh (p : Progress) (lsn : Z) : bool :=
  negb (lsn <? consumed p) && negb (bool_decide (lsn ∈ delivered p)).

(** [new_changes]. *)
Definition new_changes (p : Progress) (messages : list (Z * Message)) : nat :=
  length (List.filter (fun '(lsn, m) => is_change m && fresh p lsn) messages).

Record peek_state : Type := mkPeek {
  relations : gmap Z Relation;
  deliveries : list Delivery;
  progress : Progress;
  transaction : list Z;
  begin : option (Z * Z);
}.

Definition commit_tx (p : Progress) (tx : list Z) (end_lsn : Z) : Progress :=
  let own := fold_left (fun m c => <[c := end_lsn]> m) tx (owner p) in
  let old := default default_tx (bt_get end_lsn (transactions p)) in
  mkProgress (delivered p)
    (bt_insert end_lsn (mkTransaction (list_to_set tx) true (acked old)) (transactions p))
    own (consumed p).

(** One message of the loop of [peek]. *)
Definition peek_message (slot : string) (max : nat) (st : peek_state) (lm : Z * Message)
  : result string peek_state :=
  let (lsn, message) := lm in
  match message with
  | Begin _ micros xid =>
      Ok (mkPeek (relations st) (deliveries st) (progress st) [] (Some (xid, micros)))
  | Commit end_lsn =>
      if end_lsn <=? consumed (progress st) then
        Ok (mkPeek (relations st) (deliveries st) (progress st) [] (begin st))
      else
        Ok (mkPeek (relations st) (deliveries st)
              (commit_tx (progress st) (transaction st) end_lsn) [] (begin st))
  | RelationMsg oid relation =>
      Ok (mkPeek (<[oid := relation]> (relations st)) (deliveries st) (progress st)
            (transaction st) (begin st))
  | Other => Ok st
  | change =>
      let tx := transaction st ++ [lsn] in
      if negb (fresh (progress st) lsn) || (max <=? length (deliveries st))%nat then
        Ok (mkPeek (relations st) (deliveries st) (progress st) tx (begin st))
      else
        let? events := change_events (mkCtx slot lsn (begin st) (relations st)) change in
        let p := progress st in
        Ok (mkPeek (relations st) (deliveries st ++ deliveries_of lsn events)
              (mkProgress ({[lsn]} ∪ delivered p) (transactions p) (owner p) (consumed p))
              tx (begin st))
  end.

(** The loop; an error leaves what is recorded. *)
Fixpoint peek_messages (slot : string) (max : nat) (st : peek_state) (ms : list (Z * Message))
  : result string () * peek_state :=
  match ms with
  | [] => (Ok (), st)
  | m :: ms' =>
      match peek_message slot max st m with
      | Ok st' => peek_messages slot max st' ms'
      | Err e => (Err e, st)
      end
  end.

(** A row of the slot function: its [lsn] and [data] columns as read. *)
Definition slot_row : Type := (result string string * result string (list byte))%type.

Definition read_row (row : slot_row) : result string (Z * Message) :=
  let? text := fst row in
  let? d := snd row in
  let? lsn := ok_or (parse_lsn text) ("PostgreSQL LSN '" +:+ text +:+ "' does not parse") in
  let? m := decode d in
  Ok (lsn, m).

Definition peek_rows (fetch : Z -> result string (list slot_row)) (limit : Z)
  : result string (list (Z * Message)) :=
  let? rows := rmap_err (fun e => "PostgreSQL slot peek failed: " +:+ e)
                 (fetch (if limit <=? i32_max then limit else i32_max)) in
  collect read_row rows.

(** The loop that reads further, the [n]-th read first; [None] when out of fuel. *)
Fixpoint peek_more (fuel : nat) (n : nat) (fetch : nat -> Z -> result string (list slot_row))
  (p : Progress) (max : nat) (limit : Z) : option (result string (list (Z * Message))) :=
  match fuel with
  | O => None
  | S fuel' =>
      match peek_rows (fetch n) limit with
      | Err e => Some (Err e)
      | Ok messages =>
          if (Z.of_nat (length messages) <? limit) || (limit =? MAX_PEEK_ROWS)
             || (max <=? new_changes p messages)%nat
          then Some (Ok messages)
          else peek_more fuel' (S n) fetch p max (Z.min (Z.min (limit * 4) u64_max) MAX_PEEK_ROWS)
      end
  end.

(** Four to the eighth is [MAX_PEEK_ROWS]. *)
Definition PEEK_READS : nat := 9.

Definition first_limit (p : Progress) (max : nat) : Z :=
  Z.min (Z.max (Z.of_nat (size (delivered p)) + Z.of_nat max) 1) MAX_PEEK_ROWS.

Definition peek (slot : string) (fetch : nat -> Z -> result string (list slot_row)) (p : Progress)
  (max : nat) : option (result string (list Delivery) * Progress) :=
  match peek_more PEEK_READS 0 fetch p max (first_limit p max) with
  | None => None
  | Some (Err e) => Some (Err e, p)
  | Some (Ok messages) =>
      match peek_messages slot max (mkPeek ∅ [] p [] None) messages with
      | (Ok (), st) => Some (Ok (deliveries st), progress st)
      | (Err e, st) => Some (Err e, progress st)
      end
  end.

(** * The source *)

Record cdc : Type := mkCdc {
  connected : bool;
  prog : Progress;
  gap : bool;
  unadvanced : option Z;
}.

(** [Option<u64>]'s [max]. *)
Definition opt_max (a b : option Z) : option Z :=
  match a, b with
  | Some x, Some y => Some (Z.max x y)
  | Some x, None | None, Some x => Some x
  | None, None => None
  end.

(** [settle]; [adv] is the outcome of the advance statement on the LSN text. *)
Definition settle (adv : string -> result string ()) (s : cdc) : result string () * cdc :=
  let (to, p) := advance (prog s) in
  match opt_max to (unadvanced s) with
  | None => (Ok (), mkCdc (connected s) p (gap s) (unadvanced s))
  | Some to =>
      match adv (lsn_text to) with
      | Ok () => (Ok (), mkCdc (connected s) p (gap s) None)
      | Err e => (Err ("PostgreSQL slot advance failed: " +:+ e), mkCdc (connected s) p (gap s) (Some to))
      end
  end.

Definition gap_delivery : Delivery :=
  mkDelivery {| WatchChanges.event_id := None; WatchChanges.event_type := None;
                WatchChanges.event_occurred_at := None; WatchChanges.data := None;
                WatchChanges.upstream_cursor := None; WatchChanges.event_gap := true;
                WatchChanges.event_user_id := None; WatchChanges.event_session_id := None |} VNull.

(** [receive]; [None] when [peek] is out of fuel. *)
Definition receive (slot : string) (fetch : nat -> Z -> result string (list slot_row))
  (adv : string -> result string ()) (max : nat) (s : cdc)
  : option (result string (list Delivery) * cdc) :=
  if negb (connected s) then Some (Err "not connected", s)
  else
    let first := if gap s then [gap_delivery] else [] in
    let s := mkCdc (connected s) (prog s) false (unadvanced s) in
    match peek slot fetch (prog s) max with
    | None => None
    | Some (Err e, p) => Some (Err e, mkCdc (connected s) p (gap s) (unadvanced s))
    | Some (Ok ds, p) =>
        let (_, s) := settle adv (mkCdc (connected s) p (gap s) (unadvanced s)) in
        Some (Ok (first ++ ds), s)
    end.
End Events.

(** [receipt.get("lsn").and_then(Value::as_u64)]. *)
Definition receipt_lsn (receipt : value) : option Z :=
  match WatchChanges.value_get receipt "lsn" with
  | Some (VNumber (PosInt n)) => Some n
  | _ => None
  end.

Definition ack_progress (lsn : Z) (p : Progress) : Progress :=
  match owner p !! lsn with
  | None => p
  | Some end_ =>
      match bt_get end_ (transactions p) with
      | None => p
      | Some tx =>
          mkProgress (delivered p)
            (bt_insert end_ (mkTransaction (changes tx) (complete tx) ({[lsn]} ∪ acked tx)) (transactions p))
            (owner p) (consumed p)
      end
  end.

Definition with_prog (s : cdc) (p : Progress) : cdc := mkCdc (connected s) p (gap s) (unadvanced s).

Definition ack (receipt : value) (s : cdc) : cdc :=
  match receipt_lsn receipt with
  | None => s
  | Some lsn => with_prog s (ack_progress lsn (prog s))
  end.

Definition release_progress (lsn : Z) (p : Progress) : Progress :=
  mkProgress (delivered p ∖ {[lsn]}) (transactions p) (owner p) (consumed p).

Definition release (receipt : value) (s : cdc) : cdc :=
  match receipt_lsn receipt with
  | None => s
  | Some lsn => with_prog s (release_progress lsn (prog s))
  end.

(** * Connecting *)

(** What the database answers to the statements of [prepare]. *)
Record Answers : Type := {
  wal_level : result string string;
  publication_exists : result string bool;
  create_publication : string -> result string ();
  slot_exists : result string bool;
  create_slot : result string ();
}.

Definition prepare (publication : string) (tables : list string) (db : Answers) : result string bool :=
  let? level := rmap_err (fun e => "PostgreSQL SHOW wal_level failed: " +:+ e) (wal_level db) in
  let? _ := if negb (String.eqb level "logical") then
      Err ("PostgreSQL wal_level is '" +:+ level +:+ "'; logical decoding needs wal_level = logical")
    else Ok () in
  let? published := rmap_err (fun e => "PostgreSQL publication check failed: " +:+ e)
                      (publication_exists db) in
  let? _ :=
    if negb published then
      match tables with
      | [] => Err ("PostgreSQL publication '" +:+ publication +:+ "' does not exist; create it, or list tables")
      | _ => rmap_err (fun e => "PostgreSQL CREATE PUBLICATION failed: " +:+ e)
               (create_publication db ("CREATE PUBLICATION " +:+ quoted publication +:+ " FOR TABLE " +:+
                  join ", " (map quoted_table tables)))
      end
    else Ok () in
  let? slotted := rmap_err (fun e => "PostgreSQL slot check failed: " +:+ e) (slot_exists db) in
  let? _ := if negb slotted then
      rmap_err (fun e => "PostgreSQL slot creation failed: " +:+ e) (create_slot db)
    else Ok () in
  Ok (negb slotted).

(** [connect]; [opened] is the outcome of opening the pool. *)
Definition connect (redact_in_text : string -> string) (resumed : bool) (opened : result string ())
  (publication : string) (tables : list string) (db : Answers) (s : cdc) : result string () * cdc :=
  match opened with
  | Err e => (Err (redact_in_text ("PostgreSQL connect failed: " +:+ e)), s)
  | Ok () =>
      match prepare publication tables db with
      | Err e => (Err e, s)
      | Ok created =>
          (Ok (), mkCdc true default_progress (gap s || (created && resumed)) (unadvanced s))
      end
  end.

(** * Reads of one peek *)

Lemma peek_more_total fuel n fetch p max limit :
  1 <= limit <= MAX_PEEK_ROWS -> MAX_PEEK_ROWS <= 4 ^ Z.of_nat fuel * limit ->
  peek_more (S fuel) n fetch p max limit <> None.
Proof.
  revert n limit. induction fuel as [|fuel IH]; intros n limit Hl Hf; cbn [peek_more].
  - destruct (peek_rows _ _) as [ms|]; [|done].
    assert (limit = MAX_PEEK_ROWS) as -> by (unfold MAX_PEEK_ROWS in *; lia).
    rewrite Z.eqb_refl, orb_true_r. done.
  - destruct (peek_rows _ _) as [ms|]; [|done]. destruct (_ || _); [done|].
    unfold MAX_PEEK_ROWS, u64_max in *. rewrite Nat2Z.inj_succ, Z.pow_succ_r in Hf by lia.
    apply IH; [lia|]. destruct (Z.le_ge_cases (limit * 4) 65536).
    + replace (Z.min (Z.min (limit * 4) (2 ^ 64 - 1)) 65536) with (limit * 4) by lia. lia.
    + replace (Z.min (Z.min (limit * 4) (2 ^ 64 - 1)) 65536) with 65536 by lia.
      assert (1 <= 4 ^ Z.of_nat fuel) by (apply (Z.pow_le_mono_r 4 0); lia). lia.
Qed.

Lemma first_limit_range p max : 1 <= first_limit p max <= MAX_PEEK_ROWS.
Proof. unfold first_limit, MAX_PEEK_ROWS. lia. Qed.

(** A peek always ends, after at most nine reads. *)
Lemma peek_total js oc slot fetch p max : exists r p', peek js oc slot fetch p max = Some (r, p').
Proof.
  unfold peek. destruct (peek_more PEEK_READS 0 fetch p max (first_limit p max)) as [[ms|e]|] eqn:E.
  - destruct (peek_messages _ _ _ _ _ _) as [[[]|] st]; eauto.
  - eauto.
  - exfalso. revert E. pose proof (first_limit_range p max) as Hr.
    apply peek_more_total; [done|]. change (4 ^ Z.of_nat 8) with MAX_PEEK_ROWS.
    unfold MAX_PEEK_ROWS in *. lia.
Qed.

(** * The replication slot

    What the slot functions document: the committed transactions in commit
    order, of which a peek returns those that end after the slot's position,
    whole. *)

Record block : Type := {
  b_end : Z;
  b_begin : Z * (Z * Z * Z);        (* the row's LSN; final LSN, commit time, xid *)
  b_rows : list (Z * Message);
  b_commit : Z;
}.

Definition inner_message (m : Message) : bool :=
  match m with Begin _ _ _ | Commit _ => false | _ => true end.

Definition block_rows (b : block) : list (Z * Message) :=
  let '(l, (f, t, x)) := b_begin b in
  (l, Begin f t x) :: b_rows b ++ [(b_commit b, Commit (b_end b))].

Definition change_lsns (ms : list (Z * Message)) : list Z :=
  map fst (List.filter (fun '(_, m) => is_change m) ms).

Definition block_changes (b : block) : list Z := change_lsns (b_rows b).

Definition output (history : list block) (position : Z) (n : nat) : list (Z * Message) :=
  concat (map block_rows (firstn n (List.filter (fun b => position <? b_end b) history))).

Definition before (a b : block) : Prop := b_end a < b_end b.

Record history_ok (history : list block) : Prop := {
  history_sorted : Sorted.StronglySorted before history;
  history_rows : Forall (fun b => Forall (fun '(_, m) => inner_message m = true) (b_rows b)) history;
}.

(** The watch with the slot's position and the changes the gateway has
    acknowledged. *)
Record world : Type := mkWorld { source : cdc; position : Z; acks : gset Z }.

Definition settle_target (s : cdc) : option Z := opt_max (fst (advance (prog s))) (unadvanced s).

Inductive step (js : string -> option value) (oc : Z -> option string) (history : list block)
  : world -> world -> Prop :=
| step_peek w slot max n r st :
    peek_messages js oc slot max (mkPeek ∅ [] (prog (source w)) [] None) (output history (position w) n)
      = (r, st) ->
    step js oc history w
      (mkWorld (mkCdc (connected (source w)) (progress st) false (unadvanced (source w)))
         (position w) (acks w))
| step_settle w adv r s to :
    settle adv (source w) = (r, s) -> settle_target (source w) = to ->
    forall position', position' = position w \/ (exists t, to = Some t /\ position' = Z.max (position w) t) ->
    step js oc history w (mkWorld s position' (acks w))
| step_ack w receipt :
    step js oc history w (mkWorld (ack receipt (source w)) (position w)
      (match receipt_lsn receipt with Some l => {[l]} ∪ acks w | None => acks w end))
| step_release w receipt :
    step js oc history w (mkWorld (release receipt (source w)) (position w) (acks w))
| step_connect w redact resumed opened publication tables db r s :
    connect redact resumed opened publication tables db (source w) = (r, s) ->
    step js oc history w (mkWorld s (position w) (acks w)).

Definition initial (position : Z) : world :=
  mkWorld (mkCdc false default_progress false None) position ∅.

(** * The invariant *)

Section Invariant.
Context (js : string -> option value) (oc : Z -> option string) (history : list block)
        (Hist : history_ok history) (p0 : Z).

(** The block that ends at [e]. *)
Definition block_at (e : Z) (b : block) : Prop := b ∈ history /\ b_end b = e.

(** Every change of the transactions after the start that end by [e] has been
    acknowledged. *)
Definition acked_upto (A : gset Z) (e : Z) : Prop :=
  forall b, b ∈ history -> p0 < b_end b <= e -> Forall (fun l => l ∈ A) (block_changes b).

Definition keys_of (p : Progress) : list Z := map fst (transactions p).

(** A transaction's end is accounted for. *)
Definition covered (p : Progress) (pos e : Z) : Prop := e ∈ keys_of p \/ e <= consumed p \/ e <= pos.

Definition tx_ok (A : gset Z) (etx : Z * Transaction) : Prop :=
  exists b, block_at (fst etx) b /\ changes (snd etx) = list_to_set (block_changes b) /\
    acked (snd etx) ⊆ changes (snd etx) /\ acked (snd etx) ⊆ A.

Record progress_ok (A : gset Z) (pos : Z) (p : Progress) : Prop := {
  ok_sorted : Sorted.StronglySorted Z.lt (keys_of p);
  ok_txs : Forall (tx_ok A) (transactions p);
  ok_owner : map_Forall (fun l e => exists b, block_at e b /\ l ∈ block_changes b) (owner p);
  ok_closed : forall e b, e ∈ keys_of p -> b ∈ history -> b_end b < e -> covered p pos (b_end b);
  ok_consumed : acked_upto A (consumed p);
}.

Record world_ok (w : world) : Prop := {
  ok_position : p0 <= position w /\ acked_upto (acks w) (position w);
  ok_progress : progress_ok (acks w) (position w) (prog (source w));
  ok_unadvanced : forall u, unadvanced (source w) = Some u -> acked_upto (acks w) u;
}.

Lemma block_unique e a b : block_at e a -> block_at e b -> a = b.
Proof.
  intros [Ha Ea] [Hb Eb]. pose proof (history_sorted _ Hist) as HS. clear Hist. revert Ha Hb.
  induction HS as [|c l HS IH Hc]; [by intros ?%elem_of_nil|].
  rewrite Forall_forall in Hc. rewrite !elem_of_cons. unfold before in Hc.
  intros [->|Ha] [->|Hb]; try done; [specialize (Hc _ Hb)|specialize (Hc _ Ha)|by apply IH]; lia.
Qed.

Lemma tx_ok_mono A A' etx : A ⊆ A' -> tx_ok A etx -> tx_ok A' etx.
Proof. intros HA (b & ? & ? & ? & ?). exists b. split_and!; try done. set_solver. Qed.

Lemma acked_upto_mono A A' e : A ⊆ A' -> acked_upto A e -> acked_upto A' e.
Proof. intros HA H b Hb He. eapply Forall_impl; [by apply H|]. set_solver. Qed.

Lemma acked_upto_max A a b : acked_upto A a -> acked_upto A b -> acked_upto A (Z.max a b).
Proof. intros Ha Hb c Hc Hr. destruct (Z.max_spec a b) as [[? E]|[? E]]; rewrite E in Hr; auto. Qed.

(** ** Sorted maps *)

Lemma bt_get_elem k m t : bt_get k m = Some t -> (k, t) ∈ m.
Proof.
  induction m as [|[k' t'] m IH]; simpl; [done|]. destruct (Z.eqb_spec k k') as [->|_].
  - intros [= ->]. by left.
  - intros H. right. auto.
Qed.

Lemma bt_insert_keys k t m x : x ∈ map fst (bt_insert k t m) <-> x = k \/ x ∈ map fst m.
Proof.
  induction m as [|[k' t'] m IH]; simpl.
  { rewrite elem_of_cons. done. }
  destruct (Z.eqb_spec k k') as [->|_]; simpl; [rewrite !elem_of_cons; tauto|].
  destruct (Z.ltb_spec k k'); simpl; rewrite !elem_of_cons; [tauto|]. rewrite IH. tauto.
Qed.

Lemma bt_insert_sorted k t m :
  Sorted.StronglySorted Z.lt (map fst m) -> Sorted.StronglySorted Z.lt (map fst (bt_insert k t m)).
Proof.
  induction m as [|[k' t'] m IH]; simpl; [by repeat constructor|].
  intros HS. inversion HS as [|? ? HS' HF]; subst.
  destruct (Z.eqb_spec k k') as [->|Hne]; [by constructor|].
  destruct (Z.ltb_spec k k') as [Hlt|Hge]; simpl.
  - constructor; [done|]. constructor; [done|]. eapply Forall_impl; [exact HF|]. simpl. lia.
  - constructor; [auto|]. rewrite Forall_forall in HF |- *. intros x Hx.
    apply bt_insert_keys in Hx as [->|Hx]; [lia|auto].
Qed.

Lemma bt_insert_Forall (P : Z * Transaction -> Prop) k t m :
  P (k, t) -> Forall P m -> Forall P (bt_insert k t m).
Proof.
  intros Hk. induction 1 as [|[k' t'] m Ht Hm IH]; simpl; [by repeat constructor|].
  destruct (k =? k'); [by constructor|]. destruct (k <? k'); by repeat constructor.
Qed.

(** ** Advancing *)

Lemma settled_acked A e tx b :
  tx_ok A (e, tx) -> settled tx = true -> block_at e b -> Forall (fun l => l ∈ A) (block_changes b).
Proof.
  intros (b' & Hb' & Hc & Hsub & HA) Hs Hb. rewrite (block_unique _ _ _ Hb Hb').
  apply andb_true_iff in Hs as [_ Hs]. apply Nat.leb_le in Hs.
  simpl in *. assert (acked tx ≡ changes tx) as E by (apply set_subseteq_size_equiv; done).
  apply Forall_forall. intros l Hl. apply HA, E. rewrite Hc. by apply elem_of_list_to_set.
Qed.

(** A settled leading transaction can be passed. *)
Lemma head_acked A pos p e tx txs :
  progress_ok A pos p -> acked_upto A pos -> transactions p = (e, tx) :: txs -> settled tx = true ->
  acked_upto A e.
Proof.
  intros P Hpos Htx Hs b Hb [Hp0 He]. pose proof (ok_txs _ _ _ P) as HF. rewrite Htx in HF.
  apply Forall_cons in HF as [Hok _]. destruct (Z.eq_dec (b_end b) e) as [Heq|Hne].
  { by eapply settled_acked. }
  assert (b_end b < e) as Hlt by lia.
  destruct (ok_closed _ _ _ P e b) as [Hk|[Hk|Hk]]; try done.
  - unfold keys_of. rewrite Htx. by left.
  - pose proof (ok_sorted _ _ _ P) as HS. unfold keys_of in HS, Hk. rewrite Htx in HS, Hk. simpl in HS, Hk.
    inversion HS as [|? ? _ HF]; subst. rewrite Forall_forall in HF.
    apply elem_of_cons in Hk as [Hk|Hk]; [lia|]. specialize (HF _ Hk). lia.
  - by apply (ok_consumed _ _ _ P).
  - by apply Hpos.
Qed.

Lemma pop_head A pos p e tx txs deliv own :
  progress_ok A pos p -> transactions p = (e, tx) :: txs -> acked_upto A e -> own ⊆ owner p ->
  progress_ok A pos (mkProgress deliv txs own (Z.max (consumed p) e)).
Proof.
  intros P Htx He Hown. pose proof (ok_sorted _ _ _ P) as HS. pose proof (ok_txs _ _ _ P) as HF.
  unfold keys_of in HS. rewrite Htx in HS, HF. simpl in HS. inversion HS as [|? ? HS' HF']; subst.
  split; simpl.
  - done.
  - by apply Forall_cons in HF as [_ ?].
  - intros l x Hl. apply (ok_owner _ _ _ P). by eapply lookup_weaken.
  - intros e' b He' Hb Hlt. destruct (ok_closed _ _ _ P e' b) as [Hk|[Hk|Hk]]; try done.
    + unfold keys_of. rewrite Htx. by right.
    + unfold keys_of in Hk. rewrite Htx in Hk. simpl in Hk. apply elem_of_cons in Hk as [->|Hk].
      * right. left. simpl. lia.
      * by left.
    + right. left. simpl. lia.
    + right. by right.
  - apply acked_upto_max; [apply (ok_consumed _ _ _ P)|done].
Qed.

Lemma advance_ok A pos p to p' :
  progress_ok A pos p -> acked_upto A pos -> advance p = (to, p') ->
  progress_ok A pos p' /\ (forall t, to = Some t -> acked_upto A t).
Proof.
  intros P Hpos. unfold advance.
  assert (forall t, None = Some t -> acked_upto A t) as Hto by done. revert Hto.
  generalize (@None Z) as to0. intros to0. destruct p as [deliv txs own cons]. simpl.
  revert deliv own cons to0 P. induction txs as [|[e tx] txs IH]; intros deliv own cons to0 P Hto; simpl.
  { intros [= <- <-]. done. }
  destruct (negb (settled tx)) eqn:Hs; [intros [= <- <-]; done|]. apply negb_false_iff in Hs.
  assert (acked_upto A e) as He by (eapply head_acked; eauto).
  apply IH; [|by intros t [= <-]].
  change cons with (consumed (mkProgress deliv ((e, tx) :: txs) own cons)).
  eapply pop_head; [done|done|done|]. simpl. apply map_filter_subseteq.
Qed.
(** ** Peeking *)

(** Only [delivered] differs. *)
Definition same_txs (p p' : Progress) : Prop :=
  transactions p' = transactions p /\ owner p' = owner p /\ consumed p' = consumed p.

Lemma same_txs_ok A pos p p' : same_txs p p' -> progress_ok A pos p -> progress_ok A pos p'.
Proof.
  intros (Ht & Ho & Hc) P. destruct p' as [d t o c]. simpl in *. subst.
  split; apply P.
Qed.

Lemma same_txs_covered p p' pos e : same_txs p p' -> covered p pos e -> covered p' pos e.
Proof. intros (Ht & _ & Hc). unfold covered, keys_of. by rewrite Ht, Hc. Qed.

Lemma peek_messages_app slot max st a b :
  peek_messages js oc slot max st (a ++ b) =
  match peek_messages js oc slot max st a with
  | (Ok (), st1) => peek_messages js oc slot max st1 b
  | (Err e, st1) => (Err e, st1)
  end.
Proof.
  revert st. induction a as [|m a IH]; intros st; simpl; [done|].
  by destruct (peek_message js oc slot max st m).
Qed.

Lemma inner_step slot max st lsn m st' :
  inner_message m = true -> peek_message js oc slot max st (lsn, m) = Ok st' ->
  same_txs (progress st) (progress st') /\
  transaction st' = transaction st ++ change_lsns [(lsn, m)].
Proof.
  intros Hm. destruct m; try discriminate Hm; simpl;
    try (intros [= <-]; simpl; rewrite ?app_nil_r; by split).
  all: destruct (_ || _); [intros [= <-]; by split|]; intros E; apply rbind_ok in E as (es & _ & [= <-]); by split.
Qed.

Lemma inner_rows slot max ms st r st' :
  Forall (fun '(_, m) => inner_message m = true) ms ->
  peek_messages js oc slot max st ms = (r, st') ->
  same_txs (progress st) (progress st') /\
  (r = Ok () -> transaction st' = transaction st ++ change_lsns ms).
Proof.
  intros HF. revert st. induction HF as [|[lsn m] ms Hm HF IH]; intros st; cbn [peek_messages].
  { intros [= <- <-]. unfold change_lsns. simpl. by rewrite app_nil_r. }
  destruct (peek_message js oc slot max st (lsn, m)) as [st1|e] eqn:E; [|by intros [= <- <-]].
  intros Hrest. destruct (inner_step _ _ _ _ _ _ Hm E) as [(H1 & H2 & H3) Ht].
  destruct (IH _ Hrest) as [(H1' & H2' & H3') Ht']. split.
  - unfold same_txs. by rewrite H1', H2', H3'.
  - intros Hr. rewrite (Ht' Hr), Ht, <- app_assoc. unfold change_lsns. simpl. by destruct (is_change m).
Qed.

Definition after_commit (p : Progress) (b : block) : Progress :=
  if b_end b <=? consumed p then p else commit_tx p (block_changes b) (b_end b).

(** A whole block either stops with an error or commits its changes. *)
Lemma block_step slot max b rest st r st' :
  b ∈ history -> peek_messages js oc slot max st (block_rows b ++ rest) = (r, st') ->
  same_txs (progress st) (progress st') \/
  exists p1 st1, same_txs (progress st) p1 /\ progress st1 = after_commit p1 b /\
    peek_messages js oc slot max st1 rest = (r, st').
Proof.
  intros Hb. unfold block_rows. destruct (b_begin b) as [l [[f t] x]].
  rewrite <- app_comm_cons, <- app_assoc. simpl peek_messages at 1.
  set (st0 := mkPeek _ _ _ _ _). rewrite peek_messages_app.
  destruct (peek_messages js oc slot max st0 (b_rows b)) as [r1 st1] eqn:E.
  pose proof (history_rows _ Hist) as Hrows. rewrite Forall_forall in Hrows.
  destruct (inner_rows _ _ _ _ _ _ (Hrows _ Hb) E) as [Hsame Htx].
  destruct r1 as [[]|e]; [|by intros [= <- <-]; left].
  specialize (Htx eq_refl). simpl in Htx. simpl. rewrite Htx. intros Hrest. right. exists (progress st1).
  unfold after_commit.
  destruct (b_end b <=? consumed (progress st1)); eexists; (split; [done|]); (split; [|exact Hrest]); done.
Qed.

Lemma owner_fold tx (own : gmap Z Z) end_ l e :
  fold_left (fun m c => <[c := end_]> m) tx own !! l = Some e -> e = end_ /\ l ∈ tx \/ own !! l = Some e.
Proof.
  revert own. induction tx as [|c tx IH]; intros own; simpl; [by right|]. intros H.
  destruct (IH _ H) as [[-> Hl]|Hl]; [left; split; [done|by right]|].
  destruct (decide (c = l)) as [->|Hne]; [rewrite lookup_insert_eq in Hl|rewrite lookup_insert_ne in Hl by done].
  - injection Hl as <-. left. split; [done|by left].
  - by right.
Qed.

Lemma commit_covered p b pos e :
  covered p pos e \/ e = b_end b -> covered (after_commit p b) pos e.
Proof.
  unfold after_commit, covered, keys_of. destruct (Z.leb_spec (b_end b) (consumed p)); simpl.
  - intros [?| ->]; [done|]. right. by left.
  - rewrite bt_insert_keys. intuition.
Qed.

Lemma commit_ok A pos p b :
  progress_ok A pos p -> b ∈ history ->
  (forall b', b' ∈ history -> b_end b' < b_end b -> covered p pos (b_end b')) ->
  progress_ok A pos (after_commit p b).
Proof.
  intros P Hb Hcov. pose proof (commit_covered p b pos) as Hmono.
  unfold after_commit in *. destruct (b_end b <=? consumed p) eqn:Hle; [done|].
  split; simpl.
  - apply bt_insert_sorted, P.
  - apply bt_insert_Forall; [|apply P]. exists b. split; [done|]. split; [done|]. simpl.
    destruct (bt_get (b_end b) (transactions p)) as [old|] eqn:Eg; simpl; [|set_solver].
    apply bt_get_elem in Eg. pose proof (ok_txs _ _ _ P) as HF. rewrite Forall_forall in HF.
    destruct (HF _ Eg) as (b' & Hb' & Hc & Hsub & HA). simpl in *.
    rewrite (block_unique (b_end b) b b') by done. rewrite <- Hc. done.
  - intros l e Hl. destruct (owner_fold _ _ _ _ _ Hl) as [[-> Hin]|Hold].
    + by exists b.
    + by apply (ok_owner _ _ _ P).
  - intros e b' He Hb' Hlt. unfold keys_of in He. simpl in He. apply bt_insert_keys in He as [->|He].
    + apply Hmono. left. by apply Hcov.
    + apply Hmono. left. by apply (ok_closed _ _ _ P e).
  - apply P.
Qed.

Lemma blocks_ok slot max A pos bs done st r st' :
  (forall pre b post, bs = pre ++ b :: post -> b ∈ history /\
     forall b', b' ∈ history -> pos < b_end b' -> b_end b' < b_end b -> b' ∈ done ++ pre) ->
  (forall b', b' ∈ done -> covered (progress st) pos (b_end b')) ->
  progress_ok A pos (progress st) ->
  peek_messages js oc slot max st (concat (map block_rows bs)) = (r, st') ->
  progress_ok A pos (progress st').
Proof.
  revert done st. induction bs as [|b bs IH]; intros done st Hchain Hdone P; simpl.
  { by intros [= <- <-]. }
  intros E. destruct (Hchain [] b bs eq_refl) as [Hb Hbefore]. rewrite app_nil_r in Hbefore.
  destruct (block_step _ _ _ _ _ _ _ Hb E) as [Hsame|(p1 & st1 & Hsame & Hp1 & Hrest)].
  { by eapply same_txs_ok. }
  assert (progress_ok A pos p1) as P1 by (by eapply same_txs_ok).
  apply (IH (done ++ [b]) st1); [| | |done].
  - intros pre b1 post ->. destruct (Hchain (b :: pre) b1 post eq_refl) as [Hb1 Hbef].
    split; [done|]. intros b' ???. rewrite <- app_assoc. by apply Hbef.
  - rewrite Hp1. intros b' Hin. apply commit_covered. apply elem_of_app in Hin as [Hin|Hin].
    + left. eapply same_txs_covered; [done|auto].
    + apply list_elem_of_singleton in Hin as ->. by right.
  - rewrite Hp1. apply commit_ok; [done..|]. intros b' Hb' Hlt.
    destruct (decide (b_end b' <= pos)); [right; by right|].
    eapply same_txs_covered; [done|]. apply Hdone, Hbefore; [done|lia|done].
Qed.

Lemma filter_sorted (f : block -> bool) l :
  Sorted.StronglySorted before l -> Sorted.StronglySorted before (List.filter f l).
Proof.
  induction 1 as [|b l HS IH HF]; simpl; [constructor|]. destruct (f b); [|done].
  constructor; [done|]. rewrite Forall_forall in HF |- *. intros x Hx. apply HF.
  apply list_elem_of_In, filter_In in Hx as [Hx _]. by apply list_elem_of_In.
Qed.

Lemma output_chain pos n pre b post :
  firstn n (List.filter (fun b => pos <? b_end b) history) = pre ++ b :: post ->
  b ∈ history /\ forall b', b' ∈ history -> pos < b_end b' -> b_end b' < b_end b -> b' ∈ [] ++ pre.
Proof.
  intros E. set (fl := List.filter _ _) in E.
  assert (fl = pre ++ b :: post ++ skipn n fl) as Hfl.
  { rewrite <- (firstn_skipn n fl) at 1. rewrite E, <- app_assoc. done. }
  split.
  { assert (b ∈ fl) as Hin by (rewrite Hfl; apply elem_of_app; right; by left).
    apply list_elem_of_In, filter_In in Hin as [Hin _]. by apply list_elem_of_In. }
  intros b' Hb' Hpos Hlt. assert (b' ∈ fl) as Hin.
  { apply list_elem_of_In, filter_In. split; [by apply list_elem_of_In|by apply Z.ltb_lt]. }
  pose proof (filter_sorted (fun b => pos <? b_end b) _ (history_sorted _ Hist)) as HS. fold fl in HS.
  rewrite Hfl in Hin, HS. clear -Hin HS Hlt. simpl.
  induction pre as [|c pre IH]; simpl in *.
  - inversion HS as [|? ? _ HF]; subst. rewrite Forall_forall in HF. unfold before in HF.
    apply elem_of_cons in Hin as [->|Hin]; [lia|]. specialize (HF _ Hin). lia.
  - inversion HS; subst. apply elem_of_cons in Hin as [->|Hin]; [by left|]. right. auto.
Qed.
(** ** Every step *)

Lemma progress_ok_mono A A' pos pos' p :
  A ⊆ A' -> pos <= pos' -> progress_ok A pos p -> progress_ok A' pos' p.
Proof.
  intros HA Hpos P. split; try apply P.
  - eapply Forall_impl; [apply P|]. intros etx. by apply tx_ok_mono.
  - intros e b He Hb Hlt. destruct (ok_closed _ _ _ P e b He Hb Hlt) as [?|[?|?]];
      [by left|right; by left|right; right; lia].
  - eapply acked_upto_mono; [done|apply P].
Qed.

Lemma ack_progress_ok A pos p l : progress_ok A pos p -> l ∈ A -> progress_ok A pos (ack_progress l p).
Proof.
  intros P HlA. unfold ack_progress. destruct (owner p !! l) as [e|] eqn:Eo; [|done].
  destruct (bt_get e (transactions p)) as [tx|] eqn:Eg; [|done].
  destruct (ok_owner _ _ _ P _ _ Eo) as (b & Hb & Hl). apply bt_get_elem in Eg.
  pose proof (ok_txs _ _ _ P) as HF. rewrite Forall_forall in HF.
  destruct (HF _ Eg) as (b' & Hb' & Hc & Hsub & HA). simpl in *.
  assert (forall x, x ∈ map fst (bt_insert e (mkTransaction (changes tx) (complete tx) ({[l]} ∪ acked tx))
                                  (transactions p)) <-> x ∈ keys_of p) as Hkeys.
  { intros x. rewrite bt_insert_keys. split; [|by right]. intros [->|]; [|done].
    apply list_elem_of_fmap. by exists (e, tx). }
  split; unfold keys_of; simpl.
  - apply bt_insert_sorted, P.
  - apply bt_insert_Forall; [|apply (ok_txs _ _ _ P)]. exists b'.
    pose proof (block_unique _ _ _ Hb' Hb) as ->. split_and!; simpl; try done; [|set_solver].
    apply union_subseteq. split; [|done]. apply singleton_subseteq_l. rewrite Hc.
    by apply elem_of_list_to_set.
  - apply P.
  - intros x b1 Hx Hb1 Hlt. apply Hkeys in Hx. unfold covered, keys_of. simpl. rewrite Hkeys.
    by apply (ok_closed _ _ _ P x).
  - apply P.
Qed.

Lemma opt_max_acked A a b t :
  (forall x, a = Some x -> acked_upto A x) -> (forall x, b = Some x -> acked_upto A x) ->
  opt_max a b = Some t -> acked_upto A t.
Proof.
  intros Ha Hb. destruct a as [x|], b as [y|]; simpl; intros [= <-]; auto.
  by apply acked_upto_max; auto.
Qed.

Lemma settle_ok w adv r s :
  world_ok w -> settle adv (source w) = (r, s) ->
  progress_ok (acks w) (position w) (prog s) /\
  (forall u, unadvanced s = Some u -> acked_upto (acks w) u) /\
  (forall t, settle_target (source w) = Some t -> acked_upto (acks w) t).
Proof.
  intros W. unfold settle, settle_target. destruct (advance (prog (source w))) as [to p'] eqn:Ea.
  destruct (advance_ok _ _ _ _ _ (ok_progress _ W) (proj2 (ok_position _ W)) Ea) as [P' Hto].
  pose proof (opt_max_acked (acks w) to (unadvanced (source w))) as Hmax.
  specialize (fun t => Hmax t Hto (ok_unadvanced _ W)). simpl.
  destruct (opt_max to (unadvanced (source w))) as [t|] eqn:Eo; [destruct (adv (lsn_text t)) as [[]|e]|];
    intros [= <- <-]; simpl; split_and!; try done; try apply (ok_unadvanced _ W);
    intros u [= <-]; by apply Hmax.
Qed.

Context (Hp0 : 0 <= p0).

Lemma default_progress_ok A pos : progress_ok A pos default_progress.
Proof.
  split; simpl; try by constructor.
  - apply map_Forall_empty.
  - by intros e b ?%elem_of_nil.
  - intros b Hb. lia.
Qed.

Lemma step_ok w w' : world_ok w -> step js oc history w w' -> world_ok w'.
Proof.
  intros W HS. pose proof (ok_position _ W) as [Hpos Hack]. pose proof (ok_progress _ W) as P.
  pose proof (ok_unadvanced _ W) as U. destruct HS as
    [w slot max n r st E|w adv r s to E Eto pos' Hpos'|w receipt|w receipt|w rd res op pub tb db r s E].
  - split; simpl; [done| |done]. eapply blocks_ok with (done := []); [by apply output_chain| | |exact E];
      [by intros b' ?%elem_of_nil|done].
  - destruct (settle_ok _ _ _ _ W E) as (P' & U' & T').
    assert (position w <= pos' /\ acked_upto (acks w) pos') as [Hle Hack'].
    { destruct Hpos' as [->|(t & Ht & ->)]; [split; [lia|done]|].
      split; [lia|]. apply acked_upto_max; [done|]. apply T'. congruence. }
    split; simpl; [split; [lia|done]| |done]. by eapply progress_ok_mono.
  - unfold ack. destruct (receipt_lsn receipt) as [l|]; [|by split].
    assert (acks w ⊆ {[l]} ∪ acks w) as Hsub by set_solver. split; simpl.
    + split; [done|]. by eapply acked_upto_mono.
    + apply ack_progress_ok; [|set_solver]. by apply (progress_ok_mono (acks w) _ (position w)).
    + intros u Hu. eapply acked_upto_mono; eauto.
  - unfold release. destruct (receipt_lsn receipt) as [l|]; [|by split]. split; simpl; try done.
    eapply same_txs_ok; [|exact P]. done.
  - unfold connect in E. destruct op as [[]|e]; [destruct (prepare pub tb db) as [c|e]|];
      injection E as <- <-; split; simpl; try done. apply default_progress_ok.
Qed.

Lemma initial_ok : world_ok (initial p0).
Proof.
  split; simpl.
  - split; [lia|]. intros b Hb. lia.
  - apply default_progress_ok.
  - done.
Qed.

Lemma reachable_ok w : rtc (step js oc history) (initial p0) w -> world_ok w.
Proof.
  intros HR. remember (initial p0) as w0 eqn:E0. pose proof initial_ok as H0. rewrite <- E0 in H0. clear E0.
  induction HR as [|a b c Hs HR IH]; [done|]. apply IH. by eapply step_ok.
Qed.
End Invariant.

(** * Properties *)

(** C22.  However peeks, acknowledgements, releases, failed advances and
    reconnections follow each other, the replication slot never moves past a
    committed change the gateway has not acknowledged. *)
Theorem slot_never_skips js oc history p0 w :
  history_ok history -> 0 <= p0 -> rtc (step js oc history) (initial p0) w ->
  Forall (fun b => p0 < b_end b <= position w -> Forall (fun l => l ∈ acks w) (block_changes b)) history.
Proof.
  intros HH Hp0 HR. apply Forall_forall. intros b Hb He.
  by apply (proj2 (ok_position _ _ _ (reachable_ok js oc history HH p0 Hp0 w HR))).
Qed.

(** What the reads of a peek return while the slot is at [pos]. *)
Definition serves (history : list block) (pos : Z) (fetch : nat -> Z -> result string (list slot_row)) : Prop :=
  forall n limit, (exists e, peek_rows (fetch n) limit = Err e) \/
                  (exists k, peek_rows (fetch n) limit = Ok (output history pos k)).

Lemma peek_more_serves history pos fetch fuel n p max limit r :
  serves history pos fetch -> peek_more fuel n fetch p max limit = Some r ->
  (exists e, r = Err e) \/ exists k, r = Ok (output history pos k).
Proof.
  intros HS. revert n limit. induction fuel as [|fuel IH]; intros n limit; [done|]. cbn [peek_more].
  destruct (HS n limit) as [[e ->]|[k ->]]; [intros [= <-]; eauto|].
  destruct (_ || _); [intros [= <-]; eauto|apply IH].
Qed.

(** [peek] as a step: an error before the loop changes nothing, like a peek of
    no rows. *)
Lemma peek_step js oc history slot fetch max w r p :
  serves history (position w) fetch -> peek js oc slot fetch (prog (source w)) max = Some (r, p) ->
  step js oc history w (mkWorld (mkCdc (connected (source w)) p false (unadvanced (source w)))
                          (position w) (acks w)).
Proof.
  intros HS. unfold peek. destruct (peek_more _ _ _ _ _ _) as [r'|] eqn:E; [|done].
  destruct (peek_more_serves _ _ _ _ _ _ _ _ _ HS E) as [[e ->]|[k ->]].
  - intros [= <- <-]. by apply (step_peek js oc history w slot max 0 (Ok ()) (mkPeek ∅ [] _ [] None)).
  - destruct (peek_messages _ _ _ _ _ _) as [[[]|e] st] eqn:Em; intros [= <- <-]; by eapply step_peek.
Qed.

(** ** What a receive does, said without its code *)

(** Every change of the transaction was seen and acknowledged. *)
Definition fully_acked (tx : Transaction) : Prop := complete tx = true /\ (size (changes tx) <= size (acked tx))%nat.

(** [p'] is [p] without its longest run of fully acknowledged transactions at the
    front, and [to] the end of the last of them. *)
Definition passes (p : Progress) (to : option Z) (p' : Progress) : Prop := exists front rest,
  transactions p = front ++ rest /\ transactions p' = rest /\
  Forall (fun et => fully_acked (snd et)) front /\
  (forall et rest', rest = et :: rest' -> ~ fully_acked (snd et)) /\
  to = last (map fst front) /\
  (forall c, c ∈ delivered p' <-> c ∈ delivered p /\ Forall (fun et => c ∉ changes (snd et)) front) /\
  (forall c e, owner p' !! c = Some e <-> owner p !! c = Some e /\ Forall (fun et => c ∉ changes (snd et)) front) /\
  consumed p' = fold_left Z.max (map fst front) (consumed p).

Lemma settled_iff tx : settled tx = true <-> fully_acked tx.
Proof. unfold settled, fully_acked. by rewrite andb_true_iff, Nat.leb_le. Qed.

Lemma advance_go_passes txs : forall deliv own cons to,
  exists front rest, txs = front ++ rest /\
    let (to', p') := advance_go txs deliv own cons to in
    transactions p' = rest /\ Forall (fun et => fully_acked (snd et)) front /\
    (forall et rest', rest = et :: rest' -> ~ fully_acked (snd et)) /\
    to' = match last (map fst front) with Some e => Some e | None => to end /\
    (forall c, c ∈ delivered p' <-> c ∈ deliv /\ Forall (fun et => c ∉ changes (snd et)) front) /\
    (forall c e, owner p' !! c = Some e <-> own !! c = Some e /\ Forall (fun et => c ∉ changes (snd et)) front) /\
    consumed p' = fold_left Z.max (map fst front) cons.
Proof.
  induction txs as [|[e tx] txs IH]; intros deliv own cons to; cbn [advance_go].
  { exists [], []. split; [done|]. split_and!; try done; intros; rewrite Forall_nil; tauto. }
  destruct (settled tx) eqn:Hs; cbn [negb].
  2: { exists [], ((e, tx) :: txs). split; [done|]. split_and!; try done; try (intros; rewrite Forall_nil; tauto).
       intros et rest' [= <- <-]. cbn. rewrite <- settled_iff, Hs. done. }
  destruct (IH (deliv ∖ changes tx) (filter (fun '(c, _) => c ∉ changes tx) own) (Z.max cons e) (Some e))
    as (front & rest & -> & H).
  destruct (advance_go _ _ _ _ _) as [to' p']. destruct H as (H1 & H2 & H3 & H4 & H5 & H6 & H7).
  exists ((e, tx) :: front), rest. split; [done|]. split_and!; try done.
  - constructor; [by apply settled_iff|done].
  - rewrite H4. cbn [map fst]. destruct front as [|et front]; [done|]. cbn [map]. change (last (e :: fst et :: map fst front)) with (last (fst et :: map fst front)).
    destruct (last (fst et :: map fst front)) eqn:El; [done|]. by apply last_None in El.
  - intros c. rewrite H5, Forall_cons, elem_of_difference. cbn. tauto.
  - intros c o. rewrite H6, Forall_cons, map_lookup_filter_Some. cbn. tauto.
Qed.

Lemma advance_passes p : passes p (fst (advance p)) (snd (advance p)).
Proof.
  unfold advance. destruct (advance_go_passes (transactions p) (delivered p) (owner p) (consumed p) None) as (front & rest & E & H).
  destruct (advance_go _ _ _ _ _) as [to p']. exists front, rest. destruct H as (H1 & H2 & H3 & H4 & H5 & H6 & H7).
  split_and!; try done. rewrite H4. by destruct (last _).
Qed.

(** The messages a peek worked through: those of the first [k] transactions the
    slot has; or none, when the slot could not be read. *)
Definition peeked_from (js : string -> option value) (oc : Z -> option string) (history : list block) (slot : string)
  (max : nat) (pos : Z) (p0 : Progress) (r : result string (list Delivery)) (p : Progress) : Prop :=
  (exists e, r = Err e /\ p = p0) \/
  exists k rm st, peek_messages js oc slot max (mkPeek ∅ [] p0 [] None) (output history pos k) = (rm, st) /\
    p = progress st /\ r = match rm with Ok _ => Ok (deliveries st) | Err e => Err e end.

Lemma peek_from js oc history slot fetch max pos p0 r p :
  serves history pos fetch -> peek js oc slot fetch p0 max = Some (r, p) ->
  peeked_from js oc history slot max pos p0 r p.
Proof.
  intros HS. unfold peek. destruct (peek_more _ _ _ _ _ _) as [r'|] eqn:E; [|done].
  destruct (peek_more_serves _ _ _ _ _ _ _ _ _ HS E) as [[e ->]|[k ->]].
  - intros [= <- <-]. left. eauto.
  - destruct (peek_messages _ _ _ _ _ _) as [[[]|e] st] eqn:Em; intros [= <- <-]; right; eexists k, _, st; by rewrite Em.
Qed.

(** C35.  A whole [receive] of a connected source, on a slot that serves the
    committed transactions, always returns.  It works through the messages of the first of them (or of
    none, when the slot cannot be read).  If that fails the error is returned,
    what was recorded stays, and the slot is where it was.  Otherwise the
    deliveries are returned, after the gap if one was pending, and the watch is
    settled: it forgets its longest front of fully acknowledged transactions and
    advances the slot to the end of the last, or to an earlier target that is
    further, once; a target the server refuses is kept for the next time.  A
    pending gap is gone in every case.  All this is a run of the steps that the
    delivery theorems are about. *)
Theorem receive_refines js oc history slot fetch adv max w :
  serves history (position w) fetch -> connected (source w) = true ->
  exists r w' pr p, receive js oc slot fetch adv max (source w) = Some (r, source w') /\
    peeked_from js oc history slot max (position w) (prog (source w)) pr p /\
    match pr with
    | Err e => r = Err e /\ source w' = mkCdc true p false (unadvanced (source w)) /\ position w' = position w
    | Ok ds =>
        r = Ok ((if gap (source w) then [gap_delivery] else []) ++ ds) /\
        exists to p', passes p to p' /\
          match (match to, unadvanced (source w) with
                 | Some a, Some b => Some (Z.max a b)
                 | Some t, None | None, Some t => Some t
                 | None, None => None
                 end) with
          | None => source w' = mkCdc true p' false None /\ position w' = position w
          | Some t =>
              match adv (lsn_text t) with
              | Ok _ => source w' = mkCdc true p' false None /\ position w' = Z.max (position w) t
              | Err _ => source w' = mkCdc true p' false (Some t) /\ position w' = position w
              end
          end
    end /\
    rtc (step js oc history) w w' /\ acks w' = acks w.
Proof.
  intros HS Hc. unfold receive. rewrite Hc. cbn [negb prog].
  destruct (peek_total js oc slot fetch (prog (source w)) max) as (r & p & Hp).
  pose proof (peek_step _ _ _ _ _ _ _ _ _ HS Hp) as Hstep. rewrite Hc in Hstep. rewrite Hp.
  pose proof (peek_from _ _ _ _ _ _ _ _ _ _ HS Hp) as Hfrom.
  set (s1 := mkCdc _ _ _ _) in Hstep. destruct r as [ds|e]; cbn [connected gap unadvanced]; fold s1.
  2: { exists (Err e), (mkWorld s1 (position w) (acks w)), (Err e), p. split_and!; try done. by apply rtc_once. }
  pose proof (advance_passes p) as Hpass. destruct (settle adv s1) as [rs s2] eqn:Es.
  set (pos' := match settle_target s1 with
               | Some t => if is_ok (adv (lsn_text t)) then Z.max (position w) t else position w
               | None => position w end).
  exists (Ok ((if gap (source w) then [gap_delivery] else []) ++ ds)), (mkWorld s2 pos' (acks w)), (Ok ds), p.
  split; [done|]. split; [done|]. split; [|split; [|done]].
  - split; [done|]. exists (fst (advance p)), (snd (advance p)). split; [done|].
    subst pos'. unfold settle, settle_target in *. cbn [prog unadvanced s1] in *.
    destruct (advance p) as [to p']. cbn [fst snd connected gap] in *.
    fold (opt_max to (unadvanced (source w))). destruct (opt_max to (unadvanced (source w))) as [t|] eqn:Eo.
    + destruct (adv (lsn_text t)) as [[]|e]; by injection Es as <- <-.
    + injection Es as <- <-. split; [|done]. destruct to, (unadvanced (source w)); done.
  - eapply rtc_l; [exact Hstep|]. apply rtc_once.
    apply (step_settle _ _ _ (mkWorld s1 (position w) (acks w)) adv rs s2 (settle_target s1) Es eq_refl).
    unfold pos'. destruct (settle_target s1) as [t|]; [|by left].
    destruct (is_ok _); [right; eauto|by left].
Qed.

(** * What a peek delivers *)

(** The deliveries of every change, in the order of the slot. *)
Fixpoint expected (js : string -> option value) (oc : Z -> option string) (slot : string)
  (rels : gmap Z Relation) (bg : option (Z * Z)) (ms : list (Z * Message)) : result string (list Delivery) :=
  match ms with
  | [] => Ok []
  | (lsn, m) :: ms' =>
      match m with
      | Begin _ micros xid => expected js oc slot rels (Some (xid, micros)) ms'
      | RelationMsg oid r => expected js oc slot (<[oid := r]> rels) bg ms'
      | Commit _ | Other => expected js oc slot rels bg ms'
      | change =>
          let? es := change_events js oc (mkCtx slot lsn bg rels) change in
          let? ds := expected js oc slot rels bg ms' in
          Ok (deliveries_of lsn es ++ ds)
      end
  end.

Lemma expected_change js oc slot rels bg lsn m ms :
  is_change m = true ->
  expected js oc slot rels bg ((lsn, m) :: ms) =
  (let? es := change_events js oc (mkCtx slot lsn bg rels) m in
   let? ds := expected js oc slot rels bg ms in Ok (deliveries_of lsn es ++ ds)).
Proof. by destruct m. Qed.

Lemma peek_change js oc slot max st lsn m :
  is_change m = true ->
  peek_message js oc slot max st (lsn, m) =
  (let tx := transaction st ++ [lsn] in
   let p := progress st in
   if negb (fresh p lsn) || (max <=? length (deliveries st))%nat
   then Ok (mkPeek (relations st) (deliveries st) p tx (begin st))
   else let? es := change_events js oc (mkCtx slot lsn (begin st) (relations st)) m in
        Ok (mkPeek (relations st) (deliveries st ++ deliveries_of lsn es)
              (mkProgress ({[lsn]} ∪ delivered p) (transactions p) (owner p) (consumed p)) tx (begin st))).
Proof. by destruct m. Qed.

Lemma fresh_other p lsn l :
  l <> lsn -> fresh p l = true ->
  fresh (mkProgress ({[lsn]} ∪ delivered p) (transactions p) (owner p) (consumed p)) l = true.
Proof.
  unfold fresh. simpl. intros Hne. rewrite !andb_true_iff, !negb_true_iff, !bool_decide_eq_false.
  intros [? ?]. split; [done|]. set_solver.
Qed.

Lemma deliver_all_go js oc slot max ms st ds :
  expected js oc slot (relations st) (begin st) ms = Ok ds ->
  NoDup (change_lsns ms) -> Forall (fun l => fresh (progress st) l = true) (change_lsns ms) ->
  (length (deliveries st ++ ds) <= max)%nat ->
  exists st', peek_messages js oc slot max st ms = (Ok (), st') /\ deliveries st' = deliveries st ++ ds.
Proof.
  revert st ds. induction ms as [|[lsn m] ms IH]; intros st ds.
  { intros [= <-] _ _ _. rewrite app_nil_r. by eexists. }
  cbn [peek_messages]. destruct (is_change m) eqn:Hm.
  - rewrite (expected_change _ _ _ _ _ _ _ _ Hm), (peek_change _ _ _ _ _ _ _ Hm). unfold change_lsns.
    cbn [List.filter]. rewrite Hm. cbn [map fst]. cbv zeta. intros He Hn Hf Hl.
    apply rbind_ok in He as (es & Ees & He). apply rbind_ok in He as (ds' & Eds & [= <-]).
    apply NoDup_cons in Hn as [Hnot Hn]. apply Forall_cons in Hf as [Hfresh Hf].
    rewrite Hfresh. cbn [negb orb]. rewrite !length_app in Hl.
    destruct (Nat.leb_spec max (length (deliveries st))) as [Hfull|Hroom].
    + assert (deliveries_of lsn es = [] /\ ds' = []) as [E1 ->]
        by (split; apply nil_length_inv; lia).
      rewrite E1. apply (IH (mkPeek _ _ _ _ _)); [done..|]. cbn. rewrite app_nil_r. lia.
    + rewrite Ees. cbn [rbind].
      destruct (IH (mkPeek (relations st) (deliveries st ++ deliveries_of lsn es)
              (mkProgress ({[lsn]} ∪ delivered (progress st)) (transactions (progress st))
                 (owner (progress st)) (consumed (progress st))) (transaction st ++ [lsn]) (begin st)) ds')
        as (st' & -> & Hd); [done|done| |cbn; rewrite !length_app; lia|].
      * rewrite Forall_forall in Hf |- *. intros l Hin. apply fresh_other; [|by apply Hf]. by intros ->.
      * eexists. split; [done|]. rewrite Hd. cbn. by rewrite app_assoc.
  - unfold change_lsns. cbn [List.filter]. rewrite Hm. fold (change_lsns ms).
    destruct m; try discriminate Hm; cbn [expected peek_message]; intros He Hn Hf Hl;
      try destruct (_ <=? _);
      match goal with |- context [peek_messages _ _ _ _ ?s1 ms] => by apply (IH s1 ds) end.
Qed.

(** C38.  When the changes of a peek have distinct LSNs, none below the consumed
    position or in flight, and fit into the request, the peek delivers every one
    of them, in order, with its receipt. *)
Theorem peek_delivers_all js oc slot max p ms ds :
  expected js oc slot ∅ None ms = Ok ds ->
  NoDup (change_lsns ms) -> Forall (fun l => fresh p l = true) (change_lsns ms) -> (length ds <= max)%nat ->
  exists st, peek_messages js oc slot max (mkPeek ∅ [] p [] None) ms = (Ok (), st) /\ deliveries st = ds.
Proof. intros He Hn Hf Hl. by apply (deliver_all_go js oc slot max ms (mkPeek ∅ [] p [] None)). Qed.

(** When the peek after a lost slot fails, the gap event is lost: the flag
    is cleared before the peek, and a later connection that finds the slot does
    not set it again. *)
Theorem gap_lost_on_failed_peek js oc slot adv max p u e redact publication tables db :
  let s := mkCdc true p true u in
  exists e' s', receive js oc slot (fun _ _ => Err e) adv max s = Some (Err e', s') /\ gap s' = false /\
    (slot_exists db = Ok true ->
     gap (snd (connect redact true (Ok ()) publication tables db s')) = false).
Proof.
  cbv zeta. do 2 eexists. split; [reflexivity|]. split; [done|]. intros Hs. unfold connect.
  destruct (prepare publication tables db) as [c|] eqn:E; [|done]. simpl.
  unfold prepare in E. rewrite Hs in E. do 6 (apply rbind_ok in E as (? & ? & E)).
  by simplify_eq/=.
Qed.

(** * Concrete sessions *)

Module Demo.

Definition js (s : string) : option value := None.
Definition oc (ms : Z) : option string := None.
Definition slot_name : string := "mcpg_demo".

Definition row (lsn : Z) (w : wire) : slot_row := (Ok (lsn_text lsn), Ok (encode w)).

Definition table : wire := WRelation 7 "public" "t" (ch "d") [(Byte.x01, "id"%string, 23, 0)].

(** A transaction that inserts rows: the LSN and id of each. *)
Definition tx_rows (end_lsn xid : Z) (ins : list (Z * string)) : list slot_row :=
  [row end_lsn (WBegin end_lsn 0 xid); row end_lsn table] ++
  map (fun '(l, id) => row l (WInsert 7 [DText id])) ins ++
  [row end_lsn (WCommit Byte.x00 end_lsn end_lsn 0)].

Definition fetches (rows : list slot_row) (n : nat) (limit : Z) : result string (list slot_row) := Ok rows.
Definition accepts (text : string) : result string () := Ok ().
Definition start : cdc := mkCdc true default_progress false None.

Definition receive_rows (adv : string -> result string ()) (rows : list slot_row) (s : cdc)
  : option (list Delivery * cdc) :=
  match receive js oc slot_name (fetches rows) adv 10 s with
  | Some (Ok ds, s') => Some (ds, s')
  | _ => None
  end.

(** Receive what is there, acknowledge it, and receive again, so that the slot
    moves. *)
Definition consume (rows : list slot_row) (s : cdc) : option (list Delivery * cdc) :=
  match receive_rows accepts rows s with
  | None => None
  | Some (ds, s1) =>
      match receive_rows accepts rows (fold_left (fun s d => ack (receipt d) s) ds s1) with
      | Some (ds', s2) => Some (ds ++ ds', s2)
      | None => None
      end
  end.

Definition row_ids (ds : list Delivery) : list (option value) :=
  map (fun d => match WatchChanges.data (event d) with
                | Some v => match WatchChanges.value_get v "row" with
                            | Some r => WatchChanges.value_get r "id"
                            | None => None
                            end
                | None => None
                end) ds.

Fixpoint receives (n : nat) (adv : string -> result string ()) (rows : list slot_row) (s : cdc)
  : option (list Delivery * cdc) :=
  match n with
  | O => Some ([], s)
  | S n' =>
      match receive_rows adv rows s with
      | None => None
      | Some (ds, s1) =>
          match receives n' adv rows s1 with Some (ds', s2) => Some (ds ++ ds', s2) | None => None end
      end
  end.

(** The first transaction ends at 100 and is consumed; the second wrote its
    change at 50, before that, and committed after it. *)
Definition first_tx : list slot_row := tx_rows 100 1 [(60, "1"%string)].
Definition second_tx : list slot_row := tx_rows 120 2 [(50, "2"%string)].

Definition after_first : cdc := match consume first_tx start with Some (_, s) => s | None => start end.
Definition stalled : cdc :=
  match receive_rows accepts second_tx after_first with Some (_, s) => s | None => start end.

Lemma stalled_again adv : receive_rows adv second_tx stalled = Some ([], stalled).
Proof. by vm_compute. Qed.

Lemma receives_stalled n adv : receives n adv second_tx stalled = Some ([], stalled).
Proof. induction n as [|n IH]; [done|]. cbn [receives]. by rewrite stalled_again, IH. Qed.

(** A transaction whose change was written before the end of an already
    consumed one, but which commits after it, is never delivered in the session:
    the change is below the consumed position, so every later receive returns
    nothing, and the slot has nothing to advance to. *)
Theorem overlapping_transaction_stalls n adv :
  consumed (prog after_first) = 100 /\
  receive_rows accepts second_tx after_first = Some ([], stalled) /\
  receives n adv second_tx stalled = Some ([], stalled) /\
  settle_target stalled = None /\ map fst (transactions (prog stalled)) = [120].
Proof. split_and!; [by vm_compute..|apply receives_stalled|by vm_compute|by vm_compute]. Qed.

(** Rows that share an LSN, as the rows of one multi-insert record do, are
    one change to the watch: only the first is delivered, and its
    acknowledgement moves the slot past all of them. *)
Theorem shared_lsn_loses_rows :
  let rows := tx_rows 100 1 [(60, "1"); (60, "2"); (60, "3")]%string in
  exists ds s, consume rows start = Some (ds, s) /\ row_ids ds = [Some (json_i64 1)] /\
    consumed (prog s) = 100 /\ transactions (prog s) = [].
Proof. cbv zeta. do 2 eexists. split; [by vm_compute|]. by vm_compute. Qed.

(** Two transactions of one and two changes, acknowledged in full. *)
Definition history : list block :=
  [{| b_end := 100; b_begin := (50, (100, 0, 1)); b_commit := 90;
      b_rows := [(50, RelationMsg 7 (mkRelation "public" "t" [mkColumn "id" 23 true]));
                 (60, Insert 7 [DText "1"])] |};
   {| b_end := 200; b_begin := (110, (200, 0, 2)); b_commit := 190;
      b_rows := [(120, Insert 7 [DText "2"]); (130, Delete 7 [DText "1"] false)] |}]%string.

Lemma history_good : history_ok history.
Proof.
  split; [|by apply (bool_decide_unpack _); vm_compute].
  repeat constructor; unfold before; simpl; lia.
Qed.

Definition peeked (w : world) : world :=
  mkWorld (mkCdc (connected (source w))
             (progress (snd (peek_messages js oc slot_name 10 (mkPeek ∅ [] (prog (source w)) [] None)
                               (output history (position w) 2))))
             false (unadvanced (source w))) (position w) (acks w).

Lemma peeked_step w : step js oc history w (peeked w).
Proof. eapply (step_peek js oc history w slot_name 10 2 _ _). apply surjective_pairing. Qed.

Definition acked_w (l : Z) (w : world) : world :=
  mkWorld (ack (lsn_receipt l) (source w)) (position w)
    (match receipt_lsn (lsn_receipt l) with Some l => {[l]} ∪ acks w | None => acks w end).

Definition settled_w (w : world) : world :=
  mkWorld (snd (settle accepts (source w)))
    (match settle_target (source w) with Some t => Z.max (position w) t | None => position w end) (acks w).

Lemma settled_step w : step js oc history w (settled_w w).
Proof.
  eapply (step_settle js oc history w accepts _ _ _); [apply surjective_pairing|done|].
  destruct (settle_target (source w)); [right; eauto|by left].
Qed.

Definition final : world := settled_w (acked_w 120 (acked_w 60 (peeked (initial 0)))).

Lemma slot_never_skips_witness :
  position final = 100 /\
  Forall (fun b => 0 < b_end b <= position final -> Forall (fun l => l ∈ acks final) (block_changes b)) history.
Proof.
  split; [by vm_compute|].
  apply (slot_never_skips js oc history 0 final history_good); [lia|].
  eapply rtc_l; [apply peeked_step|]. eapply rtc_l; [apply (step_ack _ _ _ _ (lsn_receipt 60))|].
  eapply rtc_l; [apply (step_ack _ _ _ _ (lsn_receipt 120))|]. apply rtc_once, settled_step.
Defined.

Lemma peek_delivers_all_witness :
  exists st, peek_messages js oc slot_name 3 (mkPeek ∅ [] default_progress [] None) (output history 0 2)
    = (Ok (), st) /\ map receipt (deliveries st) = map lsn_receipt [60; 120; 130].
Proof.
  destruct (expected js oc slot_name ∅ None (output history 0 2)) as [ds|e] eqn:E; [|by vm_compute in E].
  destruct (peek_delivers_all js oc slot_name 3 default_progress (output history 0 2) ds E)
    as (st & Hst & Hds).
  - by apply (bool_decide_unpack _); vm_compute.
  - by apply (bool_decide_unpack _); vm_compute.
  - vm_compute in E. injection E as <-. simpl. lia.
  - exists st. split; [done|]. rewrite Hds. vm_compute in E. by injection E as <-.
Defined.

Lemma gap_lost_witness :
  let db := {| wal_level := Ok "logical"; publication_exists := Ok true;
               create_publication := fun _ => Ok (); slot_exists := Ok true; create_slot := Ok () |}%string in
  exists e' s', receive js oc slot_name (fun _ _ => Err "down"%string) accepts 10
                  (mkCdc true default_progress true None) = Some (Err e', s') /\ gap s' = false /\
    gap (snd (connect (fun s => s) true (Ok ()) "p" [] db s')) = false.
Proof.
  intros db. destruct (gap_lost_on_failed_peek js oc slot_name accepts 10 default_progress None "down"
    (fun s => s) "p" [] db) as (e' & s' & Hr & Hg & Hc).
  exists e', s'. split; [done|]. split; [done|]. by apply Hc.
Defined.

(** The rows of the first transaction of [history]. *)
Definition served : list slot_row :=
  [row 50 (WBegin 100 0 1); row 50 table; row 60 (WInsert 7 [DText "1"]); row 90 (WCommit Byte.x00 90 100 0)]%string.

Lemma receive_refines_witness :
  exists ds w', receive js oc slot_name (fetches served) accepts 10 (source (mkWorld start 0 ∅)) = Some (Ok ds, source w') /\
    ds <> [] /\ rtc (step js oc history) (mkWorld start 0 ∅) w' /\ acks w' = ∅.
Proof.
  destruct (receive_refines js oc history slot_name (fetches served) accepts 10 (mkWorld start 0 ∅))
    as (r & w' & pr & p & E & _ & _ & HR & Ha); [|done|].
  { intros n limit. right. exists 1%nat. by vm_compute. }
  assert ((fun x => match fst x with Ok (_ :: _) => true | _ => false end) <$>
    receive js oc slot_name (fetches served) accepts 10 (source (mkWorld start 0 ∅)) = Some true) as Er by (by vm_compute).
  rewrite E in Er. destruct r as [[|d ds]|e]; try discriminate Er. by exists (d :: ds), w'.
Defined.
End Demo.
End Cdc.
