(* ===== verification/Auth.v ===== *)
(** Cloud authentication: [src/src/auth/mod.rs], the providers beside it, the
    token rotation of [src/src/auth/rotator.rs], and the connect path of the
    Postgres driver that uses them.

    Durations are nanoseconds.  The AWS crates, the url crate's parser and sqlx's
    pool are parameters.  A turn of the rotator is described by how late the
    sleep ended, how long the fetch took and whether the new token was applied;
    the theorems say when the token a new connection uses is still valid.  The
    spawned task is in [Rotator]. *)

From Stdlib Require Import ZArith Lia Bool Ascii String.
From stdpp Require Import base list strings.
From S2P Require Import Prelude RustStd Errors Json Config.

Module Auth.

(** * Errors *)

Inductive AuthError : Type :=
| NotImplemented (scheme : string)
| InvalidConfig (message : string)
| Fetch (message : string).

Definition auth_error_text (e : AuthError) : string :=
  match e with
  | NotImplemented scheme => "auth scheme '" +:+ scheme +:+ "' is scaffolded but not yet supported"
  | InvalidConfig m => "auth config: " +:+ m
  | Fetch m => "auth fetch: " +:+ m
  end.

(** [From<AuthError> for SqlError]; [Configuration] is one of sqlx's other errors. *)
Definition of_auth_error (e : AuthError) : SqlError :=
  match e with
  | InvalidConfig _ | NotImplemented _ => InvalidSpec (auth_error_text e)
  | Fetch _ => Connect (OtherSqlx (auth_error_text e))
  end.

(** * The RDS user in a query string *)

Definition unreserved (b : byte) : bool :=
  let c := ascii_of_byte b in
  is_ascii_alnum c || Ascii.eqb c "-" || Ascii.eqb c "_" || Ascii.eqb c "." || Ascii.eqb c "~".

Definition hex_upper (n : Z) : byte :=
  if n <? 10 then Z_byte (48 + n) else Z_byte (55 + n).

(** [urlencoding::encode], on bytes. *)
Definition encode_byte (b : byte) : list byte :=
  if unreserved b then [b] else [ch "%"; hex_upper (byte_Z b / 16); hex_upper (byte_Z b mod 16)].

Definition encode_bytes (bs : list byte) : list byte := concat (map encode_byte bs).

Definition encode (s : string) : string := bytes_str (encode_bytes (str_bytes s)).

(** The standard's decoding, to state what [encode] promises. *)
Definition hex_value (b : byte) : option Z := char_digit 16 (ascii_of_byte b).

Fixpoint percent_decode (fuel : nat) (bs : list byte) : option (list byte) :=
  match fuel with
  | O => None
  | S fuel' =>
      match bs with
      | [] => Some []
      | b :: rest =>
          if byte_eqb b (ch "%") then
            match rest with
            | h :: l :: rest' =>
                match hex_value h, hex_value l, percent_decode fuel' rest' with
                | Some x, Some y, Some out => Some (Z_byte (x * 16 + y) :: out)
                | _, _, _ => None
                end
            | _ => None
            end
          else match percent_decode fuel' rest with Some out => Some (b :: out) | None => None end
      end
  end.

(** * The RDS provider *)

Definition sec : Z := 1000000000.
Definition RDS_TOKEN_TTL : Z := 900 * sec.
Definition DURATION_MAX : Z := u64_max * sec + 999999999.

Record RdsEndpoint : Type := { host : string; port : Z }.

(** The endpoint is a cell that is set once. *)
Record RdsIamAuthProvider : Type := {
  region : string;
  username : string;
  profile : option string;
  endpoint : option RdsEndpoint;
}.

Definition rds_new (region username : string) (profile : option string) : result AuthError RdsIamAuthProvider :=
  if is_blank region then Err (InvalidConfig "rds_iam.region empty")
  else if is_blank username then Err (InvalidConfig "rds_iam.username empty")
  else Ok {| region := region; username := username; profile := profile; endpoint := None |}.

(** [set_endpoint], returning the provider with its cell. *)
Definition set_endpoint (p : RdsIamAuthProvider) (h : string) (n : Z)
  : result AuthError RdsIamAuthProvider :=
  match endpoint p with
  | None => Ok {| region := region p; username := username p; profile := profile p;
                  endpoint := Some {| host := h; port := n |} |}
  | Some cur =>
      if String.eqb (host cur) h && (port cur =? n) then Ok p
      else Err (InvalidConfig ("rds_iam: endpoint changed from " +:+ host cur +:+ ":" +:+ show_u (port cur) +:+
             " to " +:+ h +:+ ":" +:+ show_u n +:+ "; re-register the binding to pick up the new URL"))
  end.

Section Presign.
(** AWS: the credential chain, whether it gives credentials, and the signature's
    query parameters for a URL and an expiry; the url crate: a URL with query
    pairs appended, as its host and query. *)
Context (load_chain : string -> option string -> bool) (issue : string -> result string ())
        (sigv4 : string -> Z -> result string (list (string * string)))
        (append_pairs : string -> list (string * string) -> result string (option string * option string)).

Definition connect_url (e : RdsEndpoint) (user : string) : string :=
  "https://" +:+ host e +:+ ":" +:+ show_u (port e) +:+ "/?Action=connect&DBUser=" +:+ encode user.

Definition fetch_failed {A} (m : string) (r : result string A) : result AuthError A :=
  rmap_err (fun _ => Fetch m) r.

Definition presign (p : RdsIamAuthProvider) : result AuthError string :=
  let? e := ok_or (endpoint p) (InvalidConfig
    "rds_iam: pool builder did not register a target endpoint with the auth provider; this is an internal wiring bug — file an issue") in
  let? _ := if load_chain (region p) (profile p) then Ok ()
            else Err (InvalidConfig "rds_iam: AWS default credential chain returned no provider — set AWS_ACCESS_KEY_ID / IRSA / instance profile / SSO") in
  let? _ := fetch_failed "AWS credential chain refused to issue credentials" (issue (region p)) in
  let url := connect_url e (username p) in
  let? pairs := fetch_failed "sigv4 sign: failed" (sigv4 url RDS_TOKEN_TTL) in
  let? parts := fetch_failed "parsing presigned URL: failed" (append_pairs url pairs) in
  let? h := ok_or (fst parts) (InvalidConfig "rds_iam: presigned URL has no host") in
  Ok (match snd parts with
      | Some q => h +:+ ":" +:+ show_u (port e) +:+ "/?" +:+ q
      | None => h +:+ ":" +:+ show_u (port e) +:+ "/"
      end).

(** * Providers *)

Inductive provider : Type :=
| Rds (p : RdsIamAuthProvider)
| Azure
| Gcp
| Aurora.

Definition scheme (p : provider) : string :=
  match p with Rds _ => "rds_iam" | Azure => "azure_ad" | Gcp => "gcp_iam" | Aurora => "aurora_failover" end.

Definition token_ttl (p : provider) : Z :=
  match p with Rds _ => RDS_TOKEN_TTL | Azure => 900 * sec | Gcp => 3600 * sec | Aurora => 900 * sec end.

Definition fetch_token (p : provider) : result AuthError string :=
  match p with Rds r => presign r | other => Err (NotImplemented (scheme other)) end.

Definition bind_endpoint (p : provider) (h : string) (n : Z) : result AuthError provider :=
  match p with Rds r => let? r' := set_endpoint r h n in Ok (Rds r') | other => Ok other end.

(** [AuthConfig::build_provider]; a scheme is compiled in or not. *)
Definition build_provider (enabled : string -> bool) (a : AuthConfig) : result AuthError provider :=
  if enabled (auth_scheme a) then
    match a with
    | RdsIam region username profile => let? p := rds_new region username profile in Ok (Rds p)
    | AzureAd _ _ => Ok Azure
    | GcpIam _ => Ok Gcp
    | AuroraFailover _ => Ok Aurora
    end
  else Err (NotImplemented (auth_scheme a)).

(** * Rotation *)

Record RotatorConfig : Type := { safety_margin : Z; min_interval : Z }.

Definition default_rotator : RotatorConfig := {| safety_margin := 60 * sec; min_interval := 5 * sec |}.

(** [Duration::checked_sub(..).unwrap_or_default()]. *)
Definition saturating_sub (a b : Z) : Z := if b <=? a then a - b else 0.

Definition interval_for (c : RotatorConfig) (ttl : Z) : option Z :=
  if ttl =? DURATION_MAX then None
  else Some (Z.max (saturating_sub ttl (safety_margin c)) (min_interval c)).

Definition pool_max_lifetime_for (c : RotatorConfig) (ttl : Z) : option Z :=
  if ttl =? DURATION_MAX then None
  else Some (Z.max (saturating_sub ttl (safety_margin c)) (min_interval c)).

(** One turn of the rotation task. *)
Record turn : Type := { late : Z; took : Z; applied : bool }.

(** The time, and when the token in the pool's options was asked for. *)
Record rotation : Type := { now : Z; issued : Z }.

(** [sleep(interval)], then [fetch_token] and [apply]; a failure changes nothing. *)
Definition rotate (interval : Z) (r : rotation) (t : turn) : rotation :=
  let asked := now r + interval + late t in
  {| now := asked + took t; issued := if applied t then asked else issued r |}.

Definition rotations (interval : Z) (ts : list turn) (r : rotation) : rotation :=
  fold_left (rotate interval) ts r.

(** * The pool *)

(** What [connect] hands to the pool, and the interval of its rotator. *)
Record connected : Type := {
  password : option string;
  max_lifetime_ms : option Z;
  rotator : option Z;
}.

(** [PgSqlDriver::connect] of a config with lifetime [lifetime] ms (0 for none)
    and the URL's host and port; [open] is sqlx's answer. *)
Definition pg_connect (lifetime : Z) (auth : option provider) (url_host : option string) (url_port : option Z)
  (open : result sqlx_error ()) : result SqlError connected :=
  let? pl := match auth with
             | None => Ok (None, lifetime)
             | Some p =>
                 let? h := ok_or url_host (InvalidSpec ("auth: " +:+ scheme p +:+ " — could not parse host out of `url`")) in
                 let? p' := rmap_err of_auth_error (bind_endpoint p h (default 5432 url_port)) in
                 let? token := rmap_err of_auth_error (fetch_token p') in
                 Ok (Some token,
                     match pool_max_lifetime_for default_rotator (token_ttl p') with
                     | Some cap =>
                         let cap_ms := wrapu 64 (cap / 1000000) in
                         if (lifetime =? 0) || (cap_ms <? lifetime) then cap_ms else lifetime
                     | None => lifetime
                     end)
             end in
  let (token, life) := pl in
  let? _ := rmap_err Connect open in
  Ok {| password := token;
        max_lifetime_ms := if life =? 0 then None else Some life;
        rotator := match auth with
                   | Some p => interval_for default_rotator (token_ttl p)
                   | None => None
                   end |}.

(** [build_pool] for Postgres. *)
Definition build_pool (enabled : string -> bool) (auth : option AuthConfig) (lifetime : Z)
  (url_host : option string) (url_port : option Z) (open : result sqlx_error ()) : result SqlError connected :=
  let? p := match auth with
            | Some a => let? p := rmap_err of_auth_error (build_provider enabled a) in Ok (Some p)
            | None => Ok None
            end in
  pg_connect lifetime p url_host url_port open.

End Presign.
(** * Facts *)

Lemma encode_byte_decodes b fuel rest :
  percent_decode (length (encode_byte b) + fuel) (encode_byte b ++ rest) =
  match percent_decode (match encode_byte b with [_] => fuel | _ => S (S fuel) end) rest with
  | Some out => Some (b :: out)
  | None => None
  end.
Proof. destruct b; reflexivity. Qed.

Lemma percent_decode_more f1 f2 bs out :
  (f1 <= f2)%nat -> percent_decode f1 bs = Some out -> percent_decode f2 bs = Some out.
Proof.
  revert f2 bs out. induction f1 as [|f1 IH]; intros [|f2] bs out Hle Hd; try done; [lia|].
  cbn [percent_decode] in *. destruct bs as [|b bs]; [done|]. destruct (byte_eqb b (ch "%")).
  - destruct bs as [|h [|l bs]]; try done. destruct (hex_value h), (hex_value l); try done.
    destruct (percent_decode f1 bs) as [o|] eqn:E; [|done]. by rewrite (IH f2 bs o ltac:(lia) E).
  - destruct (percent_decode f1 bs) as [o|] eqn:E; [|done]. by rewrite (IH f2 bs o ltac:(lia) E).
Qed.

Lemma encode_byte_length b : (1 <= length (encode_byte b))%nat.
Proof. unfold encode_byte. destruct (unreserved b); cbn; lia. Qed.

Lemma encode_bytes_decodes bs :
  percent_decode (S (length (encode_bytes bs))) (encode_bytes bs) = Some bs.
Proof.
  induction bs as [|b bs IH]; [done|]. unfold encode_bytes in *. cbn [map concat]. rewrite length_app.
  rewrite <- Nat.add_succ_r, encode_byte_decodes.
  erewrite (percent_decode_more (S (length (concat (map encode_byte bs))))); [reflexivity| |exact IH].
  destruct (encode_byte b) as [|? []]; lia.
Qed.

(** Bytes that mean themselves in a query string, or start an escape. *)
Definition query_safe (b : byte) : bool := unreserved b || byte_eqb b (ch "%").

(** The database user is carried faithfully into the signed URL: the
    encoding of any user name consists of unreserved characters and percent
    escapes, so it cannot end the parameter or add another, and percent decoding
    gives the name back. *)
Theorem user_encoding_roundtrip user :
  Forall (fun b => query_safe b = true) (str_bytes (encode user)) /\
  percent_decode (S (length (str_bytes (encode user)))) (str_bytes (encode user)) = Some (str_bytes user).
Proof.
  unfold encode. rewrite str_bytes_str. split; [|apply encode_bytes_decodes].
  unfold encode_bytes. apply Forall_concat, Forall_map, Forall_true. intros b.
  assert (forallb query_safe (encode_byte b) = true) as H by (destruct b; reflexivity).
  apply Forall_forall. intros x Hx. rewrite forallb_forall in H. apply H. by apply list_elem_of_In.
Qed.

Lemma interval_for_spec c ttl i :
  interval_for c ttl = Some i ->
  ttl <> DURATION_MAX /\ min_interval c <= i /\
  (safety_margin c + min_interval c <= ttl -> 0 <= min_interval c -> i = ttl - safety_margin c) /\
  pool_max_lifetime_for c ttl = Some i.
Proof.
  unfold interval_for, pool_max_lifetime_for, saturating_sub. destruct (Z.eqb_spec ttl DURATION_MAX); [done|].
  intros [= <-]. split_and!; try done; [lia|]. intros. destruct (Z.leb_spec (safety_margin c) ttl); lia.
Qed.

(** How old the token in use is when each turn ends. *)
Fixpoint ages (interval : Z) (r : rotation) (ts : list turn) : list Z :=
  match ts with
  | [] => []
  | t :: ts' => let r' := rotate interval r t in (now r' - issued r) :: ages interval r' ts'
  end.

(** Every fetch succeeds, and the delays around a turn stay within the margin;
    [before] is how long the last fetch took. *)
Fixpoint prompt (margin before : Z) (ts : list turn) : Prop :=
  match ts with
  | [] => True
  | t :: ts' => applied t = true /\ before + late t + took t <= margin /\ prompt margin (took t) ts'
  end.

(** Freshness of rotated tokens: when every fetch succeeds and the delays
    stay within the safety margin, the token new connections use is never older
    than its TTL; but after one turn that fails, the token in use has been
    expired for at least the TTL less twice the margin before the next turn can
    replace it (780 seconds with the defaults on RDS). *)
Theorem rotated_token_age c ttl i ts r :
  interval_for c ttl = Some i -> safety_margin c + min_interval c <= ttl -> 0 <= min_interval c ->
  (prompt (safety_margin c) (now r - issued r) ts -> Forall (fun age => age <= ttl) (ages i r ts)) /\
  (forall t1 t2, issued r <= now r -> 0 <= late t1 -> 0 <= took t1 -> 0 <= late t2 -> 0 <= took t2 ->
     applied t1 = false -> exists a1 a2, ages i r [t1; t2] = [a1; a2] /\ ttl + (ttl - 2 * safety_margin c) <= a2).
Proof.
  intros Hi Hm H0. destruct (interval_for_spec c ttl i Hi) as (_ & _ & E & _). specialize (E Hm H0). split.
  - revert r. induction ts as [|t ts IH]; intros r Hp; cbn [ages]; [constructor|].
    destruct Hp as (Ha & Hd & Hp). constructor; cbn [now issued rotate]; [lia|].
    apply IH. unfold rotate. rewrite Ha. cbn [now issued]. by replace (_ + took t - _) with (took t) by lia.
  - intros t1 t2 Hr L1 T1 L2 T2 Ha. do 2 eexists. split; [reflexivity|]. cbn [now issued rotate]. rewrite Ha. lia.
Qed.

(** A margin the TTL does not leave room for: the floor wins, and the refresh
    interval and the connection cap both exceed the TTL. *)
Example floor_exceeds_ttl :
  interval_for default_rotator (3 * sec) = Some (5 * sec) /\
  pool_max_lifetime_for default_rotator (3 * sec) = Some (5 * sec) /\
  interval_for default_rotator RDS_TOKEN_TTL = Some (840 * sec) /\
  interval_for default_rotator DURATION_MAX = None.
Proof. by vm_compute. Qed.

(** A connection opened just before a rotation uses a token 839 s old and may
    live the cap of 840 s: it is still in the pool long after its token
    expired. *)
Example connection_outlives_token :
  exists cap, pool_max_lifetime_for default_rotator RDS_TOKEN_TTL = Some cap /\
    let opened := 839 * sec in 0 + RDS_TOKEN_TTL < opened + cap.
Proof. exists (840 * sec). by vm_compute. Qed.

Lemma rotated_token_age_witness :
  Forall (fun age => age <= RDS_TOKEN_TTL)
    (ages (840 * sec) {| now := sec; issued := 0 |} [{| late := 0; took := sec; applied := true |}]) /\
  (exists a1 a2, ages (840 * sec) {| now := sec; issued := 0 |}
      [{| late := 0; took := sec; applied := false |}; {| late := 0; took := sec; applied := true |}] = [a1; a2] /\
    RDS_TOKEN_TTL + (RDS_TOKEN_TTL - 2 * safety_margin default_rotator) <= a2).
Proof.
  destruct (rotated_token_age default_rotator RDS_TOKEN_TTL (840 * sec)
    [{| late := 0; took := sec; applied := true |}] {| now := sec; issued := 0 |} eq_refl) as [H1 H2];
    [by vm_compute..|].
  split; [apply H1; by vm_compute|apply H2; by vm_compute].
Defined.

(** The endpoint of an RDS provider never changes once it is bound. *)
Lemma set_endpoint_once p h n h' n' p' p'' :
  set_endpoint p h n = Ok p' -> set_endpoint p' h' n' = Ok p'' -> p'' = p' /\
  (endpoint p = None -> h' = h /\ n' = n).
Proof.
  unfold set_endpoint. destruct (endpoint p) as [cur|] eqn:Ep.
  - destruct (_ && _) eqn:E; [|done]. intros [= <-] H. rewrite Ep in H. destruct (_ && _) in H; [|done].
    by injection H as <-.
  - intros [= <-]. cbn [endpoint host port]. destruct (String.eqb h h' && (n =? n')) eqn:E; [|done].
    intros [= <-]. apply andb_true_iff in E as [->%String.eqb_eq ->%Z.eqb_eq]. done.
Qed.

Section ConnectFacts.
Context (load_chain : string -> option string -> bool) (issue : string -> result string ())
        (sigv4 : string -> Z -> result string (list (string * string)))
        (append_pairs : string -> list (string * string) -> result string (option string * option string)).

(** A cloud pool holds a token and a lifetime no longer than the rotator's
    interval, and has a rotator; a static one has neither token nor rotator. *)
Theorem connect_lifetime lifetime auth h n open c :
  0 <= lifetime -> pg_connect load_chain issue sigv4 append_pairs lifetime auth h n open = Ok c ->
  match auth with
  | Some p => (exists token, password c = Some token) /\
      exists life i, max_lifetime_ms c = Some life /\ rotator c = Some i /\ life * 1000000 <= i /\
        (lifetime <> 0 -> life <= lifetime)
  | None => password c = None /\ rotator c = None /\
      max_lifetime_ms c = (if lifetime =? 0 then None else Some lifetime)
  end.
Proof.
  intros Hl. unfold pg_connect. destruct auth as [p|].
  - destruct h as [h|]; [|done]. cbn [ok_or rbind].
    destruct (bind_endpoint p h (default 5432 n)) as [p'|] eqn:Eb; [|done]. cbn [rmap_err rbind].
    destruct (fetch_token _ _ _ _ p') as [token|]; [|done]. cbn [rmap_err rbind].
    destruct open as [[]|]; [|by destruct (pool_max_lifetime_for _ _)].
    assert (token_ttl p' = token_ttl p) as ->.
    { destruct p as [r| | |]; cbn in Eb; try (by injection Eb as <-).
      unfold set_endpoint in Eb. destruct (endpoint r); [destruct (_ && _); [|done]|]; by injection Eb as <-. }
    assert (exists k, 0 < k /\ pool_max_lifetime_for default_rotator (token_ttl p) = Some (k * 1000000) /\
              interval_for default_rotator (token_ttl p) = Some (k * 1000000) /\ wrapu 64 (k * 1000000 / 1000000) = k)
      as (k & Hk & -> & -> & Ew).
    { destruct p; [exists 840000|exists 840000|exists 3540000|exists 840000]; by vm_compute. }
    rewrite Ew. cbn [rmap_err rbind]. intros [= <-]. cbn [password max_lifetime_ms rotator].
    split; [by eexists|]. destruct ((lifetime =? 0) || (k <? lifetime)) eqn:El.
    + exists k, (k * 1000000). destruct (Z.eqb_spec k 0); [lia|]. split_and!; try done. intros Hn.
      destruct (Z.eqb_spec lifetime 0); [done|]. cbn in El. lia.
    + apply orb_false_iff in El as [E0 Ek]. exists lifetime, (k * 1000000). rewrite E0.
      split_and!; try done. lia.
  - cbn [rbind]. destruct open as [[]|]; [|done]. cbn [rmap_err rbind]. by intros [= <-].
Qed.
End ConnectFacts.

End Auth.
