(* ===== verification/WatchPoll.v ===== *)
(** The polling watcher, [src/src/watch.rs].

    [watch] checks the specification, prepares the tracking query and spawns
    [poll_loop]; one input of the loop below is what the biased [select!] sees:
    the token, or a tick with the outcome of the query.  A tick is late rather
    than repeated ([MissedTickBehavior::Delay]), so inputs are simply in order.
    The theorems give the events as a function of the answers. *)

From Stdlib Require Import ZArith Lia Bool Ascii String SpecFloat.
From stdpp Require Import base list strings.
From S2P Require Import Prelude RustStd Redact Errors Json Params F64 Sqlx Pool Cost Config Cache WatchChanges.

Module WatchPoll.
Import Cache.

Definition MIN_INTERVAL_MS : Z := 100.
Definition DEFAULT_INTERVAL_MS : Z := 1000.

Record SqlPollingWatchSpec : Type := { connection : SqlBackendConfig; interval_ms : Z }.

Section Start.
Context {Url : Type} `{UrlOps Url} `{Cel}
        (url_scheme : Url -> string) (url_error : string -> string)
        (cred_tokens : string -> list string) (debug_strings : list string -> string)
        (read_to_string : string -> result string string)
        (show_error : SqlError -> string).

(** [SqlPollingWatchSpec::validate]. *)
Definition validate_spec (s : SqlPollingWatchSpec) : result SqlError () :=
  let? _ := Config.validate url_scheme url_error cred_tokens debug_strings (connection s) in
  if interval_ms s <? MIN_INTERVAL_MS then
    Err (InvalidSpec ("watch.interval_ms (" +:+ show_u (interval_ms s) +:+ " ms) is below the " +:+
                      show_u MIN_INTERVAL_MS +:+ " ms floor"))
  else Ok ().

Definition build_prepared_stmt (cfg : SqlBackendConfig) : result SqlError PreparedStmt :=
  let q := query cfg in
  let? raw := match body q with
              | Sql sql => Ok sql
              | SqlFile sql_file =>
                  rmap_err (fun e => InvalidSpec ("sql_file '" +:+ sql_file +:+ "': " +:+ e)) (read_to_string sql_file)
              | Procedure procedure => Ok (call_statement procedure (length (params q)) (driver cfg))
              end in
  let (rewritten, _order) := rewrite_placeholders raw (driver cfg) in
  Ok {| stmt_sql := rewritten; param_order := params q; stmt_driver := driver cfg |}.

Definition invalid {A} (r : result SqlError A) : result WatchChanges.WatchError A :=
  rmap_err (fun e => WatchChanges.WatchInvalidSpec (show_error e)) r.
Definition subscribe {A} (r : result SqlError A) : result WatchChanges.WatchError A :=
  rmap_err (fun e => WatchChanges.WatchSubscribe (show_error e)) r.

(** [watch] up to the spawn: the drivers compiled in, and what building the
    pool and its health check answer. *)
Definition watch (s : SqlPollingWatchSpec) (compiled : DriverKind -> bool)
  (build_pool health_check : result SqlError ()) : result WatchChanges.WatchError PreparedStmt :=
  let? _ := invalid (validate_spec s) in
  let kind := driver (connection s) in
  let? _ := if compiled kind then Ok ()
            else Err (WatchChanges.WatchInvalidSpec
                   ("driver '" +:+ DriverKind_as_str kind +:+ "' is not compiled into this build")) in
  let? stmt := invalid (build_prepared_stmt (connection s)) in
  let? _ := subscribe build_pool in
  let? _ := subscribe health_check in
  Ok stmt.
End Start.

(** * The loop *)

Record watcher : Type := mkWatcher {
  last_seen : option value;
  emitted : nat;
  stopped : bool;
}.

Definition fresh_watcher : watcher := mkWatcher None 0 false.

(** [Cancelled], or a tick and what [driver.execute(.., &[], ..)] answered. *)
Inductive input : Type := Cancelled | Tick (r : result SqlError RowBatch).

(** One turn of the loop.  Every event is [WatchEvent::default()], so their
    number is all there is to them. *)
Definition poll_turn (w : watcher) (i : input) : watcher :=
  if stopped w then w
  else match i with
       | Cancelled => mkWatcher (last_seen w) (emitted w) true
       | Tick (Err _) => w
       | Tick (Ok batch) =>
           let cursor := first_scalar (rows batch) in
           if negb (cursor_eqb cursor (last_seen w)) then
             mkWatcher cursor
               (match last_seen w with Some _ => S (emitted w) | None => emitted w end) false
           else w
       end.

Definition poll_loop (inputs : list input) (w : watcher) : watcher :=
  fold_left poll_turn inputs w.

(** * What is emitted *)

(** The answers before the cancellation. *)
Fixpoint ticks (inputs : list input) : list (result SqlError RowBatch) :=
  match inputs with
  | [] | Cancelled :: _ => []
  | Tick r :: inputs' => r :: ticks inputs'
  end.

Lemma poll_loop_stopped inputs w : stopped w = true -> poll_loop inputs w = w.
Proof.
  unfold poll_loop. induction inputs as [|i inputs IH]; intros Hs; [done|]. cbn [fold_left].
  unfold poll_turn at 2. rewrite Hs. by apply IH.
Qed.

Lemma poll_loop_emitted inputs : forall w, stopped w = false ->
  Z.of_nat (emitted (poll_loop inputs w)) = Z.of_nat (emitted w) + changes (last_seen w) (cursors (ticks inputs)).
Proof.
  unfold poll_loop. induction inputs as [|[|[b|e]] inputs IH]; intros w Hs; cbn [fold_left ticks cursors changes]; [lia| | |].
  - fold (poll_loop inputs (poll_turn w Cancelled)). unfold poll_turn. rewrite Hs.
    rewrite poll_loop_stopped by done. cbn. lia.
  - unfold poll_turn at 2. rewrite Hs. destruct (cursor_eqb (first_scalar (rows b)) (last_seen w)) eqn:E; cbn [negb].
    + rewrite IH by done. by destruct (last_seen w).
    + rewrite IH by done. cbn [last_seen emitted]. destruct (last_seen w); lia.
  - unfold poll_turn at 2. rewrite Hs. by apply IH.
Qed.

(** A polling watch emits one event for each change of its scalar away
    from a value it has seen, and nothing else: the first answer is the baseline,
    a failed poll neither emits nor forgets the baseline, an empty answer after a
    value is a change, a value after an empty answer is not, and nothing is
    emitted after the cancellation. *)
Theorem polling_events_exact inputs :
  Z.of_nat (emitted (poll_loop inputs fresh_watcher)) = changes None (cursors (ticks inputs)).
Proof. by rewrite poll_loop_emitted. Qed.

Lemma value_eqb_Some x o : cursor_eqb (Some x) o = true -> exists y, o = Some y.
Proof. destruct o as [y|]; [by exists y|done]. Qed.

(** Once a row has been seen, an answer with another scalar emits at once. *)
Lemma change_is_reported w b old :
  stopped w = false -> last_seen w = Some old -> cursor_eqb (first_scalar (rows b)) (Some old) = false ->
  emitted (poll_turn w (Tick (Ok b))) = S (emitted w).
Proof. intros Hs Hl He. unfold poll_turn. by rewrite Hs, Hl, He. Qed.

Definition obs (v : list value) : input :=
  Tick (Ok {| columns := []; rows := v; rows_affected := None; truncated := false; has_more := false |}).

Definition one (n : Z) : list value := [VObject [("max", json_i64 n)]]%string.

(** The table is emptied and filled again: one event, for the emptying; a table
    first seen empty gives none when rows appear. *)
Example polling_examples :
  List.map (fun l => emitted (poll_loop l fresh_watcher))
    [[obs (one 1); obs (one 1); Tick (Err (Timeout 5)); obs (one 2)];
     [obs (one 1); obs []; obs (one 1)]; [obs []; obs (one 2)]; [obs (one 1); Cancelled; obs (one 2)]]
  = [1; 1; 0; 0]%nat.
Proof. reflexivity. Qed.

End WatchPoll.
