(* ===== verification/WatchListen.v ===== *)
(** The Postgres LISTEN watcher, [src/src/watch_pg_listen.rs].

    Watches on one [(url, channel)] share a connection: the plugin's map holds
    weak pointers, and a [SharedListener] lives while a call or a watch owns it.
    The machine below interleaves the atomic parts of every call of [watch], the
    connections' tasks, the watches' tasks, the database and the host: a label
    is one part, [step] what it does.  An [Arc]'s count is the number of its
    owners in the state; dropping the last one fires the cancel token.  A
    connection's log is what its task broadcast; a watch reads it from where it
    subscribed, and skips to the oldest buffered entry when it is further behind
    than the buffer. *)

From Stdlib Require Import ZArith Lia Bool Ascii String SpecFloat.
From stdpp Require Import base list strings gmap.
From S2P Require Import Prelude RustStd Text Errors Json Config WatchChanges.

Module WatchListen.
Import WatchChanges.

Record UriMatch : Type := { payload_field : string; uris : list string }.

Record ListenSpec : Type := { sp_url : string; channel : string; uri_match : option UriMatch }.

Definition value_pattern : string := "{value}".

(** [str::replace] of [p]: from the left, without overlaps. *)
Fixpoint replace_from (p by_ : string) (skip : nat) (s : string) : string :=
  match s with
  | EmptyString => EmptyString
  | String c s' =>
      match skip with
      | S skip' => replace_from p by_ skip' s'
      | O => if starts_with p s then by_ +:+ replace_from p by_ (String.length p - 1) s'
             else String c (replace_from p by_ 0 s')
      end
  end.

Definition str_replace (p by_ s : string) : string := replace_from p by_ 0 s.

(** [PostgresListenNotifyWatchSpec::validate]. *)
Definition validate (s : ListenSpec) : result SqlError () :=
  let? _ := match uri_match s with
            | Some m =>
                let? _ := reject_if (is_blank (payload_field m)) "watch.uri_match.payload_field must not be empty" in
                reject_if (match uris m with [] => true | _ => false end ||
                           existsb (fun u => negb (str_contains value_pattern u)) (uris m))
                  "watch.uri_match.uris must be non-empty, each with `{value}`"
            | None => Ok ()
            end in
  let? _ := reject_if (is_blank (sp_url s)) "watch.url must not be empty" in
  let? _ := reject_if (is_blank (channel s)) "watch.channel must not be empty" in
  reject_if (negb (str_forall (fun c => is_ascii_alnum c || Ascii.eqb c "_") (channel s)))
    ("watch.channel must be ASCII alphanumeric + underscore; got '" +:+ channel s +:+ "'").

Abbreviation key := (string * string)%type.

(** Channel and payload. *)
Abbreviation Notification := (string * string)%type.

Definition NOTIFICATION_BUFFER : nat := 1024.
Definition NOTIFICATION_EVENT_TYPE : string := "postgres.notification".

(** * State *)

(** The task of a connection: not spawned yet, in its loop, waiting for the
    cancellation after an error of [recv], returned. *)
Inductive task : Type := NotSpawned | Listening | Failed | Returned.

Record SharedListener : Type := mkListener {
  l_key : key;
  l_task : task;
  l_cancelled : bool;
  l_log : list Notification;
}.

Inductive call_state : Type :=
| Connecting                      (* no connection ran: opening one *)
| Connected (id : nat)            (* opened, not in the map yet *)
| Holding (id : nat)              (* [listener] returned *)
| Done (r : result WatchError ()).

Record call : Type := mkCall { c_uri : string; c_spec : ListenSpec; c_state : call_state }.

Record watch : Type := mkWatch {
  w_uri : string;
  w_spec : ListenSpec;
  w_listener : nat;
  w_from : nat;                   (* where it subscribed *)
  w_pos : nat;                    (* what it read *)
  w_cancelled : bool;
  w_running : bool;
  w_events : list WatchEvent;
}.

Record state : Type := mkState {
  listeners : list SharedListener;
  map : gmap key nat;
  calls : list call;
  watches : list watch;
}.

Definition init : state := mkState [] ∅ [] [].

Inductive label : Type :=
| Watch (uri : string) (spec : ListenSpec)
| ConnectOk (c : nat)
| ConnectErr (c : nat) (message : string)
| Publish (c : nat)
| Subscribe (c : nat)
| Notify (id : nat) (payload : string)
| RecvError (id : nat)
| TaskStop (id : nat)
| Receive (w : nat)
| Cancel (w : nat)
| Stop (w : nat).

Definition spec_key (s : ListenSpec) : key := (sp_url s, channel s).

(** * Owners *)

Definition call_holds (id : nat) (c : call) : bool :=
  match c_state c with Connected i | Holding i => Nat.eqb i id | _ => false end.

Definition watch_holds (id : nat) (w : watch) : bool := w_running w && Nat.eqb (w_listener w) id.

(** The strong count. *)
Definition holders (s : state) (id : nat) : nat :=
  (length (List.filter (call_holds id) (calls s)) + length (List.filter (watch_holds id) (watches s)))%nat.

Definition alive (s : state) (id : nat) : bool := negb (Nat.eqb (holders s id) 0).

(** [map.get(key).and_then(Weak::upgrade)]. *)
Definition upgrade (s : state) (k : key) : option nat :=
  match map s !! k with
  | Some id => if alive s id then Some id else None
  | None => None
  end.

Definition set_calls (cs : list call) (s : state) : state := mkState (listeners s) (map s) cs (watches s).
Definition set_watches (ws : list watch) (s : state) : state := mkState (listeners s) (map s) (calls s) ws.
Definition set_map (m : gmap key nat) (s : state) : state := mkState (listeners s) m (calls s) (watches s).
Definition set_listeners (ls : list SharedListener) (s : state) : state :=
  mkState ls (map s) (calls s) (watches s).

Definition update_listener (f : SharedListener -> SharedListener) (id : nat) (s : state) : state :=
  match listeners s !! id with
  | Some l => set_listeners (<[id := f l]> (listeners s)) s
  | None => s
  end.

Definition set_task (t : task) (l : SharedListener) : SharedListener :=
  mkListener (l_key l) t (l_cancelled l) (l_log l).
Definition fire (l : SharedListener) : SharedListener := mkListener (l_key l) (l_task l) true (l_log l).
Definition broadcast (n : Notification) (l : SharedListener) : SharedListener :=
  mkListener (l_key l) (l_task l) (l_cancelled l) (l_log l ++ [n]).

(** An owner has gone: [SharedListener::drop] when it was the last. *)
Definition released (id : nat) (s : state) : state :=
  if alive s id then s else update_listener fire id s.

Definition set_call_state (c : nat) (st : call_state) (s : state) : state :=
  match calls s !! c with
  | Some k => set_calls (<[c := mkCall (c_uri k) (c_spec k) st]> (calls s)) s
  | None => s
  end.

(** * Events *)

Section Machine.
Context (json_parse : string -> option value)           (* serde_json::from_str *)
        (number_str : number -> string)
        (event_body : string -> value * string)         (* mcpg_plugin_protocol::event_body *)
        (is_event_source : string -> bool)
        (show_error : SqlError -> string).

(** [UriMatch::matches]. *)
Definition matches (m : UriMatch) (payload uri : string) : bool :=
  match json_parse payload with
  | None => false
  | Some v =>
      let hit x := existsb (fun pattern => String.eqb (str_replace value_pattern x pattern) uri) (uris m) in
      match value_get v (payload_field m) with
      | Some (VString s) => hit s
      | Some (VNumber n) => hit (number_str n)
      | _ => false
      end
  end.

Definition event_from_payload (channel payload : string) (event_source : bool) : WatchEvent :=
  let field name := match json_parse payload with
                    | Some v => match value_get v name with Some x => as_str x | None => None end
                    | None => None
                    end in
  let (body, encoding) := event_body payload in
  {| event_id := None;
     event_type := if event_source then Some NOTIFICATION_EVENT_TYPE else None;
     event_occurred_at := None;
     data := if event_source then
               Some (VObject [("channel", VString channel); ("payload", body);
                              ("payloadEncoding", VString encoding)])
             else None;
     upstream_cursor := None; event_gap := false;
     event_user_id := field "user_id"; event_session_id := field "session_id" |}%string.

(** Whether a notification is a change of the watched URI. *)
Definition concerns (w : watch) (n : Notification) : bool :=
  match uri_match (w_spec w) with Some m => matches m (snd n) (w_uri w) | None => true end.

Definition notification_event (w : watch) (n : Notification) : WatchEvent :=
  event_from_payload (fst n) (snd n) (is_event_source (w_uri w)).

Definition lag_event (w : watch) : WatchEvent :=
  event_from_payload (channel (w_spec w)) EmptyString (is_event_source (w_uri w)).

(** * Steps *)

(** [notifications.recv()] and what the loop makes of it. *)
Definition read (w : watch) (log : list Notification) : option watch :=
  let oldest := (length log - NOTIFICATION_BUFFER)%nat in
  let advance pos es := mkWatch (w_uri w) (w_spec w) (w_listener w) (w_from w) pos (w_cancelled w)
                          (w_running w) (w_events w ++ es) in
  if Nat.ltb (w_pos w) oldest then Some (advance oldest [lag_event w])
  else match log !! w_pos w with
       | None => None
       | Some n => Some (advance (S (w_pos w)) (if concerns w n then [notification_event w n] else []))
       end.

(** The first part of a call of [watch]: the checks and the map lookup. *)
Definition start (s : state) (uri : string) (spec : ListenSpec) : call_state :=
  match validate spec with
  | Err e => Done (Err (WatchInvalidSpec (show_error e)))
  | Ok _ => match upgrade s (spec_key spec) with Some id => Holding id | None => Connecting end
  end.

Definition new_watch (k : call) (id pos : nat) : watch :=
  mkWatch (c_uri k) (c_spec k) id pos pos false true [].

Definition step (s : state) (a : label) : option state :=
  match a with
  | Watch uri spec => Some (set_calls (calls s ++ [mkCall uri spec (start s uri spec)]) s)
  | ConnectOk c =>
      match calls s !! c with
      | Some (mkCall _ spec Connecting) =>
          Some (set_call_state c (Connected (length (listeners s)))
                  (set_listeners (listeners s ++ [mkListener (spec_key spec) NotSpawned false []]) s))
      | _ => None
      end
  | ConnectErr c m =>
      match calls s !! c with
      | Some (mkCall _ _ Connecting) => Some (set_call_state c (Done (Err (WatchSubscribe m))) s)
      | _ => None
      end
  | Publish c =>
      match calls s !! c with
      | Some (mkCall _ spec (Connected id)) =>
          match upgrade s (spec_key spec) with
          | Some existing => Some (released id (set_call_state c (Holding existing) s))
          | None =>
              let kept := filter (fun kv => alive s (snd kv) = true) (map s) in
              Some (set_call_state c (Holding id)
                      (update_listener (set_task Listening) id (set_map (<[spec_key spec := id]> kept) s)))
          end
      | _ => None
      end
  | Subscribe c =>
      match calls s !! c with
      | Some (mkCall uri spec (Holding id)) =>
          match listeners s !! id with
          | Some l =>
              Some (set_watches (watches s ++ [new_watch (mkCall uri spec (Holding id)) id (length (l_log l))])
                      (set_call_state c (Done (Ok ())) s))
          | None => None
          end
      | _ => None
      end
  | Notify id payload =>
      match listeners s !! id with
      | Some (mkListener k Listening false log) => Some (update_listener (broadcast (snd k, payload)) id s)
      | _ => None
      end
  | RecvError id =>
      match listeners s !! id with
      | Some (mkListener _ Listening false _) => Some (update_listener (set_task Failed) id s)
      | _ => None
      end
  | TaskStop id =>
      match listeners s !! id with
      | Some (mkListener _ (Listening | Failed) true _) => Some (update_listener (set_task Returned) id s)
      | _ => None
      end
  | Receive i =>
      match watches s !! i with
      | Some w =>
          if w_running w && negb (w_cancelled w) then
            match listeners s !! w_listener w with
            | Some l => match read w (l_log l) with
                        | Some w' => Some (set_watches (<[i := w']> (watches s)) s)
                        | None => None
                        end
            | None => None
            end
          else None
      | None => None
      end
  | Cancel i =>
      match watches s !! i with
      | Some w => Some (set_watches (<[i := mkWatch (w_uri w) (w_spec w) (w_listener w) (w_from w) (w_pos w)
                                         true (w_running w) (w_events w)]> (watches s)) s)
      | None => None
      end
  | Stop i =>
      match watches s !! i with
      | Some w =>
          if w_running w && w_cancelled w then
            Some (released (w_listener w)
              (set_watches (<[i := mkWatch (w_uri w) (w_spec w) (w_listener w) (w_from w) (w_pos w)
                                         true false (w_events w)]> (watches s)) s))
          else None
      | None => None
      end
  end.

(** The states a sequence of steps leads to. *)
Inductive reachable : state -> Prop :=
| reach_init : reachable init
| reach_step s a s' : reachable s -> step s a = Some s' -> reachable s'.

(** * What a watch reports *)

(** The events of a watch over the notifications it passed: an event for each
    that concerns it, in order, except that a stretch it lagged behind gives one
    event. *)
Inductive delivers (w : watch) : list Notification -> list WatchEvent -> Prop :=
| del_nil : delivers w [] []
| del_event ns es n : delivers w ns es -> concerns w n = true ->
    delivers w (ns ++ [n]) (es ++ [notification_event w n])
| del_skip ns es n : delivers w ns es -> concerns w n = false -> delivers w (ns ++ [n]) es
| del_lag ns es missed : delivers w ns es -> missed <> [] ->
    delivers w (ns ++ missed) (es ++ [lag_event w]).

Lemma delivers_same w w' ns es :
  w_uri w = w_uri w' -> w_spec w = w_spec w' -> delivers w ns es -> delivers w' ns es.
Proof.
  intros Eu Es. assert (concerns w = concerns w') as Ec by (unfold concerns; by rewrite Eu, Es).
  assert (notification_event w = notification_event w') as En by (unfold notification_event; by rewrite Eu).
  assert (lag_event w = lag_event w') as El by (unfold lag_event; by rewrite Eu, Es).
  induction 1; rewrite ?En, ?El; constructor; try done; by rewrite <- Ec.
Qed.

(** Nothing that concerns the watch is passed over silently. *)
Lemma delivers_complete w ns es n :
  delivers w ns es -> n ∈ ns -> concerns w n = true -> notification_event w n ∈ es \/ lag_event w ∈ es.
Proof.
  induction 1 as [|ns es m _ IH Hm|ns es m _ IH Hm|ns es missed _ IH Hm]; intros Hn Hc.
  - by apply elem_of_nil in Hn.
  - apply elem_of_app in Hn as [Hn| ->%list_elem_of_singleton].
    + destruct (IH Hn Hc); [left|right]; apply elem_of_app; by left.
    + left. apply elem_of_app. right. by apply list_elem_of_singleton.
  - apply elem_of_app in Hn as [Hn| ->%list_elem_of_singleton]; [by apply IH|congruence].
  - apply elem_of_app in Hn as [Hn|_].
    + destruct (IH Hn Hc); [left|right]; apply elem_of_app; by left.
    + right. apply elem_of_app. right. by apply list_elem_of_singleton.
Qed.

(** And every event comes from such a notification or from a lag. *)
Lemma delivers_sound w ns es e :
  delivers w ns es -> e ∈ es ->
  (exists n, n ∈ ns /\ concerns w n = true /\ e = notification_event w n) \/ e = lag_event w.
Proof.
  induction 1 as [|ns es m _ IH Hm|ns es m _ IH Hm|ns es missed _ IH Hm]; intros He.
  - by apply elem_of_nil in He.
  - apply elem_of_app in He as [He| ->%list_elem_of_singleton].
    + destruct (IH He) as [(n & Hn & ?)|?]; [left; exists n; split; [apply elem_of_app; by left|done]|by right].
    + left. exists m. split; [apply elem_of_app; right; by apply list_elem_of_singleton|done].
  - destruct (IH He) as [(n & Hn & ?)|?]; [left; exists n; split; [apply elem_of_app; by left|done]|by right].
  - apply elem_of_app in He as [He| ->%list_elem_of_singleton]; [|by right].
    destruct (IH He) as [(n & Hn & ?)|?]; [left; exists n; split; [apply elem_of_app; by left|done]|by right].
Qed.

(** The part of a log between two positions. *)
Definition slice {A} (i j : nat) (l : list A) : list A := take (j - i) (drop i l).

Lemma log_slice_app {A} i j (l l' : list A) : (j <= length l)%nat -> slice i j (l ++ l') = slice i j l.
Proof.
  intros Hj. unfold slice. destruct (Nat.le_gt_cases i (length l)).
  - rewrite drop_app_le by done. rewrite take_app_le; [done|]. rewrite length_drop. lia.
  - replace (j - i)%nat with 0%nat by lia. by rewrite !take_0.
Qed.

Lemma slice_split {A} i j k (l : list A) :
  (i <= j <= k)%nat -> slice i k l = slice i j l ++ slice j k l.
Proof.
  intros H. unfold slice. replace (k - i)%nat with ((j - i) + (k - j))%nat by lia.
  rewrite <- (take_take_drop (drop i l) (j - i) (k - j)), drop_drop. do 3 f_equal. lia.
Qed.

Lemma slice_nil {A} i (l : list A) : slice i i l = [].
Proof. unfold slice. by rewrite Nat.sub_diag. Qed.

Lemma slice_one {A} i (l : list A) x : l !! i = Some x -> slice i (S i) l = [x].
Proof.
  intros Hx. unfold slice. rewrite (drop_S _ _ _ Hx). by replace (S i - i)%nat with 1%nat by lia.
Qed.

Definition passed (w : watch) (log : list Notification) : Prop :=
  (w_from w <= w_pos w <= length log)%nat /\ delivers w (slice (w_from w) (w_pos w) log) (w_events w).

Lemma read_passed w log w' :
  passed w log -> read w log = Some w' ->
  passed w' log /\ w_uri w' = w_uri w /\ w_spec w' = w_spec w /\ w_listener w' = w_listener w /\
  w_running w' = w_running w /\ w_cancelled w' = w_cancelled w /\ w_from w' = w_from w.
Proof.
  intros [Hr Hd]. unfold read. destruct (Nat.ltb_spec (w_pos w) (length log - NOTIFICATION_BUFFER)) as [Hl|Hl].
  - intros [= <-]. split_and!; try done. split; cbn [w_from w_pos w_events]; [lia|].
    rewrite (slice_split _ (w_pos w)) by lia.
    eapply (delivers_same w); [done..|]. apply del_lag; [done|]. intros E.
    apply (f_equal length) in E. unfold slice in E. rewrite length_take, length_drop in E. cbn in E. lia.
  - destruct (log !! w_pos w) as [n|] eqn:En; [|done]. intros [= <-].
    pose proof (lookup_lt_Some _ _ _ En). split_and!; try done. split; cbn [w_from w_pos w_events]; [lia|].
    rewrite (slice_split _ (w_pos w)), (slice_one _ _ _ En) by lia.
    eapply (delivers_same w); [done..|]. destruct (concerns w n) eqn:Ec.
    + by apply del_event.
    + rewrite app_nil_r. by apply del_skip.
Qed.

(** A watch behind its log can read. *)
Lemma read_progress w log :
  (w_pos w < length log)%nat -> exists w', read w log = Some w' /\ (w_pos w < w_pos w' <= length log)%nat.
Proof.
  intros H. unfold read. destruct (Nat.ltb_spec (w_pos w) (length log - NOTIFICATION_BUFFER)) as [Hl|Hl].
  - eexists. split; [reflexivity|]. cbn [w_pos]. lia.
  - destruct (lookup_lt_is_Some_2 log (w_pos w) H) as [n ->]. eexists. split; [reflexivity|]. cbn [w_pos]. lia.
Qed.

(** * The invariant *)

Lemma count_insert {A} (f : A -> bool) l i x y :
  l !! i = Some x ->
  (length (List.filter f (<[i := y]> l)) + Nat.b2n (f x) = length (List.filter f l) + Nat.b2n (f y))%nat.
Proof.
  revert i. induction l as [|z l IH]; intros [|i]; try done; cbn [lookup list_lookup].
  - intros [= <-]. cbn. destruct (f z), (f y); cbn; lia.
  - intros Hx. specialize (IH i Hx). change (<[S i := y]> (z :: l)) with (z :: <[i := y]> l).
    cbn [List.filter]. destruct (f z); cbn [length]; lia.
Qed.

Lemma count_pos {A} (f : A -> bool) l i x : l !! i = Some x -> f x = true -> (0 < length (List.filter f l))%nat.
Proof.
  intros Hx Hf. destruct (List.filter f l) eqn:E; [|cbn; lia].
  assert (In x (List.filter f l)) as Hin.
  { apply filter_In. split; [|done]. apply list_elem_of_In. by eapply list_elem_of_lookup_2. }
  by rewrite E in Hin.
Qed.

Lemma count_pos_inv {A} (f : A -> bool) l :
  (0 < length (List.filter f l))%nat -> exists i x, l !! i = Some x /\ f x = true.
Proof.
  destruct (List.filter f l) as [|x l'] eqn:E; [cbn; lia|]. intros _.
  assert (In x (List.filter f l)) as Hin by (rewrite E; by left).
  apply filter_In in Hin as [Hin Hf]. apply list_elem_of_In, list_elem_of_lookup in Hin as [i Hi]. by exists i, x.
Qed.

Definition with_state (k : call) (st : call_state) : call := mkCall (c_uri k) (c_spec k) st.

Lemma holders_set_call s c k st id :
  calls s !! c = Some k ->
  (holders (set_call_state c st s) id + Nat.b2n (call_holds id k) =
   holders s id + Nat.b2n (call_holds id (with_state k st)))%nat.
Proof.
  intros Hc. unfold holders, set_call_state. rewrite Hc. cbn [calls watches set_calls].
  pose proof (count_insert (call_holds id) _ _ _ (with_state k st) Hc). unfold with_state in *. lia.
Qed.

Lemma holders_call_pos s c k id : calls s !! c = Some k -> call_holds id k = true -> (0 < holders s id)%nat.
Proof. intros Hc Hh. pose proof (count_pos _ _ _ _ Hc Hh). unfold holders. lia. Qed.

Lemma holders_watch_pos s i w id : watches s !! i = Some w -> watch_holds id w = true -> (0 < holders s id)%nat.
Proof. intros Hc Hh. pose proof (count_pos _ _ _ _ Hc Hh). unfold holders. lia. Qed.

Definition spawned (s : state) (id : nat) (spec : ListenSpec) : Prop :=
  exists l, listeners s !! id = Some l /\ l_key l = spec_key spec /\ l_task l <> NotSpawned.

Definition call_ok (s : state) (k : call) : Prop :=
  match c_state k with
  | Connected id => holders s id = 1%nat /\
      exists l, listeners s !! id = Some l /\ l_key l = spec_key (c_spec k) /\ l_task l = NotSpawned
  | Holding id => spawned s id (c_spec k)
  | _ => True
  end.

Definition watch_ok (s : state) (w : watch) : Prop :=
  exists l, listeners s !! w_listener w = Some l /\ l_key l = spec_key (w_spec w) /\ l_task l <> NotSpawned /\
    passed w (l_log l).

(** [o] is an owner's listener between the owner's end and its drop. *)
Record Inv (o : option nat) (s : state) : Prop := {
  inv_map : forall k id, map s !! k = Some id ->
    exists l, listeners s !! id = Some l /\ l_key l = k /\ l_task l <> NotSpawned;
  inv_call : forall c k, calls s !! c = Some k -> call_ok s k;
  inv_pub : forall id l, listeners s !! id = Some l -> l_task l <> NotSpawned -> (0 < holders s id)%nat ->
    map s !! l_key l = Some id;
  inv_dead : forall id l, listeners s !! id = Some l -> l_cancelled l = true -> holders s id = 0%nat;
  inv_fired : forall id l, listeners s !! id = Some l -> holders s id = 0%nat -> o <> Some id -> l_cancelled l = true;
  inv_ret : forall id l, listeners s !! id = Some l -> l_task l = Returned -> l_cancelled l = true;
  inv_watch : forall i w, watches s !! i = Some w -> watch_ok s w;
}.

Lemma alive_pos s id : alive s id = true <-> (0 < holders s id)%nat.
Proof. unfold alive. destruct (Nat.eqb_spec (holders s id) 0); cbn; split; (lia || done). Qed.

Lemma inv_keep o s id : Inv o s -> (0 < holders s id)%nat -> o = Some id -> Inv None s.
Proof.
  intros [] Hp ->. split; try done. intros id' l Hl Hz _. eapply inv_fired0; [done..|]. intros [= ->]. lia.
Qed.

Lemma upgrade_ok o s spec id :
  Inv o s -> upgrade s (spec_key spec) = Some id -> spawned s id spec /\ (0 < holders s id)%nat.
Proof.
  intros HI. unfold upgrade. destruct (map s !! spec_key spec) as [i|] eqn:Em; [|done].
  destruct (alive s i) eqn:Ea; [|done]. intros [= <-]. apply alive_pos in Ea. split; [|done].
  destruct (inv_map _ _ HI _ _ Em) as (l & ? & ? & ?). by exists l.
Qed.

Lemma upgrade_none o s spec id l :
  Inv o s -> upgrade s (spec_key spec) = None -> listeners s !! id = Some l -> l_key l = spec_key spec ->
  l_task l <> NotSpawned -> holders s id = 0%nat.
Proof.
  intros HI Hu Hl Hk Ht. destruct (Nat.eq_dec (holders s id) 0%nat) as [|Hn]; [done|].
  assert (0 < holders s id)%nat as Hp by lia. pose proof (inv_pub _ _ HI id l Hl Ht Hp) as Hm.
  unfold upgrade in Hu. rewrite <- Hk, Hm in Hu. apply alive_pos in Hp. by rewrite Hp in Hu.
Qed.

Lemma update_lookup f id s j :
  listeners (update_listener f id s) !! j =
  if decide (j = id) then f <$> (listeners s !! j) else listeners s !! j.
Proof.
  unfold update_listener. destruct (listeners s !! id) as [l|] eqn:El; cbn [listeners set_listeners].
  - destruct (decide (j = id)) as [->|Hne].
    + rewrite El, list_lookup_insert_eq; [done|]. by eapply lookup_lt_Some.
    + by rewrite list_lookup_insert_ne.
  - destruct (decide (j = id)) as [->|]; [by rewrite El|done].
Qed.

Lemma update_frame f id s :
  map (update_listener f id s) = map s /\ calls (update_listener f id s) = calls s /\
  watches (update_listener f id s) = watches s.
Proof. unfold update_listener. by destruct (listeners s !! id). Qed.

Lemma update_holders f id s j : holders (update_listener f id s) j = holders s j.
Proof. unfold holders. by destruct (update_frame f id s) as (_ & -> & ->). Qed.

(** A connection's task can change its own state, extend its log, and fire its
    token once no one owns it. *)
Definition grows (s : state) (id : nat) (l l' : SharedListener) : Prop :=
  l_key l' = l_key l /\ (l_task l' = NotSpawned <-> l_task l = NotSpawned) /\
  (exists more, l_log l' = l_log l ++ more) /\
  (l_cancelled l = true -> l_cancelled l' = true) /\ (l_cancelled l' = true -> holders s id = 0%nat) /\
  (l_task l' = Returned -> l_cancelled l' = true).

Lemma update_inv o o' f id s :
  Inv o s -> (forall l, listeners s !! id = Some l -> grows s id l (f l)) ->
  (o' = o \/ o = Some id /\ forall l, l_cancelled (f l) = true) -> Inv o' (update_listener f id s).
Proof.
  intros HI Hf Ho. destruct (update_frame f id s) as (Em & Ec & Ew).
  assert (forall j l', listeners (update_listener f id s) !! j = Some l' -> exists l, listeners s !! j = Some l /\
            (j = id /\ l' = f l /\ grows s id l l' \/ j <> id /\ l' = l)) as Hback.
  { intros j l'. rewrite update_lookup. destruct (decide (j = id)) as [->|Hne].
    - destruct (listeners s !! id) as [l|] eqn:El; [|done]. intros [= <-]. exists l. auto 6.
    - intros Hl. exists l'. auto. }
  assert (forall j l, listeners s !! j = Some l -> exists l', listeners (update_listener f id s) !! j = Some l' /\
            l_key l' = l_key l /\ (l_task l' = NotSpawned <-> l_task l = NotSpawned) /\
            exists more, l_log l' = l_log l ++ more) as Hfwd.
  { intros j l Hl. rewrite update_lookup, Hl. destruct (decide (j = id)) as [->|].
    - destruct (Hf l Hl) as (? & ? & ? & _). exists (f l). auto.
    - exists l. split_and!; try done. exists []. by rewrite app_nil_r. }
  split.
  - rewrite Em. intros k j Hk. destruct (inv_map _ _ HI k j Hk) as (l & Hl & <- & Ht).
    destruct (Hfwd j l Hl) as (l' & ? & ? & Hi & _). exists l'. rewrite Hi. auto.
  - rewrite Ec. intros c k Hk. pose proof (inv_call _ _ HI c k Hk) as Hc. unfold call_ok, spawned in *.
    destruct (c_state k) as [|j|j|]; try done.
    + rewrite update_holders. destruct Hc as (Hh & l & Hl & ? & Ht). split; [done|].
      destruct (Hfwd j l Hl) as (l' & ? & Hk' & Hi & _). exists l'. rewrite Hk', Hi. auto.
    + destruct Hc as (l & Hl & ? & Ht). destruct (Hfwd j l Hl) as (l' & ? & Hk' & Hi & _). exists l'. rewrite Hk', Hi. auto.
  - rewrite Em. intros j l' Hl' Ht Hh. rewrite update_holders in Hh.
    destruct (Hback j l' Hl') as (l & Hl & [(-> & _ & Hk & Hi & _)|(_ & ->)]).
    + rewrite Hk. apply (inv_pub _ _ HI id l Hl); [by rewrite <- Hi|done].
    + by apply (inv_pub _ _ HI j l).
  - intros j l' Hl' Hc. rewrite update_holders.
    destruct (Hback j l' Hl') as (l & Hl & [(-> & _ & Hg)|(_ & ->)]).
    + destruct Hg as (_ & _ & _ & _ & Hz & _). auto.
    + by apply (inv_dead _ _ HI j l).
  - intros j l' Hl' Hz Hne. rewrite update_holders in Hz.
    destruct (Hback j l' Hl') as (l & Hl & [(-> & El & Hg)|(Hj & ->)]).
    + destruct Ho as [->|[_ Hfire]]; [|by rewrite El]. destruct Hg as (_ & _ & _ & Hm & _).
      apply Hm. by apply (inv_fired _ _ HI id l).
    + apply (inv_fired _ _ HI j l); [done..|]. destruct Ho as [->|[-> _]]; [done|congruence].
  - intros j l' Hl' Hr. destruct (Hback j l' Hl') as (l & Hl & [(-> & _ & Hg)|(_ & ->)]).
    + destruct Hg as (_ & _ & _ & _ & _ & Hr'). auto.
    + by apply (inv_ret _ _ HI j l).
  - rewrite Ew. intros i w Hw. destruct (inv_watch _ _ HI i w Hw) as (l & Hl & Hk & Ht & [Hr Hd]).
    destruct (Hfwd _ l Hl) as (l' & ? & Hk' & Hi & more & Hlog). exists l'. rewrite Hi, Hk', Hlog.
    split_and!; [done..|]. split; [rewrite length_app; lia|]. by rewrite log_slice_app by lia.
Qed.

Lemma released_inv id s : Inv (Some id) s -> Inv None (released id s).
Proof.
  intros HI. unfold released. destruct (alive s id) eqn:Ea.
  - apply alive_pos in Ea. by apply (inv_keep (Some id) s id).
  - assert (holders s id = 0%nat) as Hz.
    { destruct (Nat.eq_dec (holders s id) 0%nat) as [|Hn]; [done|]. assert (alive s id = true); [apply alive_pos; lia|congruence]. }
    apply (update_inv (Some id)); [done| |right; by split]. intros l Hl. unfold grows, fire. cbn.
    split_and!; try done. exists []. by rewrite app_nil_r.
Qed.

(** ** Calls *)

(** A state a call may move to while it owns nothing new, or a listener that
    is owned already. *)
Definition call_target (s : state) (spec : ListenSpec) (st : call_state) : Prop :=
  match st with
  | Connected _ => False
  | Holding id => spawned s id spec /\ (0 < holders s id)%nat
  | _ => True
  end.

Lemma target_holds s spec st id uri :
  call_target s spec st -> call_holds id (mkCall uri spec st) = true ->
  st = Holding id /\ spawned s id spec /\ (0 < holders s id)%nat.
Proof.
  unfold call_holds. cbn. destruct st as [|i|i|]; try done. intros [Hs Hp] ->%Nat.eqb_eq. auto.
Qed.

(** A connection of a call in flight is its own. *)
Lemma connected_only o s c k id c' k' :
  Inv o s -> calls s !! c = Some k -> c_state k = Connected id -> calls s !! c' = Some k' ->
  call_holds id k' = true -> c' = c.
Proof.
  intros HI Hc Hs Hc' Hh. destruct (decide (c' = c)) as [|Hne]; [done|]. exfalso.
  pose proof (inv_call _ _ HI c k Hc) as Hok. unfold call_ok in Hok. rewrite Hs in Hok. destruct Hok as [Hone _].
  pose proof (holders_set_call s c k (Done (Ok ())) id Hc) as Hcount.
  assert (call_holds id k = true) as Hk by (unfold call_holds; rewrite Hs; apply Nat.eqb_refl).
  rewrite Hk, Hone in Hcount. cbn in Hcount.
  assert (0 < holders (set_call_state c (Done (Ok ())) s) id)%nat; [|lia].
  eapply holders_call_pos; [|exact Hh]. unfold set_call_state. rewrite Hc. cbn [calls set_calls].
  by rewrite list_lookup_insert_ne by done.
Qed.

Lemma set_call_inv s c k st :
  Inv None s -> calls s !! c = Some k -> call_target s (c_spec k) st ->
  Inv (match c_state k with Connected id | Holding id => Some id | _ => None end) (set_call_state c st s).
Proof.
  intros HI Hc Ht. pose proof (fun id => holders_set_call s c k st id Hc) as Hcount.
  assert (forall id, call_holds id (with_state k st) = true -> st = Holding id /\ spawned s id (c_spec k) /\ (0 < holders s id)%nat)
    as Hnew by (intros id; apply target_holds; done).
  assert (forall id, (0 < holders (set_call_state c st s) id)%nat -> (0 < holders s id)%nat) as Hdown.
  { intros id Hp. specialize (Hcount id). destruct (call_holds id (with_state k st)) eqn:E; [by apply Hnew in E as (_ & _ & ?)|cbn [Nat.b2n] in Hcount; lia]. }
  unfold set_call_state in Hdown, Hcount |- *. rewrite Hc in Hdown |- *. setoid_rewrite Hc in Hcount. split; cbn [map calls watches listeners set_calls].
  - apply (inv_map _ _ HI).
  - intros c' k' Hk'. destruct (decide (c' = c)) as [->|Hne].
    + rewrite list_lookup_insert_eq in Hk' by (by eapply lookup_lt_Some). injection Hk' as <-.
      unfold call_ok, spawned. cbn [c_state c_spec]. destruct st as [|i|i|]; try done. by destruct Ht.
    + rewrite list_lookup_insert_ne in Hk' by done. pose proof (inv_call _ _ HI c' k' Hk') as Hok.
      unfold call_ok, spawned in *. destruct (c_state k') as [|i|i|] eqn:Es; try done.
      destruct Hok as [Hone (l & Hl & Hkey & Htask)]. split; [|by exists l]. rewrite <- Hone.
      specialize (Hcount i). unfold with_state in *. destruct (call_holds i k) eqn:Ek.
      { exfalso. apply Hne. symmetry. by apply (connected_only None s c' k' i c k). }
      destruct (call_holds i _) eqn:En in Hcount.
      { apply Hnew in En as (_ & (l' & Hl' & _ & ?) & _). congruence. }
      cbn [Nat.b2n] in Hcount. lia.
  - intros id l Hl Hs Hp. apply (inv_pub _ _ HI id l Hl Hs). by apply Hdown.
  - intros id l Hl Hd. pose proof (inv_dead _ _ HI id l Hl Hd) as Hz. specialize (Hdown id).
    destruct (Nat.eq_dec (holders (set_calls (<[c:=mkCall (c_uri k) (c_spec k) st]> (calls s)) s) id) 0%nat); [done|lia].
  - intros id l Hl Hz Ho. apply (inv_fired _ _ HI id l Hl); [|done]. specialize (Hcount id). rewrite Hz in Hcount.
    destruct (call_holds id k) eqn:Ek.
    + exfalso. apply Ho. unfold call_holds in Ek. destruct (c_state k); try done; by apply Nat.eqb_eq in Ek as ->.
    + cbn in Hcount. destruct (call_holds id (with_state k st)) eqn:En; [|cbn [Nat.b2n] in Hcount; lia].
      apply Hnew in En as (_ & _ & ?). cbn [Nat.b2n] in Hcount. lia.
  - apply (inv_ret _ _ HI).
  - apply (inv_watch _ _ HI).
Qed.

Lemma start_target s uri spec :
  Inv None s -> call_target s spec (start s uri spec).
Proof.
  intros HI. unfold start. destruct (validate spec); [|done].
  destruct (upgrade s (spec_key spec)) as [id|] eqn:E; [|done]. by apply (upgrade_ok None).
Qed.

Lemma holders_snoc_call s k id :
  holders (set_calls (calls s ++ [k]) s) id = (holders s id + Nat.b2n (call_holds id k))%nat.
Proof.
  unfold holders. cbn [calls watches set_calls]. rewrite List.filter_app, length_app. cbn.
  destruct (call_holds id k); cbn; lia.
Qed.

Lemma add_call_inv s uri spec st :
  Inv None s -> call_target s spec st -> Inv None (set_calls (calls s ++ [mkCall uri spec st]) s).
Proof.
  intros HI Ht. pose proof (fun id => holders_snoc_call s (mkCall uri spec st) id) as Hcount.
  pose proof (fun id => target_holds s spec st id uri Ht) as Hnew.
  assert (forall id, holders s id = 0%nat -> holders (set_calls (calls s ++ [mkCall uri spec st]) s) id = 0%nat) as Hzero.
  { intros id Hz. rewrite Hcount, Hz. destruct (call_holds id _) eqn:E; [|done]. apply Hnew in E as (_ & _ & ?). lia. }
  split; cbn [map calls watches listeners set_calls].
  - apply (inv_map _ _ HI).
  - intros c k Hk. apply lookup_app_Some in Hk as [Hk|[_ Hk]].
    + pose proof (inv_call _ _ HI c k Hk) as Hok. unfold call_ok, spawned in *.
      destruct (c_state k) as [|i|i|]; try done. destruct Hok as [Hone (l & Hl & ? & Htask)].
      split; [|by exists l]. rewrite Hcount, Hone. destruct (call_holds i _) eqn:E; [|done].
      apply Hnew in E as (_ & (l' & Hl' & _ & ?) & _). congruence.
    + apply list_lookup_singleton_Some in Hk as [_ <-]. unfold call_ok. cbn.
      destruct st as [|i|i|]; try done. by destruct Ht.
  - intros id l Hl Hs Hp. apply (inv_pub _ _ HI id l Hl Hs). specialize (Hzero id).
    destruct (holders s id); [rewrite Hzero in Hp by done; lia|lia].
  - intros id l Hl Hd. by apply Hzero, (inv_dead _ _ HI id l).
  - intros id l Hl Hz _. apply (inv_fired _ _ HI id l Hl); [|done]. rewrite Hcount in Hz. lia.
  - apply (inv_ret _ _ HI).
  - apply (inv_watch _ _ HI).
Qed.

(** A listener no one can hold yet. *)
Lemma fresh_holders o s id : Inv o s -> (length (listeners s) <= id)%nat -> holders s id = 0%nat.
Proof.
  intros HI Hid. destruct (Nat.eq_dec (holders s id) 0%nat) as [|Hn]; [done|]. exfalso.
  assert (exists l, listeners s !! id = Some l) as [l Hl]; [|apply lookup_lt_Some in Hl; lia].
  unfold holders in Hn. destruct (length (List.filter (call_holds id) (calls s))) eqn:Ec.
  - destruct (count_pos_inv (watch_holds id) (watches s)) as (i & w & Hw & Hh); [lia|].
    destruct (inv_watch _ _ HI i w Hw) as (l & Hl & _). unfold watch_holds in Hh.
    apply andb_true_iff in Hh as [_ <-%Nat.eqb_eq]. by exists l.
  - destruct (count_pos_inv (call_holds id) (calls s)) as (c & k & Hk & Hh); [lia|].
    pose proof (inv_call _ _ HI c k Hk) as Hok. unfold call_ok, spawned, call_holds in *.
    destruct (c_state k) as [|i|i|]; try done; apply Nat.eqb_eq in Hh as ->.
    + destruct Hok as (_ & l & Hl & _). by exists l.
    + destruct Hok as (l & Hl & _). by exists l.
Qed.

Lemma connect_inv s c uri spec :
  Inv None s -> calls s !! c = Some (mkCall uri spec Connecting) ->
  Inv None (set_call_state c (Connected (length (listeners s)))
              (set_listeners (listeners s ++ [mkListener (spec_key spec) NotSpawned false []]) s)).
Proof.
  intros HI Hc. set (n := length (listeners s)). set (s1 := set_listeners _ s).
  pose proof (fun id => holders_set_call s1 c _ (Connected n) id Hc) as Hcount.
  cbn [call_holds c_state with_state] in Hcount.
  assert (forall id, holders (set_call_state c (Connected n) s1) id = (holders s id + Nat.b2n (Nat.eqb n id))%nat) as Hh.
  { intros id. specialize (Hcount id). change (holders s1 id) with (holders s id) in Hcount. cbn [Nat.b2n] in Hcount. lia. }
  pose proof (fresh_holders None s n HI (Nat.le_refl _)) as Hfresh.
  assert (forall id l, listeners s !! id = Some l -> holders (set_call_state c (Connected n) s1) id = holders s id) as Hold.
  { intros id l Hl. rewrite Hh. apply lookup_lt_Some in Hl. destruct (Nat.eqb_spec n id); [unfold n in *; lia|cbn; lia]. }
  assert (forall id l, listeners s !! id = Some l -> listeners s1 !! id = Some l) as Hlift.
  { intros id l Hl. cbn. by rewrite lookup_app_l by (by eapply lookup_lt_Some). }
  assert (forall id l, listeners s1 !! id = Some l ->
            listeners s !! id = Some l \/ id = n /\ l = mkListener (spec_key spec) NotSpawned false []) as Hback.
  { intros id l Hl. apply lookup_app_Some in Hl as [Hl|[Hge Hl]]; [by left|].
    apply list_lookup_singleton_Some in Hl as [Hi <-]. right. split; [unfold n; lia|done]. }
  unfold set_call_state in Hh, Hold |- *. change (calls s1) with (calls s) in *. setoid_rewrite Hc in Hh.
  setoid_rewrite Hc in Hold. rewrite Hc. cbn [c_uri c_spec] in Hh, Hold |- *.
  split; cbn [map calls watches listeners set_calls c_uri c_spec].
  - intros k id Hk. destruct (inv_map _ _ HI k id Hk) as (l & Hl & ? & ?). exists l. split; [by apply Hlift|done].
  - intros c' k' Hk'. destruct (decide (c' = c)) as [->|Hne].
    + rewrite list_lookup_insert_eq in Hk' by (by eapply lookup_lt_Some). injection Hk' as <-.
      unfold call_ok. cbn [c_state c_spec]. rewrite Hh, Hfresh, Nat.eqb_refl. split; [done|].
      eexists. split; [by apply list_lookup_middle|done].
    + rewrite list_lookup_insert_ne in Hk' by done. pose proof (inv_call _ _ HI c' k' Hk') as Hok.
      unfold call_ok, spawned in *. destruct (c_state k') as [|i|i|]; try done.
      * destruct Hok as [Hone (l & Hl & ? & ?)]. rewrite (Hold i l Hl). split; [done|]. exists l. split; [by apply Hlift|done].
      * destruct Hok as (l & Hl & ? & ?). exists l. split; [by apply Hlift|done].
  - intros id l Hl Hs Hp. destruct (Hback id l Hl) as [Hl'|[-> ->]]; [|done].
    rewrite (Hold id l Hl') in Hp. by apply (inv_pub _ _ HI id l).
  - intros id l Hl Hd. destruct (Hback id l Hl) as [Hl'|[-> ->]]; [|done].
    rewrite (Hold id l Hl'). by apply (inv_dead _ _ HI id l).
  - intros id l Hl Hz _. destruct (Hback id l Hl) as [Hl'|[-> ->]].
    + rewrite (Hold id l Hl') in Hz. by apply (inv_fired _ _ HI id l).
    + rewrite Hh, Nat.eqb_refl in Hz. cbn in Hz. lia.
  - intros id l Hl Hr. destruct (Hback id l Hl) as [Hl'|[-> ->]]; [|done]. by apply (inv_ret _ _ HI id l).
  - intros i w Hw. destruct (inv_watch _ _ HI i w Hw) as (l & Hl & ?). exists l. split; [by apply Hlift|done].
Qed.

Lemma publish_inv s c uri spec id :
  Inv None s -> calls s !! c = Some (mkCall uri spec (Connected id)) -> upgrade s (spec_key spec) = None ->
  Inv None (set_call_state c (Holding id)
    (update_listener (set_task Listening) id
       (set_map (<[spec_key spec := id]> (filter (fun kv => alive s (snd kv) = true) (map s))) s))).
Proof.
  intros HI Hc Hu. set (m := <[spec_key spec := id]> _). set (s1 := update_listener _ id (set_map m s)).
  destruct (update_frame (set_task Listening) id (set_map m s)) as (Em & Ec & Ew). fold s1 in Em, Ec, Ew.
  cbn [map calls watches set_map] in Em, Ec, Ew.
  assert (calls s1 !! c = Some (mkCall uri spec (Connected id))) as Hc1 by (by rewrite Ec).
  assert (forall j, holders (set_call_state c (Holding id) s1) j = holders s j) as Hh.
  { intros j. pose proof (holders_set_call s1 c _ (Holding id) j Hc1) as Hcount.
    unfold s1 in Hcount at 2. rewrite update_holders in Hcount. cbn [call_holds c_state with_state] in Hcount.
    change (holders (set_map m s) j) with (holders s j) in Hcount. unfold call_holds in Hcount. cbn in Hcount. lia. }
  assert (forall j, listeners s1 !! j = if decide (j = id) then set_task Listening <$> listeners s !! j else listeners s !! j)
    as Hls by (intros j; exact (update_lookup (set_task Listening) id (set_map m s) j)).
  pose proof (inv_call _ _ HI c _ Hc) as Hok. unfold call_ok in Hok. cbn [c_state c_spec] in Hok.
  destruct Hok as [Hone (lid & Hlid & Hkid & Htid)].
  assert (forall j l, listeners s !! j = Some l -> exists l', listeners s1 !! j = Some l' /\ l_key l' = l_key l /\
            l_log l' = l_log l /\ (l_task l <> NotSpawned -> l_task l' <> NotSpawned) /\ (j <> id -> l' = l)) as Hfwd.
  { intros j l Hl. rewrite Hls, Hl. destruct (decide (j = id)); eexists; (split; [reflexivity|]); by split_and!. }
  assert (forall c', listeners (set_call_state c' (Holding id) s1) = listeners s1) as Els
    by (intros c'; unfold set_call_state; by destruct (calls s1 !! c')).
  split.
  - unfold set_call_state. rewrite Hc1. cbn [map set_calls listeners]. rewrite Em. intros k j Hk.
    unfold m in Hk. apply lookup_insert_Some in Hk as [[<- <-]|[_ Hk]].
    + rewrite Hls, decide_True, Hlid by done. eexists. split; [reflexivity|]. by split.
    + apply map_lookup_filter_Some in Hk as [Hk _]. destruct (inv_map _ _ HI k j Hk) as (l & Hl & <- & Ht).
      destruct (Hfwd j l Hl) as (l' & ? & ? & _ & ? & _). exists l'. auto.
  - unfold set_call_state. rewrite Hc1. cbn [calls set_calls]. rewrite Ec. intros c' k' Hk'.
    destruct (decide (c' = c)) as [->|Hne].
    + rewrite list_lookup_insert_eq in Hk' by (by eapply lookup_lt_Some). injection Hk' as <-.
      unfold call_ok, spawned. cbn [c_state c_spec listeners set_calls]. rewrite Hls, decide_True, Hlid by done.
      eexists. split; [reflexivity|]. by split.
    + rewrite list_lookup_insert_ne in Hk' by done. pose proof (inv_call _ _ HI c' k' Hk') as Hok.
      unfold call_ok, spawned in *. cbn [listeners set_calls]. destruct (c_state k') as [|j|j|] eqn:Es; try done.
      * destruct Hok as [Hj (l & Hl & Hk & Ht)]. split.
        { specialize (Hh j). unfold set_call_state in Hh. rewrite Hc1, Ec in Hh. cbn [c_uri c_spec] in *. lia. }
        destruct (decide (j = id)) as [->|Hji].
        { exfalso. apply Hne. eapply (connected_only None s c); [done..|]. unfold call_holds. rewrite Es. apply Nat.eqb_refl. }
        rewrite Hls, decide_False by done. by exists l.
      * destruct Hok as (l & Hl & <- & Ht). destruct (Hfwd j l Hl) as (l' & ? & ? & _ & ? & _). exists l'. auto.
  - intros j l' Hl' Ht Hp. rewrite Hh in Hp. rewrite Els in Hl'.
    unfold set_call_state. rewrite Hc1. cbn [map set_calls]. rewrite Em. unfold m.
    rewrite Hls in Hl'. destruct (decide (j = id)) as [->|Hj].
    + rewrite Hlid in Hl'. injection Hl' as <-. cbn [l_key set_task]. rewrite Hkid. apply lookup_insert_eq.
    + rewrite lookup_insert_ne.
      * apply map_lookup_filter_Some. split; [by apply (inv_pub _ _ HI j l')|by apply alive_pos].
      * intros E. pose proof (upgrade_none None s spec j l' HI Hu Hl' (eq_sym E) Ht). lia.
  - intros j l' Hl' Hd. rewrite Hh. rewrite Els, Hls in Hl'. destruct (decide (j = id)) as [->|].
    + rewrite Hlid in Hl'. injection Hl' as <-. by apply (inv_dead _ _ HI id lid).
    + by apply (inv_dead _ _ HI j l').
  - intros j l' Hl' Hz _. rewrite Hh in Hz. rewrite Els, Hls in Hl'. destruct (decide (j = id)) as [->|]; [lia|].
    by apply (inv_fired _ _ HI j l').
  - intros j l' Hl' Hr. rewrite Els, Hls in Hl'. destruct (decide (j = id)) as [->|].
    + rewrite Hlid in Hl'. by injection Hl' as <-.
    + by apply (inv_ret _ _ HI j l').
  - unfold set_call_state. rewrite Hc1. cbn [watches set_calls]. rewrite Ew. intros i w Hw.
    destruct (inv_watch _ _ HI i w Hw) as (l & Hl & Hk & Ht & Hp).
    destruct (Hfwd _ l Hl) as (l' & ? & Ek & El & ? & _). exists l'. rewrite Ek, El. auto.
Qed.

(** ** Watches *)

Lemma watch_inv s i w w' o :
  Inv None s -> watches s !! i = Some w -> w_listener w' = w_listener w -> w_spec w' = w_spec w ->
  (forall l, listeners s !! w_listener w = Some l -> passed w' (l_log l)) ->
  (o = None /\ w_running w' = w_running w \/ o = Some (w_listener w) /\ w_running w' = false) ->
  Inv o (set_watches (<[i := w']> (watches s)) s).
Proof.
  intros HI Hw El Es Hp Ho. set (s' := set_watches _ s).
  assert (forall j, holders s' j + Nat.b2n (watch_holds j w) = holders s j + Nat.b2n (watch_holds j w'))%nat as Hcount.
  { intros j. unfold holders, s'. cbn [calls watches set_watches].
    pose proof (count_insert (watch_holds j) _ _ _ w' Hw). lia. }
  assert (forall j, watch_holds j w' = true -> watch_holds j w = true) as Hsub.
  { intros j. unfold watch_holds. rewrite El. destruct Ho as [[_ ->]|[_ ->]]; [done|]. by cbn. }
  assert (forall j, holders s' j <= holders s j)%nat as Hle.
  { intros j. specialize (Hcount j). specialize (Hsub j). destruct (watch_holds j w'), (watch_holds j w); cbn [Nat.b2n] in Hcount; try lia.
    }
  split; cbn [map calls watches listeners set_watches s'].
  - apply (inv_map _ _ HI).
  - intros c k Hk. pose proof (inv_call _ _ HI c k Hk) as Hok. unfold call_ok, spawned in *.
    destruct (c_state k) as [|j|j|]; try done. destruct Hok as [Hone (l & Hl & Hkey & Ht)]. split; [|by exists l].
    rewrite <- Hone. specialize (Hcount j). unfold watch_holds in Hcount. rewrite El in Hcount.
    destruct (Nat.eqb_spec (w_listener w) j) as [Ej|Hj].
    + exfalso. destruct (inv_watch _ _ HI i w Hw) as (l' & Hl' & _ & ? & _). congruence.
    + rewrite !andb_false_r in Hcount. cbn [Nat.b2n] in Hcount. fold s'. lia.
  - intros j l Hl Ht Hpos. apply (inv_pub _ _ HI j l Hl Ht). fold s' in Hpos. specialize (Hle j). lia.
  - intros j l Hl Hd. pose proof (inv_dead _ _ HI j l Hl Hd). fold s'. specialize (Hle j). lia.
  - intros j l Hl Hz Hne. apply (inv_fired _ _ HI j l Hl); [|done]. fold s' in Hz. specialize (Hcount j).
    rewrite Hz in Hcount. unfold watch_holds in Hcount. rewrite El in Hcount.
    destruct Ho as [[_ Er]|[-> Er]]; rewrite Er in Hcount; [lia|].
    destruct (Nat.eqb_spec (w_listener w) j) as [E|]; [by destruct Hne; rewrite E|].
    rewrite !andb_false_r in Hcount. cbn [Nat.b2n] in Hcount. lia.
  - apply (inv_ret _ _ HI).
  - intros j w0 Hj. destruct (decide (j = i)) as [->|Hne].
    + rewrite list_lookup_insert_eq in Hj by (by eapply lookup_lt_Some). injection Hj as <-.
      destruct (inv_watch _ _ HI i w Hw) as (l & Hl & Hk & Ht & _). exists l. rewrite El, Es. auto.
    + rewrite list_lookup_insert_ne in Hj by done. by apply (inv_watch _ _ HI j).
Qed.

Lemma add_watch_inv s w l :
  Inv None s -> listeners s !! w_listener w = Some l -> l_key l = spec_key (w_spec w) -> l_task l <> NotSpawned ->
  passed w (l_log l) -> (0 < holders s (w_listener w))%nat ->
  Inv None (set_watches (watches s ++ [w]) s).
Proof.
  intros HI Hl Hk Ht Hp Hpos. set (s' := set_watches _ s).
  assert (forall j, holders s' j = holders s j + Nat.b2n (watch_holds j w))%nat as Hcount.
  { intros j. unfold holders, s'. cbn [calls watches set_watches]. rewrite List.filter_app, length_app. cbn.
    destruct (watch_holds j w); cbn; lia. }
  assert (forall j, j <> w_listener w -> holders s' j = holders s j) as Hother.
  { intros j Hj. rewrite Hcount. unfold watch_holds. rewrite (proj2 (Nat.eqb_neq _ j)) by done.
    rewrite andb_false_r. cbn. lia. }
  split; cbn [map calls watches listeners set_watches s'].
  - apply (inv_map _ _ HI).
  - intros c k Hc. pose proof (inv_call _ _ HI c k Hc) as Hok. unfold call_ok, spawned in *.
    destruct (c_state k) as [|j|j|]; try done. destruct Hok as [Hone (l' & Hl' & ? & ?)]. split; [|by exists l'].
    fold s'. rewrite Hother; [done|]. intros ->. congruence.
  - intros j l' Hl' Ht' Hj. apply (inv_pub _ _ HI j l' Hl' Ht'). destruct (decide (j = w_listener w)) as [->|Hne]; [done|].
    fold s' in Hj. by rewrite Hother in Hj.
  - intros j l' Hl' Hd. pose proof (inv_dead _ _ HI j l' Hl' Hd). fold s'. rewrite Hother; [done|]. intros ->. lia.
  - intros j l' Hl' Hz _. apply (inv_fired _ _ HI j l' Hl'); [|done]. fold s' in Hz. rewrite Hcount in Hz. lia.
  - apply (inv_ret _ _ HI).
  - intros i w0 Hi. apply lookup_app_Some in Hi as [Hi|[_ Hi]]; [by apply (inv_watch _ _ HI i)|].
    apply list_lookup_singleton_Some in Hi as [_ <-]. by exists l.
Qed.

Lemma passed_same w w' log :
  w_uri w' = w_uri w -> w_spec w' = w_spec w -> w_from w' = w_from w -> w_pos w' = w_pos w ->
  w_events w' = w_events w -> passed w log -> passed w' log.
Proof.
  intros Eu Es Ef Ep Ee [Hr Hd]. unfold passed. rewrite Ef, Ep, Ee. split; [done|]. by eapply (delivers_same w).
Qed.

(** ** Every step keeps the invariant *)

Lemma subscribe_inv s c uri spec id l :
  Inv None s -> calls s !! c = Some (mkCall uri spec (Holding id)) -> listeners s !! id = Some l ->
  Inv None (set_watches (watches s ++ [new_watch (mkCall uri spec (Holding id)) id (length (l_log l))])
              (set_call_state c (Done (Ok ())) s)).
Proof.
  intros HI Hc Hl. set (w := new_watch _ _ _).
  pose proof (inv_call _ _ HI c _ Hc) as (l' & Hl' & Hk & Ht). cbn [c_spec] in *.
  assert (l' = l) as -> by congruence.
  assert (0 < holders s id)%nat as Hpos by (eapply holders_call_pos; [exact Hc|apply Nat.eqb_refl]).
  assert (Inv None (set_watches (watches s ++ [w]) s)) as H1.
  { apply (add_watch_inv s w l); try done. split; cbn [w_from w_pos w_events new_watch w]; [lia|].
    rewrite slice_nil. constructor. }
  assert (0 < holders (set_watches (watches s ++ [w]) s) id)%nat as Hp1.
  { eapply (holders_call_pos _ c); [exact Hc|apply Nat.eqb_refl]. }
  replace (set_watches _ (set_call_state c _ s)) with (set_call_state c (Done (Ok ())) (set_watches (watches s ++ [w]) s))
    by (unfold set_call_state; cbn [calls set_watches]; by rewrite Hc).
  eapply inv_keep; [by apply (set_call_inv _ c (mkCall uri spec (Holding id)))| |reflexivity].
  pose proof (holders_set_call (set_watches (watches s ++ [w]) s) c _ (Done (Ok ())) id Hc) as Hcount.
  unfold call_holds in Hcount. cbn [c_state with_state] in Hcount. rewrite Nat.eqb_refl in Hcount. cbn [Nat.b2n] in Hcount.
  assert (holders (set_watches (watches s ++ [w]) s) id = S (holders s id)) as Hs; [|cbn [c_state]; lia].
  unfold holders. cbn [calls watches set_watches]. rewrite List.filter_app, length_app. cbn [List.filter].
  unfold watch_holds at 2. cbn [w new_watch w_running w_listener andb]. rewrite Nat.eqb_refl. cbn [length]. lia.
Qed.

Lemma publish_existing_inv s c uri spec id ex :
  Inv None s -> calls s !! c = Some (mkCall uri spec (Connected id)) -> upgrade s (spec_key spec) = Some ex ->
  Inv None (released id (set_call_state c (Holding ex) s)).
Proof.
  intros HI Hc Hu. apply released_inv.
  apply (set_call_inv s c (mkCall uri spec (Connected id))); [done..|]. by apply (upgrade_ok None).
Qed.

Lemma grows_task s id l t more :
  listeners s !! id = Some l -> Inv None s -> l_task l <> NotSpawned -> t <> NotSpawned ->
  (t = Returned -> l_cancelled l = true) ->
  grows s id l (mkListener (l_key l) t (l_cancelled l) (l_log l ++ more)).
Proof.
  intros Hl HI Ht Ht' Hr. unfold grows. cbn. split_and!; try done; [by eexists|].
  intros. by apply (inv_dead _ _ HI id l).
Qed.

Lemma step_inv s a s' : Inv None s -> step s a = Some s' -> Inv None s'.
Proof.
  intros HI Hs. destruct a as [uri spec|c|c m|c|c|id p|id|id|i|i|i]; cbn [step] in Hs.
  - injection Hs as <-. apply add_call_inv; [done|by apply start_target].
  - destruct (calls s !! c) as [[uri spec []]|] eqn:Hc; try done. injection Hs as <-. by apply (connect_inv s c uri).
  - destruct (calls s !! c) as [[uri spec []]|] eqn:Hc; try done. injection Hs as <-.
    by apply (set_call_inv s c (mkCall uri spec Connecting)).
  - destruct (calls s !! c) as [[uri spec [|id| |]]|] eqn:Hc; try done.
    destruct (upgrade s (spec_key spec)) as [ex|] eqn:Hu; injection Hs as <-.
    + by apply (publish_existing_inv s c uri spec).
    + by apply (publish_inv s c uri spec).
  - destruct (calls s !! c) as [[uri spec [| |id|]]|] eqn:Hc; try done.
    destruct (listeners s !! id) as [l|] eqn:Hl; [|done]. injection Hs as <-. by apply subscribe_inv.
  - destruct (listeners s !! id) as [[k [] [] log]|] eqn:Hl; try done. injection Hs as <-.
    apply (update_inv None); [done| |by left]. intros l' Hl'. assert (l' = mkListener k Listening false log) as -> by congruence.
    by apply grows_task.
  - destruct (listeners s !! id) as [[k [] [] log]|] eqn:Hl; try done. injection Hs as <-.
    apply (update_inv None); [done| |by left]. intros l' Hl'. assert (l' = mkListener k Listening false log) as -> by congruence.
    rewrite <- (app_nil_r log) at 2. by apply (grows_task s id (mkListener k Listening false log) Failed []).
  - destruct (listeners s !! id) as [[k t [] log]|] eqn:Hl; try done; [|by destruct t].
    destruct t; try done; injection Hs as <-;
      (apply (update_inv None); [done| |by left]; intros l' Hl';
       match type of Hl with _ = Some ?x => assert (l' = x) as -> by congruence end;
       unfold set_task; cbn [l_key l_cancelled l_log]; rewrite <- (app_nil_r log) at 2;
       match type of Hl with _ = Some ?x => by apply (grows_task s id x Returned []) end).
  - destruct (watches s !! i) as [w|] eqn:Hw; [|done].
    destruct (w_running w && negb (w_cancelled w)) eqn:Er; [|done].
    destruct (listeners s !! w_listener w) as [l|] eqn:Hl; [|done].
    destruct (read w (l_log l)) as [w'|] eqn:Ew; [|done]. injection Hs as <-.
    destruct (inv_watch _ _ HI i w Hw) as (l' & Hl' & _ & _ & Hp). assert (l' = l) as -> by congruence.
    destruct (read_passed _ _ _ Hp Ew) as (Hp' & _ & ? & ? & ? & _).
    apply (watch_inv s i w w'); try done; [|by left]. intros l' Hl''. by assert (l' = l) as -> by congruence.
  - destruct (watches s !! i) as [w|] eqn:Hw; [|done]. injection Hs as <-.
    destruct (inv_watch _ _ HI i w Hw) as (l & Hl & _ & _ & Hp).
    apply (watch_inv s i w); try done; [|by left]. intros l' Hl'. assert (l' = l) as -> by congruence.
    by apply (passed_same w).
  - destruct (watches s !! i) as [w|] eqn:Hw; [|done]. destruct (w_running w && w_cancelled w) eqn:Er; [|done].
    injection Hs as <-. destruct (inv_watch _ _ HI i w Hw) as (l & Hl & _ & _ & Hp). apply released_inv.
    apply (watch_inv s i w); try done; [|by right]. intros l' Hl'. assert (l' = l) as -> by congruence.
    by apply (passed_same w).
Qed.

Lemma init_inv : Inv None init.
Proof. split; cbn; intros; by rewrite ?lookup_empty, ?lookup_nil in *. Qed.

Lemma reachable_inv s : reachable s -> Inv None s.
Proof. induction 1; [apply init_inv|by eapply step_inv]. Qed.

(** * Properties *)

(** C24.  One connection per [(url, channel)], held exactly while it is used: in
    every interleaving, the listeners of a key whose task runs and whose token
    has not fired are at most one, and the next watch that looks the key up finds
    exactly that one (an entry whose listener is gone may stay in the map until
    the key is published again, and is not found); two running watches of a key
    share theirs; and a listener's token has fired exactly when no call and no
    watch owns it (the last one to leave closes it), after which its task can
    return. *)
Theorem one_connection_per_key s :
  reachable s ->
  (forall id1 id2 l1 l2, listeners s !! id1 = Some l1 -> listeners s !! id2 = Some l2 ->
     l_key l1 = l_key l2 -> l_task l1 <> NotSpawned -> l_task l2 <> NotSpawned ->
     l_cancelled l1 = false -> l_cancelled l2 = false -> id1 = id2) /\
  (forall k id, upgrade s k = Some id <->
     exists l, listeners s !! id = Some l /\ l_key l = k /\ l_task l <> NotSpawned /\ l_cancelled l = false) /\
  (forall i j w1 w2, watches s !! i = Some w1 -> watches s !! j = Some w2 ->
     w_running w1 = true -> w_running w2 = true -> spec_key (w_spec w1) = spec_key (w_spec w2) ->
     w_listener w1 = w_listener w2) /\
  (forall id l, listeners s !! id = Some l ->
     (l_cancelled l = true <-> holders s id = 0%nat) /\
     (l_cancelled l = true -> l_task l = Listening \/ l_task l = Failed -> is_Some (step s (TaskStop id)))).
Proof.
  intros HI%reachable_inv.
  assert (forall id1 id2 l1 l2, listeners s !! id1 = Some l1 -> listeners s !! id2 = Some l2 ->
     l_key l1 = l_key l2 -> l_task l1 <> NotSpawned -> l_task l2 <> NotSpawned ->
     (0 < holders s id1)%nat -> (0 < holders s id2)%nat -> id1 = id2) as Hone.
  { intros id1 id2 l1 l2 H1 H2 Hk T1 T2 P1 P2.
    pose proof (inv_pub _ _ HI id1 l1 H1 T1 P1). pose proof (inv_pub _ _ HI id2 l2 H2 T2 P2). congruence. }
  assert (forall id l, listeners s !! id = Some l -> l_cancelled l = false -> (0 < holders s id)%nat) as Hpos.
  { intros id l Hl Hf. destruct (holders s id) eqn:E; [|lia].
    rewrite (inv_fired _ _ HI id l Hl E ltac:(done)) in Hf. done. }
  split_and!.
  - intros id1 id2 l1 l2 H1 H2 Hk T1 T2 F1 F2. eauto.
  - intros k id. unfold upgrade. split.
    + destruct (map s !! k) as [i|] eqn:Em; [|done]. destruct (alive s i) eqn:Ea; [|done]. intros [= ->].
      destruct (inv_map _ _ HI _ _ Em) as (l & Hl & Hk & Ht). exists l. split_and!; try done.
      apply alive_pos in Ea. destruct (l_cancelled l) eqn:Ec; [|done]. pose proof (inv_dead _ _ HI id l Hl Ec). lia.
    + intros (l & Hl & <- & Ht & Hc). pose proof (Hpos id l Hl Hc) as Hp.
      rewrite (inv_pub _ _ HI id l Hl Ht Hp). apply alive_pos in Hp. by rewrite Hp.
  - intros i j w1 w2 H1 H2 R1 R2 Hk.
    destruct (inv_watch _ _ HI i w1 H1) as (l1 & L1 & K1 & T1 & _).
    destruct (inv_watch _ _ HI j w2 H2) as (l2 & L2 & K2 & T2 & _).
    apply (Hone _ _ l1 l2); try done; [congruence| |].
    + eapply holders_watch_pos; [exact H1|]. unfold watch_holds. by rewrite R1, Nat.eqb_refl.
    + eapply holders_watch_pos; [exact H2|]. unfold watch_holds. by rewrite R2, Nat.eqb_refl.
  - intros id l Hl. split; [split|].
    + by apply (inv_dead _ _ HI id l).
    + intros Hz. by apply (inv_fired _ _ HI id l).
    + intros Hd Ht. cbn [step]. rewrite Hl. destruct l as [k t cn log]. cbn in Hd, Ht. subst cn.
      destruct Ht as [-> | ->]; by eexists.
Qed.

(** No change is missed silently: whatever the interleaving, what a watch
    has reported is, in order, one event for each notification that concerns its
    URI among those its connection broadcast since it subscribed, except that a
    stretch longer than the buffer it lagged behind gives one event without a
    payload; so a notification that concerns it is reported or covered by a lag
    event, every other event comes from such a notification, and a watch that is
    behind can always move on. *)
Theorem notifications_accounted s i w :
  reachable s -> watches s !! i = Some w ->
  exists l, listeners s !! w_listener w = Some l /\ l_key l = spec_key (w_spec w) /\
    let seen := slice (w_from w) (w_pos w) (l_log l) in
    delivers w seen (w_events w) /\
    (forall n, n ∈ seen -> concerns w n = true -> notification_event w n ∈ w_events w \/ lag_event w ∈ w_events w) /\
    (forall e, e ∈ w_events w ->
       (exists n, n ∈ seen /\ concerns w n = true /\ e = notification_event w n) \/ e = lag_event w) /\
    (w_running w = true -> w_cancelled w = false -> (w_pos w < length (l_log l))%nat ->
     exists s' w', step s (Receive i) = Some s' /\ watches s' !! i = Some w' /\
       (w_pos w < w_pos w' <= length (l_log l))%nat).
Proof.
  intros HI%reachable_inv Hw. destruct (inv_watch _ _ HI i w Hw) as (l & Hl & Hk & _ & [Hr Hd]).
  exists l. split; [done|]. split; [done|]. cbv zeta. split; [done|]. split; [|split].
  - intros n Hn Hc. by apply (delivers_complete w _ _ n Hd).
  - intros e He. by apply (delivers_sound w _ _ e Hd).
  - intros R C Hb. destruct (read_progress w (l_log l) Hb) as (w' & Hread & Hpos).
    exists (set_watches (<[i := w']> (watches s)) s), w'. cbn [step]. rewrite Hw, R, C. cbn [negb andb].
    rewrite Hl, Hread. split; [done|]. split; [|done].
    cbn [watches set_watches]. apply list_lookup_insert_eq. by eapply lookup_lt_Some.
Qed.

(** ** A connection that failed *)

(** [s'] keeps the log of every listener whose task left its loop. *)
Definition stays_failed (l l' : SharedListener) : Prop :=
  l_key l' = l_key l /\ l_log l' = l_log l /\ (l_task l' = Failed \/ l_task l' = Returned).

Definition off (l : SharedListener) : Prop := l_task l = Failed \/ l_task l = Returned.

Lemma update_off f j s id l :
  listeners s !! id = Some l -> off l ->
  (forall k, listeners s !! j = Some k -> off k -> stays_failed k (f k)) ->
  exists l', listeners (update_listener f j s) !! id = Some l' /\ stays_failed l l'.
Proof.
  intros Hl Ho Hf. rewrite update_lookup. destruct (decide (id = j)) as [->|].
  - rewrite Hl. eexists. split; [reflexivity|]. by apply Hf.
  - exists l. split; [done|]. by split_and!.
Qed.

Lemma released_off j s id l :
  listeners s !! id = Some l -> off l -> exists l', listeners (released j s) !! id = Some l' /\ stays_failed l l'.
Proof.
  intros Hl Ho. unfold released. destruct (alive s j); [exists l; split; [done|by split_and!]|].
  apply update_off; [done..|]. intros k _ Hk. by split_and!.
Qed.

Lemma set_call_listeners c st s : listeners (set_call_state c st s) = listeners s.
Proof. unfold set_call_state. by destruct (calls s !! c). Qed.

Lemma step_off s a s' id l :
  Inv None s -> step s a = Some s' -> listeners s !! id = Some l -> off l ->
  exists l', listeners s' !! id = Some l' /\ stays_failed l l'.
Proof.
  intros HI Hs Hl Ho. assert (exists l', listeners s !! id = Some l' /\ stays_failed l l') as Hsame
    by (exists l; split; [done|by split_and!]).
  destruct a as [uri spec|c|c m|c|c|j p|j|j|i|i|i]; cbn [step] in Hs.
  - by injection Hs as <-.
  - destruct (calls s !! c) as [[uri spec []]|] eqn:Hc; try done. injection Hs as <-.
    rewrite set_call_listeners. cbn [listeners set_listeners]. exists l. split; [|by split_and!].
    by rewrite lookup_app_l by (by eapply lookup_lt_Some).
  - destruct (calls s !! c) as [[uri spec []]|] eqn:Hc; try done. injection Hs as <-. by rewrite set_call_listeners.
  - destruct (calls s !! c) as [[uri spec [|j| |]]|] eqn:Hc; try done.
    pose proof (inv_call _ _ HI c _ Hc) as (_ & lj & Hj & _ & Htj). 
    destruct (upgrade s (spec_key spec)) as [ex|] eqn:Hu; injection Hs as <-.
    + apply released_off; [by rewrite set_call_listeners|done].
    + rewrite set_call_listeners. apply (update_off _ j (set_map _ s)); [done..|]. cbn [listeners set_map].
      intros k Hk [E|E]; congruence.
  - destruct (calls s !! c) as [[uri spec [| |j|]]|] eqn:Hc; try done.
    destruct (listeners s !! j) as [lj|] eqn:Hj; [|done]. injection Hs as <-.
    cbn [listeners set_watches]. by rewrite set_call_listeners.
  - destruct (listeners s !! j) as [[k [] [] log]|] eqn:Hj; try done. injection Hs as <-.
    apply update_off; [done..|]. intros k' Hk' [E|E]; rewrite Hj in Hk'; by injection Hk' as <-.
  - destruct (listeners s !! j) as [[k [] [] log]|] eqn:Hj; try done. injection Hs as <-.
    apply update_off; [done..|]. intros k' Hk' [E|E]; rewrite Hj in Hk'; by injection Hk' as <-.
  - destruct (listeners s !! j) as [[k t [] log]|] eqn:Hj; try done; [|by destruct t].
    destruct t; try done; injection Hs as <-; (apply update_off; [done..|]; intros k' _ _; split_and!; [done..|by right]).
  - destruct (watches s !! i) as [w|]; [|done]. destruct (w_running w && negb (w_cancelled w)); [|done].
    destruct (listeners s !! w_listener w) as [lw|]; [|done]. destruct (read w (l_log lw)); [|done]. by injection Hs as <-.
  - destruct (watches s !! i) as [w|]; [|done]. by injection Hs as <-.
  - destruct (watches s !! i) as [w|]; [|done]. destruct (w_running w && w_cancelled w); [|done].
    injection Hs as <-. by apply released_off.
Qed.

Definition next (s s' : state) : Prop := exists a, step s a = Some s'.

Lemma steps_off s s' id l :
  Inv None s -> rtc next s s' -> listeners s !! id = Some l -> off l ->
  Inv None s' /\ exists l', listeners s' !! id = Some l' /\ stays_failed l l'.
Proof.
  intros HI Hr. revert l HI. induction Hr as [s|s s1 s' [a Ha] _ IH]; intros l HI Hl Ho.
  { split; [done|]. exists l. split; [done|by split_and!]. }
  destruct (step_off s a s1 id l HI Ha Hl Ho) as (l1 & Hl1 & K1 & L1 & O1).
  destruct (IH l1 (step_inv s a s1 HI Ha) Hl1 O1) as (HI' & l' & Hl' & K' & L' & O').
  split; [done|]. exists l'. split; [done|]. split_and!; [congruence..|done].
Qed.

(** A connection whose [recv] once failed is dead but stays the key's
    connection: from then on, in every later state where a call or a watch still
    owns it, it has broadcast nothing more, and every new watch on its
    [(url, channel)] joins it without opening a connection. *)
Theorem failed_listener_joined s s' id l :
  reachable s -> listeners s !! id = Some l -> l_task l = Failed -> rtc next s s' -> (0 < holders s' id)%nat ->
  (exists l', listeners s' !! id = Some l' /\ l_task l' = Failed /\ l_log l' = l_log l) /\
  (forall uri spec, validate spec = Ok () -> spec_key spec = l_key l ->
     step s' (Watch uri spec) = Some (set_calls (calls s' ++ [mkCall uri spec (Holding id)]) s')).
Proof.
  intros HI%reachable_inv Hl Ht Hr Hp.
  destruct (steps_off s s' id l HI Hr Hl (or_introl Ht)) as (HI' & l' & Hl' & Hk & Hlog & Ho).
  assert (l_task l' = Failed) as Ht'.
  { destruct Ho as [|Hret]; [done|]. pose proof (inv_dead _ _ HI' id l' Hl' (inv_ret _ _ HI' id l' Hl' Hret)). lia. }
  split; [by exists l'|]. intros uri spec Hv Hs. cbn [step]. unfold start, upgrade. rewrite Hv.
  assert (map s' !! spec_key spec = Some id) as ->.
  { rewrite Hs, <- Hk. apply (inv_pub _ _ HI'); [done|by rewrite Ht'|done]. }
  apply alive_pos in Hp. by rewrite Hp.
Qed.

(** Runs of labels. *)
Fixpoint run (s : state) (ls : list label) : option state :=
  match ls with
  | [] => Some s
  | a :: ls' => match step s a with Some s' => run s' ls' | None => None end
  end.

Lemma run_reachable s ls s' : reachable s -> run s ls = Some s' -> reachable s'.
Proof.
  revert s. induction ls as [|a ls IH]; intros s Hr; cbn [run]; [by intros [= <-]|].
  destruct (step s a) as [s1|] eqn:E; [|done]. apply IH. by eapply reach_step.
Qed.

End Machine.

(** * Concrete runs *)

Module Demo.

(** Payloads of the form [i=..]; numbers do not occur. *)
Definition parse (p : string) : option value :=
  match strip_prefix "i=" p with
  | Some x => Some (VObject [("i", VString x)]%string)
  | None => None
  end.

Definition num (n : number) : string := EmptyString.
Definition body (p : string) : value * string := (VString p, "text")%string.
Definition source (uri : string) : bool := starts_with "event:" uri.
Definition show (e : SqlError) : string := EmptyString.

Abbreviation go := (run parse num body source show).

Definition spec (um : option UriMatch) : ListenSpec :=
  {| sp_url := "postgres://db/orders"; channel := "orders"; uri_match := um |}%string.

Definition by_id : UriMatch := {| payload_field := "i"; uris := ["orders://{value}"] |}%string.

(** Two calls race to open the connection; one watch names a URI. *)
Definition opening : list label :=
  [Watch "orders://7" (spec (Some by_id)); Watch "all" (spec None); ConnectOk 0; ConnectOk 1;
   Publish 1; Publish 0; Subscribe 0; Subscribe 1]%string.

Definition traffic : list label :=
  [Notify 1 "i=7"; Notify 1 "i=8"; Receive 0; Receive 0; Receive 1; Receive 1]%string.

Definition final (ls : list label) : state := default init (go init ls).

(** Both watches share the second connection; the first sees its URI only. *)
Example shared_run :
  let s := final (opening ++ traffic) in
  List.map (fun w => (w_listener w, length (w_events w))) (watches s) = [(1, 1); (1, 2)]%nat /\
  List.map l_cancelled (listeners s) = [true; false] /\
  List.map l_cancelled (listeners (final (opening ++ [Cancel 0; Stop 0; Cancel 1; Stop 1]))) = [true; true]%nat /\
  validate (spec (Some by_id)) = Ok () /\
  is_ok (validate {| sp_url := "x"; channel := "a-b"; uri_match := None |}%string) = false /\
  str_replace value_pattern "a" "x://{value}/{value}" = "x://a/a"%string.
Proof. by vm_compute. Qed.

Lemma final_reachable ls : is_Some (go init ls) -> reachable parse num body source show (final ls).
Proof.
  intros [s Hs]. unfold final. rewrite Hs. cbn. by eapply run_reachable; [apply reach_init|].
Qed.

Lemma one_connection_per_key_witness :
  exists w1 w2, watches (final opening) !! 0%nat = Some w1 /\ watches (final opening) !! 1%nat = Some w2 /\
    w_listener w1 = w_listener w2.
Proof.
  do 2 eexists. split; [vm_compute; reflexivity|]. split; [vm_compute; reflexivity|].
  eapply (proj1 (proj2 (proj2 (one_connection_per_key parse num body source show (final opening)
    ltac:(apply final_reachable; vm_compute; by eexists)))) 0%nat 1%nat); vm_compute; reflexivity.
Defined.

Lemma notifications_accounted_witness :
  exists l, listeners (final (opening ++ traffic)) !! 1%nat = Some l.
Proof.
  destruct (notifications_accounted parse num body source show (final (opening ++ traffic)) 0
    (default (new_watch (mkCall "" (spec None) Connecting) 0 0) (watches (final (opening ++ traffic)) !! 0%nat)))
    as (l & Hl & _).
  - apply final_reachable. vm_compute. by eexists.
  - vm_compute. reflexivity.
  - exists l. exact Hl.
Defined.

Lemma failed_listener_joined_witness :
  let s := final (opening ++ [RecvError 1%nat]) in
  step parse num body source show s (Watch "late" (spec None)) =
  Some (set_calls (calls s ++ [mkCall "late" (spec None) (Holding 1)]) s).
Proof.
  destruct (failed_listener_joined parse num body source show
    (final (opening ++ [RecvError 1%nat])) (final (opening ++ [RecvError 1%nat])) 1
    (mkListener (spec_key (spec None)) Failed false [])) as [_ H].
  - apply final_reachable. vm_compute. by eexists.
  - vm_compute. reflexivity.
  - reflexivity.
  - apply rtc_refl.
  - apply (bool_decide_unpack _). by vm_compute.
  - apply H; reflexivity.
Defined.

End Demo.
End WatchListen.
