(* ===== verification/Shape.v ===== *)
(** Responses of [src/src/lib.rs]: rows shaped by [row_mode] under the row
    limit, result sets, resource pages and their cursors.  The text of a JSON
    number and of a nested value are parameters. *)

From Stdlib Require Import ZArith Lia Bool Ascii String SpecFloat.
From stdpp Require Import base list strings.
From S2P Require Import Prelude RustStd Text Errors Json Params F64 Sqlx Stream Config.

Module Shape.
Import Stream.

(** [Vec::truncate(max as usize)]. *)
Definition truncate {A} (max : Z) (l : list A) : list A := take (Z.to_nat max) l.

Definition over {A} (max : Z) (l : list A) : bool := max <? Z.of_nat (length l).

Definition first_row (rs : list value) : value := match rs with r :: _ => r | [] => VNull end.

(** The first value of a row's map, whose keys are in order. *)
Definition first_value (row : value) : value :=
  match row with
  | VObject ((_, v) :: _) => v
  | VObject [] => VNull
  | other => other
  end.

Definition str_field (k : string) (o : json_map) : option string :=
  match obj_get k o with Some v => as_str v | None => None end.

Definition present (k : string) (o : json_map) : bool :=
  match obj_get k o with Some VNull | None => false | Some _ => true end.

Definition contents_error {A} (idx : nat) (m : string) : result BackendError A :=
  Err (BTransport ("resource_contents[" +:+ show_u (Z.of_nat idx) +:+ "]" +:+ m)).

(** One entry of [resource_contents]. *)
Definition content_entry (idx : nat) (row : value) : result BackendError value :=
  match row with
  | VObject obj =>
      match str_field "uri" obj with
      | None => contents_error idx " missing required 'uri' column"
      | Some uri =>
          let has_text := present "text" obj in
          let has_blob := present "blob" obj in
          if has_text && has_blob then
            contents_error idx " cannot SELECT both 'text' and 'blob' — pick one per row"
          else if negb has_text && negb has_blob then
            contents_error idx " must SELECT either 'text' or 'blob'"
          else
            let entry := obj_insert "uri" (VString uri) [] in
            let entry := match str_field "mime_type" obj with
                         | Some mt => obj_insert "mimeType" (VString mt) entry
                         | None => entry
                         end in
            let field := (if has_text then "text" else "blob")%string in
            Ok (VObject (obj_insert field (default VNull (obj_get field obj)) entry))
      end
  | other => contents_error idx (" is not an object: " +:+ json_type other)
  end.

Fixpoint content_entries (idx : nat) (rs : list value) : result BackendError (list value) :=
  match rs with
  | [] => Ok []
  | r :: rs' =>
      let? e := content_entry idx r in
      let? es := content_entries (S idx) rs' in
      Ok (e :: es)
  end.

Definition shape_response (batch : RowBatch) (mode : RowMode) (max_rows : Z)
  : result BackendError (value * bool) :=
  let truncated := over max_rows (rows batch) in
  let rs := if truncated then truncate max_rows (rows batch) else rows batch in
  match mode with
  | Single => Ok (first_row rs, truncated)
  | Many => Ok (VArray rs, truncated)
  | Scalar => Ok (first_value (first_row rs), truncated)
  | AffectedRows =>
      let count := match rows_affected batch with Some n => n | None => 0 end in
      Ok (VObject [("rows_affected", json_i64 count)], false)
  | ResourceContents =>
      let? contents := content_entries 0 rs in
      Ok (VObject [("contents", VArray contents)], truncated)
  | StreamMode => Ok (VObject [("rows", VArray rs); ("truncated", VBool truncated)], truncated)
  | ResultSets =>
      Err (BInvalidSpec "row_mode: result_sets dispatched through single-batch shape_response — this is a routing bug; result_sets must go through execute_multi_result")
  end%string.

(** * Result sets *)

Definition total (sets : list (list value)) : Z := fold_right (fun s n => Z.of_nat (length s) + n) 0 sets.

(** Distribute the limit across the sets in order. *)
Fixpoint drain (remaining : Z) (sets : list (list value)) : list (list value) :=
  match sets with
  | [] => []
  | set :: sets' =>
      let n := Z.of_nat (length set) in
      if n <=? remaining then set :: drain (remaining - n) sets'
      else truncate remaining set :: drain 0 sets'
  end.

Definition shape_result_sets (max_rows : Z) (sets : list (list value)) : value * bool :=
  let truncated := max_rows <? total sets in
  let sets := if truncated then drain max_rows sets else sets in
  (VObject [("result_sets", VArray (map VArray sets)); ("truncated", VBool truncated)]%string, truncated).

(** * Listing *)

Record ListedResource : Type := {
  res_uri : string;
  res_name : option string;
  res_description : option string;
  res_mime_type : option string;
}.

Record ResourcePage : Type := { resources : list ListedResource; next_cursor : option string }.

Section Listing.
Context (number_str : number -> string) (value_str : value -> string).

Definition cursor_value_to_string (v : value) : string :=
  match v with
  | VString s => s
  | VNumber n => number_str n
  | VBool b => if b then "true" else "false"
  | VNull => EmptyString
  | other => value_str other
  end%string.

Definition listed (row : value) : option (json_map * ListedResource) :=
  match row with
  | VObject obj =>
      match str_field "uri" obj with
      | Some uri => Some (obj, {| res_uri := uri; res_name := str_field "name" obj;
                                  res_description := str_field "description" obj;
                                  res_mime_type := str_field "mime_type" obj |})
      | None => None
      end
  | _ => None
  end.

(** The loop over the rows: the resources, and the last cursor value. *)
Fixpoint collect_resources (column : option string) (rs : list value) (last_value : option string)
  : list ListedResource * option string :=
  match rs with
  | [] => ([], last_value)
  | row :: rs' =>
      match listed row with
      | None => collect_resources column rs' last_value
      | Some (obj, r) =>
          let last_value :=
            match column with
            | Some col => match obj_get col obj with
                          | Some v => Some (cursor_value_to_string v)
                          | None => last_value
                          end
            | None => last_value
            end in
          let (out, l) := collect_resources column rs' last_value in (r :: out, l)
      end
  end.

Definition batch_to_resource_page (batch : RowBatch) (cfg : ListQueryConfig) : ResourcePage :=
  let row_count := Z.of_nat (length (rows batch)) in
  let (out, last_cursor_value) := collect_resources (cursor_column cfg) (rows batch) None in
  {| resources := out;
     next_cursor :=
       if row_count <? page_size cfg then None
       else match mode cfg with
            | Keyset => last_cursor_value
            | Offset => Some (show_u row_count)
            end |}.
End Listing.

(** The value bound to [:cursor]. *)
Definition cursor_arg (m : ListQueryMode) (cursor : option string) : result SqlError value :=
  match m, cursor with
  | Keyset, None => Ok VNull
  | Keyset, Some c => Ok (VString c)
  | Offset, None => Ok (VNumber (PosInt 0))
  | Offset, Some c =>
      match parse_u 10 u64_max c with
      | Some n => Ok (VNumber (PosInt n))
      | None => Err (InvalidSpec ("offset-mode cursor '" +:+ c +:+ "' is not a non-negative integer"))
      end
  end.

Fixpoint list_args_go (order : list string) (cursor_value page_size_value : value)
  : result SqlError (list BoundParam) :=
  match order with
  | [] => Ok []
  | name :: order' =>
      let? v := if String.eqb name "cursor" then Ok cursor_value
                else if String.eqb name "page_size" then Ok page_size_value
                else Err (InvalidSpec ("list_query references unsupported placeholder ':" +:+ name +:+ "'")) in
      let? ps := list_args_go order' cursor_value page_size_value in
      Ok ({| bp_name := name; bp_value := v |} :: ps)
  end.

(** The arguments [run_list_query] binds. *)
Definition list_args (stmt : PreparedStmt) (cfg : ListQueryConfig) (cursor : option string)
  : result SqlError (list BoundParam) :=
  let? cursor_value := cursor_arg (mode cfg) cursor in
  list_args_go (param_order stmt) cursor_value (VNumber (PosInt (page_size cfg))).

(** [list_resources] of a binding with a list query; [exec] is the driver. *)
Definition list_page (number_str : number -> string) (value_str : value -> string)
  (exec : PreparedStmt -> list BoundParam -> result SqlError RowBatch)
  (stmt : PreparedStmt) (cfg : ListQueryConfig) (cursor : option string) : result SqlError ResourcePage :=
  let? args := list_args stmt cfg cursor in
  let? batch := exec stmt args in
  Ok (batch_to_resource_page number_str value_str batch cfg).

(** * Facts *)

Lemma total_concat sets : total sets = Z.of_nat (length (concat sets)).
Proof. induction sets as [|s sets IH]; [done|]. cbn. rewrite length_app. unfold total in IH. lia. Qed.

Lemma drain_length m sets : length (drain m sets) = length sets.
Proof.
  revert m. induction sets as [|s sets IH]; intros m; [done|]. cbn [drain].
  destruct (_ <=? _); cbn; by rewrite IH.
Qed.

Lemma drain_0 sets : concat (drain 0 sets) = [].
Proof.
  induction sets as [|s sets IH]; [done|]. cbn [drain].
  destruct (Z.leb_spec (Z.of_nat (length s)) 0).
  - destruct s; [|cbn in *; lia]. cbn. apply IH.
  - cbn. apply IH.
Qed.

(** The rows kept are the first [m] of all sets. *)
Lemma drain_concat m sets : concat (drain m sets) = take (Z.to_nat m) (concat sets).
Proof.
  revert m. induction sets as [|s sets IH]; intros m; [symmetry; apply take_nil|]. cbn [drain].
  destruct (Z.leb_spec (Z.of_nat (length s)) m); cbn [concat].
  - rewrite IH, take_app. rewrite (take_ge s) by lia. do 2 f_equal. lia.
  - rewrite drain_0, app_nil_r, take_app_le by lia. done.
Qed.

(** A row a resource entry can be made of. *)
Definition content_row (row : value) : bool :=
  match row with
  | VObject obj =>
      match str_field "uri" obj with
      | Some _ => xorb (present "text" obj) (present "blob" obj)
      | None => false
      end
  | _ => false
  end.

Lemma content_entry_spec idx row :
  if content_row row then exists e, content_entry idx row = Ok e
  else exists m, content_entry idx row = contents_error idx m.
Proof.
  destruct row; try by eexists. cbn. destruct (str_field "uri" m); [|by eexists].
  destruct (present "text" m), (present "blob" m); by eexists.
Qed.

Lemma content_entries_spec idx rs :
  (exists es, content_entries idx rs = Ok es /\ length es = length rs /\
     Forall (fun r => content_row r = true) rs) \/
  (exists i row m, rs !! i = Some row /\ content_row row = false /\
     Forall (fun r => content_row r = true) (take i rs) /\
     content_entries idx rs = contents_error (idx + i) m).
Proof.
  revert idx. induction rs as [|r rs IH]; intros idx; [left; by exists []|]. cbn [content_entries].
  pose proof (content_entry_spec idx r) as Hr. destruct (content_row r) eqn:Er.
  - destruct Hr as (e & ->). cbn [rbind]. destruct (IH (S idx)) as [(es & -> & Hl & HF)|(i & row & m & Hi & Hb & HF & ->)].
    + left. exists (e :: es). cbn. rewrite Hl. split; [done|]. split; [done|]. by constructor.
    + right. exists (S i), row, m. cbn. split_and!; try done; [by constructor|].
      by rewrite Nat.add_succ_r.
  - destruct Hr as (m & ->). right. exists O, r, m. rewrite Nat.add_0_r. by split_and!.
Qed.

(** Result sets keep their number and positions; the rows returned are the
    first [max_rows] of all sets in order, and the response says so exactly when
    rows were left out. *)
Theorem result_sets_bounded max_rows sets :
  exists sets' t, shape_result_sets max_rows sets =
    (VObject [("result_sets", VArray (map VArray sets')); ("truncated", VBool t)]%string, t) /\
    length sets' = length sets /\ concat sets' = take (Z.to_nat max_rows) (concat sets) /\
    (t = true <-> max_rows < Z.of_nat (length (concat sets))).
Proof.
  unfold shape_result_sets. rewrite total_concat.
  destruct (Z.ltb_spec max_rows (Z.of_nat (length (concat sets)))) as [Hlt|Hge].
  - exists (drain max_rows sets), true. split; [done|]. by rewrite drain_length, drain_concat.
  - exists sets, false. split; [done|]. split; [done|]. rewrite take_ge by lia.
    split; [done|]. split; [done|lia].
Qed.

(** A [resource_contents] response has one entry per row kept under the
    limit when every kept row has a uri and exactly one of text and blob;
    otherwise it is an error that names the first row without. *)
Theorem resource_contents_exact batch max_rows :
  let kept := take (Z.to_nat max_rows) (rows batch) in
  (exists entries, shape_response batch ResourceContents max_rows
      = Ok (VObject [("contents"%string, VArray entries)], max_rows <? Z.of_nat (length (rows batch))) /\
     length entries = length kept /\ Forall (fun r => content_row r = true) kept) \/
  (exists i row m, kept !! i = Some row /\ content_row row = false /\
     Forall (fun r => content_row r = true) (take i kept) /\
     shape_response batch ResourceContents max_rows = contents_error i m).
Proof.
  intros kept. assert ((if over max_rows (rows batch) then truncate max_rows (rows batch) else rows batch) = kept) as E.
  { unfold over, truncate, kept. destruct (Z.ltb_spec max_rows (Z.of_nat (length (rows batch)))); [done|].
    by rewrite take_ge by lia. }
  unfold shape_response. rewrite E.
  destruct (content_entries_spec 0 kept) as [(es & -> & Hl & HF)|(i & row & m & Hi & Hb & HF & ->)].
  - left. by exists es.
  - right. by exists i, row, m.
Qed.

(** * Offset listings *)

(** A database that serves offset pages of a table. *)
Definition offset_exec (table : list value) (stmt : PreparedStmt) (args : list BoundParam) : result SqlError RowBatch :=
  match args with
  | [{| bp_value := VNumber (PosInt off) |}; {| bp_value := VNumber (PosInt ps) |}] =>
      Ok {| columns := []; rows := take (Z.to_nat ps) (drop (Z.to_nat off) table); rows_affected := None;
            truncated := false; has_more := false |}
  | _ => Err (InvalidSpec "arguments")
  end.

(** In offset mode the cursor after a full page is its length, not its
    offset plus its length: on a table of at least two pages the second page
    names itself as the next one, and later rows are never listed. *)
Theorem offset_listing_repeats number_str value_str table stmt cfg :
  mode cfg = Offset -> 0 < page_size cfg <= 1000 -> param_order stmt = ["cursor"; "page_size"]%string ->
  (2 * page_size cfg <= Z.of_nat (length table)) ->
  let page := list_page number_str value_str (offset_exec table) stmt cfg in
  exists p1 p2, page None = Ok p1 /\ next_cursor p1 = Some (show_u (page_size cfg)) /\
    page (next_cursor p1) = Ok p2 /\ next_cursor p2 = next_cursor p1.
Proof.
  intros Hm Hps Hord Hlen page. unfold page, list_page, list_args. rewrite Hm, Hord. cbn [cursor_arg rbind].
  assert (forall off, 0 <= off <= page_size cfg ->
    next_cursor (batch_to_resource_page number_str value_str
      {| columns := []; rows := take (Z.to_nat (page_size cfg)) (drop (Z.to_nat off) table);
         rows_affected := None; truncated := false; has_more := false |} cfg)
    = Some (show_u (page_size cfg))) as Hnext.
  { intros off Hoff. unfold batch_to_resource_page. cbn [rows].
    rewrite length_take, length_drop, Nat.min_l by lia. rewrite Z2Nat.id by lia.
    destruct (collect_resources _ _ _ _ _) as [out l]. cbn [next_cursor].
    by rewrite Z.ltb_irrefl, Hm. }
  do 2 eexists. split; [reflexivity|]. split; [apply (Hnext 0); lia|].
  rewrite (Hnext 0) by lia. cbn [cursor_arg].
  unfold show_u. rewrite parse_show_radix by (unfold u64_max; lia). cbn [rbind list_args_go String.eqb].
  split; [reflexivity|]. apply Hnext. lia.
Qed.

Module Demo.
Definition table : list value :=
  map (fun n => VObject [("uri", VString n)]) ["a"; "b"; "c"]%string.
Definition stmt : PreparedStmt :=
  {| stmt_sql := "SELECT uri FROM t LIMIT $2 OFFSET $1"; param_order := ["cursor"; "page_size"];
     stmt_driver := Postgres |}%string.
Definition cfg : ListQueryConfig :=
  {| list_sql := "SELECT uri FROM t LIMIT :page_size OFFSET :cursor"; mode := Offset; page_size := 1;
     cursor_column := None |}%string.

Lemma offset_listing_repeats_witness :
  exists p1 p2, list_page (fun _ => EmptyString) (fun _ => EmptyString) (offset_exec table) stmt cfg None = Ok p1 /\
    next_cursor p1 = Some "1"%string /\
    list_page (fun _ => EmptyString) (fun _ => EmptyString) (offset_exec table) stmt cfg (next_cursor p1) = Ok p2 /\
    next_cursor p2 = next_cursor p1.
Proof.
  apply (offset_listing_repeats (fun _ => EmptyString) (fun _ => EmptyString) table stmt cfg);
    [reflexivity|simpl; lia|reflexivity|simpl; lia].
Defined.

(** [row_mode: scalar] takes the first column by name, not by position. *)
Example scalar_by_name :
  shape_response {| columns := ["n"; "a"]; rows := [VObject (obj_insert "a" (json_i64 2) (obj_insert "n" (json_i64 1) []))];
                    rows_affected := None; truncated := false; has_more := false |}%string Scalar 10
  = Ok (json_i64 2, false).
Proof. reflexivity. Qed.
End Demo.

End Shape.
