(* ===== verification/Execute.v ===== *)
(** The call path of [src/src/lib.rs]: [execute_inner], [execute_inner_impl],
    [execute_await_loop] and [execute_transaction].

    A call is a computation that can fail and that records what it does to the
    outside: registrations, cache reads and writes, driver calls, charges and
    refunds.  What the host, the driver and the serializers answer is the record
    [Env]. *)

From Stdlib Require Import ZArith Lia Bool Ascii String SpecFloat.
From stdpp Require Import base list strings.
From S2P Require Import Prelude RustStd Redact Text Errors Breaker Json Params F64 Sqlx Stream Cache Cost Config Shape.

Module Execute.
Import Stream.Stream.

Definition CACHE_HEADER_LEN : nat := 1.

Inductive effect : Type :=
| ERegister (request_id : string)
| EDeregister (request_id : string)
| ECacheGet (key : string)
| ECachePut (key : string) (entry : list byte) (ttl : Z)
| ECall (attempt : nat) (stmt : PreparedStmt) (args : list BoundParam) (vars : SessionVars)
| ECharge (amount : f64)
| ERefund (amount : f64) (reason : string).

(** * The effect monad *)

Definition W (A : Type) : Type := (result BackendError A * list effect)%type.

Definition wret {A} (a : A) : W A := (Ok a, []).
Definition wfail {A} (e : BackendError) : W A := (Err e, []).
Definition wbind {A B} (m : W A) (k : A -> W B) : W B :=
  match m with
  | (Ok a, fx) => let (r, fx') := k a in (r, fx ++ fx')
  | (Err e, fx) => (Err e, fx)
  end.
Definition tell (fx : list effect) : W () := (Ok (), fx).
Definition lift {A} (r : result BackendError A) : W A := (r, []).

Notation "'do!' x := m 'in' k" := (wbind m (fun x => k))
  (at level 10, x pattern, m at level 200, k at level 200,
   format "'[v' 'do!'  x  :=  m  'in' '/' k ']'") : rust_scope.

(** * Data *)

Record BackendResponse : Type := mkResponse { payload : list byte; resp_truncated : bool }.

Record BackendRequest : Type := {
  req_payload : list byte;
  request_id : string;
  idempotency : option (string * string);      (* key and scope hash *)
}.

(** The outcome of a driver call under [tokio::time::timeout]. *)
Inductive timed (A : Type) : Type :=
| TimedOut
| Finished (r : result SqlError A).
Arguments TimedOut {A}.
Arguments Finished {A} r.

Section Call.
Context {Url : Type} `{UrlOps Url} (sqlx_display : sqlx_error -> string).
Context `{CursorOps} `{Cel} (show_f64 : f64 -> string).
Context (digest : list byte -> string) (number_str : number -> string).

Record AwaitRuntime : Type := {
  await_cfg : AwaitConfig;
  trigger_stmt : option PreparedStmt;
  check_stmt : PreparedStmt;
  await_predicate : Program;
}.

(** The fields of [ProfileRuntime] the call path reads; [timeout] in
    milliseconds. *)
Record ProfileRuntime : Type := {
  rt_driver : DriverKind;
  rt_stmt : PreparedStmt;
  rt_row_mode : RowMode;
  rt_max_rows : Z;
  rt_timeout : Z;
  has_cred_refs : bool;
  rt_session_vars : SessionVars;
  has_param_exprs : bool;
  stream_rt : option StreamRuntime;
  rt_cache : option CacheSpec;
  rt_cost : option BackendCost;
  await_rt : option AwaitRuntime;
}.

Record Env : Type := {
  from_slice : list byte -> result string value;
  to_vec : value -> result string (list byte);
  resolve_pool : result BackendError ();
  resolve_vars : result BackendError SessionVars;
  eval_params : value -> result SqlError value;
  cache_version : Z;
  cache_get : string -> result string (option (list byte));
  call : nat -> PreparedStmt -> list BoundParam -> SessionVars -> timed RowBatch;
  call_affected : nat -> PreparedStmt -> list BoundParam -> SessionVars -> timed Z;
  call_multi : PreparedStmt -> list BoundParam -> SessionVars -> timed (list (list value));
}.

Definition backend_error : SqlError -> BackendError := to_backend_error sqlx_display.
Definition from_sql {A} (r : result SqlError A) : result BackendError A := rmap_err backend_error r.

(** * Arguments *)

Definition parse_args (env : Env) (bytes : list byte) : result BackendError value :=
  match bytes with
  | [] => Ok VNull
  | _ => rmap_err (fun e => BInvalidSpec ("request payload is not valid JSON: " +:+ e)) (from_slice env bytes)
  end.

Definition inject_idempotency (hint : option (string * string)) (args : value) : value :=
  match hint with
  | None => args
  | Some (k, scope) =>
      match (match args with VNull => VObject [] | a => a end) with
      | VObject o =>
          VObject (obj_insert "idempotency_scope_hash" (VString scope)
                     (obj_insert "idempotency_key" (VString k) o))
      | a => a
      end
  end.

Definition prepare_args (rt : ProfileRuntime) (env : Env) (req : BackendRequest) (name : string)
  : result BackendError value :=
  let? args := parse_args env (req_payload req) in
  let? args := if has_param_exprs rt then from_sql (eval_params env args) else Ok args in
  let? args := match stream_rt rt with
               | Some s => from_sql (apply_stream_cursor args s name)
               | None => Ok args
               end in
  Ok (inject_idempotency (idempotency req) args).

(** * Charges and refunds *)

Definition refund (rt : ProfileRuntime) (args : value) (reason : string) : list effect :=
  match rt_cost rt with
  | Some c => [ERefund (refund_amount c args) reason]
  | None => []
  end.

(** [try_emit_charge]. *)
Definition charge (rt : ProfileRuntime) (args : value) (row_count bytes : Z) : W () :=
  match rt_cost rt with
  | Some c =>
      match compute show_f64 c args row_count bytes with
      | Ok amount => tell [ECharge amount]
      | Err e => wfail (backend_error e)
      end
  | None => wret ()
  end.

Definition fail_refund {A} (rt : ProfileRuntime) (args : value) (e : SqlError) : W A :=
  let be := backend_error e in (Err be, refund rt args (refund_reason_for be)).

Definition fail_timeout {A} (rt : ProfileRuntime) (args : value) : W A :=
  (Err (BTimeout (rt_timeout rt)), refund rt args "timeout").

Definition serialize (rt : ProfileRuntime) (env : Env) (args payload : value) : W (list byte) :=
  match to_vec env payload with
  | Ok bytes => wret bytes
  | Err e => (Err (BTransport ("serialize response: " +:+ e)), refund rt args "transport")
  end.

(** * Cache *)

Inductive lookup : Type :=
| Hit (r : BackendResponse)
| Continue (key : option string).

Definition cache_lookup (rt : ProfileRuntime) (env : Env) (name : string) (bound : list BoundParam)
  (vars : SessionVars) : W lookup :=
  match rt_cache rt with
  | Some c =>
      if enabled c then
        let key := Cache.Cache.build_cache_key digest number_str name (stmt_sql (rt_stmt rt)) bound vars
                     (cache_version env) in
        do! _ := tell [ECacheGet key] in
        wret (match cache_get env key with
              | Ok (Some bytes) =>
                  match bytes with
                  | [] => Continue (Some key)
                  | flag :: rest => Hit (mkResponse rest (negb (byte_eqb flag Byte.x00)))
                  end
              | Ok None => Continue (Some key)
              | Err _ => Continue None
              end)
      else wret (Continue None)
  | None => wret (Continue None)
  end.

Definition cache_entry (r : BackendResponse) : list byte :=
  (if resp_truncated r then Byte.x01 else Byte.x00) :: payload r.

Definition cache_put (rt : ProfileRuntime) (key : option string) (r : BackendResponse) : list effect :=
  match key, rt_cache rt with
  | Some key, Some c => [ECachePut key (cache_entry r) (ttl_seconds c)]
  | _, _ => []
  end.

(** * Driver calls *)

Definition is_retryable_stale (e : SqlError) : bool :=
  match e with
  | Execute inner | Prepare inner | Driver inner => is_stale_statement_error inner
  | _ => false
  end.

(** One turn of the attempt loop; [retry] is the next turn, if any. *)
Definition attempt {A} (rt : ProfileRuntime) (args : value) (bound : list BoundParam) (vars : SessionVars)
  (n : nat) (outcome : timed A) (retry : option (W A)) : W A :=
  do! _ := tell [ECall n (rt_stmt rt) bound vars] in
  match outcome with
  | TimedOut => fail_timeout rt args
  | Finished (Ok b) => wret b
  | Finished (Err e) =>
      match retry with
      | Some r => if is_retryable_stale e then r else fail_refund rt args e
      | None => fail_refund rt args e
      end
  end.

(** [for attempt in 0..2]: only the first turn can continue. *)
Definition attempts {A} (rt : ProfileRuntime) (args : value) (bound : list BoundParam) (vars : SessionVars)
  (driver : nat -> PreparedStmt -> list BoundParam -> SessionVars -> timed A) : W A :=
  let outcome n := driver n (rt_stmt rt) bound vars in
  attempt rt args bound vars 0 (outcome 0%nat)
    (Some (attempt rt args bound vars 1 (outcome 1%nat) None)).

Definition affected_batch (n : Z) : RowBatch :=
  {| columns := []; rows := []; rows_affected := Some n; truncated := false; has_more := false |}.

Definition run_batch (rt : ProfileRuntime) (env : Env) (args : value) (bound : list BoundParam)
  (vars : SessionVars) : W RowBatch :=
  match rt_row_mode rt with
  | AffectedRows =>
      do! n := attempts rt args bound vars (call_affected env) in wret (affected_batch n)
  | _ => attempts rt args bound vars (call env)
  end.

Definition cost_rows (rt : ProfileRuntime) (b : RowBatch) : Z :=
  match rt_row_mode rt with
  | AffectedRows => match rows_affected b with Some n => n | None => 0 end
  | _ => Z.of_nat (length (rows b))
  end.

Definition with_cursor (rt : ProfileRuntime) (name : string) (payload : value) : value :=
  match rt_row_mode rt, stream_rt rt with
  | StreamMode, Some s =>
      let next := mint_next_cursor payload s name in
      match payload with
      | VObject o => VObject (obj_insert "next_cursor" next o)
      | v => v
      end
  | _, _ => payload
  end.

Definition bytes_len (b : list byte) : Z := Z.of_nat (length b).

(** [row_mode: result_sets]. *)
Definition run_result_sets (rt : ProfileRuntime) (env : Env) (args : value) (bound : list BoundParam)
  (vars : SessionVars) : W BackendResponse :=
  do! _ := tell [ECall 0 (rt_stmt rt) bound vars] in
  do! sets := match call_multi env (rt_stmt rt) bound vars with
              | TimedOut => fail_timeout rt args
              | Finished (Err e) => fail_refund rt args e
              | Finished (Ok s) => wret s
              end in
  let (payload, truncated) := Shape.Shape.shape_result_sets (rt_max_rows rt) sets in
  do! bytes := serialize rt env args payload in
  do! _ := charge rt args (Shape.Shape.total sets) (bytes_len bytes) in
  wret (mkResponse bytes truncated).

(** Every other row mode. *)
Definition run_rows (rt : ProfileRuntime) (env : Env) (name : string) (args : value) (bound : list BoundParam)
  (vars : SessionVars) (key : option string) : W BackendResponse :=
  do! batch := run_batch rt env args bound vars in
  do! shaped := lift (Shape.Shape.shape_response batch (rt_row_mode rt) (rt_max_rows rt)) in
  let (payload, truncated) := shaped in
  do! bytes := serialize rt env args (with_cursor rt name payload) in
  do! _ := charge rt args (cost_rows rt batch) (bytes_len bytes) in
  let r := mkResponse bytes truncated in
  do! _ := tell (cache_put rt key r) in
  wret r.

Definition call_vars (rt : ProfileRuntime) (env : Env) : result BackendError SessionVars :=
  if has_cred_refs rt then resolve_vars env else Ok (rt_session_vars rt).

(** The body of [execute_inner_impl] after registration. *)
Definition execute_query (name : string) (req : BackendRequest) (rt : ProfileRuntime) (env : Env)
  : W BackendResponse :=
  do! _ := lift (if has_cred_refs rt then resolve_pool env else Ok ()) in
  do! vars := lift (call_vars rt env) in
  do! args := lift (prepare_args rt env req name) in
  do! bound := lift (from_sql (collect_bound_params args (param_order (rt_stmt rt)))) in
  do! found := cache_lookup rt env name bound vars in
  match found with
  | Hit r => wret r
  | Continue key =>
      match rt_row_mode rt with
      | ResultSets => run_result_sets rt env args bound vars
      | _ => run_rows rt env name args bound vars key
      end
  end.

(** The in-flight guard: registered for exactly the duration of the call. *)
Definition registered {A} (id : string) (m : W A) : W A :=
  (fst m, [ERegister id] ++ snd m ++ [EDeregister id]).
(** * Fire and wait *)

Definition evaluate_await_predicate (program : Program) (row args : value) : bool :=
  match cel_execute program [("row", cel_value_from_json row); ("arguments", cel_value_from_json args)]%string with
  | Ok (CelBool b) => b
  | _ => false
  end.

(** What the await loop meets: the trigger's outcome, and at poll [n] the
    outcome of the check, the time after it in milliseconds, and whether the
    plugin drains during the sleep that follows. *)
Record AwaitEnv : Type := {
  trigger_call : PreparedStmt -> list BoundParam -> SessionVars -> timed RowBatch;
  check_call : nat -> PreparedStmt -> list BoundParam -> SessionVars -> timed RowBatch;
  started_at : Z;
  clock : nat -> Z;
  drained : nat -> bool;
}.

Definition await_args (rt : ProfileRuntime) (env : Env) (req : BackendRequest) : result BackendError value :=
  let? args := parse_args env (req_payload req) in
  if has_param_exprs rt then from_sql (eval_params env args) else Ok args.

Definition run_trigger (rt : ProfileRuntime) (aw : AwaitRuntime) (ae : AwaitEnv) (args : value) : W () :=
  match trigger_stmt aw with
  | None => wret ()
  | Some stmt =>
      do! bound := lift (from_sql (collect_bound_params args (param_order stmt))) in
      do! _ := tell [ECall 0 stmt bound (rt_session_vars rt)] in
      match trigger_call ae stmt bound (rt_session_vars rt) with
      | TimedOut => fail_timeout rt args
      | Finished (Err e) => fail_refund rt args e
      | Finished (Ok _) => wret ()
      end
  end.

Definition await_timeout {A} (rt : ProfileRuntime) (aw : AwaitRuntime) (args : value) : W A :=
  (Err (BTimeout (await_timeout_ms (await_cfg aw))), refund rt args "timeout").

(** The check of poll [n]: the row the predicate sees. *)
Definition await_check (rt : ProfileRuntime) (aw : AwaitRuntime) (ae : AwaitEnv) (args : value) (n : nat)
  : W value :=
  do! bound := lift (from_sql (collect_bound_params args (param_order (check_stmt aw)))) in
  do! _ := tell [ECall n (check_stmt aw) bound (rt_session_vars rt)] in
  match check_call ae n (check_stmt aw) bound (rt_session_vars rt) with
  | TimedOut => fail_timeout rt args
  | Finished (Err e) => fail_refund rt args e
  | Finished (Ok batch) => wret (Shape.Shape.first_row (rows batch))
  end.

(** The response for a matching row after [polls] polls. *)
Definition await_matched (name : string) (rt : ProfileRuntime) (env : Env) (args row : value) (polls : Z)
  : W BackendResponse :=
  do! bytes := match to_vec env row with
               | Ok bytes => wret bytes
               | Err e =>
                   (Err (BTransport ("await check row serialization (binding=" +:+ name +:+ ", driver=" +:+
                      DriverKind_as_str (rt_driver rt) +:+ ", polls=" +:+ show_u polls +:+ "): " +:+ e)),
                    refund rt args "transport")
               end in
  do! _ := charge rt args (match row with VNull => 0 | _ => 1 end) (bytes_len bytes) in
  wret (mkResponse bytes false).

(** The loop from poll [n]; [None] when out of fuel. *)
Fixpoint await_loop (fuel n : nat) (name : string) (rt : ProfileRuntime) (aw : AwaitRuntime) (env : Env)
  (ae : AwaitEnv) (args : value) : option (W BackendResponse) :=
  match fuel with
  | O => None
  | S fuel' =>
      let deadline := started_at ae + await_timeout_ms (await_cfg aw) in
      match await_check rt aw ae args n with
      | (Err e, fx) => Some (Err e, fx)
      | (Ok row, fx) =>
          if evaluate_await_predicate (await_predicate aw) row args then
            let (r, fx') := await_matched name rt env args row (Z.of_nat n + 1) in Some (r, fx ++ fx')
          else if (deadline <=? clock ae n) || drained ae n then
            let (r, fx') := await_timeout rt aw args in Some (r, fx ++ fx')
          else
            match await_loop fuel' (S n) name rt aw env ae args with
            | Some (r, fx') => Some (r, fx ++ fx')
            | None => None
            end
      end
  end.

Definition execute_await_loop (fuel : nat) (name : string) (req : BackendRequest) (rt : ProfileRuntime)
  (aw : AwaitRuntime) (env : Env) (ae : AwaitEnv) : option (W BackendResponse) :=
  match (do! args := lift (await_args rt env req) in
         do! _ := run_trigger rt aw ae args in wret args) with
  | (Err e, fx) => Some (registered (request_id req) (Err e, fx))
  | (Ok args, fx) =>
      match await_loop fuel 0 name rt aw env ae args with
      | Some (r, fx') => Some (registered (request_id req) (r, fx ++ fx'))
      | None => None
      end
  end.

Definition execute_inner_impl (fuel : nat) (name : string) (req : BackendRequest) (rt : ProfileRuntime)
  (env : Env) (ae : AwaitEnv) : option (W BackendResponse) :=
  match await_rt rt with
  | Some aw => execute_await_loop fuel name req rt aw env ae
  | None => Some (registered (request_id req) (execute_query name req rt env))
  end.

(** * The circuit breaker around a call *)

(** The outcome [execute_inner] records. *)
Definition counts_as_success {A} (r : result BackendError A) : bool :=
  match r with
  | Err (BTimeout _) | Err (BTransport _) => false
  | _ => true
  end.

(** [execute_inner] of a registered profile: admitted at [t0], recorded at
    [t1]; [inner] is the call. *)
Definition execute_inner (t0 t1 : Z) (b : option Breaker.Breaker.CircuitBreaker) (inner : W BackendResponse)
  : W BackendResponse * option Breaker.Breaker.CircuitBreaker :=
  match b with
  | None => (inner, None)
  | Some b =>
      match Breaker.Breaker.try_admit t0 b with
      | (Err e, b') => (wfail (backend_error e), Some b')
      | (Ok guard, b') => (inner, Some (Breaker.Breaker.record t1 guard (counts_as_success (fst inner)) b'))
      end
  end.
End Call.

(** * Transaction groups *)

Inductive tx_effect : Type :=
| TxBegin
| TxExecute (affected : bool) (stmt : PreparedStmt) (args : list BoundParam)
| TxCommit
| TxRollback.

Record TxStep : Type := {
  step_id : string;
  tx_sql : string;
  tx_params : list string;
  tx_row_mode : string;
}.

(** What the handle answers to the [n]-th statement and to the commit;
    [show_error] prints a [SqlError]. *)
Record TxEnv : Type := {
  tx_begin : result BackendError DriverKind;
  tx_execute : nat -> PreparedStmt -> list BoundParam -> result SqlError RowBatch;
  tx_execute_affected : nat -> PreparedStmt -> list BoundParam -> result SqlError Z;
  tx_commit : result SqlError ();
  show_error : SqlError -> string;
}.

Definition tx_stmt (driver : DriverKind) (step : TxStep) : PreparedStmt :=
  let '(sql, order) := rewrite_placeholders (tx_sql step) driver in
  {| stmt_sql := sql; param_order := match order with [] => tx_params step | _ => order end;
     stmt_driver := driver |}.

(** [run_tx_nested_step], the [n]-th step. *)
Definition run_tx_nested_step (te : TxEnv) (driver : DriverKind) (n : nat) (step : TxStep) (input : value)
  : result string value * list tx_effect :=
  let stmt := tx_stmt driver step in
  match collect_bound_params input (param_order stmt) with
  | Err e => (Err ("parameter bind for '" +:+ step_id step +:+ "': " +:+ show_error te e), [])
  | Ok args =>
      let query (shape : RowBatch -> value) :=
        (match tx_execute te n stmt args with
         | Ok batch => Ok (shape batch)
         | Err e => Err ("execute: " +:+ show_error te e)
         end, [TxExecute false stmt args]) in
      if String.eqb (tx_row_mode step) "affected_rows" then
        (match tx_execute_affected te n stmt args with
         | Ok count => Ok (VObject [("rows_affected", json_i64 count)]%string)
         | Err e => Err ("execute_affected: " +:+ show_error te e)
         end, [TxExecute true stmt args])
      else if String.eqb (tx_row_mode step) "many" then query (fun b => VArray (rows b))
      else if String.eqb (tx_row_mode step) "single" then query (fun b => Shape.Shape.first_row (rows b))
      else if String.eqb (tx_row_mode step) "scalar" then
        query (fun b => Shape.Shape.first_value (Shape.Shape.first_row (rows b)))
      else (Err ("unsupported row_mode '" +:+ tx_row_mode step +:+
                 "' (supported: affected_rows, many, single, scalar)"), [])
  end.

(** The loop over the steps. *)
Fixpoint run_tx_steps (te : TxEnv) (driver : DriverKind) (n : nat) (steps : list TxStep) (input : value)
  (results : json_map) : result BackendError json_map * list tx_effect :=
  match steps with
  | [] => (Ok results, [])
  | step :: steps' =>
      match run_tx_nested_step te driver n step input with
      | (Ok v, fx) =>
          let (r, fx') := run_tx_steps te driver (S n) steps' input (obj_insert (step_id step) v results) in
          (r, fx ++ fx')
      | (Err msg, fx) =>
          (Err (BTransport ("sql_tx nested step '" +:+ step_id step +:+ "': " +:+ msg)), fx ++ [TxRollback])
      end
  end.

Definition execute_transaction (te : TxEnv) (steps : list TxStep) (input : value)
  : result BackendError value * list tx_effect :=
  match tx_begin te with
  | Err e => (Err e, [])
  | Ok driver =>
      match run_tx_steps te driver 0 steps input [] with
      | (Err e, fx) => (Err e, TxBegin :: fx)
      | (Ok results, fx) =>
          (match tx_commit te with
           | Ok () => Ok (VObject [("steps", VObject results)]%string)
           | Err e => Err (BTransport ("sql_tx commit: " +:+ show_error te e))
           end, TxBegin :: fx ++ [TxCommit])
      end
  end.

(** * Counting effects *)

Definition is_call (e : effect) : bool := match e with ECall _ _ _ _ => true | _ => false end.
Definition is_charge (e : effect) : bool := match e with ECharge _ => true | _ => false end.
Definition is_refund (e : effect) : bool := match e with ERefund _ _ => true | _ => false end.

Definition calls (fx : list effect) : list effect := List.filter is_call fx.
Definition charges (fx : list effect) : nat := length (List.filter is_charge fx).
Definition refunds (fx : list effect) : nat := length (List.filter is_refund fx).

Arguments calls : simpl never.
Arguments charges : simpl never.
Arguments refunds : simpl never.

Lemma calls_app a b : calls (a ++ b) = calls a ++ calls b.
Proof. apply List.filter_app. Qed.
Lemma charges_app a b : charges (a ++ b) = (charges a + charges b)%nat.
Proof. unfold charges. by rewrite List.filter_app, length_app. Qed.
Lemma refunds_app a b : refunds (a ++ b) = (refunds a + refunds b)%nat.
Proof. unfold refunds. by rewrite List.filter_app, length_app. Qed.

(** [ledger c m]: on success [c] charges and no refund, on failure no charge
    and at most one refund. *)
Definition ledger {A} (c : nat) (m : W A) : Prop :=
  let (r, fx) := m in
  if is_ok r then charges fx = c /\ refunds fx = 0%nat
  else charges fx = 0%nat /\ (refunds fx <= 1)%nat.

Lemma ledger_ret {A} (a : A) : ledger 0 (wret a).
Proof. done. Qed.
Lemma ledger_lift {A} (r : result BackendError A) : ledger 0 (lift r).
Proof. destruct r; cbn; unfold charges, refunds; cbn; lia. Qed.
Lemma ledger_bind {A B} (m : W A) (k : A -> W B) c1 c2 :
  ledger c1 m -> (forall a, fst m = Ok a -> ledger c2 (k a)) ->
  (c1 = 0%nat \/ forall a, is_ok (fst (k a)) = true) -> ledger (c1 + c2) (wbind m k).
Proof.
  intros Hm Hk Hc. destruct m as [[a|e] fx]; cbn in *; [|done]. destruct Hm as [H1 H2].
  specialize (Hk a eq_refl). destruct (k a) as [r fx'] eqn:E. unfold ledger in *.
  rewrite charges_app, refunds_app. destruct (is_ok r) eqn:Er; [lia|].
  destruct Hc as [->|Hc]; [lia|]. specialize (Hc a). rewrite E in Hc. cbn in Hc. congruence.
Qed.

(** The common case: what runs first charges nothing. *)
Lemma ledger_then {A B} c (m : W A) (k : A -> W B) :
  ledger 0 m -> (forall a, fst m = Ok a -> ledger c (k a)) -> ledger c (wbind m k).
Proof. intros Hm Hk. apply (ledger_bind m k 0 c); auto. Qed.

#[export] Hint Resolve ledger_ret ledger_lift : rust.

Section Facts.
Context {Url : Type} `{UrlOps Url} (sqlx_display : sqlx_error -> string).
Context `{CursorOps} `{Cel} (show_f64 : f64 -> string).
Context (digest : list byte -> string) (number_str : number -> string).

Abbreviation query := (execute_query sqlx_display show_f64 digest number_str).

Definition costs (rt : ProfileRuntime) : nat := match rt_cost rt with Some _ => 1 | None => 0 end%nat.

Lemma ledger_refund {A} rt args reason e : ledger 0 ((Err e, refund rt args reason) : W A).
Proof. unfold ledger, refund, charges, refunds. cbn. destruct (rt_cost rt); cbn; lia. Qed.

Lemma ledger_tell_call n stmt bound vars : ledger 0 (tell [ECall n stmt bound vars]).
Proof. done. Qed.

Lemma ledger_serialize rt env args v : ledger 0 (serialize rt env args v).
Proof. unfold serialize. destruct (to_vec env v); [done|apply ledger_refund]. Qed.

Lemma ledger_charge rt args n b : ledger (costs rt) (charge sqlx_display show_f64 rt args n b).
Proof.
  unfold charge, costs. destruct (rt_cost rt); [|done].
  destruct (compute _ _ _ _ _); cbn; unfold charges, refunds; cbn; lia.
Qed.

Lemma ledger_attempt {A} rt args bound vars n (o : timed A) retry :
  (forall r, retry = Some r -> ledger 0 r) -> ledger 0 (attempt sqlx_display rt args bound vars n o retry).
Proof.
  intros Hr. apply ledger_then; [done|]. intros _ _. destruct o as [|[b|e]].
  - apply ledger_refund.
  - done.
  - destruct retry as [r|]; [destruct (is_retryable_stale e); [by apply Hr|]|]; apply ledger_refund.
Qed.

Lemma ledger_attempts {A} rt args bound vars (d : nat -> PreparedStmt -> list BoundParam -> SessionVars -> timed A) :
  ledger 0 (attempts sqlx_display rt args bound vars d).
Proof. apply ledger_attempt. intros r [= <-]. by apply ledger_attempt. Qed.

Lemma ledger_run_batch rt env args bound vars : ledger 0 (run_batch sqlx_display rt env args bound vars).
Proof.
  unfold run_batch. destruct (rt_row_mode rt); try apply ledger_attempts.
  apply ledger_then; [apply ledger_attempts|done].
Qed.

Lemma ledger_rows rt env name args bound vars key :
  ledger (costs rt) (run_rows sqlx_display show_f64 rt env name args bound vars key).
Proof.
  apply ledger_then; [apply ledger_run_batch|]. intros batch _.
  apply ledger_then; [auto with rust|]. intros [payload t] _.
  apply ledger_then; [apply ledger_serialize|]. intros bytes _.
  replace (costs rt) with (costs rt + 0)%nat by lia.
  apply ledger_bind; [apply ledger_charge| |right; by intros []].
  intros _ _. unfold cache_put. destruct key, (rt_cache rt); done.
Qed.

Lemma ledger_result_sets rt env args bound vars :
  ledger (costs rt) (run_result_sets sqlx_display show_f64 rt env args bound vars).
Proof.
  apply ledger_then; [done|]. intros _ _. apply ledger_then.
  { destruct (call_multi _ _ _ _) as [|[]]; [apply ledger_refund|done|apply ledger_refund]. }
  intros sets _. destruct (Shape.Shape.shape_result_sets _ _) as [payload t].
  apply ledger_then; [apply ledger_serialize|]. intros bytes _.
  replace (costs rt) with (costs rt + 0)%nat by lia.
  apply ledger_bind; [apply ledger_charge|done|right; by intros []].
Qed.

(** The parts of [execute_query] up to the cache. *)
Inductive prepared (name : string) (req : BackendRequest) (rt : ProfileRuntime) (env : Env)
  : W BackendResponse -> Prop :=
| prep_error e : prepared name req rt env (Err e, [])
| prep_ready args bound vars :
    prepare_args sqlx_display rt env req name = Ok args ->
    from_sql sqlx_display (collect_bound_params args (param_order (rt_stmt rt))) = Ok bound ->
    call_vars rt env = Ok vars ->
    prepared name req rt env
      (do! found := cache_lookup digest number_str rt env name bound vars in
       match found with
       | Hit r => wret r
       | Continue key =>
           match rt_row_mode rt with
           | ResultSets => run_result_sets sqlx_display show_f64 rt env args bound vars
           | _ => run_rows sqlx_display show_f64 rt env name args bound vars key
           end
       end).

Lemma query_prepared name req rt env : prepared name req rt env (query name req rt env).
Proof.
  unfold execute_query. destruct (if has_cred_refs rt then _ else _) as [[]|e]; [|apply prep_error].
  cbn [lift wbind]. destruct (call_vars rt env) as [vars|e] eqn:Ev; [|apply prep_error].
  cbn [lift wbind]. destruct (prepare_args _ rt env req name) as [args|e] eqn:Ea; [|apply prep_error].
  cbn [lift wbind]. destruct (from_sql _ _) as [bound|e] eqn:Eb; [|apply prep_error].
  cbn [lift wbind]. pose proof (prep_ready name req rt env args bound vars Ea Eb Ev) as P.
  destruct (wbind _ _) as [r fx]. exact P.
Qed.
(** ** Driver calls *)

(** The calls a computation may make: none but [first], or [first] and then
    [second] when [again] holds. *)
Definition calls_are {A} (first second : effect) (again : Prop) (m : W A) : Prop :=
  calls (snd m) = [first] \/ (calls (snd m) = [first; second] /\ again).

Lemma calls_refund rt args reason : calls (refund rt args reason) = [].
Proof. unfold refund. by destruct (rt_cost rt). Qed.

Lemma calls_call n stmt bound vars fx : calls (ECall n stmt bound vars :: fx) = ECall n stmt bound vars :: calls fx.
Proof. done. Qed.

Lemma calls_bind {A B} (m : W A) (k : A -> W B) :
  (forall a, fst m = Ok a -> calls (snd (k a)) = []) -> calls (snd (wbind m k)) = calls (snd m).
Proof.
  destruct m as [[a|e] fx]; cbn; [|done]. intros Hk. specialize (Hk a eq_refl).
  destruct (k a) as [r fx']. cbn in *. by rewrite calls_app, Hk, app_nil_r.
Qed.

Lemma calls_serialize rt env args v : calls (snd (serialize rt env args v)) = [].
Proof. unfold serialize. destruct (to_vec env v); [done|apply calls_refund]. Qed.

Lemma calls_charge rt args n b : calls (snd (charge sqlx_display show_f64 rt args n b)) = [].
Proof. unfold charge. destruct (rt_cost rt); [|done]. by destruct (compute _ _ _ _ _). Qed.

Lemma calls_attempts {A} rt args bound vars (d : nat -> PreparedStmt -> list BoundParam -> SessionVars -> timed A) :
  calls_are (ECall 0 (rt_stmt rt) bound vars) (ECall 1 (rt_stmt rt) bound vars)
    (exists e, d 0%nat (rt_stmt rt) bound vars = Finished (Err e) /\ is_retryable_stale e = true)
    (attempts sqlx_display rt args bound vars d).
Proof.
  unfold calls_are, attempts, attempt. cbn [tell wbind].
  destruct (d 0%nat (rt_stmt rt) bound vars) as [|[b|e]] eqn:E0; cbn; rewrite ?calls_call, ?calls_refund; auto.
  destruct (is_retryable_stale e) eqn:Es; cbn; rewrite ?calls_call, ?calls_refund; auto.
  right. split; [|by eauto].
  destruct (d 1%nat (rt_stmt rt) bound vars) as [|[b1|e1]]; cbn; by rewrite ?calls_call, ?calls_refund.
Qed.

(** A retry happened because the first attempt met a stale statement. *)
Definition stale_first (rt : ProfileRuntime) (env : Env) (bound : list BoundParam) (vars : SessionVars) : Prop :=
  exists e, is_retryable_stale e = true /\ rt_row_mode rt <> ResultSets /\
    match rt_row_mode rt with
    | AffectedRows => call_affected env 0 (rt_stmt rt) bound vars = Finished (Err e)
    | _ => call env 0 (rt_stmt rt) bound vars = Finished (Err e)
    end.

Definition call_of (rt : ProfileRuntime) (bound : list BoundParam) (vars : SessionVars) (n : nat) : effect :=
  ECall n (rt_stmt rt) bound vars.

Lemma calls_rows rt env name args bound vars key :
  rt_row_mode rt <> ResultSets ->
  calls_are (call_of rt bound vars 0) (call_of rt bound vars 1) (stale_first rt env bound vars)
    (run_rows sqlx_display show_f64 rt env name args bound vars key).
Proof.
  intros Hm. unfold calls_are, run_rows. rewrite calls_bind; cycle 1.
  { intros batch _. rewrite calls_bind; [done|]. intros [payload t] _.
    rewrite calls_bind; [apply calls_serialize|]. intros bytes _.
    rewrite calls_bind; [apply calls_charge|]. intros _ _.
    unfold cache_put. by destruct key, (rt_cache rt). }
  unfold run_batch, stale_first. destruct (rt_row_mode rt) eqn:Em; try done.
  4: { rewrite calls_bind by done. destruct (calls_attempts rt args bound vars (call_affected env)) as [|[? (e & ? & ?)]]; eauto 10. }
  all: destruct (calls_attempts rt args bound vars (call env)) as [|[? (e & ? & ?)]]; [by left|right]; eauto 10.
Qed.

Lemma calls_result_sets rt env args bound vars :
  calls (snd (run_result_sets sqlx_display show_f64 rt env args bound vars)) = [call_of rt bound vars 0].
Proof.
  unfold run_result_sets. cbn [tell wbind].
  match goal with |- context [wbind ?m ?k] => assert (calls (snd (wbind m k)) = []) as E end.
  { rewrite calls_bind.
    - destruct (call_multi _ _ _ _) as [|[]]; cbn; rewrite ?calls_refund; done.
    - intros sets _. destruct (Shape.Shape.shape_result_sets _ _) as [payload t].
      rewrite calls_bind; [apply calls_serialize|]. intros bytes _. by rewrite calls_bind, calls_charge. }
  destruct (wbind _ _) as [r fx]. cbn in *. by rewrite calls_call, E.
Qed.

Lemma lookup_effects rt env name bound vars :
  exists l fx, cache_lookup digest number_str rt env name bound vars = (Ok l, fx) /\
    calls fx = [] /\ charges fx = 0%nat /\ refunds fx = 0%nat.
Proof.
  unfold cache_lookup. destruct (rt_cache rt) as [c|]; [|by do 2 eexists].
  destruct (enabled c); by do 2 eexists.
Qed.

(** What a call may ask of the driver. *)
Definition calls_bound (name : string) (req : BackendRequest) (rt : ProfileRuntime) (env : Env)
  (fx : list effect) : Prop :=
  calls fx = [] \/
  exists args bound vars,
    prepare_args sqlx_display rt env req name = Ok args /\
    from_sql sqlx_display (collect_bound_params args (param_order (rt_stmt rt))) = Ok bound /\
    call_vars rt env = Ok vars /\
    (calls fx = [call_of rt bound vars 0] \/
     (calls fx = [call_of rt bound vars 0; call_of rt bound vars 1] /\ stale_first rt env bound vars)).

Lemma query_calls name req rt env : calls_bound name req rt env (snd (query name req rt env)).
Proof.
  unfold calls_bound. destruct (query_prepared name req rt env)
    as [e|args bound vars Ea Eb Ev]; [by left|].
  destruct (lookup_effects rt env name bound vars) as (l & fx & -> & Hc & _). cbn [wbind].
  destruct l as [r|key]; [left; cbn; by rewrite app_nil_r|]. right. exists args, bound, vars.
  split_and!; [done..|].
  assert (calls_are (call_of rt bound vars 0) (call_of rt bound vars 1) (stale_first rt env bound vars)
    (match rt_row_mode rt with
     | ResultSets => run_result_sets sqlx_display show_f64 rt env args bound vars
     | _ => run_rows sqlx_display show_f64 rt env name args bound vars key end)) as Hcalls.
  { destruct (rt_row_mode rt) eqn:Em; try (apply calls_rows; congruence). left. apply calls_result_sets. }
  destruct (match rt_row_mode rt with ResultSets => _ | _ => _ end) as [r fx'].
  unfold calls_are in Hcalls. cbn in *. by rewrite calls_app, Hc.
Qed.

(** C20.  A call makes no driver call, one, or two, the second only after the
    first met a stale statement and never for result sets; every one of them has
    the profile's statement and the parameters bound from the caller's prepared
    arguments and session variables. *)
Theorem driver_calls_exact name req rt env :
  let fx := snd (query name req rt env) in
  calls fx = [] \/
  exists args bound vars,
    prepare_args sqlx_display rt env req name = Ok args /\
    from_sql sqlx_display (collect_bound_params args (param_order (rt_stmt rt))) = Ok bound /\
    call_vars rt env = Ok vars /\
    (calls fx = [call_of rt bound vars 0] \/
     (calls fx = [call_of rt bound vars 0; call_of rt bound vars 1] /\ stale_first rt env bound vars)).
Proof. apply query_calls. Qed.

(** Accounting: a call is charged at most once and refunded at most once,
    never both; a success that reached the driver is charged exactly when the
    profile has a cost, a cache hit is free, and a failure is never charged. *)
Theorem calls_accounted name req rt env :
  let (r, fx) := query name req rt env in
  if is_ok r
  then refunds fx = 0%nat /\ charges fx = match calls fx with [] => 0%nat | _ => costs rt end
  else charges fx = 0%nat /\ (refunds fx <= 1)%nat.
Proof.
  destruct (query_prepared name req rt env)
    as [e|args bound vars Ea Eb Ev]; [cbn; unfold charges, refunds; cbn; lia|].
  destruct (lookup_effects rt env name bound vars) as (l & fx & -> & Hc & Hch & Hr). cbn [wbind].
  destruct l as [r|key].
  { cbn. rewrite app_nil_r, Hc. done. }
  assert (ledger (costs rt) (match rt_row_mode rt with
     | ResultSets => run_result_sets sqlx_display show_f64 rt env args bound vars
     | _ => run_rows sqlx_display show_f64 rt env name args bound vars key end) /\
    calls (snd (match rt_row_mode rt with
     | ResultSets => run_result_sets sqlx_display show_f64 rt env args bound vars
     | _ => run_rows sqlx_display show_f64 rt env name args bound vars key end)) <> []) as [HL HC].
  { destruct (rt_row_mode rt) eqn:Em; (split; [apply ledger_rows||apply ledger_result_sets|]);
      try (rewrite calls_result_sets; done);
      destruct (calls_rows rt env name args bound vars key ltac:(congruence)) as [->|[-> _]]; done. }
  destruct (match rt_row_mode rt with ResultSets => _ | _ => _ end) as [r fx'].
  cbn [snd] in HC. unfold ledger in HL. rewrite charges_app, refunds_app, calls_app, Hc, Hch, Hr. cbn.
  destruct (is_ok r); [|lia]. destruct (calls fx'); [done|]. lia.
Qed.
(** ** The cache *)

Definition with_cache (env : Env) (get : string -> result string (option (list byte))) : Env := {|
  from_slice := from_slice env; to_vec := to_vec env; resolve_pool := resolve_pool env;
  resolve_vars := resolve_vars env; eval_params := eval_params env; cache_version := cache_version env;
  cache_get := get; call := call env; call_affected := call_affected env; call_multi := call_multi env |}.

Definition puts (fx : list effect) : list effect :=
  List.filter (fun e => match e with ECachePut _ _ _ => true | _ => false end) fx.

Arguments puts : simpl never.

Lemma puts_app a b : puts (a ++ b) = puts a ++ puts b.
Proof. apply List.filter_app. Qed.

Lemma puts_bind {A B} (m : W A) (k : A -> W B) :
  puts (snd m) = [] -> (forall a, fst m = Ok a -> puts (snd (k a)) = []) -> puts (snd (wbind m k)) = [].
Proof.
  destruct m as [[a|e] fx]; cbn; [|done]. intros Hm Hk. specialize (Hk a eq_refl).
  destruct (k a) as [r fx']. cbn in *. by rewrite puts_app, Hm, Hk.
Qed.

Lemma puts_refund rt args reason : puts (refund rt args reason) = [].
Proof. unfold refund. by destruct (rt_cost rt). Qed.

Lemma puts_serialize rt env args v : puts (snd (serialize rt env args v)) = [].
Proof. unfold serialize. destruct (to_vec env v); [done|apply puts_refund]. Qed.

Lemma puts_charge rt args n b : puts (snd (charge sqlx_display show_f64 rt args n b)) = [].
Proof. unfold charge. destruct (rt_cost rt); [|done]. by destruct (compute _ _ _ _ _). Qed.

Lemma puts_attempts {A} rt args bound vars (d : nat -> PreparedStmt -> list BoundParam -> SessionVars -> timed A) :
  puts (snd (attempts sqlx_display rt args bound vars d)) = [].
Proof.
  apply puts_bind; [done|]. intros _ _. destruct (d 0%nat _ _ _) as [|[|e]]; [apply puts_refund|done|].
  destruct (is_retryable_stale e); [|apply puts_refund]. apply puts_bind; [done|]. intros _ _.
  destruct (d 1%nat _ _ _) as [|[|]]; [apply puts_refund|done|apply puts_refund].
Qed.

Lemma puts_run_batch rt env args bound vars : puts (snd (run_batch sqlx_display rt env args bound vars)) = [].
Proof.
  unfold run_batch. destruct (rt_row_mode rt); try apply puts_attempts.
  apply puts_bind; [apply puts_attempts|done].
Qed.

Lemma puts_result_sets rt env args bound vars :
  puts (snd (run_result_sets sqlx_display show_f64 rt env args bound vars)) = [].
Proof.
  apply puts_bind; [done|]. intros _ _. apply puts_bind.
  { destruct (call_multi _ _ _ _) as [|[]]; [apply puts_refund|done|apply puts_refund]. }
  intros sets _. destruct (Shape.Shape.shape_result_sets _ _). apply puts_bind; [apply puts_serialize|].
  intros bytes _. apply puts_bind; [apply puts_charge|done].
Qed.

Lemma wbind_ok {A B} (m : W A) (k : A -> W B) b fx :
  wbind m k = (Ok b, fx) -> exists a fx1 fx2, m = (Ok a, fx1) /\ k a = (Ok b, fx2) /\ fx = fx1 ++ fx2.
Proof.
  destruct m as [[a|e] fx1]; cbn; [|done]. destruct (k a) as [r fx2] eqn:E. intros [= -> <-]. eauto 10.
Qed.

(** The only cache write of a call is the one that stores its response. *)
Lemma run_rows_put rt env name args bound vars key r fx :
  run_rows sqlx_display show_f64 rt env name args bound vars key = (Ok r, fx) ->
  puts fx = cache_put rt key r.
Proof.
  intros E. apply wbind_ok in E as (batch & fx1 & fx' & E1 & E & ->).
  apply wbind_ok in E as ([payload t] & fx2 & fx'' & E2 & E & ->).
  apply wbind_ok in E as (bytes & fx3 & fx3' & E3 & E & ->).
  apply wbind_ok in E as ([] & fx4 & fx4' & E4 & E & ->). cbn in E. injection E as <- <-.
  pose proof (puts_run_batch rt env args bound vars) as P1. rewrite E1 in P1.
  pose proof (puts_serialize rt env args (with_cursor rt name payload)) as P3. rewrite E3 in P3.
  pose proof (puts_charge rt args (cost_rows rt batch) (bytes_len bytes)) as P4. rewrite E4 in P4.
  injection E2 as _ <-. cbn in *. rewrite !puts_app, P1, P3, P4, app_nil_r. cbn.
  unfold cache_put. by destruct key, (rt_cache rt).
Qed.

Lemma tail_put name rt env args bound vars key r fx :
  match rt_row_mode rt with
  | ResultSets => run_result_sets sqlx_display show_f64 rt env args bound vars
  | _ => run_rows sqlx_display show_f64 rt env name args bound vars key
  end = (Ok r, fx) -> puts fx = [] \/ puts fx = cache_put rt key r.
Proof.
  destruct (rt_row_mode rt); intros E; try (right; by eapply run_rows_put).
  left. pose proof (puts_result_sets rt env args bound vars) as P. by rewrite E in P.
Qed.

Definition key_for (name : string) (rt : ProfileRuntime) (env : Env) (bound : list BoundParam) (vars : SessionVars) : string :=
  Cache.Cache.build_cache_key digest number_str name (stmt_sql (rt_stmt rt)) bound vars (cache_version env).

(** A call that wrote to the cache looked its key up first. *)
Lemma put_after_lookup name rt env args bound vars r fx key entry ttl :
  (do! found := cache_lookup digest number_str rt env name bound vars in
   match found with
   | Hit r => wret r
   | Continue key =>
       match rt_row_mode rt with
       | ResultSets => run_result_sets sqlx_display show_f64 rt env args bound vars
       | _ => run_rows sqlx_display show_f64 rt env name args bound vars key
       end
   end) = (Ok r, fx) -> In (ECachePut key entry ttl) fx ->
  (exists c, rt_cache rt = Some c /\ enabled c = true) /\
  key = key_for name rt env bound vars /\ entry = cache_entry r.
Proof.
  intros E Hin. assert (In (ECachePut key entry ttl) (puts fx)) as Hp by by apply filter_In.
  apply wbind_ok in E as (found & fx1 & fx2 & El & E & ->). rewrite puts_app in Hp.
  unfold cache_lookup in El.
  assert (forall k, puts fx1 = [] -> found = Continue k -> puts fx1 ++ puts fx2 = [] \/
          puts fx1 ++ puts fx2 = cache_put rt k r) as Htail.
  { intros k Hnil ->. rewrite Hnil. by eapply tail_put. }
  destruct (rt_cache rt) as [c|] eqn:Ec; [destruct (enabled c) eqn:Een|].
  2,3: injection El as <- <-; destruct (Htail None eq_refl eq_refl) as [Hn|Hn]; by rewrite Hn in Hp.
  cbn in El. injection El as <- <-. split; [eauto|].
  destruct (cache_get _ _) as [[[|flag rest]|]|e]; cycle 1.
  { cbn in E. by injection E as _ <-. }
  all: destruct (Htail _ eq_refl eq_refl) as [Hn|Hn]; rewrite Hn in Hp; [done|].
  2: done.
  all: unfold cache_put in Hp; rewrite Ec in Hp; destruct Hp as [[= <- <- <-]|[]]; done.
Qed.

(** C31.  What a call stores in the cache is its response: the same call, served
    from that entry, returns the same payload and truncation flag without a
    driver call, a charge or another write. *)
Theorem cache_serves_response name req rt env r fx key entry ttl get :
  query name req rt env = (Ok r, fx) -> In (ECachePut key entry ttl) fx ->
  get key = Ok (Some entry) ->
  query name req rt (with_cache env get) = (Ok r, [ECacheGet key]).
Proof.
  intros E Hin Hget. unfold execute_query in E |- *.
  change (call_vars rt (with_cache env get)) with (call_vars rt env).
  change (prepare_args sqlx_display rt (with_cache env get) req name)
    with (prepare_args sqlx_display rt env req name).
  apply wbind_ok in E as ([] & fx0 & fx0' & E0 & E & ->). injection E0 as E0 <-.
  cbn [resolve_pool with_cache]. rewrite E0. cbn [lift wbind].
  apply wbind_ok in E as (vars & fx1 & fx1' & E1 & E & ->). injection E1 as E1 <-. rewrite E1. cbn [lift wbind].
  apply wbind_ok in E as (args & fx2 & fx2' & E2 & E & ->). injection E2 as E2 <-. rewrite E2. cbn [lift wbind].
  apply wbind_ok in E as (bound & fx3 & fx3' & E3 & E & ->). injection E3 as E3 <-. rewrite E3. cbn [lift wbind].
  destruct (put_after_lookup _ _ _ _ _ _ _ _ _ _ _ E Hin) as ((c & Hc & Hen) & -> & ->).
  unfold cache_lookup. rewrite Hc, Hen. cbn [cache_version cache_get with_cache tell wbind wret].
  fold (key_for name rt env bound vars). rewrite Hget. cbn. do 2 f_equal.
  destruct r as [p t]. cbn. by destruct t.
Qed.

(** ** The breaker *)

(** A request whose payload is not JSON closes a tripped breaker: past its
    cooldown the breaker admits it as the probe, the call fails before any
    driver call, and the failure is recorded as a success. *)
Theorem bad_request_closes_breaker name req rt env t0 t1 b c rest e :
  Breaker.Breaker.state_load (Breaker.Breaker.state b) = Breaker.Breaker.Open ->
  Breaker.Breaker.cooldown_elapsed t0 b = true -> has_cred_refs rt = false ->
  req_payload req = c :: rest -> from_slice env (c :: rest) = Err e ->
  exists b', execute_inner sqlx_display t0 t1 (Some b) (registered (request_id req) (query name req rt env))
    = ((Err (BInvalidSpec ("request payload is not valid JSON: " +:+ e)),
        [ERegister (request_id req); EDeregister (request_id req)]), Some b') /\
    Breaker.Breaker.state_load (Breaker.Breaker.state b') = Breaker.Breaker.Closed /\
    Breaker.Breaker.consecutive_failures b' = 0.
Proof.
  intros Ho Hcool Hcred Hp Hs. unfold execute_inner, Breaker.Breaker.try_admit. rewrite Ho, Hcool.
  unfold execute_query, call_vars, prepare_args, parse_args. rewrite Hcred, Hp, Hs. cbn.
  eexists. split; [reflexivity|]. done.
Qed.
(** ** Fire and wait *)

(** Time passes at least as the sleeps ask: a poll that does not end the loop
    sleeps until the next poll is due or the deadline is reached. *)
Definition sleeps (aw : AwaitRuntime) (ae : AwaitEnv) : Prop :=
  let deadline := started_at ae + await_timeout_ms (await_cfg aw) in
  started_at ae <= clock ae 0 /\
  forall n, clock ae n < deadline ->
    clock ae n + Z.min (poll_interval_ms (await_cfg aw)) (deadline - clock ae n) <= clock ae (S n).

(** The number of intervals in the timeout, rounded up. *)
Definition max_polls (aw : AwaitRuntime) : nat :=
  let c := await_cfg aw in
  Z.to_nat ((await_timeout_ms c + poll_interval_ms c - 1) / poll_interval_ms c).

Lemma clock_lower aw ae n :
  0 < poll_interval_ms (await_cfg aw) -> sleeps aw ae ->
  Z.min (started_at ae + await_timeout_ms (await_cfg aw))
    (started_at ae + Z.of_nat n * poll_interval_ms (await_cfg aw)) <= clock ae n \/
  exists m, (m < n)%nat /\ started_at ae + await_timeout_ms (await_cfg aw) <= clock ae m.
Proof.
  intros Hp [Hs Hstep]. induction n as [|n IH]; [left; lia|].
  destruct IH as [IH|(m & Hm & Hd)]; [|right; exists m; split; [lia|done]].
  destruct (Z.le_gt_cases (started_at ae + await_timeout_ms (await_cfg aw)) (clock ae n)) as [Hd|Hd].
  - right. exists n. split; [lia|done].
  - left. specialize (Hstep n Hd). nia.
Qed.

(** By [max_polls] the deadline has passed. *)
Lemma deadline_passed aw ae :
  0 < poll_interval_ms (await_cfg aw) -> sleeps aw ae ->
  exists m, (m <= max_polls aw)%nat /\ started_at ae + await_timeout_ms (await_cfg aw) <= clock ae m.
Proof.
  intros Hp Hs. destruct (clock_lower aw ae (max_polls aw) Hp Hs) as [H2|(m & Hm & Hd)].
  - exists (max_polls aw). split; [lia|]. unfold max_polls in *. cbv zeta in *.
    set (T := await_timeout_ms (await_cfg aw)) in *. set (P := poll_interval_ms (await_cfg aw)) in *.
    pose proof (Z.div_mod (T + P - 1) P ltac:(lia)) as Hdm.
    pose proof (Z.mod_pos_bound (T + P - 1) P Hp) as Hmod.
    destruct (Z.le_gt_cases 0 ((T + P - 1) / P)) as [Hq|Hq].
    + rewrite Z2Nat.id in H2 by lia. nia.
    + replace (Z.to_nat ((T + P - 1) / P)) with 0%nat in * by lia. nia.
  - exists m. split; [lia|done].
Qed.

Definition with_vars (vars : SessionVars) (e : effect) : Prop :=
  match e with ECall _ _ _ v => v = vars | _ => False end.

(** Few calls, all with the profile's own session variables. *)
Definition few_calls (rt : ProfileRuntime) (n : nat) (fx : list effect) : Prop :=
  (length (calls fx) <= n)%nat /\ Forall (with_vars (rt_session_vars rt)) (calls fx).

Lemma few_calls_app rt n m a b : few_calls rt n a -> few_calls rt m b -> few_calls rt (n + m) (a ++ b).
Proof. intros [? ?] [? ?]. unfold few_calls. rewrite calls_app, length_app, Forall_app. split; [lia|done]. Qed.

Lemma few_calls_none rt n fx : calls fx = [] -> few_calls rt n fx.
Proof. intros E. unfold few_calls. rewrite E. split; [cbn; lia|done]. Qed.

Lemma check_calls rt aw ae args n : few_calls rt 1 (snd (await_check sqlx_display rt aw ae args n)).
Proof.
  unfold await_check. destruct (from_sql _ _) as [bound|e]; [|by apply few_calls_none]. cbn [lift wbind tell].
  destruct (check_call ae n (check_stmt aw) bound (rt_session_vars rt)) as [|[b|e]]; unfold few_calls; cbn;
    rewrite calls_call, ?calls_refund; split; try (cbn; lia); by repeat constructor.
Qed.

Lemma trigger_calls rt aw ae args : few_calls rt 1 (snd (run_trigger sqlx_display rt aw ae args)).
Proof.
  unfold run_trigger. destruct (trigger_stmt aw) as [stmt|]; [|by apply few_calls_none].
  destruct (from_sql _ _) as [bound|e]; [|by apply few_calls_none]. cbn [lift wbind tell].
  destruct (trigger_call ae stmt bound (rt_session_vars rt)) as [|[b|e]]; unfold few_calls; cbn;
    rewrite calls_call, ?calls_refund; split; try (cbn; lia); by repeat constructor.
Qed.

(** The response is a check row the predicate accepted. *)
Definition matched (rt : ProfileRuntime) (aw : AwaitRuntime) (env : Env) (ae : AwaitEnv) (args : value)
  (r : result BackendError BackendResponse) : Prop :=
  forall resp, r = Ok resp -> exists n row,
    (n <= max_polls aw)%nat /\ fst (await_check sqlx_display rt aw ae args n) = Ok row /\
    evaluate_await_predicate (await_predicate aw) row args = true /\
    to_vec env row = Ok (payload resp) /\ resp_truncated resp = false.

Lemma matched_response name rt env args row polls :
  let m := await_matched sqlx_display show_f64 name rt env args row polls in
  calls (snd m) = [] /\
  forall resp, fst m = Ok resp -> to_vec env row = Ok (payload resp) /\ resp_truncated resp = false.
Proof.
  cbv zeta. unfold await_matched. destruct (to_vec env row) as [bytes|e]; cbn [wret wbind fst snd].
  - pose proof (calls_charge rt args (match row with VNull => 0 | _ => 1 end) (bytes_len bytes)) as Hc.
    destruct (charge _ _ _ _ _ _) as [[[]|e] fx]; cbn in *; rewrite ?app_nil_r; (split; [done|]);
      intros resp Hr; [injection Hr as <-|]; done.
  - split; [apply calls_refund|done].
Qed.

Lemma await_loop_spec fuel n name rt aw env ae args m :
  started_at ae + await_timeout_ms (await_cfg aw) <= clock ae m -> (n <= m <= max_polls aw)%nat ->
  (m - n < fuel)%nat ->
  exists r fx, await_loop sqlx_display show_f64 fuel n name rt aw env ae args = Some (r, fx) /\
    few_calls rt (S (m - n)) fx /\ matched rt aw env ae args r.
Proof.
  intros Hd. revert n. induction fuel as [|fuel IH]; intros n Hn Hf; [lia|]. cbn [await_loop].
  pose proof (check_calls rt aw ae args n) as Hc.
  destruct (await_check sqlx_display rt aw ae args n) as [[row|e] fx] eqn:E; cbn [snd] in Hc.
  2: { do 2 eexists. split; [done|]. split; [|by intros resp]. destruct Hc. split; [lia|done]. }
  destruct (evaluate_await_predicate _ row args) eqn:Ep.
  { destruct (matched_response name rt env args row (Z.of_nat n + 1)) as [H2 H3].
    destruct (await_matched _ _ _ _ _ _ _ _) as [r fx']. cbn [fst snd] in *. do 2 eexists. split; [done|]. split.
    - apply (few_calls_app _ 1 (m - n)); [done|by apply few_calls_none].
    - intros resp Hr. exists n, row. rewrite E. destruct (H3 resp Hr). split_and!; try done. lia. }
  destruct ((_ <=? _) || drained ae n) eqn:Estop.
  { do 2 eexists. split; [reflexivity|]. split; [|by intros resp].
    apply (few_calls_app _ 1 (m - n)); [done|]. apply few_calls_none, calls_refund. }
  apply orb_false_iff in Estop as [Hle _]. apply Z.leb_gt in Hle.
  assert (n <> m) by (intros ->; lia).
  destruct (IH (S n)) as (r & fx' & -> & Hfx & Hr); [lia|lia|].
  do 2 eexists. split; [done|]. split; [|done].
  replace (S (m - n)) with (1 + S (m - S n))%nat by lia. by apply few_calls_app.
Qed.

(** The [i]-th check with these arguments. *)
Definition check_at (rt : ProfileRuntime) (aw : AwaitRuntime) (bound : list BoundParam) (i : nat) : effect :=
  ECall i (check_stmt aw) bound (rt_session_vars rt).

(** After check [i] the loop goes on: time is left and the plugin does not drain. *)
Definition goes_on (aw : AwaitRuntime) (ae : AwaitEnv) (i : nat) : Prop :=
  clock ae i < started_at ae + await_timeout_ms (await_cfg aw) /\ drained ae i = false.

(** The checks of a loop that starts at poll [n], in order and each after the
    one before was followed by another sleep. *)
Definition checks_from (rt : ProfileRuntime) (aw : AwaitRuntime) (ae : AwaitEnv) (n : nat) (fx : list effect) : Prop :=
  exists bound k, calls fx = map (check_at rt aw bound) (seq n k) /\
    forall i, (n <= i)%nat -> (S i < n + k)%nat -> goes_on aw ae i.

Lemma check_once rt aw ae args n :
  let fx := snd (await_check sqlx_display rt aw ae args n) in
  calls fx = [] /\ is_ok (fst (await_check sqlx_display rt aw ae args n)) = false \/
  exists bound, collect_bound_params args (param_order (check_stmt aw)) = Ok bound /\ calls fx = [check_at rt aw bound n].
Proof.
  cbv zeta. unfold await_check.
  destruct (collect_bound_params args (param_order (check_stmt aw))) as [bound|e]; [right|by left].
  exists bound. split; [done|]. cbn [from_sql rmap_err]. cbn [lift wbind tell].
  destruct (check_call ae n (check_stmt aw) bound (rt_session_vars rt)) as [|[b|e]]; cbn; rewrite calls_call, ?calls_refund; done.
Qed.

Lemma await_loop_checks fuel n name rt aw env ae args r fx :
  await_loop sqlx_display show_f64 fuel n name rt aw env ae args = Some (r, fx) -> checks_from rt aw ae n fx.
Proof.
  assert (exists bound0, forall bound, collect_bound_params args (param_order (check_stmt aw)) = Ok bound -> bound = bound0) as [b0 Hb].
  { destruct (collect_bound_params args (param_order (check_stmt aw))) as [b|]; [exists b; by intros ? [= ->]|by exists []]. }
  assert (forall k f, calls f = map (check_at rt aw b0) (seq n k) -> (k <= 1)%nat -> checks_from rt aw ae n f) as Hone.
  { intros k f E Hk. exists b0, k. split; [done|]. intros i ? ?. lia. }
  assert (forall n, let f := snd (await_check sqlx_display rt aw ae args n) in
    calls f = [] /\ is_ok (fst (await_check sqlx_display rt aw ae args n)) = false \/ calls f = [check_at rt aw b0 n]) as Hc.
  { intros i. cbv zeta. destruct (check_once rt aw ae args i) as [|(bound & E & ->)]; [by left|right]. by rewrite (Hb _ E). }
  clear Hb. enough (forall r fx, await_loop sqlx_display show_f64 fuel n name rt aw env ae args = Some (r, fx) ->
    exists k, calls fx = map (check_at rt aw b0) (seq n k) /\
      forall i, (n <= i)%nat -> (S i < n + k)%nat -> goes_on aw ae i) as Hx.
  { intros E. destruct (Hx _ _ E) as (k & E1 & E2). by exists b0, k. }
  clear r fx Hone. revert n. induction fuel as [|fuel IH]; intros n r fx; [done|]. cbn [await_loop].
  specialize (Hc n). destruct (await_check sqlx_display rt aw ae args n) as [[row|e] fx1]; cbn [fst snd is_ok] in Hc.
  2: { intros [= <- <-]. destruct Hc as [[-> _]| ->]; [exists 0%nat|exists 1%nat]; (split; [done|intros; lia]). }
  destruct Hc as [[_ Hc]|Hc]; [done|].
  destruct (evaluate_await_predicate _ row args).
  { destruct (matched_response name rt env args row (Z.of_nat n + 1)) as [H2 _].
    destruct (await_matched _ _ _ _ _ _ _ _) as [r' fx']. cbn [snd] in H2. intros [= <- <-]. exists 1%nat.
    rewrite calls_app, Hc, H2. split; [done|intros; lia]. }
  destruct ((_ <=? _) || drained ae n) eqn:Estop.
  { intros [= <- <-]. exists 1%nat. rewrite calls_app, Hc, calls_refund. split; [done|intros; lia]. }
  apply orb_false_iff in Estop as [Hle Hdr]. apply Z.leb_gt in Hle.
  destruct (await_loop _ _ _ _ _ _ _ _ _ _) as [[r' fx']|] eqn:E; [|done]. intros [= <- <-].
  destruct (IH _ _ _ E) as (k & E1 & E2). exists (S k). rewrite calls_app, Hc, E1. split; [done|].
  intros i Hi Hk. destruct (decide (i = n)) as [->|]; [done|]. apply E2; lia.
Qed.

(** The calls of a fire-and-wait: the trigger, if there is one, then the checks. *)
Definition waits (rt : ProfileRuntime) (aw : AwaitRuntime) (ae : AwaitEnv) (fx : list effect) : Prop :=
  exists trig bound k, calls fx = trig ++ map (check_at rt aw bound) (seq 0 k) /\
    (trig = [] \/ exists stmt args, trigger_stmt aw = Some stmt /\ trig = [ECall 0 stmt args (rt_session_vars rt)]) /\
    (k <= S (max_polls aw))%nat /\ forall i, (S i < k)%nat -> goes_on aw ae i.

Lemma trigger_once rt aw ae args :
  let fx := snd (run_trigger sqlx_display rt aw ae args) in
  calls fx = [] \/ exists stmt bound, trigger_stmt aw = Some stmt /\ calls fx = [ECall 0 stmt bound (rt_session_vars rt)].
Proof.
  cbv zeta. unfold run_trigger. destruct (trigger_stmt aw) as [stmt|]; [|by left].
  destruct (collect_bound_params args (param_order stmt)) as [bound|e]; [right|by left].
  exists stmt, bound. split; [done|]. cbn [from_sql rmap_err]. cbn [lift wbind tell].
  destruct (trigger_call ae stmt bound (rt_session_vars rt)) as [|[b|e]]; cbn; rewrite calls_call, ?calls_refund; done.
Qed.

End Facts.

(** * Transaction groups *)

Definition is_execute (e : tx_effect) : bool := match e with TxExecute _ _ _ => true | _ => false end.

Lemma nested_step_effects te d n step input :
  Forall (fun e => is_execute e = true) (snd (run_tx_nested_step te d n step input)).
Proof.
  unfold run_tx_nested_step. cbv zeta. destruct (collect_bound_params _ _); [|constructor].
  repeat (destruct (String.eqb _ _); [by repeat constructor|]). constructor.
Qed.

Lemma tx_steps_effects te d n steps input acc :
  exists execs, Forall (fun e => is_execute e = true) execs /\
    snd (run_tx_steps te d n steps input acc)
    = execs ++ (if is_ok (fst (run_tx_steps te d n steps input acc)) then [] else [TxRollback]).
Proof.
  revert n acc. induction steps as [|step steps IH]; intros n acc; [by exists []|]. cbn [run_tx_steps].
  pose proof (nested_step_effects te d n step input) as Hfx.
  destruct (run_tx_nested_step te d n step input) as [[v|msg] fx]; cbn [snd] in Hfx.
  - destruct (IH (S n) (obj_insert (step_id step) v acc)) as (execs & HF & E).
    destruct (run_tx_steps _ _ _ _ _ _) as [r fx']. cbn [fst snd] in *. exists (fx ++ execs).
    rewrite Forall_app, E, app_assoc. done.
  - by exists fx.
Qed.

(** A transaction group is atomic: nothing happens when the transaction
    cannot begin; otherwise its statements run inside it and it ends exactly
    once, with a commit when every step succeeded and with a rollback at the
    first step that failed; a group that reports success was committed. *)
Theorem tx_group_atomic te steps input :
  let (r, fx) := execute_transaction te steps input in
  (fx = [] /\ exists e, tx_begin te = Err e /\ r = Err e) \/
  exists execs last, fx = TxBegin :: execs ++ [last] /\ Forall (fun e => is_execute e = true) execs /\
    ((last = TxRollback /\ is_ok r = false) \/
     (last = TxCommit /\ is_ok r = is_ok (tx_commit te))).
Proof.
  unfold execute_transaction. destruct (tx_begin te) as [d|e]; [|cbn; left; eauto].
  destruct (tx_steps_effects te d 0 steps input []) as (execs & HF & E).
  destruct (run_tx_steps te d 0 steps input []) as [[results|e] fx]; cbn [fst snd is_ok] in E; subst fx; cbn beta iota; right.
  - exists execs, TxCommit. rewrite app_nil_r. split; [done|]. split; [done|]. right.
    split; [done|]. by destruct (tx_commit te) as [[]|].
  - exists execs, TxRollback. split; [done|]. split; [done|]. by left.
Qed.

(** * Concrete calls *)

Module Demo.
Import ToyUrl ToyCel Stream.ToyCursor.

Definition stmt : PreparedStmt :=
  {| stmt_sql := "SELECT n FROM t WHERE id = $1"; param_order := ["id"]; stmt_driver := Postgres |}%string.

Definition vars : SessionVars := {| values := [("tenant", "acme")] |}%string.

Definition rt : ProfileRuntime := {|
  rt_driver := Postgres; rt_stmt := stmt; rt_row_mode := Many; rt_max_rows := 2; rt_timeout := 1000;
  has_cred_refs := false; rt_session_vars := vars; has_param_exprs := false; stream_rt := None;
  rt_cache := Some {| enabled := true; ttl_seconds := 60; invalidate_on := None |};
  rt_cost := match cost_compile ToyCel.spec with Ok c => Some c | Err _ => None end;
  await_rt := None |}.

Definition batch : RowBatch :=
  {| columns := ["n"]; rows := map (fun n => VObject [("n", json_i64 n)]) [1; 2; 3]; rows_affected := None;
     truncated := false; has_more := false |}%string.

(** The first attempt meets a stale statement. *)
Definition env : Env := {|
  from_slice := fun b => match b with
                         | Byte.x7b :: _ => Ok (VObject [("id", json_i64 7)])
                         | _ => Err "expected value"
                         end;
  to_vec := fun _ => Ok [Byte.x5b; Byte.x5d];
  resolve_pool := Ok (); resolve_vars := Ok vars; eval_params := fun v => Ok v; cache_version := 0;
  cache_get := fun _ => Ok None;
  call := fun n _ _ _ => if Nat.eqb n 0 then Finished (Err (Execute (Database (Some "26000") "stale")))
                         else Finished (Ok batch);
  call_affected := fun _ _ _ _ => TimedOut;
  call_multi := fun _ _ _ => TimedOut |}%string.

Definition req (first : byte) : BackendRequest :=
  {| req_payload := [first]; request_id := "r1"; idempotency := None |}%string.

Definition digest (b : list byte) : string := "k".
Definition number_str (n : number) : string := EmptyString.
Definition shown (f : f64) : string := EmptyString.

Definition answer : W BackendResponse :=
  execute_query ToyUrl.display shown digest number_str "b" (req Byte.x7b) rt env.

(** Two driver calls, one charge, one cache write, rows cut to the limit. *)
Example answer_ok :
  fst answer = Ok (mkResponse [Byte.x5b; Byte.x5d] true) /\
  length (calls (snd answer)) = 2%nat /\ charges (snd answer) = 1%nat /\ refunds (snd answer) = 0%nat /\
  puts (snd answer) = [ECachePut "k" [Byte.x01; Byte.x5b; Byte.x5d] 60].
Proof. by vm_compute. Qed.

Lemma cache_serves_response_witness :
  execute_query ToyUrl.display shown digest number_str "b" (req Byte.x7b) rt
    (with_cache env (fun _ => Ok (Some [Byte.x01; Byte.x5b; Byte.x5d])))
  = (Ok (mkResponse [Byte.x5b; Byte.x5d] true), [ECacheGet "k"]).
Proof.
  apply (cache_serves_response ToyUrl.display shown digest number_str "b" (req Byte.x7b) rt env
    (mkResponse [Byte.x5b; Byte.x5d] true) (snd answer) "k" [Byte.x01; Byte.x5b; Byte.x5d] 60).
  - by vm_compute.
  - vm_compute. tauto.
  - reflexivity.
Defined.

Lemma bad_request_closes_breaker_witness :
  exists b', execute_inner ToyUrl.display 2000007 2000008 (Some Breaker.Breaker.tripped)
      (registered "r1" (execute_query ToyUrl.display shown digest number_str "b" (req Byte.x21) rt env))
    = ((Err (BInvalidSpec "request payload is not valid JSON: expected value"),
        [ERegister "r1"; EDeregister "r1"]), Some b') /\
    Breaker.Breaker.state_load (Breaker.Breaker.state b') = Breaker.Breaker.Closed /\
    Breaker.Breaker.consecutive_failures b' = 0.
Proof.
  apply (bad_request_closes_breaker ToyUrl.display shown digest number_str "b" (req Byte.x21) rt env
    2000007 2000008 Breaker.Breaker.tripped Byte.x21 [] "expected value"); reflexivity.
Defined.

Definition aw : AwaitRuntime := {|
  await_cfg := {| trigger := None; check := {| step_sql := "SELECT 1"; step_params := [] |};
                  predicate := "row.done"; poll_interval_ms := 100; await_timeout_ms := 250 |};
  trigger_stmt := Some stmt; check_stmt := stmt; await_predicate := "row.done" |}%string.

Definition ae : AwaitEnv := {|
  trigger_call := fun _ _ _ => Finished (Ok batch); check_call := fun _ _ _ _ => Finished (Ok batch);
  started_at := 0; clock := fun n => Z.of_nat n * 100; drained := fun _ => false |}.


(** A group whose second step fails is rolled back. *)
Definition te : TxEnv := {|
  tx_begin := Ok Postgres;
  tx_execute := fun _ _ _ => Ok batch;
  tx_execute_affected := fun n _ _ => if Nat.eqb n 1 then Err (Timeout 5) else Ok 1;
  tx_commit := Ok (); show_error := fun _ => EmptyString |}.

Definition step (id : string) : TxStep :=
  {| step_id := id; tx_sql := "UPDATE t SET n = 1"; tx_params := []; tx_row_mode := "affected_rows" |}%string.

Example group_rolled_back :
  let (r, fx) := execute_transaction te [step "a"; step "b"; step "c"]%string VNull in
  is_ok r = false /\ length fx = 4%nat /\ last fx = Some TxRollback.
Proof. by vm_compute. Qed.
End Demo.

End Execute.
