(* ===== verification/Schema.v ===== *)
(** JSON Schema derivation: [src/src/schema.rs], [describe_parameters] and
    [describe_columns] of [src/src/driver/postgres.rs], and the two derivation
    steps of [register_profile].

    A schema is a JSON value, as in the code.  The second part gives schemas
    their meaning: an executable validator for the keywords the code emits
    ([type], [properties], [required], [additionalProperties], [items],
    [minimum], [maximum]; [format] and [contentEncoding] are annotations).  The
    theorems relate the derived schemas to what the call path accepts and
    returns. *)

From Stdlib Require Import ZArith Lia Bool Ascii String SpecFloat.
From stdpp Require Import base list strings.
From S2P Require Import Prelude RustStd Redact Text Errors Json Params F64 Interval Sqlx Rows Stream Config Shape Cache Cost Execute.

Module Schema.
Import Stream.

(** [json!({..})]: keys are inserted into a map. *)
Definition json_obj (l : list (string * value)) : value :=
  VObject (foldl (fun m kv => obj_insert (fst kv) (snd kv) m) [] l).

Inductive SchemaDerive : Type := Off | Input | Output | Both.

Definition includes_input (d : SchemaDerive) : bool :=
  match d with Input | Both => true | _ => false end.

Definition includes_output (d : SchemaDerive) : bool :=
  match d with Output | Both => true | _ => false end.

Definition SchemaDerive_default : SchemaDerive := Off.

(** The loop's two accumulators: [properties] and [required]. *)
Fixpoint build_input_go (params : list (string * value)) (properties : json_map) (required : list value)
  : json_map * list value :=
  match params with
  | [] => (properties, required)
  | (name, frag) :: params' =>
      build_input_go params' (obj_insert name frag properties) (required ++ [VString name])
  end.

Definition object_schema (required : list value) (properties : json_map) : value :=
  json_obj [("type", VString "object"); ("additionalProperties", VBool false);
            ("required", VArray required); ("properties", VObject properties)]%string.

Definition build_input_schema (params : list (string * value)) : value :=
  let (properties, required) := build_input_go params [] [] in
  object_schema required properties.

Definition typed (t : string) : value := json_obj [("type", VString t)]%string.

Definition typed_format (t f : string) : value :=
  json_obj [("type", VString t); ("format", VString f)]%string.

Definition pg_type_to_json_schema (pg_type : string) : value :=
  let t := str_lower pg_type in
  if one_of ["bool"] t then typed "boolean"
  else if one_of ["int2"; "smallint"] t then
    json_obj [("type", VString "integer"); ("minimum", json_i64 (-32768)); ("maximum", json_i64 32767)]
  else if one_of ["int4"; "integer"; "int"] t then typed "integer"
  else if one_of ["int8"; "bigint"] t then typed "integer"
  else if one_of ["float4"; "real"] t then typed "number"
  else if one_of ["float8"; "double precision"; "double"] t then typed "number"
  else if one_of ["numeric"; "decimal"] t then typed_format "string" "decimal"
  else if one_of ["text"; "varchar"; "char"; "bpchar"; "name"; "citext"] t then typed "string"
  else if one_of ["date"] t then typed_format "string" "date"
  else if one_of ["time"; "timetz"] t then typed_format "string" "time"
  else if one_of ["timestamp"; "timestamptz"] t then typed_format "string" "date-time"
  else if one_of ["interval"] t then typed_format "string" "duration"
  else if one_of ["uuid"] t then typed_format "string" "uuid"
  else if one_of ["json"; "jsonb"] t then json_obj []
  else if one_of ["bytea"] t then
    json_obj [("type", VString "string"); ("contentEncoding", VString "base64")]
  else json_obj [].

Definition input_schema_from_pg_params (param_names pg_type_names : list string) : option value :=
  if Nat.eqb (length param_names) (length pg_type_names) then
    Some (build_input_schema
            (zip_with (fun n ty => (n, pg_type_to_json_schema ty)) param_names pg_type_names))
  else None.

Record OutputColumn : Type := {
  oc_name : string;
  oc_pg_type : string;
  oc_nullable : option bool;
}.

Definition known_not_null (nullable : option bool) : bool :=
  match nullable with Some false => true | _ => false end.

Definition widen_to_nullable (frag : value) (nullable : option bool) : value :=
  if known_not_null nullable then frag
  else match frag with
       | VObject m =>
           let rest := obj_remove "type" m in
           match obj_get "type" m with
           | Some (VString s) =>
               if String.eqb s "null" then VObject (obj_insert "type" (VString s) rest)
               else VObject (obj_insert "type" (VArray [VString s; VString "null"]) rest)
           | Some other => VObject (obj_insert "type" other rest)
           | None => VObject rest
           end
       | other => other
       end%string.

Definition column_schema (col : OutputColumn) : value :=
  widen_to_nullable (pg_type_to_json_schema (oc_pg_type col)) (oc_nullable col).

(** The loop over the columns: [properties] and [required]. *)
Fixpoint output_go (cols : list OutputColumn) (properties : json_map) (required : list value)
  : json_map * list value :=
  match cols with
  | [] => (properties, required)
  | col :: cols' =>
      output_go cols' (obj_insert (oc_name col) (column_schema col) properties)
        (if known_not_null (oc_nullable col) then required ++ [VString (oc_name col)] else required)
  end.

Definition row_schema (cols : list OutputColumn) : value :=
  let (properties, required) := output_go cols [] [] in
  object_schema required properties.

Definition array_of (items : value) : value :=
  json_obj [("type", VString "array"); ("items", items)]%string.

Definition output_schema_from_pg_columns (cols : list OutputColumn) (row_mode : RowMode)
  : option value :=
  match cols with
  | [] => None
  | col :: _ =>
      match row_mode with
      | ResourceContents | ResultSets => None
      | AffectedRows => Some (json_obj [
          ("type", VString "object");
          ("properties", json_obj [("rows_affected",
             json_obj [("type", VString "integer"); ("minimum", json_i64 0)])]);
          ("required", VArray [VString "rows_affected"])])
      | Scalar => Some (column_schema col)
      | Single => Some (row_schema cols)
      | Many => Some (array_of (row_schema cols))
      | StreamMode => Some (json_obj [
          ("type", VString "object"); ("additionalProperties", VBool false);
          ("required", VArray [VString "rows"; VString "next_cursor"; VString "truncated"]);
          ("properties", json_obj [
             ("rows", array_of (row_schema cols));
             ("next_cursor", json_obj [("type", VArray [VString "string"; VString "null"])]);
             ("truncated", typed "boolean")])])
      end%string
  end.

(** * Derivation at registration *)

(** [sqlx::Describe]: the parameters, as type names or only their number, and
    the columns. *)
Record Describe : Type := {
  d_parameters : option (list string + nat);
  d_columns : list OutputColumn;
}.

(** [sqlx::Executor::describe] is given by its answer. *)
Definition describe_parameters (pool : PoolHandle) (answer : result sqlx_error Describe)
  (param_names : list string) : result SqlError (option value) :=
  match pool with
  | PgPool =>
      let? described := rmap_err from_execute answer in
      match d_parameters described with
      | None => Ok None
      | Some (inl type_names) => Ok (input_schema_from_pg_params param_names type_names)
      | Some (inr _) => Ok None
      end
  | _ => Err (InvalidSpec "postgres describe_parameters invoked with non-postgres pool handle")
  end.

Definition describe_columns (pool : PoolHandle) (answer : result sqlx_error Describe)
  (row_mode : RowMode) : result SqlError (option value) :=
  match pool with
  | PgPool =>
      let? described := rmap_err from_execute answer in
      Ok (output_schema_from_pg_columns (d_columns described) row_mode)
  | _ => Err (InvalidSpec "postgres describe_columns invoked with non-postgres pool handle")
  end.

(** The two steps of [register_profile]: a failure leaves the schema out. *)
Definition derive_input (d : SchemaDerive) (r : result SqlError (option value)) : option value :=
  if includes_input d then match r with Ok (Some v) => Some v | Ok None => None | Err _ => None end
  else None.

Definition derive_output (d : SchemaDerive) (r : result SqlError (option value)) : option value :=
  if includes_output d then match r with Ok v => v | Err _ => None end
  else None.

(** * What a schema means *)

(** [type] with one name.  A number counts as an integer when serde_json
    carries it as one. *)
Definition has_type (t : string) (v : value) : bool :=
  match v with
  | VNull => String.eqb t "null"
  | VBool _ => String.eqb t "boolean"
  | VNumber (Float _) => String.eqb t "number"
  | VNumber _ => String.eqb t "number" || String.eqb t "integer"
  | VString _ => String.eqb t "string"
  | VArray _ => String.eqb t "array"
  | VObject _ => String.eqb t "object"
  end.

Definition type_ok (types v : value) : bool :=
  match types with
  | VString t => has_type t v
  | VArray ts => existsb (fun t => match t with VString t => has_type t v | _ => false end) ts
  | _ => false
  end.

Definition int_of (n : number) : option Z :=
  match n with PosInt z | NegInt z => Some z | Float _ => None end.

(** [minimum] and [maximum] with integer bounds. *)
Definition bound_ok (le : Z -> Z -> bool) (fle : f64 -> f64 -> bool) (bound v : value) : bool :=
  match bound, v with
  | VNumber b, VNumber n =>
      match int_of b, n with
      | Some z, Float f => fle (f64_of_Z z) f
      | Some z, n => match int_of n with Some x => le z x | None => false end
      | None, _ => false
      end
  | _, _ => true
  end.

Definition is_member (o : json_map) (k : string) : bool :=
  match obj_get k o with Some _ => true | None => false end.

(** The value under [n] against the schema [properties] gives it. *)
Fixpoint property_ok (rec : value -> value -> bool) (n : string) (x : value) (ps : json_map) : bool :=
  match ps with
  | [] => true
  | (n', s) :: ps' => if String.eqb n n' then rec s x else property_ok rec n x ps'
  end.

Definition keyword (rec : value -> value -> bool) (schema : json_map) (k : string) (arg v : value) : bool :=
  if String.eqb k "type" then type_ok arg v
  else if String.eqb k "minimum" then bound_ok Z.leb f64_leb arg v
  else if String.eqb k "maximum" then bound_ok (fun b x => x <=? b) (fun b x => f64_leb x b) arg v
  else if String.eqb k "required" then
    match arg, v with
    | VArray names, VObject o =>
        forallb (fun n => match n with VString n => is_member o n | _ => false end) names
    | _, _ => true
    end
  else if String.eqb k "properties" then
    match arg, v with
    | VObject ps, VObject o =>
        forallb (fun n => match obj_get n o with Some x => property_ok rec n x ps | None => true end)
          (map fst o)
    | _, _ => true
    end
  else if String.eqb k "additionalProperties" then
    match arg, v with
    | VBool false, VObject o =>
        let ps := match obj_get "properties" schema with Some (VObject ps) => ps | _ => [] end in
        forallb (is_member ps) (map fst o)
    | _, _ => true
    end
  else if String.eqb k "items" then
    match v with VArray l => forallb (rec arg) l | _ => true end
  else true.

(** [v] is an instance of the schema. *)
Fixpoint valid (schema v : value) {struct schema} : bool :=
  match schema with
  | VBool b => b
  | VObject m => forallb (fun kv => keyword valid m (fst kv) (snd kv) v) m
  | _ => false
  end.

(** * Facts about the validator *)

Lemma property_ok_get rec n x ps :
  property_ok rec n x ps = match obj_get n ps with Some s => rec s x | None => true end.
Proof. induction ps as [|[n' s] ps IH]; [done|]. simpl. by destruct (String.eqb n n'). Qed.

Lemma obj_get_key n o : is_Some (obj_get n o) <-> n ∈ map fst o.
Proof.
  induction o as [|[k v] o IH]; simpl.
  - split; [intros []; done|]. by intros ?%elem_of_nil.
  - rewrite elem_of_cons. destruct (String.eqb_spec n k) as [->|].
    + split; [by left|]. by eexists.
    + rewrite IH. split; [by right|]. intros [?|?]; done.
Qed.

Lemma forallb_elem {A} (f : A -> bool) l : forallb f l = true <-> forall x, x ∈ l -> f x = true.
Proof. rewrite forallb_forall. by setoid_rewrite list_elem_of_In. Qed.

Definition names_present (required : list value) (o : json_map) : Prop :=
  Forall (fun r => exists n, r = VString n /\ is_member o n = true) required.

Lemma valid_object_eq required ps o :
  valid (object_schema required ps) (VObject o) =
  forallb (is_member ps) (map fst o) &&
  (forallb (fun n => match obj_get n o with Some x => property_ok valid n x ps | None => true end)
     (map fst o) &&
   forallb (fun n => match n with VString n => is_member o n | _ => false end) required).
Proof.
  change (object_schema required ps) with
    (VObject [("additionalProperties", VBool false); ("properties", VObject ps);
              ("required", VArray required); ("type", VString "object")])%string.
  cbn [valid forallb fst snd]. unfold keyword.
  cbn -[forallb valid property_ok]. by rewrite !andb_true_r.
Qed.

Lemma valid_array_eq items l : valid (array_of items) (VArray l) = forallb (valid items) l.
Proof.
  change (array_of items) with (VObject [("items", items); ("type", VString "array")])%string.
  cbn [valid forallb fst snd]. unfold keyword.
  cbn -[forallb valid]. by rewrite !andb_true_r.
Qed.

(** An instance of a record schema is an object with the required members,
    all of whose members are declared and valid. *)
Lemma valid_object_schema required ps v :
  valid (object_schema required ps) v = true <->
  exists o, v = VObject o /\ names_present required o /\
    forall n x, obj_get n o = Some x -> exists s, obj_get n ps = Some s /\ valid s x = true.
Proof.
  destruct v as [| |[]|?|?|o]; try (split; [cbn; rewrite ?andb_false_r; discriminate|by intros (? & ? & ?)]).
  rewrite valid_object_eq, !andb_true_iff. unfold names_present. setoid_rewrite Forall_forall.
  setoid_rewrite forallb_elem. split.
  - intros (Ha & Hp & Hr). exists o. split_and!; [done| |].
    + intros r Hin. specialize (Hr r Hin). destruct r; try done. by eexists.
    + intros n x Hx. assert (n ∈ map fst o) as Hin by (apply obj_get_key; by eexists).
      specialize (Ha n Hin). specialize (Hp n Hin). rewrite Hx, property_ok_get in Hp.
      unfold is_member in Ha. destruct (obj_get n ps) as [s|]; [|done]. by exists s.
  - intros (o' & [= <-] & Hr & Hp). split_and!; try done.
    + intros n Hin. apply obj_get_key in Hin as [x Hx].
      destruct (Hp n x Hx) as (s & Hs & _). unfold is_member. by rewrite Hs.
    + intros n Hin. apply obj_get_key in Hin as [x Hx]. rewrite Hx, property_ok_get.
      by destruct (Hp n x Hx) as (s & -> & ?).
    + intros r Hin. by destruct (Hr r Hin) as (n & -> & ?).
Qed.

Lemma valid_array_of items v :
  valid (array_of items) v = true <-> exists l, v = VArray l /\ Forall (fun x => valid items x = true) l.
Proof.
  destruct v as [| |[]| |l|]; try (split; [cbn; rewrite ?andb_false_r; discriminate|by intros (? & ? & ?)]).
  rewrite valid_array_eq, forallb_elem. setoid_rewrite Forall_forall. split; [by eauto|]. by intros (l' & [= <-] & ?).
Qed.

(** * Columns *)

(** The last column called [k]: it decides the row's member and the schema. *)
Fixpoint last_named (k : string) (cols : list OutputColumn) : option OutputColumn :=
  match cols with
  | [] => None
  | col :: cols' =>
      match last_named k cols' with
      | Some c => Some c
      | None => if String.eqb k (oc_name col) then Some col else None
      end
  end.

Lemma output_go_properties k cols : forall ps req,
  obj_get k (fst (output_go cols ps req)) =
  match last_named k cols with Some col => Some (column_schema col) | None => obj_get k ps end.
Proof.
  induction cols as [|col cols IH]; intros ps req; [done|]. cbn [output_go last_named].
  rewrite IH, obj_get_insert. destruct (last_named k cols); [done|].
  by destruct (String.eqb k (oc_name col)).
Qed.

Lemma output_go_required cols : forall ps req,
  snd (output_go cols ps req) =
  req ++ map (fun col => VString (oc_name col))
           (List.filter (fun col => known_not_null (oc_nullable col)) cols).
Proof.
  induction cols as [|col cols IH]; intros ps req; cbn [output_go]; [by rewrite app_nil_r|].
  rewrite IH. cbn [List.filter]. destruct (known_not_null _); [|done]. by rewrite <- app_assoc.
Qed.

Lemma last_named_elem cols col : col ∈ cols -> is_Some (last_named (oc_name col) cols).
Proof.
  induction cols as [|c cols IH]; [by intros ?%elem_of_nil|].
  intros [->|Hin]%elem_of_cons; cbn [last_named].
  - destruct (last_named _ cols); [by eexists|]. rewrite String.eqb_refl. by eexists.
  - destruct (IH Hin) as [c' ->]. by eexists.
Qed.

Section Typed.
Context `{SqlxTypes}.
#[local] Existing Instance strict_rows.

(** What the Postgres decoder makes of a cell ([pg_strict_cells]). *)
Definition decoded (c : cell) : value := if is_float4 c then VNull else cell_json c.

Definition untyped (t : string) : bool :=
  match pg_type_to_json_schema t with VObject [] => true | _ => false end.

(** The cells whose decoded value is an instance of their column's schema: a
    null, a [REAL] and a double that is not finite need a column that may be
    null, and a [BYTEA] never fits. *)
Definition fits (nullable : option bool) (c : cell) : bool :=
  match c with
  | CNull t => negb (known_not_null nullable) || untyped t
  | CFloat4 _ => negb (known_not_null nullable)
  | CFloat8 f => f64_is_finite f || negb (known_not_null nullable)
  | CInt2 n => (-32768 <=? n) && (n <=? 32767)
  | CBytes _ => false
  | _ => true
  end.

Lemma cell_valid nullable c :
  valid (widen_to_nullable (pg_type_to_json_schema (pg_type_name c)) nullable) (decoded c) =
  fits nullable c.
Proof.
  destruct c; unfold decoded; cbn [is_float4 pg_type_name cell_json fits].
  { unfold untyped, pg_type_to_json_schema. cbv zeta.
    repeat (destruct (one_of _ _); [by destruct nullable as [[]|]|]). by destruct nullable as [[]|]. }
  all: try by destruct nullable as [[]|].
  all: try (unfold json_i64; by destruct (n <? 0), nullable as [[]|]).
  - transitivity ((n <=? 32767) && ((-32768 <=? n) && true)); [|by rewrite andb_true_r, andb_comm].
    unfold json_i64. by destruct (n <? 0), nullable as [[]|].
  - unfold json_f64. destruct nullable as [[]|]; by destruct (f64_is_finite f).
Qed.

(** A row as described: the columns' names and types, and cells that fit. *)
Definition col_fits (col : OutputColumn) (nc : string * cell) : Prop :=
  oc_name col = fst nc /\ oc_pg_type col = pg_type_name (snd nc) /\
  fits (oc_nullable col) (snd nc) = true.

Definition conforms (cols : list OutputColumn) (row : strict_row) : Prop := Forall2 col_fits cols row.

Lemma last_column_fits k cols cells : Forall2 col_fits cols cells -> forall i,
  match last_column k i (map (fun nc => (fst nc, pg_type_name (snd nc))) cells) with
  | Some (j, t) => exists col c name, last_named k cols = Some col /\ cells !! (j - i)%nat = Some (name, c) /\
                     (i <= j)%nat /\ t = pg_type_name c /\ col_fits col (name, c)
  | None => last_named k cols = None
  end.
Proof.
  induction 1 as [|col [name c] cols cells Hf HF IH]; intros i; [done|]. cbn [map fst snd last_column last_named].
  specialize (IH (S i)). destruct (last_column k (S i) _) as [[j t]|].
  - destruct IH as (col' & c' & name' & -> & Hc & Hle & -> & Hf'). exists col', c', name'.
    split_and!; try done; [|lia]. replace (j - i)%nat with (S (j - S i)) by lia. done.
  - rewrite IH. destruct Hf as (En & Et & Hf). cbn in En. rewrite En.
    destruct (String.eqb k name); [|done].
    exists col, c, name. rewrite Nat.sub_diag. by split_and!.
Qed.

(** The row as JSON. *)
Definition row_value (row : strict_row) : value :=
  VObject (insert_columns (decode_pg_column row) 0 (row_columns row) []).

(** A described row is an instance of the derived row schema. *)
Lemma row_valid cols row : conforms cols row -> valid (row_schema cols) (row_value row) = true.
Proof.
  intros HF. unfold row_schema. destruct (output_go cols [] []) as [ps req] eqn:E.
  pose proof (fun k => output_go_properties k cols [] []) as Hps. rewrite E in Hps. cbn in Hps.
  pose proof (output_go_required cols [] []) as Hreq. rewrite E in Hreq. cbn in Hreq. subst req.
  apply valid_object_schema. eexists. split; [reflexivity|].
  assert (forall k, match last_named k cols with
            | Some col => exists x, obj_get k (insert_columns (decode_pg_column row) 0 (row_columns row) []) = Some x
                            /\ valid (column_schema col) x = true
            | None => obj_get k (insert_columns (decode_pg_column row) 0 (row_columns row) []) = None
            end) as Hget.
  { intros k. rewrite insert_columns_get. pose proof (last_column_fits k cols row HF 0) as Hl. cbn [row_columns strict_rows].
    destruct (last_column k 0 _) as [[j t]|]; [|by rewrite Hl].
    destruct Hl as (col & c & name & -> & Hc & _ & -> & (_ & Et & Hf)). rewrite Nat.sub_0_r in Hc.
    eexists. split; [reflexivity|]. rewrite (pg_strict_cells row j name c Hc).
    unfold column_schema. rewrite Et. cbn [snd] in *. by rewrite cell_valid. }
  split.
  - apply Forall_forall. intros r Hr. apply list_elem_of_In, in_map_iff in Hr as (col & <- & Hin).
    apply filter_In in Hin as [Hin _]. exists (oc_name col). split; [done|].
    apply list_elem_of_In in Hin. destruct (last_named_elem _ _ Hin) as [col' Hl].
    specialize (Hget (oc_name col)). rewrite Hl in Hget. destruct Hget as (x & Hx & _).
    unfold is_member. by rewrite Hx.
  - intros n x Hx. specialize (Hget n). rewrite Hps. destruct (last_named n cols) as [col|]; [|congruence].
    destruct Hget as (x' & Hx' & Hv). eexists. split; [reflexivity|]. congruence.
Qed.

Lemma scalar_valid col row :
  conforms [col] row -> valid (column_schema col) (Shape.first_value (row_value row)) = true.
Proof.
  intros (nc & rest & (En & Et & Hf) & ->%Forall2_nil_inv_l & ->)%Forall2_cons_inv_l.
  destruct nc as [name c].
  change (Shape.first_value _) with (value_or_null (decode_pg_column (Row := strict_row) [(name, c)] 0 (pg_type_name c))).
  rewrite (pg_strict_cells [(name, c)] 0 name c eq_refl). unfold column_schema. rewrite Et. cbn [snd] in *.
  by rewrite cell_valid.
Qed.

Lemma decode_rows_pg rs : decode_rows row_to_json_pg rs = Ok (map row_value rs).
Proof. induction rs as [|r rs IH]; [done|]. cbn [decode_rows]. rewrite IH. reflexivity. Qed.

Definition kept {A} (max : Z) (l : list A) : list A :=
  if Shape.over max l then Shape.truncate max l else l.

Lemma kept_Forall {A} (P : A -> Prop) max l : Forall P l -> Forall P (kept max l).
Proof. unfold kept, Shape.truncate. intros HF. destruct (Shape.over max l); [by apply Forall_take|done]. Qed.

Lemma kept_first (P : value -> Prop) max l :
  Forall P l -> l <> [] -> 1 <= max -> P (Shape.first_row (kept max l)).
Proof.
  intros HF Hne Hm. pose proof (kept_Forall P max l HF) as HF'.
  assert (kept max l <> []) as Hk.
  { unfold kept, Shape.truncate. destruct (Shape.over max l); [|done].
    destruct l; [done|]. destruct (Z.to_nat max) eqn:E; [lia|done]. }
  destruct (kept max l); [done|]. by inversion HF'.
Qed.

(** The batch the call path shapes: a count in [affected_rows] mode, decoded
    rows otherwise. *)
Definition produced (mode : RowMode) (rs : list strict_row) (batch : RowBatch) : Prop :=
  match mode with
  | AffectedRows => exists n, 0 <= n /\ batch = Execute.affected_batch n
  | _ => finish_rows row_to_json_pg rs = Ok batch
  end.

Context `{CursorOps} `{Cel}.

(** Where the answer is a row or a value there is a row, and a scalar query has
    one column; a paged binding has its cursor key. *)
Definition answerable (rt : Execute.ProfileRuntime) (cols : list OutputColumn) (rs : list strict_row) : Prop :=
  match Execute.rt_row_mode rt with
  | Single => rs <> [] /\ 1 <= Execute.rt_max_rows rt
  | Scalar => rs <> [] /\ 1 <= Execute.rt_max_rows rt /\ length cols = 1%nat
  | StreamMode => Execute.stream_rt rt <> None
  | _ => True
  end.

Lemma mint_next_type payload srt name :
  type_ok (VArray [VString "string"; VString "null"]%string) (mint_next_cursor payload srt name) = true.
Proof. unfold mint_next_cursor. by repeat case_match. Qed.

Lemma page_valid cols rows truncated next :
  Forall (fun r => valid (row_schema cols) r = true) rows ->
  type_ok (VArray [VString "string"; VString "null"]%string) next = true ->
  (forall s, output_schema_from_pg_columns cols StreamMode = Some s ->
   valid s (VObject (obj_insert "next_cursor" next [("rows", VArray rows); ("truncated", VBool truncated)])) = true)%string.
Proof.
  intros Hrows Hnext s Hs. destruct cols as [|col cols]; [done|]. injection Hs as <-.
  apply (valid_object_schema _ [("next_cursor", _); ("rows", _); ("truncated", _)]%string).
  eexists. split; [reflexivity|]. split.
  { repeat (constructor; [by eexists|]). constructor. }
  intros n x. change (obj_insert _ _ _) with [("next_cursor", next); ("rows", VArray rows); ("truncated", VBool truncated)]%string.
  cbn [obj_get]. destruct (String.eqb n "next_cursor").
  { intros [= <-]. eexists. split; [reflexivity|]. change (type_ok (VArray [VString "string"; VString "null"]%string) next && true = true).
    by rewrite Hnext. }
  destruct (String.eqb n "rows").
  { intros [= <-]. eexists. split; [reflexivity|]. apply valid_array_of. by eexists. }
  destruct (String.eqb n "truncated"); [|done]. intros [= <-]. by eexists.
Qed.

(** C21.  On a Postgres binding every response is an instance of the output
    schema the plugin derived for it: for rows as the server described them
    whose cells fit their columns (names and types as described, a null only in
    a column that may be null, no [REAL] or non-finite double in a column that
    may not, no [BYTEA]), the shaping of the batch succeeds in each mode with a
    derived schema, and the payload that is serialized, cursor included,
    validates against it, truncated or not and with repeated column names too. *)
Theorem response_matches_schema (rt : Execute.ProfileRuntime) name cols rs batch s :
  Forall (conforms cols) rs -> produced (Execute.rt_row_mode rt) rs batch ->
  output_schema_from_pg_columns cols (Execute.rt_row_mode rt) = Some s -> answerable rt cols rs ->
  exists v t, Shape.shape_response batch (Execute.rt_row_mode rt) (Execute.rt_max_rows rt) = Ok (v, t) /\
    valid s (Execute.with_cursor rt name v) = true.
Proof.
  intros HF Hp Hs Ha.
  assert (Forall (fun r => valid (row_schema cols) r = true) (map row_value rs)) as Hv.
  { apply Forall_map. eapply Forall_impl; [exact HF|]. apply row_valid. }
  unfold answerable, produced, Execute.with_cursor, Shape.shape_response in *.
  unfold finish_rows in Hp. rewrite decode_rows_pg in Hp. cbn [rbind] in Hp.
  destruct (Execute.rt_row_mode rt) eqn:Em; destruct cols as [|col cols]; try done;
    try (injection Hp as <-); cbn [rows].
  - injection Hs as <-. do 2 eexists. split; [reflexivity|]. destruct Ha as [Hne Hm].
    apply (kept_first (fun v => valid _ v = true)); [done| |done]. by destruct rs.
  - injection Hs as <-. do 2 eexists. split; [reflexivity|]. apply valid_array_of. eexists.
    split; [reflexivity|]. by apply kept_Forall.
  - injection Hs as <-. do 2 eexists. split; [reflexivity|]. destruct Ha as (Hne & Hm & Hl).
    destruct cols; [|done]. apply (kept_first (fun v => valid _ (Shape.first_value v) = true)); [|by destruct rs|done].
    apply Forall_map. eapply Forall_impl; [exact HF|]. apply scalar_valid.
  - injection Hs as <-. destruct Hp as (n & Hn & ->). do 2 eexists. split; [reflexivity|].
    by destruct n; [| |lia].
  - do 2 eexists. split; [reflexivity|]. destruct (Execute.stream_rt rt) as [srt|]; [|done].
    apply (page_valid (col :: cols)); [by apply kept_Forall|apply mint_next_type|done].
Qed.

End Typed.

(** * Arguments *)

(** The fragment the properties keep for a name: its last occurrence's. *)
Fixpoint last_frag (k : string) (params : list (string * value)) : option value :=
  match params with
  | [] => None
  | (n, f) :: params' =>
      match last_frag k params' with
      | Some f' => Some f'
      | None => if String.eqb k n then Some f else None
      end
  end.

Lemma build_input_go_spec k params : forall ps req,
  obj_get k (fst (build_input_go params ps req)) =
    match last_frag k params with Some f => Some f | None => obj_get k ps end /\
  snd (build_input_go params ps req) = req ++ map (fun p => VString (fst p)) params.
Proof.
  induction params as [|[n f] params IH]; intros ps req; cbn [build_input_go last_frag map fst].
  { by rewrite app_nil_r. }
  destruct (IH (obj_insert n f ps) (req ++ [VString n])) as [-> ->]. rewrite obj_get_insert, <- app_assoc.
  split; [|done]. destruct (last_frag k params); [done|]. by destruct (String.eqb k n).
Qed.

Lemma last_frag_elem k f params : last_frag k params = Some f -> (k, f) ∈ params.
Proof.
  induction params as [|[n f'] params IH]; [done|]. cbn [last_frag].
  destruct (last_frag k params); [intros [= ->]; right; by apply IH|].
  destruct (String.eqb_spec k n) as [->|]; [intros [= ->]; left|done].
Qed.

Lemma last_frag_NoDup k f params :
  NoDup (map fst params) -> (k, f) ∈ params -> last_frag k params = Some f.
Proof.
  induction params as [|[n f'] params IH]; [by intros _ ?%elem_of_nil|].
  cbn [map fst last_frag]. intros [Hn Hnd]%NoDup_cons [[= -> ->]|Hin]%elem_of_cons.
  - destruct (last_frag n params) eqn:E; [|by rewrite String.eqb_refl].
    destruct Hn. apply last_frag_elem in E. by apply (list_elem_of_fmap_2 fst) in E.
  - by rewrite (IH Hnd Hin).
Qed.

(** The arguments bind, in the statement's order, to values of the described
    types, and there is no other member. *)
Definition binds_typed (args : value) (names types : list string) : Prop :=
  exists o bound, args = VObject o /\ collect_bound_params args names = Ok bound /\
    Forall2 (fun b ty => valid (pg_type_to_json_schema ty) (bp_value b) = true) bound types /\
    forall n, is_Some (obj_get n o) -> n ∈ names.

Definition param_frags (names types : list string) : list (string * value) :=
  zip_with (fun n ty => (n, pg_type_to_json_schema ty)) names types.

Lemma param_frags_names names types :
  length names = length types -> map fst (param_frags names types) = names.
Proof.
  revert types. induction names as [|n names IH]; intros [|t types] [=]; [done|]. cbn. by rewrite IH.
Qed.

Lemma collect_typed o names types bound :
  length names = length types ->
  Forall2 (fun name p => bp_name p = name /\ obj_get name o = Some (bp_value p)) names bound ->
  Forall2 (fun b ty => valid (pg_type_to_json_schema ty) (bp_value b) = true) bound types <->
  forall n f, (n, f) ∈ param_frags names types -> exists x, obj_get n o = Some x /\ valid f x = true.
Proof.
  intros Hl HF. revert types Hl. induction HF as [|name p names bound (En & Hp) HF IH]; intros [|t types] [=].
  { split; [by intros _ ? ? ?%elem_of_nil|constructor]. }
  cbn [param_frags zip_with]. rewrite Forall2_cons, (IH types) by done. split.
  - intros [Hv Hr] n f [[= -> ->]|Hin]%elem_of_cons; [by eexists|by apply Hr].
  - intros Hr. split; [|intros n f Hin; apply Hr; by right].
    destruct (Hr name _ ltac:(left)) as (x & Hx & Hv). congruence.
Qed.

Lemma input_properties names types :
  NoDup names -> length names = length types -> exists ps,
  build_input_go (param_frags names types) [] [] = (ps, map (fun p => VString (fst p)) (param_frags names types)) /\
  (forall k f, obj_get k ps = Some f <-> (k, f) ∈ param_frags names types) /\
  (forall k, k ∈ names <-> is_Some (obj_get k ps)).
Proof.
  intros Hnd Hl. pose proof (param_frags_names names types Hl) as Hn.
  destruct (build_input_go (param_frags names types) [] []) as [ps req] eqn:Eg. exists ps.
  pose proof (fun k => proj1 (build_input_go_spec k (param_frags names types) [] [])) as Hps.
  pose proof (proj2 (build_input_go_spec "" (param_frags names types) [] [])) as Hreq.
  rewrite Eg in Hps, Hreq. cbn in Hps, Hreq.
  assert (forall k f, obj_get k ps = Some f <-> (k, f) ∈ param_frags names types) as Hget.
  { intros k f. rewrite Hps. split.
    - destruct (last_frag k _) eqn:El; [|done]. intros [= <-]. by apply last_frag_elem.
    - intros Hin. by rewrite (last_frag_NoDup k f); [| by rewrite Hn|]. }
  split_and!; [by rewrite Hreq|done|]. intros k. rewrite <- Hn at 1. split.
  - intros (p & -> & Hin)%list_elem_of_fmap. destruct p as [k f]. exists f. by apply Hget.
  - intros [f Hf%Hget]. by apply (list_elem_of_fmap_2 fst) in Hf.
Qed.

(** The derived input schema accepts exactly the argument objects that
    bind: an argument is an instance of the schema of a statement whose
    placeholders are distinct if and only if it is an object whose members are
    all placeholders, [collect_bound_params] succeeds on it, and every bound
    value is an instance of its parameter's type. *)
Theorem input_schema_exact names types s args :
  NoDup names -> input_schema_from_pg_params names types = Some s ->
  valid s args = true <-> binds_typed args names types.
Proof.
  unfold input_schema_from_pg_params. intros Hnd. case_match eqn:E; [|done]. intros [= <-].
  apply Nat.eqb_eq in E. fold (param_frags names types).
  pose proof (param_frags_names names types E) as Hn. unfold build_input_schema.
  destruct (input_properties names types Hnd E) as (ps & -> & Hget & Hnames). rewrite valid_object_schema.
  split.
  - intros (o & -> & Hr & Hp).
    pose proof (collect_params_spec o names) as Hc. unfold binds_typed. cbn [collect_bound_params].
    assert (Forall (fun n => is_Some (obj_get n o)) names) as Hall.
    { rewrite <- Hn. apply Forall_map. unfold names_present in Hr. rewrite Forall_map in Hr.
      eapply Forall_impl; [exact Hr|]. intros p (n & [= Heq] & Hm). cbn. rewrite Heq.
      unfold is_member in Hm. by destruct (obj_get n o). }
    destruct (collect_params o names) as [bound|e].
    2:{ destruct Hc as (pre & name & post & Heq & _ & Hnone & _). rewrite Heq in Hall.
        apply Forall_app in Hall as [_ [Hs _]%Forall_cons]. rewrite Hnone in Hs. by destruct Hs. }
    exists o, bound. split_and!; [done..| |].
    + apply (collect_typed o names); [done..|]. intros n f Hin. apply Hget in Hin.
      assert (n ∈ names) as Hmem by (apply Hnames; by eexists).
      destruct (proj1 (Forall_forall _ _) Hall n Hmem) as [x Hx]. exists x. split; [done|].
      destruct (Hp n x Hx) as (f' & Hf' & Hv). congruence.
    + intros n [x Hx]. apply Hnames. destruct (Hp n x Hx) as (f & Hf & _). by eexists.
  - intros (o & bound & -> & Hc & HF & Hm). exists o. split; [done|]. cbn [collect_bound_params] in Hc.
    pose proof (collect_params_spec o names) as Hs. rewrite Hc in Hs.
    pose proof (proj1 (collect_typed o names types bound E Hs) HF) as Ht. split.
    + apply Forall_map, Forall_forall. intros [n f] Hin. exists n. split; [done|].
      destruct (Ht n f Hin) as (x & Hx & _). unfold is_member. by rewrite Hx.
    + intros n x Hx. assert (n ∈ names) as Hmem by (apply Hm; by eexists).
      apply Hnames in Hmem as [f Hf]. exists f. split; [done|]. apply Hget in Hf.
      destruct (Ht n f Hf) as (x' & Hx' & Hv). congruence.
Qed.

(** * Concrete schemas *)

Module Demo.
Import ToyTypes ToyCel Stream.ToyCursor.

Definition column (n t : string) (nullable : option bool) : OutputColumn :=
  {| oc_name := n; oc_pg_type := t; oc_nullable := nullable |}.

Definition cols : list OutputColumn :=
  [column "id" "INT8" (Some false); column "note" "TEXT" None; column "price" "FLOAT4" (Some true)]%string.

Definition rs : list strict_row :=
  [[("id", CInt8 7); ("note", CNull "TEXT"); ("price", CFloat4 (f64_of_Z 3))];
   [("id", CInt8 8); ("note", CText "x"); ("price", CFloat4 (f64_of_Z 3))]]%string.

Definition batch : RowBatch :=
  {| columns := ["id"; "note"; "price"]; rows := map row_value rs; rows_affected := None;
     truncated := false; has_more := false |}%string.

Lemma response_matches_schema_witness :
  exists v t, Shape.shape_response batch Many 2 = Ok (v, t) /\
    valid (array_of (row_schema cols)) (Execute.with_cursor Execute.Demo.rt "b" v) = true.
Proof.
  apply (response_matches_schema Execute.Demo.rt "b" cols rs batch (array_of (row_schema cols))).
  - repeat constructor.
  - reflexivity.
  - reflexivity.
  - exact I.
Defined.

Lemma input_schema_exact_witness :
  valid (build_input_schema [("id", typed "integer")]%string) (VObject [("id", json_i64 7)]%string) = true <->
  binds_typed (VObject [("id", json_i64 7)]%string) ["id"]%string ["INT8"]%string.
Proof.
  apply (input_schema_exact ["id"]%string ["INT8"]%string); [|reflexivity].
  constructor; [by intros ?%elem_of_nil|constructor].
Defined.

(** Responses outside their schema: a [BYTEA] is returned as an object where
    the schema says a string; a [single] or [scalar] query without rows answers
    null; a [scalar] query of two columns answers the one whose name sorts
    first, the schema describes the first. *)
Example outside_schema :
  valid (column_schema (column "data" "BYTEA" None)) (decoded (CBytes [Byte.x00])) = false /\
  valid (row_schema cols) (Shape.first_row []) = false /\
  valid (column_schema (column "total" "INT8" (Some false)))
    (Shape.first_value (row_value [("total", CInt8 1); ("name", CText "x")]%string)) = false.
Proof. by vm_compute. Qed.

(** A statement with no columns has no derived schema in any mode, and a
    placeholder used twice is required twice. *)
Example schema_edges :
  output_schema_from_pg_columns [] AffectedRows = None /\
  snd (build_input_go (param_frags ["q"; "q"] ["TEXT"; "INT4"]) [] []) = [VString "q"; VString "q"]%string.
Proof. by vm_compute. Qed.
End Demo.

End Schema.
