(* ===== verification/ParamExprs.v ===== *)
(** CEL-computed parameters, [src/src/param_exprs.rs].

    The CEL engine is the parameter [Cel] of [Cost]; an expression is executed
    against the three variables the code binds.  [add_variable] of a value that
    is already a CEL value does not fail.  The theorems state which parameters a
    caller cannot influence, what an expression can see, and the errors. *)

From Stdlib Require Import ZArith Lia Bool Ascii String SpecFloat.
From stdpp Require Import base list strings.
From S2P Require Import Prelude RustStd Redact Text Errors Json Params F64 Sqlx Rows Stream Config Shape Cache Cost Execute.

Module ParamExprs.
Import Stream.

(** [mcpg_plugin_protocol::types::PluginIdentity] and [ClientInfo]. *)
Record PluginIdentity : Type := {
  id_kind : string;
  id_trust_level : string;
  id_subject_id : option string;
  id_auth_provider : option string;
  id_issuer : option string;
  id_roles : list string;
  id_groups : list string;
  id_scopes : list string;
  id_attributes : list (string * string);
}.

Record ClientInfo : Type := { client_name : string; client_version : option string }.

Section Exprs.
Context `{Cel} (base64_standard : list byte -> string).

Record ParamExpr : Type := { pe_name : string; pe_program : Program; pe_source : string }.

(** The map in key order. *)
Fixpoint compile_all (exprs : list (string * string)) : result SqlError (list ParamExpr) :=
  match exprs with
  | [] => Ok []
  | (name, source) :: exprs' =>
      let? program := rmap_err (fun e => InvalidSpec ("param_exprs['" +:+ name +:+
                                  "'] does not compile as CEL: " +:+ e)) (cel_compile source) in
      let? out := compile_all exprs' in
      Ok ({| pe_name := name; pe_program := program; pe_source := source |} :: out)
  end.

Fixpoint json_to_cel (v : value) : cel_value :=
  match v with
  | VNull => CelNull
  | VBool b => CelBool b
  | VNumber (PosInt n) => if n <=? i64_max then CelInt n else CelUInt n
  | VNumber (NegInt n) => CelInt n
  | VNumber (Float f) => CelFloat f
  | VString s => CelString s
  | VArray arr => CelList (map json_to_cel arr)
  | VObject m => CelMap (map (fun kv => (KeyString (fst kv), json_to_cel (snd kv))) m)
  end.

Definition key_text (k : cel_key) : string :=
  match k with
  | KeyString s => s
  | KeyInt i => show_i i
  | KeyUint u => show_u u
  | KeyBool b => if b then "true" else "false"
  end.

Fixpoint cel_to_json (v : cel_value) : value :=
  match v with
  | CelNull => VNull
  | CelBool b => VBool b
  | CelInt i => json_i64 i
  | CelUInt u => VNumber (PosInt u)
  | CelFloat f => json_f64 f
  | CelString s => VString s
  | CelBytes b => VString (base64_standard b)
  | CelList items => VArray (map cel_to_json items)
  | CelMap m => VObject (fold_left (fun o kv => obj_insert (key_text (fst kv)) (snd kv) o)
                           (map (fun kv => (fst kv, cel_to_json (snd kv))) m) [])
  | CelDuration d => VString d
  | CelTimestamp t => VString t
  | CelOther => VString (cel_debug CelOther)
  end.

Definition opt_json (o : option string) : value :=
  match o with Some s => VString s | None => VNull end.

Definition list_json (l : list string) : value := VArray (map VString l).

Definition reserved (k : string) : bool := starts_with "__mcpg_" k.

Definition attributes_json (attrs : list (string * string)) : json_map :=
  fold_left (fun o kv => obj_insert (fst kv) (VString (snd kv)) o)
    (List.filter (fun kv => negb (reserved (fst kv))) attrs) [].

Definition of_id {A} (id : option PluginIdentity) (none : A) (f : PluginIdentity -> A) : A :=
  match id with Some i => f i | None => none end.

Definition identity_json (id : option PluginIdentity) : value :=
  let (kind, trust) := of_id id ("anonymous", "unauthenticated") (fun i => (id_kind i, id_trust_level i)) in
  VObject [
    ("attributes", VObject (of_id id [] (fun i => attributes_json (id_attributes i))));
    ("auth_provider", of_id id VNull (fun i => opt_json (id_auth_provider i)));
    ("groups", of_id id (VArray []) (fun i => list_json (id_groups i)));
    ("issuer", of_id id VNull (fun i => opt_json (id_issuer i)));
    ("kind", VString kind);
    ("roles", of_id id (VArray []) (fun i => list_json (id_roles i)));
    ("scopes", of_id id (VArray []) (fun i => list_json (id_scopes i)));
    ("subject_id", of_id id VNull (fun i => opt_json (id_subject_id i)));
    ("trust_level", VString trust)]%string.

Definition client_json (client : option ClientInfo) : value :=
  VObject [("name", match client with Some c => VString (client_name c) | None => VNull end);
           ("version", match client with Some c => opt_json (client_version c) | None => VNull end)]%string.

(** The variables of one expression. *)
Definition context (arguments : json_map) (identity client : cel_value) : list (string * cel_value) :=
  [("arguments", json_to_cel (VObject arguments)); ("identity", identity); ("client", client)]%string.

(** [for expr in exprs { .. obj.insert(expr.name.clone(), json_value); }]. *)
Fixpoint evaluate_go (obj : json_map) (exprs : list ParamExpr) (identity client : cel_value)
  : result SqlError json_map :=
  match exprs with
  | [] => Ok obj
  | expr :: exprs' =>
      let? out := rmap_err (fun e => InvalidSpec ("param_exprs['" +:+ pe_name expr +:+ "'] failed: " +:+
                                      e +:+ " (source: " +:+ pe_source expr +:+ ")"))
                    (cel_execute (pe_program expr) (context obj identity client)) in
      evaluate_go (obj_insert (pe_name expr) (cel_to_json out) obj) exprs' identity client
  end.

Definition evaluate_with_client (args : value) (exprs : list ParamExpr)
  (identity : option PluginIdentity) (client : option ClientInfo) : result SqlError value :=
  match exprs with
  | [] => Ok args
  | _ =>
      let identity_cel := json_to_cel (identity_json identity) in
      let client_cel := json_to_cel (client_json client) in
      match (match args with VNull => VObject [] | a => a end) with
      | VObject obj => let? o := evaluate_go obj exprs identity_cel client_cel in Ok (VObject o)
      | a => Err (InvalidSpec ("param_exprs require an object-shaped args payload; got " +:+ json_type a))
      end
  end.

Definition evaluate_into (args : value) (exprs : list ParamExpr) (identity : option PluginIdentity)
  : result SqlError value := evaluate_with_client args exprs identity None.

(** * Facts *)

(** Identities an expression cannot tell apart: those that agree but for
    reserved attributes. *)
Definition visible_attributes (i : PluginIdentity) : list (string * string) :=
  List.filter (fun kv => negb (reserved (fst kv))) (id_attributes i).

Definition same_visible (i j : PluginIdentity) : Prop :=
  id_kind i = id_kind j /\ id_trust_level i = id_trust_level j /\ id_subject_id i = id_subject_id j /\
  id_auth_provider i = id_auth_provider j /\ id_issuer i = id_issuer j /\ id_roles i = id_roles j /\
  id_groups i = id_groups j /\ id_scopes i = id_scopes j /\ visible_attributes i = visible_attributes j.

(** Reserved attributes are invisible: two identities that differ only in
    attributes whose key starts with [__mcpg_] give every list of expressions
    the same result on every argument, errors included. *)
Theorem reserved_invisible args exprs i j client :
  same_visible i j ->
  evaluate_with_client args exprs (Some i) client = evaluate_with_client args exprs (Some j) client.
Proof.
  intros (E1 & E2 & E3 & E4 & E5 & E6 & E7 & E8 & E9).
  assert (identity_json (Some i) = identity_json (Some j)) as E.
  { unfold identity_json, of_id, attributes_json, visible_attributes in *. congruence. }
  unfold evaluate_with_client. by rewrite E.
Qed.

Lemma compile_all_spec exprs out :
  compile_all exprs = Ok out ->
  map pe_name out = map fst exprs /\
  Forall2 (fun e p => pe_name p = fst e /\ pe_source p = snd e /\ cel_compile (snd e) = Ok (pe_program p)) exprs out.
Proof.
  revert out. induction exprs as [|[n s] exprs IH]; intros out; cbn [compile_all].
  { intros [= <-]. by constructor. }
  destruct (cel_compile s) as [p|] eqn:Ep; [|done]. cbn [rmap_err rbind].
  destruct (compile_all exprs) as [ps|]; [|done]. cbn [rbind]. intros [= <-].
  destruct (IH ps eq_refl) as [En HF]. split; [cbn; by rewrite En|]. by constructor.
Qed.

Lemma evaluate_go_other k obj exprs id cl o :
  evaluate_go obj exprs id cl = Ok o -> k ∉ map pe_name exprs -> obj_get k o = obj_get k obj.
Proof.
  revert obj. induction exprs as [|e exprs IH]; intros obj; cbn [evaluate_go map].
  { by intros [= <-]. }
  intros H1 [Hk Hr]%not_elem_of_cons. destruct (cel_execute _ _) as [out|]; [|done].
  cbn [rmap_err rbind] in H1. rewrite (IH _ H1 Hr), obj_get_insert.
  by destruct (String.eqb_spec k (pe_name e)).
Qed.

(** The value of an expression is computed on the arguments with the earlier
    results written over them, and no later expression changes it. *)
Lemma evaluate_go_get obj exprs id cl o pre e post :
  evaluate_go obj exprs id cl = Ok o -> exprs = pre ++ e :: post -> NoDup (map pe_name exprs) ->
  exists seen out, evaluate_go obj pre id cl = Ok seen /\
    cel_execute (pe_program e) (context seen id cl) = Ok out /\ obj_get (pe_name e) o = Some (cel_to_json out).
Proof.
  revert obj exprs. induction pre as [|p pre IH]; intros obj exprs He -> Hnd; cbn [app evaluate_go map] in *.
  - apply NoDup_cons in Hnd as [Hn _]. exists obj. destruct (cel_execute _ _) as [out|]; [|done].
    exists out. split_and!; [done..|]. cbn [rmap_err rbind] in He.
    by rewrite (evaluate_go_other _ _ _ _ _ _ He Hn), obj_get_insert, String.eqb_refl.
  - apply NoDup_cons in Hnd as [_ Hnd]. destruct (cel_execute _ _) as [out|]; [|done].
    cbn [rmap_err rbind] in *. by apply (IH _ _ He eq_refl Hnd).
Qed.

(** An expression that does not look at the arguments. *)
Definition ignores_arguments (p : Program) : Prop :=
  forall a b id cl, cel_execute p (context a id cl) = cel_execute p (context b id cl).

Lemma evaluate_fixed args exprs id cl v e out :
  evaluate_with_client args exprs id cl = Ok v -> NoDup (map pe_name exprs) -> e ∈ exprs ->
  ignores_arguments (pe_program e) ->
  cel_execute (pe_program e) (context [] (json_to_cel (identity_json id)) (json_to_cel (client_json cl))) = Ok out ->
  exists o, v = VObject o /\ obj_get (pe_name e) o = Some (cel_to_json out).
Proof.
  unfold evaluate_with_client. intros Hv Hnd (pre & post & E)%list_elem_of_split Hi Ho.
  destruct exprs as [|e0 exprs]; [by destruct pre|].
  destruct (match args with VNull => _ | _ => _ end) as [| | | | |obj]; try done.
  destruct (evaluate_go obj _ _ _) as [o|] eqn:Eg; [|done]. injection Hv as <-. exists o. split; [done|].
  destruct (evaluate_go_get _ _ _ _ _ _ _ _ Eg E Hnd) as (seen & out' & _ & Hex & ->).
  rewrite (Hi seen [] _ _), Ho in Hex. congruence.
Qed.

(** The first expression that fails is the one reported. *)
Lemma evaluate_go_error obj exprs id cl err :
  evaluate_go obj exprs id cl = Err err ->
  exists pre e post seen m, exprs = pre ++ e :: post /\ evaluate_go obj pre id cl = Ok seen /\
    cel_execute (pe_program e) (context seen id cl) = Err m /\
    err = InvalidSpec ("param_exprs['" +:+ pe_name e +:+ "'] failed: " +:+ m +:+
                       " (source: " +:+ pe_source e +:+ ")").
Proof.
  revert obj. induction exprs as [|e exprs IH]; intros obj; cbn [evaluate_go]; [done|].
  destruct (cel_execute (pe_program e) (context obj id cl)) as [out|m] eqn:Ee; cbn [rmap_err rbind].
  - intros He. destruct (IH _ He) as (pre & e' & post & seen & m & -> & Hs & Hm & ->).
    exists (e :: pre), e', post, seen, m. split_and!; [done| |done..]. cbn [evaluate_go]. by rewrite Ee.
  - intros [= <-]. by exists [], e, exprs, obj, m.
Qed.

End Exprs.

(** * In a call *)

Section Calls.
Context {Url : Type} `{UrlOps Url} (sqlx_display : sqlx_error -> string).
Context `{CursorOps} `{Cel} (show_f64 : f64 -> string).
Context (digest : list byte -> string) (number_str : number -> string).
Context (base64_standard : list byte -> string).

Abbreviation query := (Execute.execute_query sqlx_display show_f64 digest number_str).

(** The names [execute_inner_impl] writes after the expressions: the
    idempotency hint's and the stream cursor's. *)
Definition host_bound (rt : Execute.ProfileRuntime) (req : Execute.BackendRequest) (k : string) : Prop :=
  (is_Some (Execute.idempotency req) /\ (k = "idempotency_key" \/ k = "idempotency_scope_hash")%string) \/
  exists s, Execute.stream_rt rt = Some s /\ (k = "_cursor"%string \/ k ∈ placeholder_names (cfg s)).

Lemma inject_idempotency_other hint o k :
  ~ (is_Some hint /\ (k = "idempotency_key" \/ k = "idempotency_scope_hash")%string) ->
  exists o', Execute.inject_idempotency hint (VObject o) = VObject o' /\ obj_get k o' = obj_get k o.
Proof.
  intros Hk. destruct hint as [[key scope]|]; [|by exists o]. eexists. split; [reflexivity|].
  rewrite !obj_get_insert. repeat case_match; try done; destruct Hk; split; eauto;
    apply String.eqb_eq in H2 || apply String.eqb_eq in H3; auto.
Qed.

Lemma apply_stream_cursor_other o s name v k :
  apply_stream_cursor (VObject o) s name = Ok v -> k <> "_cursor"%string -> k ∉ placeholder_names (cfg s) ->
  exists o', v = VObject o' /\ obj_get k o' = obj_get k o.
Proof.
  unfold apply_stream_cursor. cbn [rbind]. destruct (page_keyset _ _ _) as [vals|]; [|done].
  intros [= <-] Hk Hp. eexists. split; [reflexivity|]. rewrite bind_keyset_other.
  - apply String.eqb_neq in Hk. by rewrite obj_get_remove, Hk.
  - intros c Hc ->. apply Hp, list_elem_of_fmap. eauto.
Qed.

(** What the arguments hold under a computed name when they are bound. *)
Lemma prepared_fixed name req rt env exprs id client e out args :
  (forall a, Execute.eval_params env a = evaluate_with_client base64_standard a exprs id client) ->
  Execute.has_param_exprs rt = true -> NoDup (map pe_name exprs) -> e ∈ exprs ->
  ignores_arguments (pe_program e) ->
  cel_execute (pe_program e) (context [] (json_to_cel (identity_json id)) (json_to_cel (client_json client))) = Ok out ->
  ~ host_bound rt req (pe_name e) ->
  Execute.prepare_args sqlx_display rt env req name = Ok args ->
  exists o, args = VObject o /\ obj_get (pe_name e) o = Some (cel_to_json base64_standard out).
Proof.
  intros Henv Hx Hnd He Hi Ho Hh. unfold Execute.prepare_args. rewrite Hx.
  destruct (Execute.parse_args env _) as [a|]; [|done]. cbn [rbind]. rewrite Henv.
  destruct (evaluate_with_client _ a exprs id client) as [v|] eqn:Ev; [|done].
  destruct (evaluate_fixed _ _ _ _ _ _ _ _ Ev Hnd He Hi Ho) as (o & -> & Hget).
  cbn [Execute.from_sql rmap_err rbind]. intros Ha.
  assert (exists o1, (match Execute.stream_rt rt with
                      | Some s => Execute.from_sql sqlx_display (apply_stream_cursor (VObject o) s name)
                      | None => Ok (VObject o) end) = Ok (VObject o1) /\
                     obj_get (pe_name e) o1 = obj_get (pe_name e) o) as (o1 & E1 & Eg).
  { destruct (Execute.stream_rt rt) as [s|] eqn:Es; [|by exists o].
    destruct (apply_stream_cursor (VObject o) s name) as [v|] eqn:Ec; [|done].
    apply apply_stream_cursor_other with (k := pe_name e) in Ec as (o1 & -> & Eg).
    - by exists o1.
    - intros Ek. apply Hh. right. exists s. auto.
    - intros Ek. apply Hh. right. exists s. auto. }
  rewrite E1 in Ha. cbn [rbind] in Ha. injection Ha as <-.
  destruct (inject_idempotency_other (Execute.idempotency req) o1 (pe_name e)) as (o2 & -> & E2).
  { intros Hk. apply Hh. by left. }
  exists o2. split; [done|]. congruence.
Qed.

Lemma collected_value args order bound p o :
  collect_bound_params args order = Ok bound -> args = VObject o -> p ∈ bound ->
  obj_get (bp_name p) o = Some (bp_value p).
Proof.
  intros Hc -> Hp. cbn [collect_bound_params] in Hc. pose proof (collect_params_spec o order) as Hs.
  rewrite Hc in Hs. apply list_elem_of_lookup in Hp as [i Hi].
  destruct (Forall2_lookup_r _ _ _ _ _ Hs Hi) as (n & _ & -> & Hg). done.
Qed.

(** C37.  Operator-derived parameters cannot be spoofed: when an expression of
    the configuration does not look at the arguments (the identity fence
    [author: identity.subject_id], say), every driver call made for a request,
    whatever its payload, binds the parameter of that name to the value the
    expression has for the caller's identity and client; only the names the host
    itself writes afterwards are excepted. *)
Theorem derived_params_fixed name req rt env (cfg : list (string * string)) exprs id client key source program out :
  compile_all cfg = Ok exprs -> NoDup (map fst cfg) ->
  (forall a, Execute.eval_params env a = evaluate_with_client base64_standard a exprs id client) ->
  Execute.has_param_exprs rt = true ->
  (key, source) ∈ cfg -> cel_compile source = Ok program -> ignores_arguments program ->
  cel_execute program (context [] (json_to_cel (identity_json id)) (json_to_cel (client_json client))) = Ok out ->
  ~ host_bound rt req key ->
  forall n stmt bound vars p,
    Execute.ECall n stmt bound vars ∈ snd (query name req rt env) -> p ∈ bound -> bp_name p = key ->
    bp_value p = cel_to_json base64_standard out.
Proof.
  intros Hc Hnd Henv Hx Hin Hp Hi Ho Hh n stmt bound vars p Hcall Hpb Hk.
  destruct (compile_all_spec _ _ Hc) as [Hn HF].
  apply list_elem_of_lookup in Hin as [i Hin]. destruct (Forall2_lookup_l _ _ _ _ _ HF Hin) as (e & He & En & _ & Ep).
  cbn in En, Ep. assert (pe_program e = program) as Epr by congruence. apply list_elem_of_lookup_2 in He.
  assert (Execute.ECall n stmt bound vars ∈ Execute.calls (snd (query name req rt env))) as Hcalls.
  { unfold Execute.calls. apply list_elem_of_In, filter_In. split; [by apply list_elem_of_In|done]. }
  destruct (Execute.query_calls sqlx_display show_f64 digest number_str name req rt env) as [E|(args & bd & vs & Ha & Hb & _ & Hcs)].
  { rewrite E in Hcalls. by apply elem_of_nil in Hcalls. }
  assert (bound = bd) as ->.
  { destruct Hcs as [E|[E _]]; rewrite E in Hcalls; unfold Execute.call_of in Hcalls;
    repeat (apply elem_of_cons in Hcalls as [[= -> -> -> ->]|Hcalls]; [done|]); by apply elem_of_nil in Hcalls. }
  destruct (prepared_fixed name req rt env exprs id client e out args) as (o & -> & Hget); try done.
  - by rewrite Hn.
  - by rewrite Epr.
  - by rewrite Epr.
  - by rewrite En.
  - destruct (collect_bound_params _ _) eqn:Ec; [|done]. cbn in Hb. injection Hb as ->.
    pose proof (collected_value _ _ _ _ _ Ec eq_refl Hpb) as Hv. congruence.
Qed.

(** A parameter expression that fails ends the call before anything is
    done: the request fails as an invalid specification, nothing is sent to the
    driver, charged, refunded or cached, and the message names the first
    expression, in key order, that fails on the caller's arguments extended with
    the results of the expressions before it, or the type of a payload that is
    not an object. *)
Theorem expression_errors name req rt env exprs id client args vars :
  (forall a, Execute.eval_params env a = evaluate_with_client base64_standard a exprs id client) ->
  Execute.has_param_exprs rt = true ->
  (Execute.has_cred_refs rt = true -> Execute.resolve_pool env = Ok ()) ->
  Execute.call_vars rt env = Ok vars -> Execute.parse_args env (Execute.req_payload req) = Ok args ->
  match evaluate_with_client base64_standard args exprs id client with
  | Ok _ => True
  | Err err =>
      query name req rt env = (Err (Execute.backend_error sqlx_display err), []) /\
      ((exists v, args = v /\ json_type v <> "object"%string /\ json_type v <> "null"%string /\
          err = InvalidSpec ("param_exprs require an object-shaped args payload; got " +:+ json_type v)) \/
       exists o pre e post seen m,
         (args = VObject o \/ (args = VNull /\ o = [])) /\ exprs = pre ++ e :: post /\
         evaluate_go base64_standard o pre (json_to_cel (identity_json id)) (json_to_cel (client_json client)) = Ok seen /\
         cel_execute (pe_program e)
           (context seen (json_to_cel (identity_json id)) (json_to_cel (client_json client))) = Err m /\
         err = InvalidSpec ("param_exprs['" +:+ pe_name e +:+ "'] failed: " +:+ m +:+
                            " (source: " +:+ pe_source e +:+ ")"))
  end.
Proof.
  intros Henv Hx Hpool Hvars Hargs. destruct (evaluate_with_client _ args exprs id client) as [|err] eqn:Ee; [done|].
  split.
  - unfold Execute.execute_query, Execute.prepare_args. rewrite Hvars, Hargs, Hx. cbn [rbind]. rewrite Henv, Ee.
    destruct (Execute.has_cred_refs rt); [rewrite Hpool by done|]; reflexivity.
  - unfold evaluate_with_client in Ee. destruct exprs as [|e0 exprs]; [done|].
    destruct args as [|b|z|s|l|o]; cbn iota beta in Ee; try (injection Ee as <-; left; by eexists).
    + destruct (evaluate_go _ [] _ _ _) eqn:Eg; [done|]. injection Ee as <-.
      destruct (evaluate_go_error _ _ _ _ _ _ Eg) as (pre & bad & post & seen & m & ? & ? & ? & ?).
      right. exists [], pre, bad, post, seen, m. auto 6.
    + destruct (evaluate_go _ o _ _ _) eqn:Eg; [done|]. injection Ee as <-.
      destruct (evaluate_go_error _ _ _ _ _ _ Eg) as (pre & bad & post & seen & m & ? & ? & ? & ?).
      right. exists o, pre, bad, post, seen, m. auto 6.
Qed.

End Calls.

(** * A path engine *)

(** Expressions that are dotted paths into the variables, and quoted
    constants: an instance of the engine. *)
Module PathCel.

Fixpoint split_dots (fuel : nat) (s : string) : list string :=
  match fuel with
  | O => [s]
  | S fuel' => match split_once "." s with
               | Some (a, b) => a :: split_dots fuel' b
               | None => [s]
               end
  end.

Definition key_is (s : string) (k : cel_key) : bool :=
  match k with KeyString t => String.eqb s t | _ => false end.

Fixpoint select (path : list string) (v : cel_value) : result string cel_value :=
  match path with
  | [] => Ok v
  | f :: path' =>
      match v with
      | CelMap m => match List.find (fun kv => key_is f (fst kv)) m with
                    | Some (_, x) => select path' x
                    | None => Err ("No such key: " +:+ f)
                    end
      | _ => Err "not a map"%string
      end
  end.

#[export] Instance cel : Cel := {|
  Program := list string;
  cel_compile s := if str_is_empty s then Err "empty"%string else Ok (split_dots 10 s);
  cel_execute p vars :=
    match p with
    | v :: path => match List.find (fun x => String.eqb v (fst x)) vars with
                   | Some (_, x) => select path x
                   | None => Err ("Undeclared reference to " +:+ v)
                   end
    | [] => Err "empty"%string
    end;
  cel_debug _ := EmptyString;
|}.

Lemma identity_path_ignores path : ignores_arguments ("identity" :: path)%string.
Proof. by intros a b id cl. Qed.

Definition b64 (b : list byte) : string := EmptyString.

Definition agent : PluginIdentity := {|
  id_kind := "verified"; id_trust_level := "verified"; id_subject_id := Some "agent-7";
  id_auth_provider := Some "oidc"; id_issuer := Some "https://idp"; id_roles := ["writer"];
  id_groups := []; id_scopes := [];
  id_attributes := [("tenant", "acme"); ("__mcpg_id_sig", "sig")] |}%string.

Definition cfg : list (string * string) := [("author", "identity.subject_id")]%string.

Definition exprs : list ParamExpr :=
  match compile_all cfg with Ok l => l | Err _ => [] end.

(** The caller's value is overridden, attributes flow, reserved ones do not. *)
Example path_examples :
  evaluate_into b64 (VObject [("author", VString "spoofed"); ("key", VString "k")])%string exprs (Some agent)
    = Ok (VObject [("author", VString "agent-7"); ("key", VString "k")])%string /\
  evaluate_into b64 (VObject [("author", VString "spoofed")])%string exprs None
    = Ok (VObject [("author", VNull)])%string /\
  (forall ps, compile_all [("a", "identity.attributes.tenant")]%string = Ok ps ->
     evaluate_into b64 VNull ps (Some agent) = Ok (VObject [("a", VString "acme")])%string) /\
  (forall ps, compile_all [("a", "identity.attributes.__mcpg_id_sig")]%string = Ok ps ->
     is_ok (evaluate_into b64 VNull ps (Some agent)) = false).
Proof. split_and!; [by vm_compute..| |]; intros ps [= <-]; by vm_compute. Qed.

Import ToyUrl Stream.ToyCursor.

Definition rt : Execute.ProfileRuntime := {|
  Execute.rt_driver := Postgres;
  Execute.rt_stmt := {| stmt_sql := "INSERT INTO t VALUES ($1)"; param_order := ["author"]; stmt_driver := Postgres |}%string;
  Execute.rt_row_mode := Many; Execute.rt_max_rows := 2; Execute.rt_timeout := 1000;
  Execute.has_cred_refs := false; Execute.rt_session_vars := {| values := [] |};
  Execute.has_param_exprs := true; Execute.stream_rt := None; Execute.rt_cache := None;
  Execute.rt_cost := None; Execute.await_rt := None |}.

Definition env : Execute.Env := {|
  Execute.from_slice := fun b => match b with
                         | [Byte.x7b] => Ok (VObject [("author", VString "spoofed")])%string
                         | _ => Ok (VArray [])
                         end;
  Execute.to_vec := fun _ => Ok [Byte.x5b; Byte.x5d];
  Execute.resolve_pool := Ok (); Execute.resolve_vars := Ok {| values := [] |};
  Execute.eval_params := fun v => evaluate_with_client b64 v exprs (Some agent) None;
  Execute.cache_version := 0; Execute.cache_get := fun _ => Ok None;
  Execute.call := fun _ _ _ _ => Execute.Finished (Ok {| columns := []; rows := []; rows_affected := None;
                                          truncated := false; has_more := false |});
  Execute.call_affected := fun _ _ _ _ => Execute.TimedOut;
  Execute.call_multi := fun _ _ _ => Execute.TimedOut |}%string.

Definition req (first : byte) : Execute.BackendRequest :=
  {| Execute.req_payload := [first]; Execute.request_id := "r1"; Execute.idempotency := None |}%string.

Abbreviation asked := (Execute.execute_query ToyUrl.display (fun _ => EmptyString) (fun _ => EmptyString)
                         (fun _ => EmptyString) "b").

Lemma derived_params_fixed_witness :
  bp_value {| bp_name := "author"; bp_value := VString "agent-7" |}%string = VString "agent-7".
Proof.
  apply (derived_params_fixed ToyUrl.display (fun _ => EmptyString) (fun _ => EmptyString) (fun _ => EmptyString)
    b64 "b" (req Byte.x7b) rt env cfg exprs (Some agent) None "author" "identity.subject_id"
    ["identity"; "subject_id"] (CelString "agent-7") eq_refl)%string with
    (n := 0%nat) (stmt := Execute.rt_stmt rt) (vars := {| values := [] |})
    (bound := [{| bp_name := "author"; bp_value := VString "agent-7" |}]%string).
  - constructor; [by intros ?%elem_of_nil|constructor].
  - done.
  - reflexivity.
  - by left.
  - reflexivity.
  - apply identity_path_ignores.
  - reflexivity.
  - intros [[[? E] _]|(s & E & _)]; discriminate E.
  - vm_compute. by left.
  - by left.
  - reflexivity.
Defined.

Lemma expression_errors_witness :
  match evaluate_with_client b64 (VArray []) exprs (Some agent) None with
  | Ok _ => True
  | Err err =>
      asked (req Byte.x5b) rt env = (Err (Execute.backend_error ToyUrl.display err), []) /\
      ((exists v, VArray [] = v /\ json_type v <> "object"%string /\ json_type v <> "null"%string /\
          err = InvalidSpec ("param_exprs require an object-shaped args payload; got " +:+ json_type v)) \/
       exists o pre e post seen m,
         (VArray [] = VObject o \/ (VArray [] = VNull /\ o = [])) /\ exprs = pre ++ e :: post /\
         evaluate_go b64 o pre (json_to_cel (identity_json (Some agent))) (json_to_cel (client_json None)) = Ok seen /\
         cel_execute (pe_program e)
           (context seen (json_to_cel (identity_json (Some agent))) (json_to_cel (client_json None))) = Err m /\
         err = InvalidSpec ("param_exprs['" +:+ pe_name e +:+ "'] failed: " +:+ m +:+
                            " (source: " +:+ pe_source e +:+ ")"))
  end.
Proof.
  apply (expression_errors ToyUrl.display (fun _ => EmptyString) (fun _ => EmptyString) (fun _ => EmptyString)
    b64 "b" (req Byte.x5b) rt env exprs (Some agent) None (VArray []) {| values := [] |}); done.
Defined.
End PathCel.

End ParamExprs.
