(* ===== verification/Creds.v ===== *)
(** Per-caller credentials: [config_has_cred_refs], [resolve_creds_for],
    [collect_cred_refs] and [resolve_pool_for_call] of [src/src/lib.rs],
    [build_pool_with_url] of [src/src/pool.rs] and [ConnectCfg] of
    [src/src/driver/mod.rs].

    The token scanner, the substitution and [CredRef::parse] belong to the
    plugin protocol, the resolver to the host, and [connect] to the driver: they
    are parameters.  A [BTreeSet] is a sorted list without duplicates. *)

From Stdlib Require Import ZArith Lia Bool Ascii String.
From Stdlib Require Strings.Byte.
From stdpp Require Import base list strings gmap relations.
From S2P Require Import Prelude RustStd Redact Errors Json Sqlx Pool Config Auth ParamExprs.

Module Creds.

(** * Sorted sets *)

Section Sorted.
Context {A : Type} (cmp : A -> A -> comparison).

(** [BTreeSet::insert]. *)
Fixpoint set_insert (x : A) (l : list A) : list A :=
  match l with
  | [] => [x]
  | y :: l' =>
      match cmp x y with
      | Lt => x :: l
      | Eq => l
      | Gt => y :: set_insert x l'
      end
  end.

(** [sort] and [dedup]. *)
Definition sort_dedup (l : list A) : list A := fold_left (fun s x => set_insert x s) l [].

Lemma elem_of_set_insert (Hc : forall x y, cmp x y = Eq -> x = y) x y l :
  y ∈ set_insert x l <-> y = x \/ y ∈ l.
Proof.
  induction l as [|z l IH]; cbn [set_insert].
  - rewrite list_elem_of_singleton, elem_of_nil. tauto.
  - destruct (cmp x z) eqn:E; rewrite ?elem_of_cons, ?IH.
    + apply Hc in E as ->. tauto.
    + tauto.
    + tauto.
Qed.

Lemma elem_of_sort_dedup (Hc : forall x y, cmp x y = Eq -> x = y) x l : x ∈ sort_dedup l <-> x ∈ l.
Proof.
  unfold sort_dedup. assert (forall s, x ∈ fold_left (fun s x => set_insert x s) l s <-> x ∈ l \/ x ∈ s) as H.
  { induction l as [|y l IH]; intros s; cbn [fold_left].
    - rewrite elem_of_nil. tauto.
    - rewrite IH, (elem_of_set_insert Hc), elem_of_cons. tauto. }
  rewrite H, elem_of_nil. tauto.
Qed.
End Sorted.

(** [Ord] of [(String, String)]. *)
Definition compare_refs (p q : string * string) : comparison :=
  match String.compare (fst p) (fst q) with Eq => String.compare (snd p) (snd q) | c => c end.

Lemma compare_refs_eq p q : compare_refs p q = Eq -> p = q.
Proof.
  destruct p as [a b], q as [c d]. unfold compare_refs. cbn.
  destruct (String.compare a c) eqn:E; try done. intros E2.
  by apply String.compare_eq_iff in E as ->, E2 as ->.
Qed.

(** * The driver's connection settings *)

Record ConnectCfg : Type := {
  cc_url : string;
  cc_max_connections : Z;
  cc_min_idle : Z;
  cc_acquire_timeout_ms : Z;
  cc_idle_timeout_ms : Z;
  cc_max_lifetime_ms : Z;
  cc_test_before_acquire : bool;
  cc_statement_timeout_ms : option Z;
  cc_auth_provider : option Auth.provider;
}.

Definition from_config (c : SqlBackendConfig) : ConnectCfg := {|
  cc_url := url c;
  cc_max_connections := max_connections (pool c);
  cc_min_idle := min_idle (pool c);
  cc_acquire_timeout_ms := acquire_timeout_ms (pool c);
  cc_idle_timeout_ms := idle_timeout_ms (pool c);
  cc_max_lifetime_ms := max_lifetime_ms (pool c);
  cc_test_before_acquire := test_before_acquire (pool c);
  cc_statement_timeout_ms := timeout_ms (query c);
  cc_auth_provider := None;
|}.

Definition with_auth_provider (p : Auth.provider) (cc : ConnectCfg) : ConnectCfg := {|
  cc_url := cc_url cc; cc_max_connections := cc_max_connections cc; cc_min_idle := cc_min_idle cc;
  cc_acquire_timeout_ms := cc_acquire_timeout_ms cc; cc_idle_timeout_ms := cc_idle_timeout_ms cc;
  cc_max_lifetime_ms := cc_max_lifetime_ms cc; cc_test_before_acquire := cc_test_before_acquire cc;
  cc_statement_timeout_ms := cc_statement_timeout_ms cc; cc_auth_provider := Some p |}.

Definition with_url (u : string) (cc : ConnectCfg) : ConnectCfg := {|
  cc_url := u; cc_max_connections := cc_max_connections cc; cc_min_idle := cc_min_idle cc;
  cc_acquire_timeout_ms := cc_acquire_timeout_ms cc; cc_idle_timeout_ms := cc_idle_timeout_ms cc;
  cc_max_lifetime_ms := cc_max_lifetime_ms cc; cc_test_before_acquire := cc_test_before_acquire cc;
  cc_statement_timeout_ms := cc_statement_timeout_ms cc; cc_auth_provider := cc_auth_provider cc |}.

Section Pools.
Context {PoolHandle Rotator : Type} (connect : ConnectCfg -> result SqlError (PoolHandle * option Rotator)).

Definition build_pool (enabled : string -> bool) (c : SqlBackendConfig)
  : result SqlError (PoolHandle * option Rotator) :=
  let connect_cfg := from_config c in
  let? connect_cfg :=
    match auth c with
    | Some a => let? p := rmap_err Auth.of_auth_error (Auth.build_provider enabled a) in
                Ok (with_auth_provider p connect_cfg)
    | None => Ok connect_cfg
    end in
  connect connect_cfg.

Definition build_pool_with_url (c : SqlBackendConfig) (u : string) : result SqlError PoolHandle :=
  let? (p, _) := connect (with_url u (from_config c)) in Ok p.
End Pools.

(** * Resolution *)

(** What the host's resolver inspects of a call. *)
Record HostContext : Type := {
  parent_request_id : string;
  host_session_id : option string;
  host_backend : string;
  identity : option ParamExprs.PluginIdentity;
}.

Inductive BackendHostError : Type :=
| HostBackend (cause : BackendError)
| HostOther (display : string).

Definition of_host_error (e : BackendHostError) : BackendError :=
  match e with
  | HostBackend cause => cause
  | HostOther display => BTransport ("credential resolution: " +:+ display)
  end.

Record ResolvedCreds : Type := {
  rc_url : string;
  rc_session_vars : list (string * string);
  rc_digest : Pool.CredDigest;
  rc_cred_keys : list (string * string);
}.

Section Resolve.
Context (cred_tokens : string -> list string)
        (substitute_cred_tokens : string -> gmap string string -> string)
        (parse_ref : string -> option (string * string))
        (blake3 : list byte -> Pool.CredDigest).

Definition has_tokens (s : string) : bool := match cred_tokens s with [] => false | _ => true end.

Definition config_has_cred_refs (c : SqlBackendConfig) : bool :=
  if has_tokens (url c) then true
  else existsb (fun kv => has_tokens (snd kv)) (session_vars c).

Definition collect_cred_refs (s : string) : option (list (string * string)) :=
  match omap parse_ref (cred_tokens s) with [] => None | out => Some out end.

(** Every value a token can stand in. *)
Definition token_fields (c : SqlBackendConfig) : list string := url c :: map snd (session_vars c).

Definition cred_uris (c : SqlBackendConfig) : list string :=
  sort_dedup String.compare (concat (map cred_tokens (token_fields c))).

(** What the host is asked to resolve. *)
Definition snapshot (c : SqlBackendConfig) : value :=
  VObject (fold_left (fun o uri => obj_insert uri (VString uri) o) (cred_uris c) []).

(** The strings of the snapshot the host left. *)
Definition cred_map (o : json_map) : gmap string string :=
  fold_left (fun m kv => match as_str (snd kv) with Some s => <[fst kv := s]> m | None => m end) o ∅.

Definition resolved_url (c : SqlBackendConfig) (m : gmap string string) : string :=
  substitute_cred_tokens (url c) m.

Definition resolved_session_vars (c : SqlBackendConfig) (m : gmap string string) : list (string * string) :=
  map (fun kv => (fst kv, if has_tokens (snd kv) then substitute_cred_tokens (snd kv) m else snd kv))
    (session_vars c).

Definition digest_pairs (c : SqlBackendConfig) (m : gmap string string) : list (string * string) :=
  ("url", resolved_url c m) ::
  map (fun kv => ("session_vars." +:+ fst kv, substitute_cred_tokens (snd kv) m))
    (List.filter (fun kv => has_tokens (snd kv)) (session_vars c)).

Definition cred_keys (c : SqlBackendConfig) : list (string * string) :=
  sort_dedup compare_refs (concat (map (fun s => default [] (collect_cred_refs s)) (token_fields c))).

Definition bundle (c : SqlBackendConfig) (m : gmap string string) : ResolvedCreds :=
  {| rc_url := resolved_url c m;
     rc_session_vars := resolved_session_vars c m;
     rc_digest := Pool.digest_credential_bundle blake3 (digest_pairs c m);
     rc_cred_keys := cred_keys c |}.

Definition resolve_creds_for (resolve_credentials : HostContext -> value -> result BackendHostError value)
  (ctx : HostContext) (c : SqlBackendConfig) : result BackendError ResolvedCreds :=
  let? snapshot := rmap_err of_host_error (resolve_credentials ctx (snapshot c)) in
  let? obj := ok_or (as_object snapshot) (BTransport "credential resolver mutated snapshot to non-object") in
  Ok (bundle c (cred_map obj)).

(** * The pool of a call *)

Section Call.
Context {PoolHandle Rotator : Type}.
Implicit Types m : gmap Pool.CredDigest (@Pool.PoolEntry PoolHandle).

(** [resolve_pool_for_call]; [connect] is the driver's answer if a pool has to
    be built, [now] the registry's clock. *)
Definition resolve_pool_for_call (resolve_credentials : HostContext -> value -> result BackendHostError value)
  (connect : ConnectCfg -> result SqlError (PoolHandle * option Rotator)) (backend_error : SqlError -> BackendError)
  (now : Z) (ctx : HostContext) (c : SqlBackendConfig) (static_pool : PoolHandle) m
  : result BackendError PoolHandle * gmap Pool.CredDigest (@Pool.PoolEntry PoolHandle) :=
  if negb (config_has_cred_refs c) then (Ok static_pool, m)
  else
    match resolve_creds_for resolve_credentials ctx c with
    | Err e => (Err e, m)
    | Ok resolved =>
        let (r, m') := Pool.get_or_build Pool.default_config now (rc_digest resolved) (rc_cred_keys resolved)
                         (build_pool_with_url connect c (rc_url resolved)) m in
        (rmap_err backend_error r, m')
    end.

(** * A profile's registry over time *)

(** sqlx opens a pool with the settings it is given; [opened_with] says which
    those were. *)
Context (opened_with : PoolHandle -> ConnectCfg).

Definition opens_as_asked (connect : ConnectCfg -> result SqlError (PoolHandle * option Rotator)) : Prop :=
  forall cc p rotator, connect cc = Ok (p, rotator) -> opened_with p = cc.

(** The host's answer, as the code reads it back. *)
Definition answers (resolve_credentials : HostContext -> value -> result BackendHostError value)
  (ctx : HostContext) (c : SqlBackendConfig) (mp : gmap string string) : Prop :=
  exists obj, resolve_credentials ctx (snapshot c) = Ok (VObject obj) /\ cred_map obj = mp.

Definition one_line_pairs (c : SqlBackendConfig) (mp : gmap string string) : Prop :=
  Forall (fun p => Pool.one_line (snd p)) (digest_pairs c mp).

(** Calls, revocations, rotations and sweeps of one profile, in any order; every
    call has its own caller, its own host answers and its own driver. *)
Inductive step (c : SqlBackendConfig) : relation (gmap Pool.CredDigest (@Pool.PoolEntry PoolHandle)) :=
| step_call resolve_credentials connect backend_error now ctx static_pool m r m' :
    opens_as_asked connect ->
    (forall mp, answers resolve_credentials ctx c mp -> one_line_pairs c mp) ->
    resolve_pool_for_call resolve_credentials connect backend_error now ctx c static_pool m = (r, m') ->
    step c m m'
| step_revoked plugin_id target m : step c m (snd (Pool.evict_for plugin_id target m))
| step_rotated secret_ref m : step c m (snd (Pool.evict_for_secret secret_ref m))
| step_sweep now m : step c m (snd (Pool.sweep_idle Pool.default_config now m)).

Lemma resolve_creds_ok rc ctx c r :
  resolve_creds_for rc ctx c = Ok r -> exists mp, answers rc ctx c mp /\ r = bundle c mp.
Proof.
  unfold resolve_creds_for. destruct (rc ctx (snapshot c)) as [v|] eqn:E; [|done]. cbn [rmap_err rbind].
  destruct v as [| | | | |obj]; try done. intros [= <-]. exists (cred_map obj). split; [|done]. by exists obj.
Qed.

(** Where an entry comes from. *)
Definition entry_ok (c : SqlBackendConfig) (k : Pool.CredDigest) (e : @Pool.PoolEntry PoolHandle) : Prop :=
  Pool.cred_keys e = cred_keys c /\
    exists mp, one_line_pairs c mp /\ k = rc_digest (bundle c mp) /\
    opened_with (Pool.pool e) = with_url (resolved_url c mp) (from_config c).

Definition registry_ok (c : SqlBackendConfig) m : Prop := map_Forall (entry_ok c) m.

Lemma build_with_url_opened connect c u p :
  opens_as_asked connect -> build_pool_with_url connect c u = Ok p -> opened_with p = with_url u (from_config c).
Proof.
  intros Ho. unfold build_pool_with_url. destruct (connect _) as [[p' rot]|] eqn:E; [|done].
  intros [= <-]. by apply Ho in E.
Qed.

Lemma removal_ok p c m : registry_ok c m -> registry_ok c (snd (Pool.remove_where p m)).
Proof.
  intros H k e. destruct (Pool.remove_where_spec p m) as [E _]. rewrite E.
  destruct (m !! k) as [e'|] eqn:Ek; [|done]. destruct (p e'); [done|]. intros [= <-]. by apply H.
Qed.

(** The outcome of a lookup-or-build for a bundle of the profile. *)
Lemma get_or_build_ok connect now c mp m r m' :
  opens_as_asked connect -> one_line_pairs c mp -> registry_ok c m ->
  Pool.get_or_build Pool.default_config now (rc_digest (bundle c mp)) (cred_keys c)
    (build_pool_with_url connect c (resolved_url c mp)) m = (r, m') ->
  registry_ok c m' /\
    forall p, r = Ok p -> exists e, m' !! rc_digest (bundle c mp) = Some e /\ Pool.pool e = p.
Proof.
  intros Ho Hl Hm. unfold Pool.get_or_build. destruct (m !! _) as [e|] eqn:Ee.
  - intros [= <- <-]. split.
    + apply map_Forall_insert_2; [|done]. apply (Hm _ _ Ee).
    + intros p [= <-]. eexists. by rewrite lookup_insert_eq.
  - destruct (build_pool_with_url connect c (resolved_url c mp)) as [p|] eqn:Eb; intros [= <- <-]; [|done].
    destruct (Pool.evict_lru_spec (Pool.pool_max_entries Pool.default_config) m) as (Hs & _).
    split.
    + apply map_Forall_insert_2.
      * split; [done|]. exists mp. split_and!; try done. by apply (build_with_url_opened connect).
      * intros k e Hk. apply Hm. by eapply lookup_weaken.
    + intros q [= <-]. eexists. by rewrite lookup_insert_eq.
Qed.

Lemma registry_step_ok c m m' : config_has_cred_refs c = true -> step c m m' -> registry_ok c m -> registry_ok c m'.
Proof.
  intros Hr [rc connect be now ctx static m0 r m0' Ho Hl E|p t m0|s m0|now m0] Hm.
  - unfold resolve_pool_for_call in E. rewrite Hr in E. cbn [negb] in E.
    destruct (resolve_creds_for rc ctx c) as [res|] eqn:Er; [|by injection E as <- <-].
    apply resolve_creds_ok in Er as (mp & Ha & ->).
    destruct (Pool.get_or_build _ _ _ _ _ _) as [r' m1] eqn:Eg. injection E as <- <-.
    by eapply get_or_build_ok in Eg as [? _]; eauto.
  - by apply removal_ok.
  - apply map_Forall_empty.
  - by apply removal_ok.
Qed.

Lemma registry_reachable_ok c m : config_has_cred_refs c = true -> rtc (step c) ∅ m -> registry_ok c m.
Proof.
  intros Hr H. assert (registry_ok c ∅) as H0 by apply map_Forall_empty.
  induction H as [m|m1 m2 m3 Hs _ IH]; [done|]. apply IH. by eapply registry_step_ok.
Qed.

Lemma digest_pairs_keys c mp mp' : map fst (digest_pairs c mp) = map fst (digest_pairs c mp').
Proof. unfold digest_pairs. cbn [map fst]. f_equal. by rewrite !map_map. Qed.

Lemma digest_pairs_url c mp mp' :
  digest_pairs c mp ≡ₚ digest_pairs c mp' -> resolved_url c mp = resolved_url c mp'.
Proof.
  intros H. assert (("url"%string, resolved_url c mp) ∈ digest_pairs c mp') as Hin.
  { rewrite <- H. by apply list_elem_of_here. }
  apply elem_of_cons in Hin as [[= ->]|Hin]; [done|].
  apply list_elem_of_fmap in Hin as ([k v] & [=] & _).
Qed.

(** C7.  No call runs on another caller's pool, as long as no URL or session
    variable that is resolved for it or was for an earlier one contains a line
    break (the hashed text separates its entries by line breaks only, so two
    callers whose values contain them can have the same text): whatever calls,
    revocations, rotations and sweeps came before, the pool a call of a profile
    with credential tokens gets was opened with the profile's settings and the URL
    resolved for this very call, unless two different bundles collide under the
    hash.  And a revocation is exact: of a credential the profile refers to it empties the
    registry, of any other it changes nothing. *)
Theorem call_pool_own_credentials c m rc connect backend_error now ctx static_pool mp p m' :
  config_has_cred_refs c = true -> rtc (step c) ∅ m ->
  opens_as_asked connect -> answers rc ctx c mp -> one_line_pairs c mp ->
  resolve_pool_for_call rc connect backend_error now ctx c static_pool m = (Ok p, m') ->
  (opened_with p = with_url (resolved_url c mp) (from_config c) \/
   exists mp', Pool.bundle_bytes (digest_pairs c mp') <> Pool.bundle_bytes (digest_pairs c mp) /\
    rc_digest (bundle c mp') = rc_digest (bundle c mp)) /\
    forall plugin_id target, snd (Pool.evict_for plugin_id target m) =
    if decide ((plugin_id, target) ∈ cred_keys c) then ∅ else m.
Proof.
  intros Hr Hm Ho (obj & Eo & Em) Hl E. pose proof (registry_reachable_ok c m Hr Hm) as Hok. split.
  - unfold resolve_pool_for_call, resolve_creds_for in E. rewrite Hr, Eo in E. cbn in E. rewrite Em in E.
    destruct (Pool.get_or_build _ _ _ _ _ _) as [r m1] eqn:Eg.
    destruct r as [q|]; [|done]. injection E as -> ->.
    eapply get_or_build_ok in Eg as [Hok' Hp]; [|done..]. destruct (Hp p eq_refl) as (e & Ee & <-).
    destruct (Hok' _ _ Ee) as (_ & mp' & Hl' & Ed & ->).
    destruct (Pool.digest_separates_callers blake3 (digest_pairs c mp) (digest_pairs c mp'))
      as [Hp'|[Hn Hb]]; [apply digest_pairs_keys|by apply Forall_app|exact Ed| |].
    + left. by rewrite (digest_pairs_url _ _ _ Hp').
    + right. exists mp'. split; [by apply not_eq_sym|by symmetry].
  - intros plugin_id target. apply map_eq. intros k.
    destruct (Pool.remove_where_spec (Pool.uses_credential plugin_id target) m) as [-> _].
    destruct (m !! k) as [e|] eqn:Ek; [|by case_decide; rewrite ?lookup_empty, ?Ek].
    destruct (Hok _ _ Ek) as [Hk _].
    assert (Pool.uses_credential plugin_id target e = true <-> (plugin_id, target) ∈ cred_keys c) as Hu.
    { unfold Pool.uses_credential. rewrite Hk, existsb_exists. split.
      - intros ([a b] & Hin & [<-%String.eqb_eq <-%String.eqb_eq]%andb_true_iff). by apply list_elem_of_In.
      - intros Hin. exists (plugin_id, target). split; [by apply list_elem_of_In|].
        cbn. by rewrite !String.eqb_refl. }
    case_decide as Hd; rewrite ?lookup_empty, ?Ek.
    + by apply Hu in Hd as ->.
    + destruct (Pool.uses_credential _ _ _); [|done]. by destruct Hd; apply Hu.
Qed.

(** Without tokens every call gets the profile's own pool. *)
Lemma static_profile rc connect backend_error now ctx c static_pool m :
  config_has_cred_refs c = false ->
  resolve_pool_for_call rc connect backend_error now ctx c static_pool m = (Ok static_pool, m).
Proof. unfold resolve_pool_for_call. by intros ->. Qed.
End Call.

(** The host is asked for exactly the credentials the configuration names. *)
Lemma snapshot_uris c uri :
  uri ∈ cred_uris c <-> exists field, field ∈ token_fields c /\ uri ∈ cred_tokens field.
Proof.
  unfold cred_uris. rewrite elem_of_sort_dedup.
  - rewrite list_elem_of_In, in_concat. setoid_rewrite in_map_iff. split.
    + intros (l & (s & <- & Hs) & Hl). exists s. by rewrite !list_elem_of_In.
    + intros (s & Hs & Hl). exists (cred_tokens s). rewrite <- !list_elem_of_In. split; [|done].
      exists s. by rewrite <- list_elem_of_In.
  - intros x y. by apply String.compare_eq_iff.
Qed.
End Resolve.

(** One token spelled [$name], the whole of a value; the host knows [pg] and
    [tenant] of every caller. *)
Module Demo.

Definition tokens (s : string) : list string :=
  match strip_prefix "$" s with Some n => [n] | None => [] end.

Definition substitute (s : string) (m : gmap string string) : string :=
  match strip_prefix "$" s with Some n => default s (m !! n) | None => s end.

Definition parse (uri : string) : option (string * string) := Some ("vault", uri)%string.

Definition config : SqlBackendConfig := {|
  driver := Postgres; url := "$pg"; pool := default_pool; allow_private_backends := false;
  query := {| body := Sql "SELECT 1"; params := []; param_exprs := []; row_mode := Many; max_rows := 10;
              timeout_ms := None; read_only := true; progress_heartbeat_ms := None; stream := None |};
  session_vars := [("app.plain", "fixed"); ("app.tenant", "$tenant")];
  circuit_breaker := None; list_query := None; await_ := None; isolation_level := None; cache := None;
  cost := None; auth := None |}%string.

Definition ctx (who : string) : HostContext :=
  {| parent_request_id := "r1"; host_session_id := None; host_backend := who; identity := None |}%string.

Definition host (c : HostContext) (v : value) : result BackendHostError value :=
  Ok (VObject [("pg", VString ("postgres://" +:+ host_backend c +:+ "@db")); ("tenant", VString "t1")])%string.

Definition connect (cc : ConnectCfg) : result SqlError (ConnectCfg * option ()) := Ok (cc, None).

Abbreviation call who m :=
  (resolve_pool_for_call tokens substitute parse from_be_bytes host connect (fun _ => BTransport "sql") 0 (ctx who)
     config (from_config config) m).

(** Only values with tokens are resolved, whoever calls: no identity is needed. *)
Example resolved_bundle :
  exists r, resolve_creds_for tokens substitute parse from_be_bytes host (ctx "alice") config = Ok r /\
    rc_url r = "postgres://alice@db"%string /\
    rc_session_vars r = [("app.plain", "fixed"); ("app.tenant", "t1")]%string /\
    rc_cred_keys r = [("vault", "pg"); ("vault", "tenant")]%string.
Proof. eexists. split; [reflexivity|]. by vm_compute. Qed.

Definition answered (who : string) : gmap string string :=
  list_to_map [("pg", "postgres://" +:+ who +:+ "@db"); ("tenant", "t1")]%string.

Lemma call_pool_own_credentials_witness :
  exists p m', call "bob" (snd (call "alice" ∅)) = (Ok p, m') /\
    ((p = with_url "postgres://bob@db" (from_config config) \/
      exists mp', Pool.bundle_bytes (digest_pairs tokens substitute config mp') <>
                  Pool.bundle_bytes (digest_pairs tokens substitute config (answered "bob")) /\
        rc_digest (bundle tokens substitute parse from_be_bytes config mp') =
        rc_digest (bundle tokens substitute parse from_be_bytes config (answered "bob"))) /\
     forall plugin_id target, snd (Pool.evict_for plugin_id target (snd (call "alice" ∅))) =
       if decide ((plugin_id, target) ∈ cred_keys tokens parse config) then ∅ else snd (call "alice" ∅)).
Proof.
  do 2 eexists. split; [vm_compute; reflexivity|].
  assert (opens_as_asked (Rotator := ()) (fun cc => cc) connect) as Ho by (intros cc p rot [= <- _]; reflexivity).
  eapply (call_pool_own_credentials tokens substitute parse from_be_bytes (fun cc => cc) config
           (snd (call "alice" ∅)) host connect (fun _ => BTransport "sql") 0 (ctx "bob") (from_config config)
           (answered "bob")).
  - reflexivity.
  - eapply rtc_once, (step_call _ _ _ _ _ config host connect _ 0 (ctx "alice") (from_config config)).
    + exact Ho.
    + intros mp (obj & [= <-] & <-). unfold one_line_pairs, Pool.one_line. apply (bool_decide_unpack _). by vm_compute.
    + apply surjective_pairing.
  - exact Ho.
  - eexists. split; [reflexivity|]. vm_compute. reflexivity.
  - unfold one_line_pairs, Pool.one_line. apply (bool_decide_unpack _). by vm_compute.
  - vm_compute. reflexivity.
Defined.
End Demo.

End Creds.
