(* ===== verification/Registration.v ===== *)
(** Profile registration: [prepare_stmt], [validate_named_params_match_config]
    and [register_profile] of [src/src/lib.rs].

    Registration is a computation that can fail and that records what it does to
    the outside; a panic is a failure of its own.  What the driver, the host and
    the file system answer is the record [RegEnv]; deserialization of a spec is
    one of its fields, for which [strict_spec] is what serde documents for
    [deny_unknown_fields].  The tasks a registration spawns and the
    subscriptions it takes out are effects here; what they do later is in
    [Sweeper], [Invalidator] and [Rotator]; specs are read in [Spec]. *)

From Stdlib Require Import ZArith Lia Bool Ascii String.
From stdpp Require Import base list strings gmap.
From S2P Require Import Prelude RustStd Redact Text Errors Breaker Json Params Sqlx Pool Stream SqlText Cost Config Auth Shape Execute Schema ParamExprs Creds.

Module Registration.

(** * The statement *)

(** Placeholders the plugin binds itself. *)
Definition plugin_managed (name : string) : bool :=
  starts_with "_after_" name ||
  (String.eqb name "idempotency_key" || String.eqb name "idempotency_scope_hash").

Fixpoint validate_named_params_match_config (rewritten_order declared : list string) : result SqlError () :=
  match rewritten_order with
  | [] => Ok ()
  | name :: order' =>
      if plugin_managed name then validate_named_params_match_config order' declared
      else if existsb (String.eqb name) declared then validate_named_params_match_config order' declared
      else Err (InvalidSpec ("named placeholder ':" +:+ name +:+ "' is not listed in `params`"))
  end.

Definition raw_statement (read_file : string -> result string string) (c : SqlBackendConfig)
  : result SqlError string :=
  match body (query c) with
  | Sql sql => Ok sql
  | SqlFile sql_file =>
      let? text := rmap_err (fun e => InvalidSpec ("sql_file '" +:+ sql_file +:+ "': " +:+ e)) (read_file sql_file) in
      let? _ := validate_statement text in
      Ok text
  | Procedure procedure => Ok (call_statement procedure (length (params (query c))) (driver c))
  end.

Definition prepare_stmt (read_file : string -> result string string) (c : SqlBackendConfig)
  : result SqlError PreparedStmt :=
  let? raw := raw_statement read_file c in
  let (rewritten, order) := rewrite_placeholders raw (driver c) in
  let? order :=
    match order with
    | [] => Ok (params (query c))
    | _ => let? _ := validate_named_params_match_config order (params (query c)) in Ok order
    end in
  Ok {| stmt_sql := rewritten; param_order := order; stmt_driver := driver c |}.

(** * Effects *)

Inductive reg_effect : Type :=
| RBuildPool
| RHealthCheck
| RVerifyCancel
| RSubscribeRevocation
| RSubscribeRotation (secret_refs : list string)
| RSpawnSweeper
| RDescribeParameters (sql : string) (order : list string)
| RDescribeColumns (sql : string)
| RSpawnInvalidator (stmt : PreparedStmt) (interval_ms : Z).

Inductive failure : Type :=
| Failed (e : BackendError)
| Panicked.

Definition R (A : Type) : Type := (result failure A * list reg_effect)%type.

Definition bind {A B} (m : R A) (k : A -> R B) : R B :=
  match m with
  | (Ok a, fx) => let (r, fx') := k a in (r, fx ++ fx')
  | (Err e, fx) => (Err e, fx)
  end.
Definition pure {A} (r : result BackendError A) : R A := (rmap_err Failed r, []).
Definition effect (fx : reg_effect) : R () := (Ok (), [fx]).
Definition effect_if (b : bool) (fx : reg_effect) : R () := (Ok (), if b then [fx] else []).
(** [Option::expect]. *)
Definition expect {A} (o : option A) : R A := (ok_or o Panicked, []).

Notation "'reg!' x := m 'in' k" := (bind m (fun x => k))
  (at level 10, x pattern, m at level 200, k at level 200,
   format "'[v' 'reg!'  x  :=  m  'in' '/' k ']'") : rust_scope.

Section Register.
Context {Url : Type} `{UrlOps Url} (sqlx_display : sqlx_error -> string).
Context `{Cel} `{Stream.CursorOps}.
Context (url_scheme : Url -> string) (url_error : string -> string) (cred_tokens : string -> list string)
        (debug_strings : list string -> string).
Context {PoolHandle Rotator : Type}.

Record RegEnv : Type := {
  parse_spec : value -> result string (SqlBackendConfig * Schema.SchemaDerive);
  compiled : DriverKind -> bool;
  auth_enabled : string -> bool;
  read_file : string -> result string string;
  connect : Creds.ConnectCfg -> result SqlError (PoolHandle * option Rotator);
  health_check : PoolHandle -> result SqlError ();
  verify_cancel_privilege : PoolHandle -> result SqlError ();
  describe_parameters : PoolHandle -> string -> list string -> result SqlError (option value);
  describe_columns : PoolHandle -> string -> RowMode -> result SqlError (option value);
  generated_key : list byte;
}.

Record Profile : Type := {
  core : Execute.ProfileRuntime;
  static_pool : PoolHandle;
  pool_registry : gmap Pool.CredDigest (@Pool.PoolEntry PoolHandle);
  cfg : SqlBackendConfig;
  rotation_secret_refs : list string;
  auth_rotator : option Rotator;
  progress_heartbeat : option Z;
  input_schema : option value;
  output_schema : option value;
  compiled_exprs : list ParamExprs.ParamExpr;
  breaker : option Breaker.Breaker.CircuitBreaker;
  list_rt : option (PreparedStmt * ListQueryConfig);
  profile_isolation : option IsolationLevel;
  invalidator : option (PreparedStmt * Z);
}.

Definition sql_error : SqlError -> BackendError := to_backend_error sqlx_display.
Definition sql {A} (r : result SqlError A) : R A := pure (rmap_err sql_error r).

Definition DEFAULT_QUERY_TIMEOUT_MS : Z := 5000.

(** The [__mcpg_secret_refs] hint. *)
Definition secret_refs (spec : value) : list string :=
  match spec with
  | VObject o => match obj_get "__mcpg_secret_refs" o with Some (VArray arr) => omap as_str arr | _ => [] end
  | _ => []
  end.

(** The callback of the secret-rotation subscription. *)
Definition on_secret_rotation (refs : list string) (secret_ref : string)
  (m : gmap Pool.CredDigest (@Pool.PoolEntry PoolHandle)) : nat * gmap Pool.CredDigest (@Pool.PoolEntry PoolHandle) :=
  if existsb (fun r => String.eqb r secret_ref) refs then Pool.evict_for_secret secret_ref m else (0%nat, m).

Fixpoint check_list_order (order : list string) : result BackendError () :=
  match order with
  | [] => Ok ()
  | name :: order' =>
      if negb (String.eqb name "cursor") && negb (String.eqb name "page_size") then
        Err (BInvalidSpec ("list_query references ':" +:+ name +:+
               "' but only ':cursor' and ':page_size' are bound by the plugin"))
      else check_list_order order'
  end.

Definition prepare_list (c : SqlBackendConfig) : result BackendError (option (PreparedStmt * ListQueryConfig)) :=
  match list_query c with
  | Some l =>
      let (rewritten, order) := rewrite_placeholders (list_sql l) (driver c) in
      let? _ := check_list_order order in
      Ok (Some ({| stmt_sql := rewritten; param_order := order; stmt_driver := driver c |}, l))
  | None => Ok None
  end.

(** A step of the await block: its declared parameters unless it names some. *)
Definition await_stmt (d : DriverKind) (s : AwaitStep) : PreparedStmt :=
  let (rewritten, order) := rewrite_placeholders (step_sql s) d in
  {| stmt_sql := rewritten;
     param_order := match order with [] => step_params s | _ => order end;
     stmt_driver := d |}.

Definition prepare_await (c : SqlBackendConfig) : result BackendError (option Execute.AwaitRuntime) :=
  match await_ c with
  | Some aw =>
      let? program := rmap_err (fun e => BInvalidSpec ("await.predicate CEL compile failed: " +:+ e))
                        (cel_compile (predicate aw)) in
      Ok (Some {| Execute.await_cfg := aw;
                  Execute.trigger_stmt := option_map (await_stmt (driver c)) (trigger aw);
                  Execute.check_stmt := await_stmt (driver c) (check aw);
                  Execute.await_predicate := program |})
  | None => Ok None
  end.

Definition prepare_stream (env : RegEnv) (c : SqlBackendConfig) : R (option Stream.StreamRuntime) :=
  match row_mode (query c) with
  | StreamMode =>
      reg! s := expect (stream (query c)) in
      let key := match Stream.signing_key s with
                 | Some v => if str_is_empty v then generated_key env else Stream.key_from_bytes (str_bytes v)
                 | None => generated_key env
                 end in
      (Ok (Some {| Stream.cfg := s; Stream.key := key |}), [])
  | _ => (Ok None, [])
  end.

Definition tracking (c : SqlBackendConfig) : option (PreparedStmt * Z) :=
  match cache c with
  | Some k =>
      if enabled k then
        match invalidate_on k with
        | Some (Watch sql interval_ms) =>
            Some ({| stmt_sql := fst (rewrite_placeholders sql (driver c)); param_order := []; stmt_driver := driver c |},
                  interval_ms)
        | None => None
        end
      else None
  | None => None
  end.

(** [register_profile] up to the insertion. *)
Definition build_profile (env : RegEnv) (spec : value) : R Profile :=
  reg! (c, derive) := pure (rmap_err (fun e => BInvalidSpec ("SQL binding spec: " +:+ e)) (parse_spec env spec)) in
  reg! _ := sql (Config.validate url_scheme url_error cred_tokens debug_strings c) in
  reg! exprs := sql (ParamExprs.compile_all (param_exprs (query c))) in
  reg! _ := pure (if compiled env (driver c) then Ok () else
                  Err (BInvalidSpec ("driver '" +:+ DriverKind_as_str (driver c) +:+ "' is not compiled into this build"))) in
  reg! stmt := sql (prepare_stmt (read_file env) c) in
  reg! _ := effect RBuildPool in
  reg! (handle, rotator) := sql (Creds.build_pool (connect env) (auth_enabled env) c) in
  reg! _ := effect RHealthCheck in
  reg! _ := sql (health_check env handle) in
  let privileged := require_cancel_privilege (pool c) in
  reg! _ := effect_if privileged RVerifyCancel in
  reg! _ := sql (if privileged then verify_cancel_privilege env handle else Ok ()) in
  reg! _ := effect RSubscribeRevocation in
  reg! _ := effect (RSubscribeRotation (secret_refs spec)) in
  reg! _ := effect RSpawnSweeper in
  reg! _ := effect_if (Schema.includes_input derive) (RDescribeParameters (stmt_sql stmt) (param_order stmt)) in
  reg! _ := effect_if (Schema.includes_output derive) (RDescribeColumns (stmt_sql stmt)) in
  reg! list_rt := pure (prepare_list c) in
  reg! await_rt := pure (prepare_await c) in
  reg! stream_rt := prepare_stream env c in
  reg! _ := match tracking c with
            | Some (s, ms) => effect (RSpawnInvalidator s ms)
            | None => (Ok (), [])
            end in
  reg! cost_rt := sql (map_opt cost_compile (cost c)) in
  (Ok {| core := {| Execute.rt_driver := driver c; Execute.rt_stmt := stmt;
                    Execute.rt_row_mode := row_mode (query c); Execute.rt_max_rows := max_rows (query c);
                    Execute.rt_timeout := default DEFAULT_QUERY_TIMEOUT_MS (timeout_ms (query c));
                    Execute.has_cred_refs := Creds.config_has_cred_refs cred_tokens c;
                    Execute.rt_session_vars := {| values := session_vars c |};
                    Execute.has_param_exprs := match exprs with [] => false | _ => true end;
                    Execute.stream_rt := stream_rt; Execute.rt_cache := cache c;
                    Execute.rt_cost := cost_rt; Execute.await_rt := await_rt |};
         static_pool := handle; pool_registry := ∅; cfg := c; rotation_secret_refs := secret_refs spec;
         auth_rotator := rotator; progress_heartbeat := progress_heartbeat_ms (query c);
         input_schema := Schema.derive_input derive (describe_parameters env handle (stmt_sql stmt) (param_order stmt));
         output_schema := Schema.derive_output derive (describe_columns env handle (stmt_sql stmt) (row_mode (query c)));
         compiled_exprs := exprs; breaker := option_map Breaker.Breaker.new (circuit_breaker c); list_rt := list_rt;
         profile_isolation := isolation_level c; invalidator := tracking c |}, []).

(** The plugin's drain flag and its profiles. *)
Record plugin : Type := { draining : bool; profiles : gmap string Profile }.

Definition register_profile (env : RegEnv) (backend_name : string) (spec : value) (pl : plugin)
  : result failure () * list reg_effect * plugin :=
  if draining pl then
    (Err (Failed (BTransport ("sql binding plugin is draining; refusing register_profile for '" +:+ backend_name +:+ "'"))),
     [], pl)
  else
    match build_profile env spec with
    | (Ok p, fx) => (Ok (), fx, {| draining := false; profiles := <[backend_name := p]> (profiles pl) |})
    | (Err e, fx) => (Err e, fx, pl)
    end.

(** * What registration does *)

Lemma named_params_ok order declared :
  validate_named_params_match_config order declared = Ok () ->
  Forall (fun n => plugin_managed n = true \/ n ∈ declared) order.
Proof.
  induction order as [|n order IH]; [constructor|]. cbn [validate_named_params_match_config].
  destruct (plugin_managed n) eqn:Em; [constructor; auto|].
  destruct (existsb _ declared) eqn:Ed; [|done]. constructor; [right|auto].
  apply existsb_exists in Ed as (m & Hm & ->%String.eqb_eq). by apply list_elem_of_In.
Qed.

(** Every placeholder of a prepared statement is declared or the plugin's. *)
Lemma prepare_stmt_names read c stmt :
  prepare_stmt read c = Ok stmt ->
  Forall (fun n => plugin_managed n = true \/ n ∈ params (query c)) (param_order stmt).
Proof.
  unfold prepare_stmt. destruct (raw_statement read c) as [raw|]; [|done]. cbn [rbind].
  destruct (rewrite_placeholders raw (driver c)) as [rewritten order]. destruct order as [|n order].
  - cbn [rbind]. intros [= <-]. cbn [param_order]. apply Forall_forall. auto.
  - destruct (validate_named_params_match_config _ _) as [[]|] eqn:E; [|done]. cbn [rbind].
    intros [= <-]. by apply named_params_ok.
Qed.

(** What is sent is a [single_statement], from the configuration or from a file. *)
Definition one_statement (read : string -> result string string) (c : SqlBackendConfig) : Prop :=
  exists raw, raw_statement read c = Ok raw /\
    match body (query c) with Procedure p => identifier p | _ => single_statement raw end.

Lemma prepare_stmt_single read c stmt :
  safe_config (Url := Url) url_scheme cred_tokens c -> prepare_stmt read c = Ok stmt -> one_statement read c.
Proof.
  intros Hs. unfold prepare_stmt, one_statement. destruct (raw_statement read c) as [raw|] eqn:E; [|done].
  intros _. exists raw. split; [done|]. pose proof (safe_body _ _ _ Hs) as Hb. unfold raw_statement in E.
  destruct (body (query c)) as [s|p|f]; [by injection E as <-|done|].
  destruct (read f) as [text|]; [|done]. cbn [rmap_err rbind] in E.
  destruct (validate_statement text) as [[]|] eqn:Ev; [|done]. injection E as <-. by apply validate_statement_ok.
Qed.

Lemma collect_params_total o order :
  (forall k, k ∈ order -> is_Some (obj_get k o)) ->
  exists ps, collect_params o order = Ok ps /\ map bp_name ps = order.
Proof.
  induction order as [|k order IH]; intros Ho; [by exists []|]. cbn [collect_params].
  destruct (Ho k) as [v ->]; [apply list_elem_of_here|].
  destruct IH as (ps & -> & <-); [intros; apply Ho; by right|]. by eexists.
Qed.

Lemma list_args_total stmt l cursor :
  check_list_order (param_order stmt) = Ok () ->
  is_ok (Shape.list_args stmt l cursor) = is_ok (Shape.cursor_arg (mode l) cursor).
Proof.
  unfold Shape.list_args. intros Hc. destruct (Shape.cursor_arg (mode l) cursor) as [v|]; [|done]. cbn [rbind is_ok].
  induction (param_order stmt) as [|n order IH]; [done|]. cbn [check_list_order Shape.list_args_go] in *.
  destruct (String.eqb n "cursor"); [|destruct (String.eqb n "page_size"); [|done]]; cbn [negb andb rbind] in *;
    specialize (IH Hc); by destruct (Shape.list_args_go order _ _).
Qed.

(** The effects of a registration, in their order. *)
Definition plan (c : SqlBackendConfig) (derive : Schema.SchemaDerive) (stmt : PreparedStmt) (spec : value)
  : list reg_effect :=
  [RBuildPool; RHealthCheck] ++ (if require_cancel_privilege (pool c) then [RVerifyCancel] else []) ++
  [RSubscribeRevocation; RSubscribeRotation (secret_refs spec); RSpawnSweeper] ++
  (if Schema.includes_input derive then [RDescribeParameters (stmt_sql stmt) (param_order stmt)] else []) ++
  (if Schema.includes_output derive then [RDescribeColumns (stmt_sql stmt)] else []) ++
  match tracking c with Some (s, ms) => [RSpawnInvalidator s ms] | None => [] end.

(** What a built profile has to do with its configuration. *)
Record profile_of (env : RegEnv) (spec : value) (c : SqlBackendConfig) (stmt : PreparedStmt) (p : Profile) : Prop := {
  of_cfg : cfg p = c;
  of_stmt : Execute.rt_stmt (core p) = stmt;
  of_vars : values (Execute.rt_session_vars (core p)) = session_vars c;
  of_driver : Execute.rt_driver (core p) = driver c;
  of_row_mode : Execute.rt_row_mode (core p) = row_mode (query c);
  of_pool : Creds.build_pool (connect env) (auth_enabled env) c = Ok (static_pool p, auth_rotator p);
  of_health : health_check env (static_pool p) = Ok ();
  of_privilege : require_cancel_privilege (pool c) = true -> verify_cancel_privilege env (static_pool p) = Ok ();
  of_exprs : ParamExprs.compile_all (param_exprs (query c)) = Ok (compiled_exprs p);
  of_list : prepare_list c = Ok (list_rt p);
  of_await : prepare_await c = Ok (Execute.await_rt (core p));
  of_stream : Execute.rt_row_mode (core p) = StreamMode <-> is_Some (Execute.stream_rt (core p));
  of_refs : rotation_secret_refs p = secret_refs spec;
  of_registry : pool_registry p = ∅;
  of_cost : map_opt cost_compile (cost c) = Ok (Execute.rt_cost (core p));
  of_breaker : breaker p = option_map Breaker.Breaker.new (circuit_breaker c);
}.

Lemma prepare_stream_ok env c :
  (row_mode (query c) = StreamMode <-> is_Some (stream (query c))) ->
  exists s, prepare_stream env c = (Ok s, []) /\ (row_mode (query c) = StreamMode <-> is_Some s).
Proof.
  unfold prepare_stream. intros [Hs _]. destruct (row_mode (query c)) eqn:E;
    try (exists None; split; [done|]; split; [done|by intros []]).
  destruct (Hs eq_refl) as [s ->]. eexists. by split.
Qed.

(** The result of a step that does nothing to the outside decides what follows. *)
Lemma bind_sql {A B} (r : result SqlError A) (k : A -> R B) :
  bind (sql r) k = match r with Ok a => k a | Err e => (Err (Failed (sql_error e)), []) end.
Proof. destruct r as [a|e]; cbn; [by destruct (k a)|done]. Qed.

Lemma bind_pure {A B} (r : result BackendError A) (k : A -> R B) :
  bind (pure r) k = match r with Ok a => k a | Err e => (Err (Failed e), []) end.
Proof. destruct r as [a|e]; cbn; [by destruct (k a)|done]. Qed.

Lemma bind_effect {B} fx (k : () -> R B) : bind (effect fx) k = (fst (k ()), fx :: snd (k ())).
Proof. cbn. by destruct (k ()). Qed.

Lemma bind_effect_if {B} b fx (k : () -> R B) :
  bind (effect_if b fx) k = (fst (k ()), (if b then [fx] else []) ++ snd (k ())).
Proof. destruct b; cbn; by destruct (k ()). Qed.

(** [m] does a part of [fx], in order, without panicking; all of it when it
    succeeds, with a result that satisfies [P]. *)
Definition does {A} (m : R A) (fx : list reg_effect) (P : A -> Prop) : Prop :=
  fst m <> Err Panicked /\ snd m `prefix_of` fx /\ (forall a, fst m = Ok a -> snd m = fx /\ P a).

Lemma does_sql {A B} (r : result SqlError A) (k : A -> R B) fx P :
  (forall a, r = Ok a -> does (k a) fx P) -> does (bind (sql r) k) fx P.
Proof. rewrite bind_sql. destruct r as [a|e]; [auto|]. intros _. split_and!; [done|apply prefix_nil|done]. Qed.

Lemma does_pure {A B} (r : result BackendError A) (k : A -> R B) fx P :
  (forall a, r = Ok a -> does (k a) fx P) -> does (bind (pure r) k) fx P.
Proof. rewrite bind_pure. destruct r as [a|e]; [auto|]. intros _. split_and!; [done|apply prefix_nil|done]. Qed.

Lemma does_effect {B} e (k : () -> R B) fx P : does (k ()) fx P -> does (bind (effect e) k) (e :: fx) P.
Proof.
  rewrite bind_effect. intros (Hn & Hpre & Hok). split_and!; cbn; [done|by apply prefix_cons|].
  intros a Ha. destruct (Hok a Ha) as [-> Hp]. done.
Qed.

Lemma does_effect_if {B} b e (k : () -> R B) fx P :
  does (k ()) fx P -> does (bind (effect_if b e) k) ((if b then [e] else []) ++ fx) P.
Proof.
  rewrite bind_effect_if. intros (Hn & Hpre & Hok). split_and!; cbn; [done|by apply prefix_app|].
  intros a Ha. destruct (Hok a Ha) as [-> Hp]. done.
Qed.

Lemma does_value {A B} (a : A) (k : A -> R B) fx P : does (k a) fx P -> does (bind (Ok a, []) k) fx P.
Proof. cbn. by destruct (k a). Qed.

(** From the first connection on. *)
Lemma build_profile_does env spec c derive stmt exprs :
  parse_spec env spec = Ok (c, derive) ->
  Config.validate url_scheme url_error cred_tokens debug_strings c = Ok () ->
  ParamExprs.compile_all (param_exprs (query c)) = Ok exprs -> compiled env (driver c) = true ->
  prepare_stmt (read_file env) c = Ok stmt ->
  does (build_profile env spec) (plan c derive stmt spec) (profile_of env spec c stmt).
Proof.
  intros Hp Hv Hx Hd Hs. unfold build_profile. rewrite Hp, bind_pure. cbn [rmap_err].
  rewrite bind_sql, Hv, bind_sql, Hx, bind_pure, Hd, bind_sql, Hs.
  apply does_effect, does_sql. intros [handle rotator] Hb. apply does_effect, does_sql. intros [] Hh.
  apply does_effect_if, does_sql. intros [] Hq. do 3 apply does_effect. do 2 apply does_effect_if.
  apply does_pure. intros l Hl. apply does_pure. intros aw Ha.
  destruct (prepare_stream_ok env c) as (st & Es & Hst).
  { apply (safe_stream url_scheme cred_tokens c). by eapply validate_safe. }
  rewrite Es. apply does_value.
  destruct (tracking c) as [[s ms]|] eqn:Et; [apply does_effect|apply does_value];
    apply does_sql; intros cost Hcost; (split_and!; [done|apply prefix_nil|]); intros p [= <-]; (split; [done|]);
    split; try done; cbn; intros Hr; by rewrite Hr in Hq.
Qed.

(** Before the first connection, or from there on by the plan. *)
Lemma build_profile_cases env spec r fx :
  build_profile env spec = (r, fx) ->
  r <> Err Panicked /\
  ((is_ok r = false /\ fx = []) \/
   exists c derive stmt,
     parse_spec env spec = Ok (c, derive) /\
     Config.validate url_scheme url_error cred_tokens debug_strings c = Ok () /\
     compiled env (driver c) = true /\ prepare_stmt (read_file env) c = Ok stmt /\
     fx `prefix_of` plan c derive stmt spec /\
     (forall p, r = Ok p -> fx = plan c derive stmt spec /\ profile_of env spec c stmt p)).
Proof.
  intros E. destruct (parse_spec env spec) as [[c derive]|e] eqn:Hp; cycle 1.
  { unfold build_profile in E. rewrite Hp, bind_pure in E. cbn in E. injection E as <- <-. auto. }
  destruct (Config.validate url_scheme url_error cred_tokens debug_strings c) as [[]|e] eqn:Hv; cycle 1.
  { unfold build_profile in E. rewrite Hp, bind_pure in E. cbn [rmap_err] in E. rewrite bind_sql, Hv in E.
    injection E as <- <-. auto. }
  destruct (ParamExprs.compile_all (param_exprs (query c))) as [exprs|e] eqn:Hx; cycle 1.
  { unfold build_profile in E. rewrite Hp, bind_pure in E. cbn [rmap_err] in E.
    rewrite bind_sql, Hv, bind_sql, Hx in E. injection E as <- <-. auto. }
  destruct (compiled env (driver c)) eqn:Hd; cycle 1.
  { unfold build_profile in E. rewrite Hp, bind_pure in E. cbn [rmap_err] in E.
    rewrite bind_sql, Hv, bind_sql, Hx, bind_pure, Hd in E. injection E as <- <-. auto. }
  destruct (prepare_stmt (read_file env) c) as [stmt|e] eqn:Hs; cycle 1.
  { unfold build_profile in E. rewrite Hp, bind_pure in E. cbn [rmap_err] in E.
    rewrite bind_sql, Hv, bind_sql, Hx, bind_pure, Hd, bind_sql, Hs in E. injection E as <- <-. auto. }
  destruct (build_profile_does env spec c derive stmt exprs Hp Hv Hx Hd Hs) as (Hn & Hpre & Hok).
  rewrite E in Hn, Hpre, Hok. cbn [fst snd] in *. split; [done|]. right. exists c, derive, stmt. split_and!; auto.
Qed.

Lemma register_ok env name spec pl fx pl' :
  register_profile env name spec pl = (Ok (), fx, pl') ->
  draining pl = false /\ exists p, build_profile env spec = (Ok p, fx) /\
    pl' = {| draining := false; profiles := <[name := p]> (profiles pl) |}.
Proof.
  unfold register_profile. destruct (draining pl); [done|]. destruct (build_profile env spec) as [[p|e] fx0]; [|done].
  intros [= <- <-]. split; [done|]. by exists p.
Qed.

(** C8.  A registered profile is sound: registration of a spec that succeeds
    installs, under its name and nothing else, a profile of a safe configuration
    whose pool answered the health check (and the privilege check when it is
    asked for), whose statement is a single one, as the checks define it, even
    when it was read from a file, and whose stream settings are present exactly in
    stream mode.  Its arguments bind whenever the declared parameters and those of
    the plugin's own that the statement uses are present, and its listing binds
    exactly when the cursor it is given is well-formed: it never meets a
    placeholder it cannot bind. *)
Theorem registered_profile_sound env name spec pl fx pl' :
  register_profile env name spec pl = (Ok (), fx, pl') ->
  exists c derive stmt p, parse_spec env spec = Ok (c, derive) /\
    draining pl' = false /\ profiles pl' = <[name := p]> (profiles pl) /\
    safe_config (Url := Url) url_scheme cred_tokens c /\ one_statement (read_file env) c /\
    profile_of env spec c stmt p /\
    (forall o, (forall k, k ∈ params (query c) -> is_Some (obj_get k o)) ->
       (forall k, k ∈ param_order stmt -> plugin_managed k = true -> is_Some (obj_get k o)) ->
       exists bound, collect_bound_params (VObject o) (param_order stmt) = Ok bound /\
         map bp_name bound = param_order stmt) /\
    (forall lstmt l cursor, list_rt p = Some (lstmt, l) ->
       is_ok (Shape.list_args lstmt l cursor) = is_ok (Shape.cursor_arg (mode l) cursor)).
Proof.
  intros (Hd & p & E & ->)%register_ok.
  destruct (build_profile_cases _ _ _ _ E) as [_ [[? _]|(c & derive & stmt & Hp & Hv & _ & Hs & _ & Hok)]]; [done|].
  destruct (Hok p eq_refl) as [_ Hof]. apply validate_safe in Hv. exists c, derive, stmt, p.
  split_and!; try done.
  - by eapply prepare_stmt_single.
  - intros o Hparams Hmanaged. apply collect_params_total. intros k Hk.
    pose proof (prepare_stmt_names _ _ _ Hs) as Hn. rewrite Forall_forall in Hn. destruct (Hn k Hk); auto.
  - intros lstmt l cursor Hl. apply list_args_total. pose proof (of_list _ _ _ _ _ Hof) as El. rewrite Hl in El.
    unfold prepare_list in El. destruct (list_query c) as [l'|]; [|done].
    destruct (rewrite_placeholders _ _) as [rw order].
    destruct (check_list_order order) as [[]|] eqn:Ec; [|done]. cbn in El. by injection El as <- <-.
Qed.

(** C32.  Failed registrations: a registration never panics, changes the profiles
    only when it succeeds, and acts on the outside in one fixed order from which
    a failure can only cut the end; nothing is contacted unless the
    configuration is valid, its expressions and driver compiled in and its
    statement prepared. *)
Theorem registration_effects env name spec pl r fx pl' :
  register_profile env name spec pl = (r, fx, pl') ->
  r <> Err Panicked /\ (is_ok r = false -> pl' = pl) /\
  (fx = [] \/ exists c derive stmt,
     parse_spec env spec = Ok (c, derive) /\
     Config.validate url_scheme url_error cred_tokens debug_strings c = Ok () /\
     compiled env (driver c) = true /\ prepare_stmt (read_file env) c = Ok stmt /\
     fx `prefix_of` plan c derive stmt spec /\ (is_ok r = true -> fx = plan c derive stmt spec)).
Proof.
  unfold register_profile. destruct (draining pl).
  { intros [= <- <- <-]. split_and!; auto. }
  destruct (build_profile env spec) as [r0 fx0] eqn:E.
  destruct (build_profile_cases _ _ _ _ E) as [Hn Hcases].
  intros Er. assert (is_ok r = is_ok r0 /\ (r = Err Panicked -> r0 = Err Panicked) /\ fx = fx0 /\
                     (is_ok r0 = false -> pl' = pl)) as (Eok & Ep & -> & Epl).
  { destruct r0; injection Er as <- <- <-; split_and!; done || by intros [= ->]. }
  split_and!; [auto|by rewrite Eok|].
  destruct Hcases as [[_ ->]|(c & derive & stmt & Hp & Hv & Hd & Hs & Hpre & Hok)]; [by left|right].
  exists c, derive, stmt. split_and!; try done. rewrite Eok. destruct r0 as [p|]; [|done]. intros _.
  by destruct (Hok p eq_refl).
Qed.

(** * The rotation hint *)

Definition config_fields : list string :=
  ["driver"; "url"; "pool"; "allow_private_backends"; "query"; "session_vars"; "schema"; "circuit_breaker";
   "list_query"; "await"; "isolation_level"; "cache"; "cost"; "auth"]%string.

(** [deny_unknown_fields]: a map with another key is refused. *)
Definition strict_spec (env : RegEnv) : Prop :=
  forall o r, parse_spec env (VObject o) = Ok r -> forall k v, obj_get k o = Some v -> k ∈ config_fields.

(** Secret rotation reaches no profile: the hint that names the secrets of
    a spec is not a field of the strict configuration, so a spec that carries it
    is refused, and the subscription of every profile that does register ignores
    every rotation. *)
Theorem rotation_never_evicts env name spec pl r fx pl' :
  strict_spec env -> register_profile env name spec pl = (r, fx, pl') ->
  (forall o hint, spec = VObject o -> obj_get "__mcpg_secret_refs" o = Some hint -> is_ok r = false /\ pl' = pl) /\
  (is_ok r = true -> exists p, profiles pl' !! name = Some p /\
     forall secret_ref m, on_secret_rotation (rotation_secret_refs p) secret_ref m = (0%nat, m)).
Proof.
  intros Hstrict E.
  assert (is_ok r = true -> exists c derive stmt p, parse_spec env spec = Ok (c, derive) /\
            profiles pl' !! name = Some p /\ rotation_secret_refs p = secret_refs spec /\ stmt = Execute.rt_stmt (core p))
    as Hok.
  { destruct r as [[]|]; [|done]. intros _. apply register_ok in E as (Hd & p & E & ->).
    destruct (build_profile_cases _ _ _ _ E) as [_ [[? _]|(c & derive & stmt & Hp & _ & _ & _ & _ & Hof)]]; [done|].
    destruct (Hof p eq_refl) as [_ Hof']. exists c, derive, stmt, p. split_and!; try done.
    - apply lookup_insert_eq.
    - apply (of_refs _ _ _ _ _ Hof').
    - symmetry. apply (of_stmt _ _ _ _ _ Hof'). }
  assert (is_ok r = true -> secret_refs spec = []) as Hnone.
  { intros Hr. destruct (Hok Hr) as (c & derive & _ & _ & Hp & _). destruct spec as [| | | | |o]; try done.
    cbn. destruct (obj_get "__mcpg_secret_refs" o) as [v|] eqn:Ev; [|done].
    pose proof (Hstrict o _ Hp _ _ Ev) as Hin. by apply (bool_decide_pack _) in Hin. }
  split.
  - intros o hint -> Hh. assert (is_ok r = false) as Hr.
    { destruct (is_ok r) eqn:Hr; [|done]. destruct (Hok eq_refl) as (c & derive & _ & _ & Hp & _).
      pose proof (Hstrict o _ Hp _ _ Hh) as Hin. by apply (bool_decide_pack _) in Hin. }
    split; [done|]. unfold register_profile in E. destruct (draining pl); [by injection E|].
    destruct (build_profile env (VObject o)) as [[p|e] fx0]; by injection E as <- _ <-.
  - intros Hr. destruct (Hok Hr) as (_ & _ & _ & p & _ & Hl & Hrefs & _). exists p. split; [done|].
    intros secret_ref m. by rewrite Hrefs, Hnone.
Qed.
End Register.

(** A stream binding over toy urls; the driver's pool is its settings. *)
Module Demo.
Import ToyUrl ToyCel Stream.ToyCursor.

Definition config : SqlBackendConfig := {|
  driver := Postgres; url := "u:pw"; pool := default_pool; allow_private_backends := true;
  query := {| body := SqlFile "q.sql"; params := ["id"]; param_exprs := []; row_mode := StreamMode; max_rows := 10;
              timeout_ms := None; read_only := true; progress_heartbeat_ms := None;
              stream := Some {| Stream.cursor_columns := ["n"]; Stream.initial := []; Stream.signing_key := None |} |};
  session_vars := []; circuit_breaker := Some Breaker.default_config;
  list_query := Some {| list_sql := "SELECT uri FROM t WHERE uri > :cursor LIMIT :page_size"; mode := Keyset;
                        cursor_column := Some "uri"; page_size := 2 |};
  await_ := None; isolation_level := None; cache := None; cost := Some ToyCel.spec; auth := None |}%string.

Definition parse (v : value) : result string (SqlBackendConfig * Schema.SchemaDerive) :=
  match v with
  | VObject o =>
      if forallb (fun kv => existsb (String.eqb (fst kv)) config_fields) o then Ok (config, Schema.Input)
      else Err "unknown field"
  | _ => Err "invalid type"
  end%string.

Definition env (text : string) (healthy : bool) : RegEnv (PoolHandle := Creds.ConnectCfg) (Rotator := ()) := {|
  parse_spec := parse; compiled := fun d => bool_decide (d = Postgres); auth_enabled := fun _ => false;
  read_file := fun _ => Ok text; connect := fun cc => Ok (cc, None);
  health_check := fun _ => if healthy then Ok () else Err (Timeout 5); verify_cancel_privilege := fun _ => Ok ();
  describe_parameters := fun _ _ _ => Ok None; describe_columns := fun _ _ _ => Ok None; generated_key := [] |}.

Definition statement : string := "SELECT n FROM t WHERE id = :id AND n > :_after_n".

Definition empty : plugin (PoolHandle := Creds.ConnectCfg) (Rotator := ()) := {| draining := false; profiles := ∅ |}.

Abbreviation register env spec :=
  (register_profile (Url := ToyUrl.t) ToyUrl.display (fun _ => "postgres"%string) (fun _ => EmptyString) (fun _ => [])
     (fun _ => EmptyString) env "b" spec empty).

Definition spec : value := VObject [("driver", VString "postgres")]%string.
Definition hinted : value :=
  VObject [("__mcpg_secret_refs", VArray [VString "vault://kv/db"]); ("driver", VString "postgres")]%string.

(** The effects of a good spec; a stacked statement in the file opens no
    connection; an unhealthy database ends it after the health check; a hinted
    spec is refused. *)
Example registrations :
  snd (fst (register (env statement true) spec))
    = [RBuildPool; RHealthCheck; RVerifyCancel; RSubscribeRevocation; RSubscribeRotation []; RSpawnSweeper;
       RDescribeParameters "SELECT n FROM t WHERE id = $1 AND n > $2" ["id"; "_after_n"]]%string /\
  snd (fst (register (env "SELECT 1; DROP TABLE t" true) spec)) = [] /\
  snd (fst (register (env "SELECT :other" true) spec)) = [] /\
  snd (fst (register (env statement false) spec)) = [RBuildPool; RHealthCheck] /\
  is_ok (fst (fst (register (env statement true) hinted))) = false.
Proof. by vm_compute. Qed.

Lemma registered_profile_sound_witness :
  exists c derive stmt p, parse spec = Ok (c, derive) /\
    draining (snd (register (env statement true) spec)) = false /\
    profiles (snd (register (env statement true) spec)) = <["b"%string := p]> ∅ /\
    safe_config (Url := ToyUrl.t) (fun _ => "postgres"%string) (fun _ => []) c /\
    one_statement (fun _ => Ok statement) c /\ profile_of (env statement true) spec c stmt p /\
    (forall o, (forall k, k ∈ params (query c) -> is_Some (obj_get k o)) ->
       (forall k, k ∈ param_order stmt -> plugin_managed k = true -> is_Some (obj_get k o)) ->
       exists bound, collect_bound_params (VObject o) (param_order stmt) = Ok bound /\
         map bp_name bound = param_order stmt) /\
    (forall lstmt l cursor, list_rt p = Some (lstmt, l) ->
       is_ok (Shape.list_args lstmt l cursor) = is_ok (Shape.cursor_arg (mode l) cursor)).
Proof.
  apply (registered_profile_sound (Url := ToyUrl.t) ToyUrl.display (fun _ => "postgres"%string) (fun _ => EmptyString)
           (fun _ => []) (fun _ => EmptyString) (env statement true) "b" spec empty
           (snd (fst (register (env statement true) spec)))).
  vm_compute. reflexivity.
Defined.

Lemma registration_effects_witness :
  fst (fst (register (env statement false) spec)) <> Err Panicked /\
  (is_ok (fst (fst (register (env statement false) spec))) = false -> snd (register (env statement false) spec) = empty) /\
  ([RBuildPool; RHealthCheck] = [] \/ exists c derive stmt,
     parse spec = Ok (c, derive) /\
     Config.validate (Url := ToyUrl.t) (fun _ => "postgres"%string) (fun _ => EmptyString) (fun _ => [])
       (fun _ => EmptyString) c = Ok () /\
     compiled (env statement false) (driver c) = true /\ prepare_stmt (fun _ => Ok statement) c = Ok stmt /\
     [RBuildPool; RHealthCheck] `prefix_of` plan c derive stmt spec /\
     (is_ok (fst (fst (register (env statement false) spec))) = true ->
      [RBuildPool; RHealthCheck] = plan c derive stmt spec)).
Proof.
  apply (registration_effects (Url := ToyUrl.t) ToyUrl.display (fun _ => "postgres"%string) (fun _ => EmptyString)
           (fun _ => []) (fun _ => EmptyString) (env statement false) "b" spec empty).
  vm_compute. reflexivity.
Defined.

Lemma strict : forall text healthy, strict_spec (env text healthy).
Proof.
  intros text healthy o r. cbn. destruct (forallb _ o) eqn:E; [|done]. intros _ k v Hk.
  rewrite forallb_forall in E. induction o as [|[k' v'] o IH]; [done|]. cbn [obj_get] in Hk.
  destruct (String.eqb_spec k k') as [->|Hn].
  - assert (existsb (String.eqb k') config_fields = true) as Hx by (apply (E (k', v')); by left).
    apply existsb_exists in Hx as (f & Hf & ->%String.eqb_eq). by apply list_elem_of_In.
  - apply IH; [|done]. intros x Hx. apply E. by right.
Qed.

Lemma rotation_never_evicts_witness :
  (forall o hint, spec = VObject o -> obj_get "__mcpg_secret_refs" o = Some hint ->
     is_ok (fst (fst (register (env statement true) spec))) = false /\
     snd (register (env statement true) spec) = empty) /\
  (is_ok (fst (fst (register (env statement true) spec))) = true ->
   exists p, profiles (snd (register (env statement true) spec)) !! "b"%string = Some p /\
     forall secret_ref m, on_secret_rotation (PoolHandle := Creds.ConnectCfg) (rotation_secret_refs p) secret_ref m = (0%nat, m)).
Proof.
  apply (rotation_never_evicts (Url := ToyUrl.t) ToyUrl.display (fun _ => "postgres"%string) (fun _ => EmptyString)
           (fun _ => []) (fun _ => EmptyString) (env statement true) "b" spec empty
           (fst (fst (register (env statement true) spec))) (snd (fst (register (env statement true) spec)))).
  - apply strict.
  - vm_compute. reflexivity.
Defined.

(** A credential token in the URL is no concern of registration: the pool is
    opened and checked with the token's own text. *)
Example token_connects_raw :
  Creds.build_pool (connect (env statement true)) (fun _ => false) Creds.Demo.config
    = Ok (Creds.from_config Creds.Demo.config, None) /\
  Creds.cc_url (Creds.from_config Creds.Demo.config) = "$pg"%string.
Proof. done. Qed.
End Demo.

End Registration.
