(* ===== verification/Lifecycle.v ===== *)
(** The plugin's life around its calls: the drain flag, [shutdown],
    [cancel_request], and what [execute] reports, all of [src/src/lib.rs].

    Shutdown runs beside calls and registrations, so it is a step relation: a
    step ends where the code reads or writes what others see (the flag, the
    profile map, the in-flight registry, the notification, a pool).  A pool is a
    number.  A call is in flight from its registration to the drop of its guard
    ([InFlight.registry_tracks_guards]); its breaker and driver are in [Execute].
    Times are milliseconds. *)

From Stdlib Require Import ZArith Lia Bool Ascii String.
From stdpp Require Import base list strings gmap sets relations.
From S2P Require Import Prelude RustStd Redact Errors Json Sqlx InFlight Config Execute.

Module Lifecycle.

Definition SHUTDOWN_INTERNAL_CAP : Z := 30000.
Definition SHUTDOWN_DRAIN_POLL : Z := 50.

(** * Waiting for the calls in flight *)

(** The loop of [shutdown]: [active n] calls are in flight at the [n]-th look,
    at time [clock n].  The outcome says whether the cap was hit, and at which
    look. *)
Fixpoint drain_wait (fuel n : nat) (started : Z) (active : nat -> nat) (clock : nat -> Z) : option (bool * nat) :=
  match fuel with
  | O => None
  | S f =>
      if Nat.eqb (active n) 0 then Some (false, n)
      else if SHUTDOWN_INTERNAL_CAP <=? clock n - started then Some (true, n)
      else drain_wait f (S n) started active clock
  end.

Lemma drain_wait_spec fuel n started active clock :
  (forall k, clock k + SHUTDOWN_DRAIN_POLL <= clock (S k)) ->
  (0 < fuel)%nat -> SHUTDOWN_INTERNAL_CAP <= clock n - started + SHUTDOWN_DRAIN_POLL * (Z.of_nat fuel - 1) ->
  exists forced m, drain_wait fuel n started active clock = Some (forced, m) /\ (n <= m)%nat /\
    (forall k, (n <= k < m)%nat -> active k <> 0%nat /\ clock k - started < SHUTDOWN_INTERNAL_CAP) /\
    (if forced then active m <> 0%nat /\ SHUTDOWN_INTERNAL_CAP <= clock m - started else active m = 0%nat) /\
    clock n + SHUTDOWN_DRAIN_POLL * Z.of_nat (m - n) <= clock m.
Proof.
  intros Hc. revert n. unfold SHUTDOWN_DRAIN_POLL, SHUTDOWN_INTERNAL_CAP in *.
  induction fuel as [|f IH]; intros n H0 Hf; [lia|].
  cbn [drain_wait]. destruct (Nat.eqb_spec (active n) 0).
  { exists false, n. split_and!; try done; lia. }
  unfold SHUTDOWN_INTERNAL_CAP. destruct (Z.leb_spec 30000 (clock n - started)).
  { exists true, n. split_and!; try done; lia. }
  pose proof (Hc n). destruct (IH (S n)) as (forced & m & -> & Hle & Hk & Hm & Ht); [lia..|].
  exists forced, m. split_and!; try done; [lia| |].
  - intros k Hkm. destruct (decide (k = n)) as [->|]; [done|]. apply Hk. lia.
  - replace (Z.of_nat (m - n)) with (Z.of_nat (m - S n) + 1) by lia. lia.
Qed.

(** Shutdown does not wait for ever: with sleeps of at least the poll
    interval it looks at the registry at most 601 times, and goes on to close the
    pools either because no call was in flight at that look, or because calls
    still were and thirty seconds had passed. *)
Theorem drain_wait_bounded fuel started active clock :
  (601 <= fuel)%nat -> clock 0%nat = started -> (forall k, clock k + SHUTDOWN_DRAIN_POLL <= clock (S k)) ->
  exists forced m, drain_wait fuel 0 started active clock = Some (forced, m) /\ (m <= 600)%nat /\
    (forall k, (k < m)%nat -> active k <> 0%nat) /\
    (if forced then active m <> 0%nat /\ SHUTDOWN_INTERNAL_CAP <= clock m - started else active m = 0%nat).
Proof.
  intros Hf Hs Hc. unfold SHUTDOWN_INTERNAL_CAP, SHUTDOWN_DRAIN_POLL in *.
  destruct (drain_wait_spec fuel 0 started active clock Hc) as (forced & m & E & _ & Hk & Hm & Ht).
  { lia. }
  { unfold SHUTDOWN_INTERNAL_CAP, SHUTDOWN_DRAIN_POLL. lia. }
  unfold SHUTDOWN_INTERNAL_CAP, SHUTDOWN_DRAIN_POLL in *.
  exists forced, m. split_and!; try done; [|intros k Hkm; apply Hk; lia].
  destruct (decide (m <= 600)%nat); [done|]. destruct (Hk 600%nat ltac:(lia)) as [_ Hlt].
  assert (forall k, clock 0%nat + 50 * Z.of_nat k <= clock k) as Hlin.
  { intros k. induction k as [|k IH]; [lia|]. pose proof (Hc k). lia. }
  pose proof (Hlin 600%nat). lia.
Qed.

Lemma drain_wait_bounded_witness :
  exists forced m, drain_wait 601 0 7 (fun n => if Nat.ltb n 3 then 1 else 0)%nat (fun n => 7 + 60 * Z.of_nat n)
      = Some (forced, m) /\ (m <= 600)%nat /\
    (forall k, (k < m)%nat -> (if Nat.ltb k 3 then 1 else 0)%nat <> 0%nat) /\
    (if forced then (if Nat.ltb m 3 then 1 else 0)%nat <> 0%nat /\
                    SHUTDOWN_INTERNAL_CAP <= 7 + 60 * Z.of_nat m - 7
     else (if Nat.ltb m 3 then 1 else 0)%nat = 0%nat).
Proof.
  apply (drain_wait_bounded 601 7 (fun n => if Nat.ltb n 3 then 1 else 0)%nat (fun n => 7 + 60 * Z.of_nat n)).
  - lia.
  - reflexivity.
  - intros k. unfold SHUTDOWN_DRAIN_POLL. lia.
Defined.

(** * Calls, registrations and shutdown side by side *)

Inductive call : Type :=
| Entered                                    (* past the flag check of [execute] *)
| Cloned (pool : nat)                         (* holds its own clone of the runtime *)
| Running (pool : nat) (sleeping : bool)      (* in flight; asleep between two checks of an await loop *)
| Refused
| Ended.

Inductive shutdown_state : Type :=
| NotShutDown
| Notifying
| Waiting (since : Z)
| Closing (forced : bool) (todo : list nat)
| Finished (forced : bool).

Record world : Type := mkWorld {
  draining : bool;
  live : gmap string nat;                     (* the profile map: the static pool of each *)
  calls : gmap string call;
  registrations : gmap string nat;            (* past the flag check, with the pool they build *)
  closed : gset nat;
  shutdown : shutdown_state;
  now : Z;
}.

Definition running (c : call) : bool := match c with Running _ _ => true | _ => false end.
Definition active (c : call) : bool := match c with Entered | Cloned _ | Running _ _ => true | _ => false end.

(** [in_flight.len()]. *)
Definition in_flight (w : world) : nat := size (filter (fun kv => running (snd kv) = true) (calls w)).

Definition set_call (id : string) (c : call) (w : world) : world :=
  mkWorld (draining w) (live w) (<[id := c]> (calls w)) (registrations w) (closed w) (shutdown w) (now w).
Definition set_live (l : gmap string nat) (w : world) : world :=
  mkWorld (draining w) l (calls w) (registrations w) (closed w) (shutdown w) (now w).
Definition set_registrations (r : gmap string nat) (w : world) : world :=
  mkWorld (draining w) (live w) (calls w) r (closed w) (shutdown w) (now w).
Definition set_shutdown (s : shutdown_state) (w : world) : world :=
  mkWorld (draining w) (live w) (calls w) (registrations w) (closed w) s (now w).

(** [notify_waiters]: only the calls asleep at that moment hear it. *)
Definition notified (c : call) : call := match c with Running _ true => Ended | c => c end.

Inductive step : world -> world -> Prop :=
(* execute *)
| step_execute id w :
    calls w !! id = None -> step w (set_call id (if draining w then Refused else Entered) w)
| step_lookup id name w :
    calls w !! id = Some Entered ->
    step w (set_call id (match live w !! name with Some p => Cloned p | None => Ended end) w)
| step_registered id p w : calls w !! id = Some (Cloned p) -> step w (set_call id (Running p false) w)
| step_sleep id p w : calls w !! id = Some (Running p false) -> step w (set_call id (Running p true) w)
| step_wake id p w : calls w !! id = Some (Running p true) -> step w (set_call id (Running p false) w)
| step_return id p w : calls w !! id = Some (Running p false) -> step w (set_call id Ended w)
(* register_profile *)
| step_register name p w :
    draining w = false -> registrations w !! name = None ->
    step w (set_registrations (<[name := p]> (registrations w)) w)
| step_insert name p w :
    registrations w !! name = Some p ->
    step w (set_live (<[name := p]> (live w)) (set_registrations (delete name (registrations w)) w))
| step_register_fails name p w :
    registrations w !! name = Some p -> step w (set_registrations (delete name (registrations w)) w)
(* shutdown *)
| step_swap w :
    draining w = false ->
    step w (mkWorld true (live w) (calls w) (registrations w) (closed w) Notifying (now w))
| step_notify w :
    shutdown w = Notifying ->
    step w (mkWorld (draining w) (live w) (notified <$> calls w) (registrations w) (closed w) (Waiting (now w)) (now w))
| step_drained since w :
    shutdown w = Waiting since -> in_flight w = 0%nat ->
    step w (set_shutdown (Closing false (map snd (map_to_list (live w)))) w)
| step_capped since w :
    shutdown w = Waiting since -> in_flight w <> 0%nat -> SHUTDOWN_INTERNAL_CAP <= now w - since ->
    step w (set_shutdown (Closing true (map snd (map_to_list (live w)))) w)
| step_close forced todo1 p todo2 w :
    shutdown w = Closing forced (todo1 ++ p :: todo2) ->
    step w (mkWorld (draining w) (live w) (calls w) (registrations w) ({[p]} ∪ closed w)
              (Closing forced (todo1 ++ todo2)) (now w))
| step_clear forced w :
    shutdown w = Closing forced [] -> step w (set_shutdown (Finished forced) (set_live ∅ w))
| step_time d w :
    0 <= d -> step w (mkWorld (draining w) (live w) (calls w) (registrations w) (closed w) (shutdown w) (now w + d)).

Definition start (profiles : gmap string nat) : world := mkWorld false profiles ∅ ∅ ∅ NotShutDown 0.

Definition active_in (w : world) (id : string) : Prop := exists c, calls w !! id = Some c /\ active c = true.

(** Draining is for good, and brings in no call and no registration. *)
Lemma drain_step w w' :
  step w w' -> draining w = true ->
  draining w' = true /\ (forall id, active_in w' id -> active_in w id) /\
  dom (registrations w') ⊆ dom (registrations w).
Proof.
  assert (forall w w' id c c', calls w !! id = Some c -> active c = true -> calls w' = <[id := c']> (calls w) ->
            forall i, active_in w' i -> active_in w i) as Hset.
  { intros w0 w1 id c c' Hc Ha E i (d & Hd & Hda). rewrite E in Hd. destruct (decide (i = id)) as [->|Hn].
    - by exists c.
    - rewrite lookup_insert_ne in Hd by done. by exists d. }
  intros Hs Hdr. destruct Hs; cbn [draining registrations set_call set_live set_registrations set_shutdown];
    split_and!; auto; try (by eapply Hset); try (rewrite dom_delete_L; set_solver); try done; try congruence.
  - intros i (d & Hd & Hda). cbn [calls set_call] in Hd. rewrite Hdr in Hd. destruct (decide (i = id)) as [->|Hn].
    + rewrite lookup_insert_eq in Hd. by injection Hd as <-.
    + rewrite lookup_insert_ne in Hd by done. by exists d.
  - intros i (d & Hd & Hda). cbn [calls] in Hd. rewrite lookup_fmap in Hd.
    destruct (calls w !! i) as [c|] eqn:Ec; [|done]. injection Hd as <-. exists c. split; [done|].
    by destruct c as [| |? []| |].
Qed.

Lemma drain_steps w w' :
  rtc step w w' -> draining w = true ->
  draining w' = true /\ (forall id, active_in w' id -> active_in w id) /\
  dom (registrations w') ⊆ dom (registrations w).
Proof.
  intros H. induction H as [w|w1 w2 w3 Hs _ IH]; intros Hd; [done|].
  destruct (drain_step _ _ Hs Hd) as (H1 & H2 & H3). destruct (IH H1) as (I1 & I2 & I3).
  split_and!; [done|auto|set_solver].
Qed.

Lemma in_flight_none w id c : in_flight w = 0%nat -> calls w !! id = Some c -> running c = false.
Proof.
  unfold in_flight. rewrite map_size_empty_iff. intros E Hc. destruct (running c) eqn:Er; [|done].
  assert (filter (fun kv => running (snd kv) = true) (calls w) !! id = Some c) as Hf
    by (by apply map_lookup_filter_Some).
  by rewrite E in Hf.
Qed.

(** What a shutdown that started with no call or registration half way holds. *)
Definition quiet (w : world) : Prop :=
  registrations w = ∅ /\
  forall id c, calls w !! id = Some c -> match c with Entered | Cloned _ => False | _ => True end.

Definition pools_of (l : gmap string nat) : gset nat := list_to_set (map snd (map_to_list l)).

Record draining_ok (l0 : gmap string nat) (w : world) : Prop := {
  dr_flag : draining w = true;
  dr_quiet : quiet w;
  dr_state : match shutdown w with
             | NotShutDown => False
             | Notifying | Waiting _ => live w = l0
             | Closing forced todo => live w = l0 /\ pools_of l0 ⊆ list_to_set todo ∪ closed w /\
                 (forced = false -> forall id, ~ active_in w id)
             | Finished forced => live w = ∅ /\ pools_of l0 ⊆ closed w /\
                 (forced = false -> forall id, ~ active_in w id)
             end;
}.

Lemma quiet_set_call id c w :
  quiet w -> match c with Entered | Cloned _ => False | _ => True end -> quiet (set_call id c w).
Proof.
  intros [Hr Hq] Hc. split; [done|]. intros i d. cbn [calls set_call].
  destruct (decide (i = id)) as [->|Hn]; [rewrite lookup_insert_eq|rewrite lookup_insert_ne by done; apply Hq].
  by intros [= <-].
Qed.

(** The state part, for a step that moves neither profiles nor shutdown. *)
Lemma draining_ok_keep l0 w w' :
  draining_ok l0 w -> step w w' -> quiet w' -> live w' = live w -> shutdown w' = shutdown w -> closed w' = closed w ->
  draining_ok l0 w'.
Proof.
  intros [Hd Hq Hs] H Hq' El Es Ec. destruct (drain_step _ _ H Hd) as (Hd' & Ha & _). split; [done..|].
  rewrite Es, El, Ec. destruct (shutdown w); try done; destruct Hs as (? & ? & Hn); split_and!; try done;
    intros Hf id Hi; by eapply Hn, Ha.
Qed.

Lemma draining_ok_step l0 w w' : draining_ok l0 w -> step w w' -> draining_ok l0 w'.
Proof.
  intros Hok H. pose proof Hok as [Hd Hq Hs]. pose proof Hq as [Hr Hc].
  destruct (drain_step _ _ H Hd) as (Hd' & Ha & _). pose proof H as Hstep.
  destruct H as [id w Hi|id name w Hi|id p w Hi|id p w Hi|id p w Hi|id p w Hi|name p w Hf _|name p w Hi|name p w Hi
                |w Hf|w E|since w E E0|since w E E0 Ec|forced t1 p t2 w E|forced w E|d w Hdt].
  - rewrite Hd in *. apply (draining_ok_keep l0 w); try done. by apply quiet_set_call.
  - by apply Hc in Hi.
  - by apply Hc in Hi.
  - apply (draining_ok_keep l0 w); try done. by apply quiet_set_call.
  - apply (draining_ok_keep l0 w); try done. by apply quiet_set_call.
  - apply (draining_ok_keep l0 w); try done. by apply quiet_set_call.
  - congruence.
  - by rewrite Hr, lookup_empty in Hi.
  - by rewrite Hr, lookup_empty in Hi.
  - congruence.
  - split; [done| |].
    + split; [done|]. intros i d. cbn [calls]. rewrite lookup_fmap. destruct (calls w !! i) as [c|] eqn:Ei; [|done].
      intros [= <-]. specialize (Hc _ _ Ei). by destruct c as [| |? []| |].
    + cbn [shutdown live]. by rewrite E in Hs.
  - split; [done|done|]. cbn. rewrite E in Hs. split_and!; [done| |].
    + rewrite Hs. unfold pools_of. set_solver.
    + intros _ i (c & Hi & Hact). pose proof (Hc _ _ Hi). pose proof (in_flight_none _ _ _ E0 Hi). by destruct c.
  - split; [done|done|]. cbn. rewrite E in Hs. split_and!; [done| |done]. rewrite Hs. unfold pools_of. set_solver.
  - split; [done|done|]. cbn. rewrite E in Hs. destruct Hs as (Hl & Hp & Hn). split_and!; [done| |exact Hn].
    etransitivity; [exact Hp|]. rewrite !list_to_set_app_L, list_to_set_cons. set_solver.
  - split; [done|done|]. cbn. rewrite E in Hs. destruct Hs as (Hl & Hp & Hn). split_and!; [done| |exact Hn]. set_solver.
  - by apply (draining_ok_keep l0 w).
Qed.

(** C25.  Draining: once the flag is set no call and no registration comes in any
    more, whatever interleaves.  And when none was between its flag check and
    its first visible effect at that moment, a shutdown that finishes has closed
    the pool of every profile and left no profile; if it was not forced by the
    cap, no call is active any more. *)
Theorem draining_shuts_down w w1 w' :
  draining w = false -> w1 = mkWorld true (live w) (calls w) (registrations w) (closed w) Notifying (now w) ->
  rtc step w1 w' ->
  draining w' = true /\ (forall id, active_in w' id -> active_in w id) /\
  dom (registrations w') ⊆ dom (registrations w) /\
  (quiet w -> forall forced, shutdown w' = Finished forced ->
     live w' = ∅ /\ (forall name p, live w !! name = Some p -> p ∈ closed w') /\
     (forced = false -> forall id, ~ active_in w' id)).
Proof.
  intros Hd -> H. destruct (drain_steps _ _ H eq_refl) as (H1 & H2 & H3). split_and!; try done.
  intros Hq forced Hf. assert (draining_ok (live w) w') as Hok.
  { assert (draining_ok (live w)
      (mkWorld true (live w) (calls w) (registrations w) (closed w) Notifying (now w))) as H0 by (by split).
    clear H1 H2 H3 Hf. induction H as [|a b c Hs _ IH]; [done|]. apply IH. by eapply draining_ok_step. }
  destruct Hok as [_ _ Hs]. rewrite Hf in Hs. destruct Hs as (Hl & Hp & Hn). split_and!; try done.
  intros name p Hnp. apply Hp. unfold pools_of. apply elem_of_list_to_set, list_elem_of_fmap.
  exists (name, p). split; [done|]. by apply elem_of_map_to_list.
Qed.

Module Demo.

Definition one : gmap string nat := {["db" := 7%nat]}.

Definition draining_world : world := mkWorld true one ∅ ∅ ∅ Notifying 0.

Lemma clean_run : rtc step draining_world (mkWorld true ∅ ∅ ∅ {[7%nat]} (Finished false) 0).
Proof.
  eapply rtc_l; [apply step_notify; reflexivity|]. eapply rtc_l; [eapply step_drained; reflexivity|].
  eapply rtc_l; [apply (step_close false [] 7%nat []); reflexivity|].
  eapply rtc_l; [apply (step_clear false); reflexivity|]. apply rtc_refl.
Qed.

Lemma draining_shuts_down_witness :
  (7%nat ∈ closed (mkWorld true ∅ ∅ ∅ {[7%nat]} (Finished false) 0)) /\
  (forall id, ~ active_in (mkWorld true ∅ ∅ ∅ {[7%nat]} (Finished false) 0) id).
Proof.
  destruct (draining_shuts_down (start one) draining_world _ eq_refl eq_refl clean_run) as (_ & _ & _ & H).
  destruct (H ltac:(by split) false eq_refl) as (_ & Hp & Hn).
  split; [apply (Hp "db"%string); reflexivity|apply Hn; reflexivity].
Defined.

(** The races the drain leaves open: a call that read the flag before it was
    set registers after shutdown has seen nobody in flight, so the in-flight count
    rises while the plugin drains, and runs on a pool shutdown has closed; and a
    registration that read the flag in time installs its profile after the profiles
    were cleared, with a pool nobody closes.  A call of an await loop whose check
    is running when the notification goes out sleeps on as before. *)
Theorem drain_races :
  (exists w w' w'', rtc step (start one) w /\ rtc step w w' /\ rtc step w' w'' /\
     draining w = true /\ in_flight w = 0%nat /\ in_flight w' = 1%nat /\
     shutdown w'' = Finished false /\ 7%nat ∈ closed w'' /\ calls w'' !! "r1"%string = Some (Running 7 false)) /\
  (exists w, rtc step (start one) w /\ shutdown w = Finished false /\
     live w !! "new"%string = Some 8%nat /\ 8%nat ∉ closed w) /\
  (exists w since, rtc step (start one) w /\ shutdown w = Waiting since /\
     calls w !! "r1"%string = Some (Running 7 true)).
Proof.
  split_and!.
  - exists (mkWorld true one {["r1" := Cloned 7]} ∅ ∅ (Closing false [7%nat]) 0),
           (mkWorld true one {["r1" := Running 7 false]} ∅ ∅ (Closing false [7%nat]) 0),
           (mkWorld true ∅ {["r1" := Running 7 false]} ∅ {[7%nat]} (Finished false) 0).
    split_and!; try reflexivity.
    + eapply rtc_l; [apply (step_execute "r1"); reflexivity|].
      eapply rtc_l; [apply (step_lookup "r1" "db"); reflexivity|].
      eapply rtc_l; [apply step_swap; reflexivity|]. eapply rtc_l; [apply step_notify; reflexivity|].
      eapply rtc_l; [eapply step_drained; reflexivity|]. apply rtc_refl.
    + apply rtc_once. by apply (step_registered "r1" 7%nat).
    + eapply rtc_l; [apply (step_close false [] 7%nat []); reflexivity|].
      apply rtc_once. by apply (step_clear false).
  - exists (mkWorld true {["new" := 8%nat]} ∅ ∅ {[7%nat]} (Finished false) 0). split_and!; try reflexivity.
    + eapply rtc_l; [apply (step_register "new" 8%nat); reflexivity|].
      eapply rtc_l; [apply step_swap; reflexivity|]. eapply rtc_l; [apply step_notify; reflexivity|].
      eapply rtc_l; [eapply step_drained; reflexivity|].
      eapply rtc_l; [apply (step_close false [] 7%nat []); reflexivity|].
      eapply rtc_l; [apply (step_clear false); reflexivity|].
      apply rtc_once. by apply (step_insert "new" 8%nat).
    + intros H. by apply (bool_decide_pack _) in H.
  - exists (mkWorld true one {["r1" := Running 7 true]} ∅ ∅ (Waiting 0) 0), 0. split_and!; try reflexivity.
    eapply rtc_l; [apply (step_execute "r1"); reflexivity|].
    eapply rtc_l; [apply (step_lookup "r1" "db"); reflexivity|].
    eapply rtc_l; [apply (step_registered "r1" 7%nat); reflexivity|].
    eapply rtc_l; [apply step_swap; reflexivity|]. eapply rtc_l; [apply step_notify; reflexivity|].
    apply rtc_once. by apply (step_sleep "r1" 7%nat).
Qed.
End Demo.

End Lifecycle.
