(* ===== verification/Surface.v ===== *)
(** The rest of the plugin's surface in [src/src/lib.rs]: cancellation by
    request id, opening a transaction, completion of template variables, and
    what a finished call is reported as. *)

From Stdlib Require Import ZArith Lia Bool Ascii String.
From stdpp Require Import base list strings gmap.
From S2P Require Import Prelude RustStd Redact Text Errors Json F64 Params InFlight SqliteCancel Sqlx Rows Drivers Transaction.

Module Surface.

(** * Cancellation *)

Section Cancel.
Context {Profile Pool : Type} (static_pool : Profile -> Pool).

(** What the driver was asked to abort. *)
Record cancelled : Type := mkCancelled { on_pool : Pool; aborted : InFlight.BackendId }.

(** [cancel_request]; [cancel_backend] is the driver's answer. *)
Definition cancel_request (now : Z) (r : InFlight.registry) (profiles : gmap string Profile)
  (cancel_backend : Pool -> InFlight.BackendId -> result SqlError ()) (request_id : string)
  : result SqlError () * list cancelled :=
  let snap := List.filter (fun e => String.eqb (InFlight.snap_request_id e) request_id) (InFlight.snapshot now r) in
  match snap with
  | [] => (Err (ProfileNotFound request_id), [])
  | entry :: _ =>
      match InFlight.snap_backend_id entry with
      | None => (Err (InvalidSpec ("request '" +:+ request_id +:+ "' has no backend_id yet; retry cancel")), [])
      | Some backend_id =>
          match profiles !! InFlight.snap_backend_name entry with
          | None => (Err (ProfileNotFound (InFlight.snap_backend_name entry)), [])
          | Some runtime =>
              (cancel_backend (static_pool runtime) backend_id, [mkCancelled (static_pool runtime) backend_id])
          end
      end
  end.

Lemma filter_unique {A} (f : A -> string) (l : list (string * A)) k :
  NoDup (map fst l) ->
  List.filter (fun kv => String.eqb (fst kv) k) l =
  match list_find (fun kv => fst kv = k) l with Some (_, kv) => [kv] | None => [] end.
Proof.
  induction l as [|[k' a] l IH]; intros Hnd; [done|]. cbn [map fst] in Hnd. apply NoDup_cons in Hnd as [Hni Hnd].
  cbn [List.filter fst list_find]. destruct (String.eqb_spec k' k) as [->|Hn].
  - rewrite decide_True by done. rewrite (IH Hnd). destruct (list_find _ l) as [[i kv]|] eqn:E; [|done].
    apply list_find_Some in E as (Hi & <- & _). destruct Hni. apply list_elem_of_fmap. exists kv.
    split; [done|]. by apply list_elem_of_lookup_2 in Hi.
  - rewrite decide_False by done. rewrite (IH Hnd). by destruct (list_find _ l) as [[i kv]|].
Qed.

Lemma filter_map_to_list {A} (m : gmap string A) k :
  List.filter (fun kv => String.eqb (fst kv) k) (map_to_list m) =
  match m !! k with Some a => [(k, a)] | None => [] end.
Proof.
  rewrite (filter_unique (fun _ : A => EmptyString)) by apply NoDup_fst_map_to_list.
  destruct (list_find _ _) as [[i [k' a]]|] eqn:E.
  - apply list_find_Some in E as (Hi & Hk & _). cbn in Hk. subst k'. apply list_elem_of_lookup_2 in Hi.
    apply elem_of_map_to_list in Hi. by rewrite Hi.
  - destruct (m !! k) as [a|] eqn:Ek; [|done]. apply list_find_None in E. rewrite Forall_forall in E.
    apply elem_of_map_to_list in Ek. by destruct (E _ Ek).
Qed.

Lemma filter_snapshot now r k :
  List.filter (fun e => String.eqb (InFlight.snap_request_id e) k) (InFlight.snapshot now r) =
  match InFlight.entries r !! k with
  | Some e => [InFlight.mkSnapshot k (InFlight.backend_name e) (InFlight.entry_driver e) (InFlight.started_at_wall e)
                 (wrapu 64 (sat_sub now (InFlight.started_at_mono e))) (InFlight.backend_id e)]
  | None => []
  end.
Proof.
  unfold InFlight.snapshot. pose proof (filter_map_to_list (InFlight.entries r) k) as H.
  assert (forall l, List.filter (fun e => String.eqb (InFlight.snap_request_id e) k)
      (map (fun '(id, e) => InFlight.mkSnapshot id (InFlight.backend_name e) (InFlight.entry_driver e)
              (InFlight.started_at_wall e) (wrapu 64 (sat_sub now (InFlight.started_at_mono e)))
              (InFlight.backend_id e)) l) =
    map (fun '(id, e) => InFlight.mkSnapshot id (InFlight.backend_name e) (InFlight.entry_driver e)
              (InFlight.started_at_wall e) (wrapu 64 (sat_sub now (InFlight.started_at_mono e)))
              (InFlight.backend_id e)) (List.filter (fun kv => String.eqb (fst kv) k) l)) as Hf.
  { induction l as [|[k' e] l IH]; [done|]. cbn. destruct (String.eqb k' k); cbn; by rewrite IH. }
  rewrite Hf, H. by destruct (InFlight.entries r !! k).
Qed.

(** Cancellation is addressed by the registry: an unknown request or one
    without a backend id is refused without a driver call, as is one whose
    profile is gone; otherwise the driver is asked exactly once, for that
    request's own backend id, on the static pool of the profile that carries the
    name now. *)
Theorem cancel_request_exact now r profiles cancel_backend id :
  cancel_request now r profiles cancel_backend id =
  match InFlight.entries r !! id with
  | None => (Err (ProfileNotFound id), [])
  | Some e =>
      match InFlight.backend_id e, profiles !! InFlight.backend_name e with
      | None, _ => (Err (InvalidSpec ("request '" +:+ id +:+ "' has no backend_id yet; retry cancel")), [])
      | Some _, None => (Err (ProfileNotFound (InFlight.backend_name e)), [])
      | Some b, Some p => (cancel_backend (static_pool p) b, [mkCancelled (static_pool p) b])
      end
  end.
Proof.
  unfold cancel_request. rewrite filter_snapshot. destruct (InFlight.entries r !! id) as [e|]; [|done].
  cbn [InFlight.snap_backend_id InFlight.snap_backend_name]. by destruct (InFlight.backend_id e).
Qed.
End Cancel.

(** A request runs on pool 1 when its binding is registered again with pool 2:
    the backend id of the first server is aborted on the second. *)
Example cancel_after_reload :
  let r := InFlight.set_backend_id "r1" (InFlight.PgPid 4711)
             (snd (InFlight.register 0 0 "r1" "orders" Postgres InFlight.new)) in
  snd (cancel_request (fun p : Z => p) 5 r (<["orders" := 2]> {["orders" := 1]}) (fun _ _ => Ok ()) "r1")
  = [mkCancelled 2 (InFlight.PgPid 4711)].
Proof. by vm_compute. Qed.

(** * Opening a transaction *)

Section Begin.
Context `{SqlxRow Row} `{!Server Row}.

(** [begin_transaction] of a profile with pool [pool]; the new handle holds the
    transaction. *)
Definition begin_transaction (backend_name : string) (runtime : option (PoolHandle * option IsolationLevel)) : M () :=
  match runtime with
  | None => raise (ProfileNotFound backend_name)
  | Some (pool, level) =>
      let! _ := checked reply_unit (Begin OnPool) in
      match pool, level with
      | PgPool, Some l | MysqlPool, Some l =>
          let! r := attempt (checked reply_count (Exec OnTx (sql_fragment l) [])) in
          match r with
          | Ok _ => put
          | Err e => let! _ := drop_value DropTx in raise e
          end
      | _, _ => put
      end
  end.

(** A transaction opens with its isolation level or not at all: the level is
    set by the first statement after BEGIN, a handle exists exactly when every
    step succeeded, and a failure leaves no transaction behind.  A server that
    refuses SET TRANSACTION inside a transaction, as MySQL documents, therefore
    never opens one for a binding with a level. *)
Theorem begin_transaction_exact name pool level w :
  tx_open w = false ->
  (exists es, events (snd (begin_transaction name (Some (pool, level)) w)) = events w ++ es /\
     tx_open (snd (begin_transaction name (Some (pool, level)) w))
       = is_ok (fst (begin_transaction name (Some (pool, level)) w)) /\
     (is_ok (fst (begin_transaction name (Some (pool, level)) w)) = true ->
        es = (Begin OnPool, true) :: match pool, level with
                                     | SqlitePool, _ | _, None => []
                                     | _, Some l => [(Exec OnTx (sql_fragment l) [], true)]
                                     end) /\
     (is_ok (fst (begin_transaction name (Some (pool, level)) w)) = false -> run_scope Idle es = Some Idle)) /\
  ((forall es l, is_ok (reply_count es (Exec OnTx (sql_fragment l) [])) = false) ->
   forall l, is_ok (fst (begin_transaction name (Some (MysqlPool, Some l)) w)) = false).
Proof.
  intros Hw. split.
  - unfold begin_transaction, checked, perform, lift, bind, attempt, put, drop_value, raise, log, set_tx.
    destruct (reply_unit (events w) (Begin OnPool)) as [[]|e]; cbn.
    + destruct pool, level as [l|]; cbn;
        try (eexists; split; [reflexivity|]; split; [reflexivity|]; split; [reflexivity|discriminate]).
      * destruct (reply_count _ _) as [n|e]; cbn; eexists; rewrite <- ?app_assoc; (split; [reflexivity|]);
          split_and!; try done.
      * destruct (reply_count _ _) as [n|e]; cbn; eexists; rewrite <- ?app_assoc; (split; [reflexivity|]);
          split_and!; try done.
    + eexists. split; [reflexivity|]. split_and!; done.
  - intros Hr l. unfold begin_transaction, checked, perform, lift, bind, attempt, put, drop_value, raise, log, set_tx.
    destruct (reply_unit (events w) (Begin OnPool)) as [[]|e]; cbn; [|done].
    specialize (Hr (events w ++ [(Begin OnPool, true)]) l). by destruct (reply_count _ _).
Qed.
End Begin.
(** A MySQL server: no SET TRANSACTION inside a transaction. *)
Module ToyMysql.
Import ToyTypes ToyServer.

Definition no_set : Server strict_row := {|
  reply_unit _ _ := Ok ();
  reply_count _ c := match c with
                     | Exec OnTx _ _ => Err (Database (Some "25001") "Transaction characteristics can't be changed")
                     | _ => Ok 1
                     end;
  reply_rows _ _ := Ok [];
  reply_scalar _ _ := Ok 1;
  reply_many _ _ := ([], None);
|}%string.

Lemma begin_transaction_exact_witness :
  tx_open (snd (begin_transaction (Server0 := no_set) "b" (Some (MysqlPool, Some Serializable)) fresh)) = false /\
  is_ok (fst (begin_transaction (Server0 := no_set) "b" (Some (MysqlPool, Some Serializable)) fresh)) = false.
Proof.
  destruct (begin_transaction_exact (Server0 := no_set) "b" MysqlPool (Some Serializable) fresh eq_refl)
    as [(es & _ & Ht & _) Hr].
  pose proof (Hr ltac:(intros; reflexivity) Serializable) as Hf. rewrite Ht. split; exact Hf.
Defined.

(** On Postgres the level is the first statement. *)
Example postgres_level :
  events (snd (begin_transaction (Server0 := refusing "none") "b" (Some (PgPool, Some RepeatableRead)) fresh))
  = [(Begin OnPool, true); (Exec OnTx "SET TRANSACTION ISOLATION LEVEL REPEATABLE READ" [], true)]%string.
Proof. reflexivity. Qed.
End ToyMysql.

(** * Completion of template variables *)

Record SqlCompletionConfig : Type := { completion_query : string; max_results : option Z }.

Definition valid_key (k : string) : bool := negb (str_is_empty k) && str_forall is_ascii_word k.

(** The [:ctx_<key>] table; the context is a map in key order. *)
Definition ctx_binds (context : list (string * string)) : gmap string string :=
  fold_left (fun m kv => if valid_key (fst kv) then <[str_lower (fst kv) := snd kv]> m else m) context ∅.

Definition bind_completion (prefix : string) (binds : gmap string string) (name : string)
  : result BackendError value :=
  if String.eqb name "prefix" then Ok (VString prefix)
  else
    match strip_prefix "ctx_" name with
    | Some rest =>
        match binds !! rest with
        | Some v => Ok (VString v)
        | None => Err (BInvalidSpec ("variable_completions.config.query references `:ctx_" +:+ rest +:+
                         "` but completion context has no `" +:+ rest +:+ "` entry"))
        end
    | None => Err (BInvalidSpec ("variable_completions.config.query references unsupported placeholder ':" +:+ name +:+
                     "' (only :prefix and :ctx_<key> are bound)"))
    end.

Fixpoint completion_args (prefix : string) (binds : gmap string string) (order : list string)
  : result BackendError (list BoundParam) :=
  match order with
  | [] => Ok []
  | name :: order' =>
      let? v := bind_completion prefix binds name in
      let? ps := completion_args prefix binds order' in
      Ok ({| bp_name := name; bp_value := v |} :: ps)
  end.

(** The strings of the first column. *)
Definition completion_values (max : Z) (batch : RowBatch) : list string :=
  omap (fun row => match hd_error (columns batch), row with
                   | Some col, VObject m => match obj_get col m with Some (VString s) => Some s | _ => None end
                   | _, _ => None
                   end) (firstn (Z.to_nat max) (rows batch)).

(** [config] is the deserialized configuration, [driver] that of the profile and
    [execute] its driver. *)
Definition complete_template_variable (backend_error : SqlError -> BackendError)
  (config : result string SqlCompletionConfig) (backend_name : string) (driver : option DriverKind)
  (execute : PreparedStmt -> list BoundParam -> result SqlError RowBatch) (prefix : string)
  (context : list (string * string)) : result BackendError (list string) :=
  let? cfg := rmap_err (fun e => BInvalidSpec ("variable_completions.config: " +:+ e)) config in
  let? _ := if str_contains ":prefix" (completion_query cfg) then Ok ()
            else Err (BInvalidSpec "variable_completions.config.query must reference `:prefix`") in
  let? d := ok_or driver (backend_error (ProfileNotFound backend_name)) in
  let (rewritten, order) := rewrite_placeholders (completion_query cfg) d in
  let stmt := {| stmt_sql := rewritten; param_order := order; stmt_driver := d |} in
  let? args := completion_args prefix (ctx_binds context) order in
  let? batch := rmap_err backend_error (execute stmt args) in
  Ok (completion_values (default 100 (max_results cfg)) batch).

(** No lower-cased key holds an upper-case letter. *)
Lemma str_lower_no_upper s : str_exists is_ascii_upper (str_lower s) = false.
Proof.
  induction s as [|c s IH]; [done|]. cbn [str_lower str_exists]. rewrite IH, orb_false_r.
  destruct c as [[] [] [] [] [] [] [] []]; reflexivity.
Qed.

Lemma ctx_binds_lower context k v : ctx_binds context !! k = Some v ->
  str_exists is_ascii_upper k = false /\ exists key, (key, v) ∈ context /\ valid_key key = true /\ str_lower key = k.
Proof.
  unfold ctx_binds. assert (forall m : gmap string string,
    (forall k v, m !! k = Some v -> str_exists is_ascii_upper k = false /\
       exists key, (key, v) ∈ context /\ valid_key key = true /\ str_lower key = k) ->
    forall l, (forall x, x ∈ l -> x ∈ context) ->
    forall k v, fold_left (fun (m : gmap string string) kv => if valid_key (fst kv) then <[str_lower (fst kv) := snd kv]> m else m) l m !! k
      = Some v -> str_exists is_ascii_upper k = false /\
       exists key, (key, v) ∈ context /\ valid_key key = true /\ str_lower key = k) as H.
  { intros m Hm l. revert m Hm. induction l as [|[key x] l IH]; intros m Hm Hl; [exact Hm|]. cbn [fold_left fst snd].
    apply IH; [|intros y Hy; apply Hl; by right]. destruct (valid_key key) eqn:Ev; [|exact Hm].
    intros k' v' Hk. destruct (decide (k' = str_lower key)) as [->|Hn].
    - rewrite lookup_insert_eq in Hk. injection Hk as ->. split; [apply str_lower_no_upper|].
      exists key. split_and!; try done. apply Hl, list_elem_of_here.
    - rewrite lookup_insert_ne in Hk by done. by apply Hm. }
  apply H; [intros k' v' Hk; by rewrite lookup_empty in Hk|done].
Qed.

(** A placeholder [:ctx_Key] with an upper-case letter never binds, whatever the
    context holds: its keys are lower-cased when they are stored, the name is not
    when it is looked up. *)
Theorem upper_case_context_never_binds prefix context rest :
  str_exists is_ascii_upper rest = true ->
  is_ok (bind_completion prefix (ctx_binds context) ("ctx_" +:+ rest)) = false.
Proof.
  intros Hu. unfold bind_completion. replace (String.eqb ("ctx_" +:+ rest) "prefix") with false by done.
  rewrite strip_prefix_app. destruct (ctx_binds context !! rest) as [v|] eqn:E; [|done].
  apply ctx_binds_lower in E as [E _]. congruence.
Qed.

Example completion_examples :
  let run context q := complete_template_variable (fun _ => BTransport "sql")
    (Ok {| completion_query := q; max_results := Some 2 |}) "b" (Some Postgres)
    (fun _ _ => Ok {| columns := ["n"]; rows := [VObject [("n", VString "a")]; VObject [("n", VNull)]; VObject [("n", VString "c")]];
                      rows_affected := None; truncated := false; has_more := false |}) "p" context in
  run [("owner", "me")] "SELECT n FROM t WHERE o = :ctx_owner AND n LIKE :prefix" = Ok ["a"] /\
  is_ok (run [("Owner", "me")] "SELECT n FROM t WHERE o = :ctx_Owner AND n LIKE :prefix") = false /\
  is_ok (run [] "SELECT n FROM t") = false.
Proof. by vm_compute. Qed.

(** * What a finished call is reported as *)

Definition host_outcome_label {A} (r : result BackendError A) : string :=
  match r with
  | Ok _ => "ok"
  | Err (BTimeout _) => "timeout"
  | Err (BTransport _) => "transport"
  | Err (BInvalidSpec _) => "invalid_spec"
  | Err (BProfileNotFound _) => "profile_not_found"
  end.

Definition audit_action_for {A} (r : result BackendError A) : option string :=
  match r with
  | Ok _ => None
  | Err (BTimeout _) => Some "dev.mcpg.backend.sql.query_timeout"
  | Err (BTransport _) => Some "dev.mcpg.backend.sql.query_failed"
  | Err (BInvalidSpec _) | Err (BProfileNotFound _) => None
  end%string.

Inductive CallStatus : Type := Success | TimeoutStatus | TransportError | InvalidSpecStatus.

Definition CallStatus_as_str (s : CallStatus) : string :=
  match s with
  | Success => "success"
  | TimeoutStatus => "timeout"
  | TransportError => "transport_error"
  | InvalidSpecStatus => "invalid_spec"
  end.

Definition call_status {A} (r : result BackendError A) : CallStatus :=
  match r with
  | Ok _ => Success
  | Err (BTimeout _) => TimeoutStatus
  | Err (BInvalidSpec _) => InvalidSpecStatus
  | Err _ => TransportError
  end.

Definition row_count_hint (payload : value) : option Z :=
  match payload with
  | VArray rows => Some (Z.of_nat (length rows))
  | VObject m =>
      match obj_get "rows_affected" m with
      | Some (VNumber n) => as_u64 (VNumber n)
      | _ => match obj_get "contents" m with
             | Some (VArray contents) => Some (Z.of_nat (length contents))
             | _ => Some 1
             end
      end
  | _ => None
  end.

(** A failure is audited exactly when it is the driver's, which are the failures
    the breaker counts. *)
Lemma audited_iff_failure {A} (r : result BackendError A) :
  audit_action_for r <> None <-> host_outcome_label r ∈ ["timeout"; "transport"]%string.
Proof.
  rewrite !elem_of_cons, elem_of_nil. destruct r as [a|[]]; cbn; (split; [intros H; try done; auto|intros H]); try done;
    by destruct H as [H|[H|[]]].
Qed.

(** A page of a stream and a result-set answer count as one row, whatever they
    hold, and so does a single row that misses the column. *)
Example row_count_hints :
  row_count_hint (VObject [("next_cursor", VNull); ("rows", VArray [VNull; VNull; VNull])])%string = Some 1 /\
  row_count_hint (VObject [("result_sets", VArray [VArray [VNull; VNull]])])%string = Some 1 /\
  row_count_hint (VObject [("rows_affected", json_i64 (-1))])%string = None /\
  row_count_hint (VString "scalar") = None.
Proof. by vm_compute. Qed.

End Surface.
