(* ===== verification/TxGroup.v ===== *)
(** Transaction groups on a server: [execute_transaction] of [src/src/lib.rs] with
    the three transaction handles of [src/src/transaction.rs] behind the
    [SqlTxHandle] trait.

    [Execute] has the same operation over answers given in advance, [Transaction]
    the handles; here the group runs in the monad of [Sqlx], so that what is
    proved is about the calls a server sees.  The last part is the life of one
    handle: uses of it one after the other, a use being possibly dropped midway,
    and that at most one of them ends the transaction. *)

From Stdlib Require Import ZArith Lia Bool Ascii String.
From stdpp Require Import base list strings.
From S2P Require Import Prelude RustStd Errors Json Params InFlight SqliteCancel Sqlx Rows Drivers Transaction Config Shape Execute Surface.

Module TxGroup.

Section Group.
Context `{SqlxRow Row} `{!Server Row} (to_json : value -> string).

(** The trait; [is_closed] is [Transaction.is_closed] of all three. *)
Record SqlTxHandle : Type := {
  tx_driver : DriverKind;
  tx_execute : PreparedStmt -> list BoundParam -> SessionVars -> M RowBatch;
  tx_execute_affected : PreparedStmt -> list BoundParam -> SessionVars -> M Z;
  tx_commit : M ();
  tx_rollback : M ();
}.

Definition PostgresTxHandle : SqlTxHandle := {|
  tx_driver := Postgres; tx_execute := pg_tx_execute; tx_execute_affected := pg_tx_execute_affected;
  tx_commit := commit; tx_rollback := rollback |}.

Definition MysqlTxHandle : SqlTxHandle := {|
  tx_driver := Mysql; tx_execute := mysql_tx_execute; tx_execute_affected := mysql_tx_execute_affected;
  tx_commit := commit; tx_rollback := rollback |}.

Definition SqliteTxHandle : SqlTxHandle := {|
  tx_driver := Sqlite; tx_execute := sqlite_tx_execute to_json; tx_execute_affected := sqlite_tx_execute_affected to_json;
  tx_commit := commit; tx_rollback := rollback |}.

(** The handle [begin_transaction] boxes for a pool. *)
Definition handle_of (pool : PoolHandle) : SqlTxHandle :=
  match pool with PgPool => PostgresTxHandle | MysqlPool => MysqlTxHandle | SqlitePool => SqliteTxHandle end.

Context (show_error : SqlError -> string) (backend_error : SqlError -> BackendError).

Definition no_session : SessionVars := {| values := [] |}.

Definition run_tx_nested_step (h : SqlTxHandle) (step : Execute.TxStep) (input : value) : M (result string value) :=
  let stmt := Execute.tx_stmt (tx_driver h) step in
  match collect_bound_params input (param_order stmt) with
  | Err e => ret (Err ("parameter bind for '" +:+ Execute.step_id step +:+ "': " +:+ show_error e))
  | Ok args =>
      let query (shape : RowBatch -> value) :=
        let! r := attempt (tx_execute h stmt args no_session) in
        ret match r with Ok batch => Ok (shape batch) | Err e => Err ("execute: " +:+ show_error e) end in
      if String.eqb (Execute.tx_row_mode step) "affected_rows" then
        let! r := attempt (tx_execute_affected h stmt args no_session) in
        ret match r with
            | Ok count => Ok (VObject [("rows_affected", json_i64 count)]%string)
            | Err e => Err ("execute_affected: " +:+ show_error e)
            end
      else if String.eqb (Execute.tx_row_mode step) "many" then query (fun b => VArray (rows b))
      else if String.eqb (Execute.tx_row_mode step) "single" then query (fun b => Shape.first_row (rows b))
      else if String.eqb (Execute.tx_row_mode step) "scalar" then
        query (fun b => Shape.first_value (Shape.first_row (rows b)))
      else ret (Err ("unsupported row_mode '" +:+ Execute.tx_row_mode step +:+
                     "' (supported: affected_rows, many, single, scalar)"))
  end.

(** The loop over the steps; a failed rollback is only logged. *)
Fixpoint run_tx_steps (h : SqlTxHandle) (steps : list Execute.TxStep) (input : value) (results : json_map)
  : M (result BackendError json_map) :=
  match steps with
  | [] => ret (Ok results)
  | step :: steps' =>
      let! r := run_tx_nested_step h step input in
      match r with
      | Ok v => run_tx_steps h steps' input (obj_insert (Execute.step_id step) v results)
      | Err msg =>
          let! _ := attempt (tx_rollback h) in
          ret (Err (BTransport ("sql_tx nested step '" +:+ Execute.step_id step +:+ "': " +:+ msg)))
      end
  end.

(** The handle is dropped at the end, whatever happened to its transaction. *)
Definition execute_transaction (backend_name : string) (runtime : option (PoolHandle * option IsolationLevel))
  (steps : list Execute.TxStep) (input : value) : M (result BackendError value) :=
  let! opened := attempt (Surface.begin_transaction backend_name runtime) in
  match opened, runtime with
  | Err e, _ => ret (Err (backend_error e))
  | Ok _, None => ret (Err (backend_error (ProfileNotFound backend_name)))
  | Ok _, Some (pool, _) =>
      let h := handle_of pool in
      let! r := run_tx_steps h steps input [] in
      match r with
      | Err e => let! _ := handle_drop in ret (Err e)
      | Ok results =>
          let! c := attempt (tx_commit h) in
          let! _ := handle_drop in
          ret match c with
              | Ok _ => Ok (VObject [("steps", VObject results)]%string)
              | Err e => Err (BTransport ("sql_tx commit: " +:+ show_error e))
              end
      end
  end.

(** * What a handle promises *)

(** The scope of the handle's connection, outside a call. *)
Definition scope_at (w : world) : scope := if tx_open w then InTx false else Idle.

Definition is_commit (c : call) : bool := match c with Commit => true | _ => false end.

(** [m] only makes calls allowed in the scope it finds, commits nothing, and
    leaves the scope the state says. *)
Definition tracks {A} (m : M A) : Prop := forall w,
  exists es, events (snd (m w)) = events w ++ es /\ run_scope (scope_at w) es = Some (scope_at (snd (m w))) /\
    Forall (fun e => is_commit (fst e) = false) es.

(** Statements inside a transaction. *)
Definition inside (es : list event) : Prop := Forall (fun e => on_tx (fst e) = true) es.

(** [m] finds the handle open, works inside the transaction and leaves it open. *)
Definition stays {A} (m : M A) : Prop := forall w, tx_open w = true ->
  exists es, events (snd (m w)) = events w ++ es /\ inside es /\ tx_open (snd (m w)) = true.

(** The contract of the trait: a closed handle refuses and does nothing; executing
    stays inside the transaction; ending takes one call and closes the handle. *)
Class TxHandleLaws (h : SqlTxHandle) : Prop := {
  closed_refuses w : tx_open w = false ->
    (forall stmt args session, tx_execute h stmt args session w = (Err closed_error, w) /\
       tx_execute_affected h stmt args session w = (Err closed_error, w)) /\
    tx_commit h w = (Err closed_error, w) /\ tx_rollback h w = (Err closed_error, w);
  execute_stays stmt args session : stays (tx_execute h stmt args session);
  affected_stays stmt args session : stays (tx_execute_affected h stmt args session);
  commit_ends w : tx_open w = true ->
    exists r, tx_commit h w = (r, log Commit (is_ok r) (set_tx false w));
  rollback_ends w : tx_open w = true ->
    exists r, tx_rollback h w = (r, log Rollback (is_ok r) (set_tx false w));
}.

(** ** Inside a call *)

Lemma inside_app a b : inside (a ++ b) <-> inside a /\ inside b.
Proof. apply Forall_app. Qed.

Lemma inside_scope p es : inside es -> run_scope (InTx p) es = Some (InTx p).
Proof.
  induction es as [|[c ok] es IH]; [done|]. intros [Hc Hes]%Forall_cons. cbn [run_scope].
  replace (scope_step (InTx p) (c, ok)) with (Some (InTx p)); [auto|]. by destruct c as [| | | | | |[]|[]| | |].
Qed.

Lemma inside_no_commit es : inside es -> Forall (fun e => is_commit (fst e) = false) es.
Proof. intros Hes. eapply Forall_impl; [exact Hes|]. by intros [[] ?]. Qed.

(** [m] works on the transaction a call has taken out and does not touch the handle. *)
Definition calm {A} (m : M A) : Prop := forall w,
  exists es, events (snd (m w)) = events w ++ es /\ inside es /\ tx_open (snd (m w)) = tx_open w.

(** [m] ends a call: it hands the transaction back. *)
Definition closes_call {A} (m : M A) : Prop := forall w,
  exists es, events (snd (m w)) = events w ++ es /\ inside es /\ tx_open (snd (m w)) = true.

Lemma calm_lift {A} (r : result SqlError A) : calm (lift r).
Proof. intros w. exists []. rewrite app_nil_r. by repeat constructor. Qed.

Lemma calm_bind {A B} (m : M A) (k : A -> M B) : calm m -> (forall a, calm (k a)) -> calm (bind m k).
Proof.
  intros Hm Hk w. unfold bind. destruct (Hm w) as (es1 & E1 & F1 & T1).
  destruct (m w) as [[a|e] w1]; cbn in *; [|eauto].
  destruct (Hk a w1) as (es2 & E2 & F2 & T2). exists (es1 ++ es2).
  rewrite E2, E1, app_assoc, T2. split_and!; try done. by apply inside_app.
Qed.

Lemma calm_attempt {A} (m : M A) : calm m -> calm (attempt m).
Proof. intros Hm w. destruct (Hm w) as (es & E). exists es. unfold attempt. by destruct (m w). Qed.

Lemma calm_perform {A} (reply : list event -> call -> result sqlx_error A) c : on_tx c = true -> calm (perform reply c).
Proof. intros Hc w. eexists [_]. split; [reflexivity|]. by repeat constructor. Qed.

Lemma calm_checked {A} (reply : list event -> call -> result sqlx_error A) c : on_tx c = true -> calm (checked reply c).
Proof. intros Hc. apply calm_bind; [by apply calm_perform|]. intros r. apply calm_lift. Qed.

Lemma calm_for_each {A} (f : A -> M ()) l : (forall x, calm (f x)) -> calm (for_each f l).
Proof. intros Hf. induction l as [|x l IH]; [apply (calm_lift (Ok ()))|]. by apply calm_bind. Qed.

Lemma calm_ret {A} (a : A) : calm (ret a).
Proof. apply (calm_lift (Ok a)). Qed.

Create HintDb calm discriminated.
Hint Resolve calm_ret calm_lift calm_bind calm_attempt calm_perform calm_checked calm_for_each : calm.

Lemma calm_sessions session :
  calm (set_configs session) /\ calm (apply_session_vars session) /\ calm (clear_session_vars session).
Proof. split_and!; apply calm_for_each; intros []; auto with calm. Qed.

Lemma closes_bind {A B} (m : M A) (k : A -> M B) :
  calm m -> (forall w, exists a, fst (m w) = Ok a) -> (forall a, closes_call (k a)) -> closes_call (bind m k).
Proof.
  intros Hm Hok Hk w. unfold bind. destruct (Hm w) as (es1 & E1 & F1 & T1). destruct (Hok w) as [a Ha].
  destruct (m w) as [r w1]. cbn in *. subst r. destruct (Hk a w1) as (es2 & E2 & F2 & T2).
  exists (es1 ++ es2). rewrite E2, E1, app_assoc. split_and!; try done. by apply inside_app.
Qed.

Lemma closes_put {A} (m : M A) : (forall w, snd (m w) = set_tx true w) -> closes_call m.
Proof. intros Hm w. exists []. rewrite Hm, app_nil_r. by repeat constructor. Qed.

Lemma closes_put_err {A} e : closes_call (put_err (A := A) e).
Proof. by apply closes_put. Qed.

(** Rows decode, so the transaction is handed back. *)
Lemma closes_finish_rows f (rs : list Row) :
  (forall r, exists v, f r = Ok v) -> closes_call (finish_tx (finish_rows f rs)).
Proof. intros Hf. destruct (finish_rows_ok f rs Hf) as [b ->]. by apply closes_put. Qed.

Lemma closes_finish_pg rs : closes_call (finish_tx (finish_rows (Row := Row) row_to_json_pg rs)).
Proof. apply closes_finish_rows. by eexists. Qed.

Lemma closes_finish_mysql rs : closes_call (finish_tx (finish_rows (Row := Row) row_to_json_mysql rs)).
Proof. apply closes_finish_rows. by eexists. Qed.

Lemma closes_finish_sqlite (rs : list Row) : closes_call (finish_tx (sqlite_tx_batch rs)).
Proof.
  unfold sqlite_tx_batch. destruct (decode_rows_ok row_to_json_sqlite_tx rs) as (vs & -> & _); [by eexists|].
  by apply closes_put.
Qed.

Lemma closes_finish_affected r : closes_call (finish_affected r).
Proof. destruct r; by apply closes_put. Qed.

Lemma stays_taken {A} (k : M A) : closes_call k -> stays (bind take (fun _ => k)).
Proof. intros Hk w Hw. unfold bind, take. rewrite Hw. destruct (Hk (set_tx false w)) as (es & E). by exists es. Qed.

Lemma taken_closed {A} (k : () -> M A) w : tx_open w = false -> bind take k w = (Err closed_error, w).
Proof. intros Ho. unfold bind, take. by rewrite Ho. Qed.

(** What stays inside on an open handle and is refused on a closed one keeps to
    its scope. *)
Lemma stays_tracks {A} (m : M A) :
  stays m -> (forall w, tx_open w = false -> m w = (Err closed_error, w)) -> tracks m.
Proof.
  intros Hs Hc w. unfold scope_at at 1. destruct (tx_open w) eqn:Ho.
  - destruct (Hs w Ho) as (es & E & F & T). exists es. unfold scope_at. rewrite T. split_and!; [done| |].
    + by apply inside_scope.
    + by apply inside_no_commit.
  - rewrite Hc by done. exists []. rewrite app_nil_r. unfold scope_at. cbn. by rewrite Ho.
Qed.

Hint Resolve closes_put_err closes_finish_pg closes_finish_mysql closes_finish_sqlite closes_finish_affected
  attempt_total perform_total clear_vars_total : calm.

Ltac closes :=
  repeat match goal with
  | |- stays (bind take _) => apply stays_taken
  | |- closes_call (bind _ _) => apply closes_bind; [auto with calm|auto with calm|intros ?]
  | |- closes_call (match ?x with _ => _ end) => destruct x
  end; auto with calm.

Lemma end_law c w : tx_open w = true -> exists r, bind take (fun _ => checked reply_unit c) w = (r, log c (is_ok r) (set_tx false w)).
Proof.
  intros Ho. unfold bind at 1, take. rewrite Ho. exists (rmap_err from_execute (reply_unit (events w) c)).
  unfold checked, bind, perform, lift. cbn. by destruct (reply_unit (events w) c) as [[]|e].
Qed.

#[export] Instance handle_laws pool : TxHandleLaws (handle_of pool).
Proof.
  split.
  - intros w Ho. destruct pool; cbn; unfold pg_tx_execute, pg_tx_execute_affected, mysql_tx_execute, mysql_tx_execute_affected,
      sqlite_tx_execute, sqlite_tx_execute_affected, commit, rollback; split_and!; intros; try split; by apply taken_closed.
  - intros stmt args session. destruct (calm_sessions session) as (H1 & H2 & H3).
    destruct pool; cbn; [unfold pg_tx_execute|unfold mysql_tx_execute|unfold sqlite_tx_execute]; closes.
  - intros stmt args session. destruct (calm_sessions session) as (H1 & H2 & H3).
    destruct pool; cbn; [unfold pg_tx_execute_affected|unfold mysql_tx_execute_affected|unfold sqlite_tx_execute_affected]; closes.
  - intros w Ho. destruct pool; by apply end_law.
  - intros w Ho. destruct pool; by apply end_law.
Qed.

Lemma execute_tracks h `{!TxHandleLaws h} stmt args session : tracks (tx_execute h stmt args session).
Proof. apply stays_tracks; [apply execute_stays|]. intros w Ho. by apply (closed_refuses w Ho). Qed.

Lemma affected_tracks h `{!TxHandleLaws h} stmt args session : tracks (tx_execute_affected h stmt args session).
Proof. apply stays_tracks; [apply affected_stays|]. intros w Ho. by apply (closed_refuses w Ho). Qed.

(** * The life of a handle *)

(** What its owner does with a handle: call an operation, call one and drop its
    future before its [done]-th call has returned, or drop the handle. *)
Inductive tx_op : Type :=
| OpExecute (stmt : PreparedStmt) (args : list BoundParam) (session : SessionVars)
| OpExecuteAffected (stmt : PreparedStmt) (args : list BoundParam) (session : SessionVars)
| OpCommit
| OpRollback.

Inductive tx_use : Type :=
| Call (op : tx_op)
| CutOff (op : tx_op) (done : nat)
| HandleDrop.

Inductive outcome : Type := Returned (r : result SqlError ()) | Gone.

Definition no_value {A} (m : M A) : M () := let! _ := m in ret ().

Definition call_op (h : SqlTxHandle) (op : tx_op) : M () :=
  match op with
  | OpExecute stmt args session => no_value (tx_execute h stmt args session)
  | OpExecuteAffected stmt args session => no_value (tx_execute_affected h stmt args session)
  | OpCommit => tx_commit h
  | OpRollback => tx_rollback h
  end.

(** A future that is dropped while it waits for a call drops the transaction it
    has taken out; one that makes no more calls returns. *)
Definition use (h : SqlTxHandle) (u : tx_use) (w : world) : outcome * world :=
  match u with
  | Call op => let '(r, w') := call_op h op w in (Returned r, w')
  | CutOff op k =>
      let '(r, w') := call_op h op w in
      let es := drop (length (events w)) (events w') in
      if (k <? length es)%nat
      then (Gone, log DropTx true (World (events w ++ firstn k es) (in_flight w') (sqlite w') false))
      else (Returned r, w')
  | HandleDrop => (Gone, snd (handle_drop w))
  end.

Fixpoint uses (h : SqlTxHandle) (us : list tx_use) (w : world) : list outcome * world :=
  match us with
  | [] => ([], w)
  | u :: us' =>
      let '(o, w1) := use h u w in
      let '(os, w2) := uses h us' w1 in
      (o :: os, w2)
  end.

(** The uses that may leave the transaction open. *)
Definition executes (op : tx_op) : bool :=
  match op with OpExecute _ _ _ | OpExecuteAffected _ _ _ => true | OpCommit | OpRollback => false end.

Definition lasting (u : tx_use) : bool :=
  match u with Call op | CutOff op _ => executes op | HandleDrop => false end.

(** [u] ended the transaction by the call [e]. *)
Definition completes (op : tx_op) (o : outcome) (e : event) : Prop :=
  match op with
  | OpCommit => exists r, o = Returned r /\ e = (Commit, is_ok r)
  | OpRollback => exists r, o = Returned r /\ e = (Rollback, is_ok r)
  | _ => False
  end.

Definition ended_by (u : tx_use) (o : outcome) (e : event) : Prop :=
  match u with
  | Call op => completes op o e
  | CutOff op _ => completes op o e \/ (o = Gone /\ e = (DropTx, true))
  | HandleDrop => o = Gone /\ e = (DropTx, true)
  end.

(** What a use of a closed handle gets. *)
Definition refused_use (u : tx_use) (o : outcome) : Prop :=
  o = match u with HandleDrop => Gone | _ => Returned (Err closed_error) end.

Section Life.
Context (h : SqlTxHandle) `{!TxHandleLaws h}.

Lemma no_value_run {A} (m : M A) w : snd (no_value m w) = snd (m w).
Proof. unfold no_value, bind. by destruct (m w) as [[]]. Qed.

Lemma call_open op w :
  tx_open w = true ->
  exists r es w', call_op h op w = (r, w') /\ events w' = events w ++ es /\
    if executes op then inside es /\ tx_open w' = true
    else tx_open w' = false /\ exists e, es = [e] /\ completes op (Returned r) e.
Proof.
  intros Ho. destruct op as [stmt args session|stmt args session| |]; cbn.
  - destruct (execute_stays stmt args session w Ho) as (es & E & F & T). rewrite <- no_value_run in E, T.
    destruct (no_value _ w) as [r w']. by exists r, es, w'.
  - destruct (affected_stays stmt args session w Ho) as (es & E & F & T). rewrite <- no_value_run in E, T.
    destruct (no_value _ w) as [r w']. by exists r, es, w'.
  - destruct (commit_ends w Ho) as [r E]. exists r, [(Commit, is_ok r)]. eexists. split_and!; [done..|]. by eexists; split; [|eexists].
  - destruct (rollback_ends w Ho) as [r E]. exists r, [(Rollback, is_ok r)]. eexists. split_and!; [done..|]. by eexists; split; [|eexists].
Qed.

Lemma call_closed op w : tx_open w = false -> call_op h op w = (Err closed_error, w).
Proof.
  intros Ho. destruct (closed_refuses w Ho) as (Hx & Hc & Hr).
  destruct op as [stmt args session|stmt args session| |]; cbn; try done; destruct (Hx stmt args session) as [E1 E2];
    unfold no_value, bind; by rewrite ?E1, ?E2.
Qed.

Lemma use_closed u w : tx_open w = false -> exists o, use h u w = (o, w) /\ refused_use u o.
Proof.
  intros Ho. destruct u as [op|op k|]; cbn.
  - rewrite call_closed by done. by eexists.
  - rewrite call_closed, drop_all by done. cbn. by eexists.
  - unfold handle_drop. rewrite Ho. by eexists.
Qed.

Lemma use_open u w :
  tx_open w = true ->
  exists o es w', use h u w = (o, w') /\ events w' = events w ++ es /\
    (lasting u = true /\ inside es /\ tx_open w' = true \/
     tx_open w' = false /\ exists es0 e, es = es0 ++ [e] /\ inside es0 /\ ended_by u o e).
Proof.
  intros Ho. destruct u as [op|op k|]; cbn -[Nat.ltb].
  - destruct (call_open op w Ho) as (r & es & w' & -> & E & C). exists (Returned r), es, w'. split_and!; [done..|].
    destruct (executes op); [by left|]. destruct C as (T & e & -> & C). right. split; [done|]. exists [], e. by repeat constructor.
  - destruct (call_open op w Ho) as (r & es & w' & -> & E & C). rewrite E, drop_app_length.
    destruct (k <? length es)%nat eqn:Hk.
    + exists Gone, (firstn k es ++ [(DropTx, true)]). eexists. split_and!; [done|by rewrite app_assoc|].
      right. split; [done|]. exists (firstn k es), (DropTx, true). split_and!; [done| |by right].
      destruct (executes op); [apply Forall_take, C|]. destruct C as (_ & e & -> & _). apply Nat.ltb_lt in Hk.
      destruct k; [constructor|]. cbn in Hk. lia.
    + exists (Returned r), es, w'. split_and!; [done..|].
      destruct (executes op); [by left|]. destruct C as (T & e & -> & C). right. split; [done|]. exists [], e.
      split_and!; [done|constructor|by left].
  - unfold handle_drop. rewrite Ho. exists Gone, [(DropTx, true)]. eexists. split_and!; [done..|]. right. split; [done|].
    exists [], (DropTx, true). by repeat constructor.
Qed.

Lemma uses_closed us w : tx_open w = false -> exists os, uses h us w = (os, w) /\ Forall2 refused_use us os.
Proof.
  intros Ho. induction us as [|u us (os & E & F)]; cbn; [by eexists|].
  destruct (use_closed u w Ho) as (o & -> & R). rewrite E. eexists. split; [done|]. by constructor.
Qed.

Lemma uses_open us w :
  tx_open w = true ->
  exists os es w', uses h us w = (os, w') /\ events w' = events w ++ es /\
    (tx_open w' = true /\ Forall (fun u => lasting u = true) us /\ inside es \/
     tx_open w' = false /\ exists us1 u us2 os1 o os2 es0 e,
       us = us1 ++ u :: us2 /\ os = os1 ++ o :: os2 /\ length os1 = length us1 /\ es = es0 ++ [e] /\
       inside es0 /\ ended_by u o e /\ Forall (fun u => lasting u = true) us1 /\ Forall2 refused_use us2 os2).
Proof.
  revert w. induction us as [|u us IH]; intros w Ho; cbn.
  { exists [], [], w. rewrite app_nil_r. split_and!; [done..|]. left. by repeat constructor. }
  destruct (use_open u w Ho) as (o & es1 & w1 & -> & E1 & [(L & I & T)|(T & es0 & e & -> & I & N)]).
  - destruct (IH w1 T) as (os & es2 & w2 & -> & E2 & C). exists (o :: os), (es1 ++ es2), w2.
    rewrite E2, E1, app_assoc. split_and!; [done..|].
    destruct C as [(T2 & F & I2)|(T2 & us1 & u' & us2 & os1 & o' & os2 & es0 & e & -> & -> & Hl & -> & I2 & N & F & R)].
    + left. split_and!; [done|by constructor|by apply inside_app].
    + right. split; [done|]. exists (u :: us1), u', us2, (o :: os1), o', os2, (es1 ++ es0), e.
      split_and!; cbn; rewrite ?Hl, ?app_assoc; try done; [by apply inside_app|by constructor].
  - destruct (uses_closed us w1 T) as (os & -> & R). exists (o :: os), (es0 ++ [e]), w1. split_and!; [done..|].
    right. split; [done|]. exists [], u, us, [], o, os, es0, e. by split_and!.
Qed.
End Life.

(** C4.  On any server and with an open handle of any driver, used in any way that
    includes dropped futures: as long as nothing but statements was run to the
    end, every call made is a statement inside the transaction and it is still
    open.  Otherwise the first use that ends it does so by one call, which is the
    last one made: a commit or rollback that returns is a [COMMIT] or [ROLLBACK]
    with that result, also when it fails, and dropping the handle, or the future
    of a call that is still waiting, drops the transaction.  Every later use is
    refused as already closed, without a call. *)
Theorem handle_ends_once pool us w :
  tx_open w = true ->
  exists os es w', uses (handle_of pool) us w = (os, w') /\ events w' = events w ++ es /\
    (tx_open w' = true /\ Forall (fun u => lasting u = true) us /\ inside es \/
     tx_open w' = false /\ exists us1 u us2 os1 o os2 es0 e,
       us = us1 ++ u :: us2 /\ os = os1 ++ o :: os2 /\ length os1 = length us1 /\ es = es0 ++ [e] /\
       inside es0 /\ ended_by u o e /\ Forall (fun u => lasting u = true) us1 /\ Forall2 refused_use us2 os2).
Proof. apply uses_open, _. Qed.

(** * A group on a server *)

Lemma tracks_lift {A} (r : result SqlError A) : tracks (lift r).
Proof. intros w. exists []. by rewrite app_nil_r. Qed.

Lemma tracks_bind {A B} (m : M A) (k : A -> M B) : tracks m -> (forall a, tracks (k a)) -> tracks (bind m k).
Proof.
  intros Hm Hk w. unfold bind. destruct (Hm w) as (es1 & E1 & R1 & F1). destruct (m w) as [[a|e] w1]; cbn in *; [|eauto].
  destruct (Hk a w1) as (es2 & E2 & R2 & F2). exists (es1 ++ es2).
  rewrite E2, E1, app_assoc, run_scope_app, R1. split_and!; try done. by apply Forall_app.
Qed.

Lemma tracks_attempt {A} (m : M A) : tracks m -> tracks (attempt m).
Proof. intros Hm w. destruct (Hm w) as (es & E). exists es. unfold attempt. by destruct (m w). Qed.

Lemma tracks_ret {A} (a : A) : tracks (ret a).
Proof. apply (tracks_lift (Ok a)). Qed.

(** Never an error of the monad: every failure is a value. *)
Definition total {A} (m : M A) : Prop := forall w, exists a, fst (m w) = Ok a.

Lemma total_bind {A B} (m : M A) (k : A -> M B) : total m -> (forall a, total (k a)) -> total (bind m k).
Proof. intros Hm Hk w. unfold bind. destruct (Hm w) as [a Ha]. destruct (m w) as [r w1]. cbn in Ha. subst r. apply Hk. Qed.

Lemma total_attempt {A} (m : M A) : total (attempt m).
Proof. intros w. apply attempt_total. Qed.

Lemma total_ret {A} (a : A) : total (ret a).
Proof. by eexists. Qed.

Section Laws.
Context (h : SqlTxHandle) `{!TxHandleLaws h}.

Lemma nested_tracks step input : tracks (run_tx_nested_step h step input) /\ total (run_tx_nested_step h step input).
Proof.
  unfold run_tx_nested_step. destruct (collect_bound_params _ _) as [args|e]; [|split; [apply tracks_ret|apply total_ret]].
  split; repeat case_match; repeat (apply tracks_bind || apply total_bind; [|intros ?]); auto using tracks_ret, total_ret, total_attempt;
    apply tracks_attempt; (apply execute_tracks || apply affected_tracks); assumption.
Qed.

Lemma commit_cases w :
  exists r es w', tx_commit h w = (r, w') /\ events w' = events w ++ es /\ tx_open w' = false /\
    run_scope (scope_at w) es = Some Idle /\
    (is_ok r = true -> es = [(Commit, true)]) /\ (is_ok r = false -> Forall (fun e => e <> (Commit, true)) es).
Proof.
  destruct (tx_open w) eqn:Ho; unfold scope_at; rewrite Ho.
  - destruct (commit_ends w Ho) as [r E]. exists r, [(Commit, is_ok r)], (log Commit (is_ok r) (set_tx false w)).
    split_and!; try done; intros ->; [done|]. by repeat constructor.
  - destruct (closed_refuses w Ho) as (_ & E & _). exists (Err closed_error), [], w. rewrite app_nil_r. by split_and!.
Qed.

Lemma rollback_cases w :
  exists r es w', tx_rollback h w = (r, w') /\ events w' = events w ++ es /\ tx_open w' = false /\
    run_scope (scope_at w) es = Some Idle /\ Forall (fun e => is_commit (fst e) = false) es.
Proof.
  destruct (tx_open w) eqn:Ho; unfold scope_at; rewrite Ho.
  - destruct (rollback_ends w Ho) as [r E]. exists r, [(Rollback, is_ok r)], (log Rollback (is_ok r) (set_tx false w)).
    split_and!; try done. by repeat constructor.
  - destruct (closed_refuses w Ho) as (_ & _ & E). exists (Err closed_error), [], w. rewrite app_nil_r. by split_and!.
Qed.

Lemma steps_run steps input results w :
  exists r es w', run_tx_steps h steps input results w = (Ok r, w') /\ events w' = events w ++ es /\
    run_scope (scope_at w) es = Some (scope_at w') /\ Forall (fun e => is_commit (fst e) = false) es /\
    (is_ok r = false -> tx_open w' = false).
Proof.
  revert results w. induction steps as [|step steps IH]; intros results w; cbn [run_tx_steps].
  { exists (Ok results), [], w. rewrite app_nil_r. by split_and!. }
  destruct (nested_tracks step input) as [Ht Hok]. destruct (Ht w) as (es1 & E1 & R1 & F1). destruct (Hok w) as [a Ha].
  unfold bind at 1. destruct (run_tx_nested_step h step input w) as [r1 w1]. cbn in *. subst r1. destruct a as [v|msg].
  - destruct (IH (obj_insert (Execute.step_id step) v results) w1) as (r & es2 & w2 & E & E2 & R2 & F2 & Hc).
    exists r, (es1 ++ es2), w2. rewrite E, E2, E1, app_assoc, run_scope_app, R1. split_and!; try done. by apply Forall_app.
  - destruct (rollback_cases w1) as (rb & es2 & w2 & E & E2 & Ho & R2 & F2).
    unfold bind, attempt. rewrite E. do 3 eexists. split; [reflexivity|]. rewrite E2, E1, <- app_assoc.
    split; [reflexivity|]. rewrite run_scope_app, R1, R2. unfold scope_at. rewrite Ho. split_and!; try done.
    by apply Forall_app.
Qed.
End Laws.

Lemma begin_run name runtime w :
  tx_open w = false ->
  exists es, events (snd (Surface.begin_transaction name runtime w)) = events w ++ es /\
    run_scope Idle es = Some (scope_at (snd (Surface.begin_transaction name runtime w))) /\
    Forall (fun e => is_commit (fst e) = false) es /\
    tx_open (snd (Surface.begin_transaction name runtime w)) = is_ok (fst (Surface.begin_transaction name runtime w)).
Proof.
  intros Hw. destruct runtime as [[pool level]|]; cycle 1.
  { exists []. rewrite app_nil_r. unfold scope_at. cbn. by rewrite Hw. }
  unfold Surface.begin_transaction, checked, perform, lift, bind, attempt, put, drop_value, raise, log, set_tx, scope_at.
  destruct (reply_unit (events w) (Begin OnPool)) as [[]|e]; cbn.
  - destruct pool, level as [l|]; cbn; try (by eexists; split; [reflexivity|]; repeat constructor);
      destruct (reply_count _ _) as [n|e]; cbn; rewrite ?Hw, <- ?app_assoc; eexists; (split; [reflexivity|]); by repeat constructor.
  - rewrite Hw. eexists. split; [reflexivity|]. by repeat constructor.
Qed.

Lemma handle_drop_closed w : tx_open w = false -> handle_drop w = (Ok (), w).
Proof. intros Ho. unfold handle_drop. by rewrite Ho. Qed.

(** C16.  A transaction group is atomic on the server: on any server, for every driver
    and whatever each call answers, every statement of the group runs inside the
    one transaction it began, nothing is left open, and the transaction is
    committed exactly when the group reports success, by its last call. *)
Theorem group_on_server name runtime steps input w :
  tx_open w = false ->
  exists r es w', execute_transaction name runtime steps input w = (Ok r, w') /\ events w' = events w ++ es /\
    tx_open w' = false /\ run_scope Idle es = Some Idle /\
    (is_ok r = true -> exists before, es = before ++ [(Commit, true)] /\
       Forall (fun e => is_commit (fst e) = false) before) /\
    (is_ok r = false -> Forall (fun e => e <> (Commit, true)) es).
Proof.
  intros Hw. destruct (begin_run name runtime w Hw) as (es1 & E1 & R1 & F1 & O1).
  assert (forall es, Forall (fun e => is_commit (fst e) = false) es -> Forall (fun e => e <> (Commit, true)) es) as Hno.
  { intros es Hes. eapply Forall_impl; [exact Hes|]. by intros e He ->. }
  unfold execute_transaction. unfold bind at 1, attempt at 1.
  destruct (Surface.begin_transaction name runtime w) as [[[]|e] w1] eqn:Eb; cbn in E1, R1, O1; unfold scope_at in R1; rewrite O1 in R1; cycle 1.
  { exists (Err (backend_error e)), es1, w1. split_and!; try done. auto. }
  destruct runtime as [[pool level]|]; [|done]. cbn [fst].
  destruct (steps_run (handle_of pool) steps input [] w1) as (r & es2 & w2 & E & E2 & R2 & F2 & Hc).
  unfold bind at 1. rewrite E. unfold scope_at at 1 in R2. rewrite O1 in R2. destruct r as [results|e].
  - destruct (commit_cases (handle_of pool) w2) as (c & es3 & w3 & Ec & E3 & O3 & R3 & H1 & H2).
    unfold bind, attempt. rewrite Ec, handle_drop_closed by done. do 3 eexists. split; [reflexivity|].
    rewrite E3, E2, E1, <- !app_assoc. split; [reflexivity|]. split; [done|].
    rewrite run_scope_app, R1. cbn [is_ok]. rewrite run_scope_app, R2, R3. split; [done|].
    destruct c as [[]|e]; cbn; (split; [|try done]); try done.
    + intros _. rewrite (H1 eq_refl). exists (es1 ++ es2). rewrite <- app_assoc. split; [done|]. by apply Forall_app.
    + intros _. rewrite !Forall_app. auto.
  - unfold bind, handle_drop at 1. rewrite (Hc eq_refl). do 3 eexists. split; [reflexivity|].
    rewrite E2, E1, <- app_assoc. split; [reflexivity|]. split; [auto|]. rewrite run_scope_app, R1. cbn [is_ok].
    rewrite R2. unfold scope_at. rewrite (Hc eq_refl). split_and!; try done. intros _. apply Forall_app. auto.
Qed.
End Group.

Module Demo.
Import ToyTypes ToyServer.

#[local] Existing Instance strict_rows.

Definition say (v : value) : string := "json".
Definition show_error (e : SqlError) : string := "error".
Definition backend_error (e : SqlError) : BackendError := BTransport "error".

Definition two_steps : list Execute.TxStep :=
  [Execute.Build_TxStep "a" "INSERT INTO t VALUES (1)" [] "affected_rows"; Execute.Build_TxStep "b" "SELECT * FROM t" [] "many"]%string.

Definition group (refused : string) (pool : PoolHandle) (w : world) :=
  execute_transaction (Server0 := refusing refused) say show_error backend_error "b" (Some (pool, None)) two_steps (VObject []) w.

(** The second statement is refused: the group fails on every driver, and all it
    sent is one transaction, rolled back. *)
Lemma group_on_server_witness :
  Forall (fun pool =>
    events (snd (group "SELECT * FROM t" pool fresh)) =
      [(Begin OnPool, true); (Exec OnTx "INSERT INTO t VALUES (1)" [], true); (FetchAll OnTx "SELECT * FROM t" [], false);
       (Rollback, true)]%string /\
    run_scope Idle (events (snd (group "SELECT * FROM t" pool fresh))) = Some Idle) [PgPool; MysqlPool].
Proof.
  assert (forall pool, run_scope Idle (events (snd (group "SELECT * FROM t" pool fresh))) = Some Idle) as Hall.
  { intros pool. destruct (group_on_server (Server0 := refusing "SELECT * FROM t") say show_error backend_error "b"
      (Some (pool, None)) two_steps (VObject []) fresh eq_refl) as (r & es & w' & E & E2 & _ & R & _).
    unfold group. rewrite E. cbn [snd]. rewrite E2. exact R. }
  apply Forall_cons; split; [split; [reflexivity|apply Hall]|]. apply Forall_cons; split; [split; [reflexivity|apply Hall]|]. constructor.
Defined.

(** A statement, a commit that the server refuses, a rollback, the drop. *)
Definition used_handle : list tx_use :=
  [Call (OpExecute demo_stmt [] demo_session); Call OpCommit; Call OpRollback; HandleDrop].

Definition used : list outcome * world :=
  uses (handle_of (H0 := strict_rows) (Server0 := refusing "") say MysqlPool) used_handle TxDemo.opened.

Lemma handle_ends_once_witness :
  fst used = [Returned (Ok ()); Returned (Ok ()); Returned (Err closed_error); Gone] /\
  last (events (snd used)) = Some (Commit, true) /\ tx_open (snd used) = false.
Proof.
  destruct (handle_ends_once (Server0 := refusing "") say MysqlPool used_handle TxDemo.opened eq_refl)
    as (os & es & w' & E & Ev & [(_ & F & _)|(T & us1 & u & us2 & os1 & o & os2 & es0 & e & Eu & Eo & _ & -> & _)]).
  { exfalso. inversion F as [|? ? _ F']. inversion F' as [|? ? Hl _]. discriminate Hl. }
  split_and!; [reflexivity|reflexivity|]. change (snd used) with (snd (os, w')) || (unfold used; rewrite E); exact T.
Defined.

(** A future of the statement dropped before its first, and after its second call. *)
Example cut_off :
  Forall (fun k => events (snd (use (handle_of (H0 := strict_rows) (Server0 := refusing "") say MysqlPool)
                                   (CutOff (OpExecute demo_stmt [] demo_session) k) TxDemo.opened)) =
                 firstn k [(Exec OnTx "SET @role = ?" [ArgText "auditor"], true);
                         (Exec OnTx "SET @tenant_id = ?" [ArgText "acme"], true)] ++ [(DropTx, true)]) [0; 2]%nat.
Proof. repeat constructor. Qed.

(** With no statement refused, the last call is the commit. *)
Example accepted_group :
  Forall (fun pool => last (events (snd (group "" pool fresh))) = Some (Commit, true)) [PgPool; MysqlPool; SqlitePool].
Proof. repeat constructor. Qed.
End Demo.
End TxGroup.
