(* ===== verification/Metrics.v ===== *)
(** The metrics of [src/src/metrics.rs], with the cost telemetry of
    [src/src/cost.rs].

    An emission names a series (metric name and labels) and what happens to it;
    the recorder behind the metrics crate is not modelled beyond that, and the
    reading of a counter is the sum of its increments over a trace. *)

From Stdlib Require Import ZArith Lia Bool Ascii String SpecFloat.
From stdpp Require Import base list strings.
From S2P Require Import Prelude RustStd Redact Errors Json F64 Cost Surface.

Module Metrics.
Import Surface.

Definition labels : Type := list (string * string).

Inductive emission : Type :=
| Counter (name : string) (l : labels) (by_ : Z)
| Histogram (name : string) (l : labels) (sample : f64)
| GaugeSet (name : string) (l : labels) (v : f64)
| GaugeAdd (name : string) (l : labels) (v : f64).

(** [mod names]. *)
Definition CALLS_TOTAL : string := "mcpg_sql_calls_total".
Definition DURATION_SECONDS : string := "mcpg_sql_duration_seconds".
Definition ROWS_RETURNED : string := "mcpg_sql_rows_returned".
Definition PROGRESS_HEARTBEATS : string := "mcpg_sql_progress_heartbeats_total".
Definition REQUESTS_IN_FLIGHT : string := "mcpg_sql_requests_in_flight".
Definition PREPARE_RETRIES : string := "mcpg_sql_prepare_retries_total".
Definition AWAIT_POLLS : string := "mcpg_sql_await_polls_total".
Definition AWAIT_WAITS_ACTIVE : string := "mcpg_sql_await_waits_active".
Definition AWAIT_DURATION_SECONDS : string := "mcpg_sql_await_duration_seconds".
Definition AWAIT_WAKES : string := "mcpg_sql_await_wakes_total".
Definition CACHE_HITS : string := "mcpg_sql_cache_hits_total".
Definition CACHE_MISSES : string := "mcpg_sql_cache_misses_total".
Definition CACHE_WRITES : string := "mcpg_sql_cache_writes_total".
Definition COST_TOTAL : string := "mcpg_sql_cost_total".
Definition CALL_COST : string := "mcpg_sql_call_cost".
Definition COST_REFUNDED : string := "mcpg_sql_cost_refunded_total".

Definition driver_label (d : DriverKind) : string * string := ("driver"%string, DriverKind_as_str d).
Definition backend_label (binding : string) : string * string := ("backend"%string, binding).

(** [duration] in nanoseconds. *)
Definition record_call (binding query_ref : string) (driver : DriverKind) (status : CallStatus)
  (duration : Z) (rows : option Z) : list emission :=
  Counter CALLS_TOTAL [backend_label binding; ("query", query_ref); driver_label driver;
                       ("status", CallStatus_as_str status)]%string 1 ::
  Histogram DURATION_SECONDS [backend_label binding; ("query", query_ref); driver_label driver]%string
    (as_secs_f64 duration) ::
  match rows with
  | Some n => [Histogram ROWS_RETURNED [backend_label binding; ("query", query_ref)]%string (f64_of_Z n)]
  | None => []
  end.

Definition record_prepare_retry (binding : string) (driver : DriverKind) : list emission :=
  [Counter PREPARE_RETRIES [backend_label binding; driver_label driver] 1].

Definition record_in_flight (count : Z) (driver : DriverKind) : list emission :=
  [GaugeSet REQUESTS_IN_FLIGHT [driver_label driver] (f64_of_Z count)].

(** [polls as i64] before the test. *)
Definition record_await_wait (binding : string) (driver : DriverKind) (outcome : string) (polls : Z)
  : list emission :=
  if 0 <? wraps 64 polls then
    [Counter AWAIT_POLLS [backend_label binding; driver_label driver; ("outcome", outcome)]%string
       (wrapu 64 (wraps 64 polls))]
  else [].

Definition await_waits_guard (driver : DriverKind) : list emission :=
  [GaugeAdd AWAIT_WAITS_ACTIVE [driver_label driver] (f64_of_Z 1)].
(** [AwaitWaitsGuard::drop]. *)
Definition waits_guard_drop (driver : DriverKind) : list emission :=
  [GaugeAdd AWAIT_WAITS_ACTIVE [driver_label driver] (f64_of_Z (-1))].

Definition record_await_wake (binding : string) (driver : DriverKind) (kind : string) : list emission :=
  [Counter AWAIT_WAKES [backend_label binding; driver_label driver; ("kind", kind)]%string 1].

Definition record_await_duration (binding : string) (driver : DriverKind) (outcome : string) (duration : Z)
  : list emission :=
  [Histogram AWAIT_DURATION_SECONDS [backend_label binding; driver_label driver; ("outcome", outcome)]%string
     (as_secs_f64 duration)].

Definition record_progress_heartbeat (binding : string) (driver : DriverKind) : list emission :=
  [Counter PROGRESS_HEARTBEATS [backend_label binding; driver_label driver] 1].

Definition record_cache_hit (binding : string) (driver : DriverKind) : list emission :=
  [Counter CACHE_HITS [backend_label binding; driver_label driver] 1].
Definition record_cache_miss (binding : string) (driver : DriverKind) : list emission :=
  [Counter CACHE_MISSES [backend_label binding; driver_label driver] 1].
Definition record_cache_write (binding : string) (driver : DriverKind) : list emission :=
  [Counter CACHE_WRITES [backend_label binding; driver_label driver] 1].

(** The micro-units of an amount: rounded to nearest, saturating, nothing for
    an amount that is negative or not finite. *)
Definition micro (amount : f64) : Z :=
  if f64_is_finite amount && f64_leb (f64_of_Z 0) amount then
    f64_to_u64 (f64_min (f64_round (f64_mul amount (f64_of_Z 1000000))) (f64_of_Z u64_max))
  else 0.

Definition record_cost (binding : string) (driver : DriverKind) (currency : string) (unit : CostUnit)
  (amount : f64) : list emission :=
  let l := [backend_label binding; driver_label driver; ("currency", currency);
            ("unit", CostUnit_as_str unit)]%string in
  [Counter COST_TOTAL l (micro amount); Histogram CALL_COST l amount].

Definition record_cost_refunded (binding : string) (driver : DriverKind) (currency reason : string)
  (amount : f64) : list emission :=
  [Counter COST_REFUNDED [backend_label binding; driver_label driver; ("currency", currency);
                          ("reason", reason)]%string (micro amount)].

(** * Readings *)

Definition counts (name : string) (e : emission) : Z :=
  match e with
  | Counter n _ k => if String.eqb n name then k else 0
  | _ => 0
  end.

(** What the counters of one name add up to. *)
Fixpoint counter_total (name : string) (es : list emission) : Z :=
  match es with
  | [] => 0
  | e :: es' => counts name e + counter_total name es'
  end.

Lemma counter_total_app name a b : counter_total name (a ++ b) = counter_total name a + counter_total name b.
Proof. induction a as [|e a IH]; cbn [counter_total app]; lia. Qed.

(** The same for a gauge that is only added to. *)
Definition adds (name : string) (e : emission) : f64 -> f64 :=
  match e with
  | GaugeAdd n _ k => if String.eqb n name then fun g => f64_add g k else fun g => g
  | _ => fun g => g
  end.

(** A series: the name and the labels. *)
Definition series (e : emission) : string * labels :=
  match e with
  | Counter n l _ | Histogram n l _ | GaugeSet n l _ | GaugeAdd n l _ => (n, l)
  end.

Lemma micro_range a : 0 <= micro a <= u64_max.
Proof.
  unfold micro, u64_max. destruct (_ && _); [|lia].
  match goal with |- context [f64_to_u64 ?f] => pose proof (f64_to_u64_range f) end. lia.
Qed.

Lemma record_await_wait_total binding driver outcome polls :
  0 <= polls <= i64_max -> counter_total AWAIT_POLLS (record_await_wait binding driver outcome polls) = polls.
Proof.
  intros Hp. unfold i64_max in Hp. unfold record_await_wait. rewrite wraps_small by lia.
  rewrite wrapu_small by lia. destruct (Z.ltb_spec 0 polls); cbn; lia.
Qed.

Example micro_examples :
  micro (f64_of_Z 3) = 3000000 /\
  option_map micro (parse_f64 "0.0000015") = Some 2 /\      (* a tie goes up *)
  option_map micro (parse_f64 "0.0000004") = Some 0 /\
  option_map micro (parse_f64 "0.1") = Some 100000 /\
  option_map micro (parse_f64 "1e300") = Some u64_max /\
  micro S754_nan = 0 /\ micro (f64_of_Z (-3)) = 0.
Proof. by vm_compute. Qed.

(** * Cost telemetry *)

(** [format!("{v:.6}")]: the exact value rounded to six decimals, ties to
    even. *)
Definition half_even (n d : Z) : Z :=
  let q := n / d in
  let r := n mod d in
  if (d <? 2 * r) || ((d =? 2 * r) && Z.odd q) then q + 1 else q.

Definition micros (m : positive) (e : Z) : Z :=
  if 0 <=? e then Zpos m * 2 ^ e * 1000000 else half_even (Zpos m * 1000000) (2 ^ (- e)).

Fixpoint pad_zeros (n : nat) (s : string) : string :=
  match n with
  | O => s
  | S n' => if (String.length s <=? n')%nat then String "0" (pad_zeros n' s) else s
  end.

Definition fixed6 (f : f64) : string :=
  let shown (s : bool) (n : Z) :=
    (if s then "-" else EmptyString) +:+ show_u (n / 1000000) +:+ "." +:+ pad_zeros 6 (show_u (n mod 1000000)) in
  match f with
  | S754_nan => "NaN"
  | S754_infinity s => if s then "-inf" else "inf"
  | S754_zero s => shown s 0
  | S754_finite s m e => shown s (micros m e)
  end.

(** [s.pop()] while [s] ends with [c]. *)
Fixpoint pop_while (c : ascii) (s : string) : string :=
  match s with
  | EmptyString => EmptyString
  | String d s' =>
      match pop_while c s' with
      | EmptyString => if Ascii.eqb d c then EmptyString else String d EmptyString
      | t => String d t
      end
  end.

(** One [s.pop()] if [s] ends with [c]. *)
Fixpoint pop_one (c : ascii) (s : string) : string :=
  match s with
  | EmptyString => EmptyString
  | String d EmptyString => if Ascii.eqb d c then EmptyString else s
  | String d s' => String d (pop_one c s')
  end.

Definition format_amount (v : f64) : string :=
  let s := fixed6 v in
  if str_exists (Ascii.eqb ".") s then pop_one "." (pop_while "0" s) else s.

Example format_amount_examples :
  format_amount (f64_of_Z 1) = "1"%string /\ format_amount (f64_of_Z 100) = "100"%string /\
  option_map format_amount (parse_f64 "0.000001") = Some "0.000001"%string /\
  option_map format_amount (parse_f64 "12.50") = Some "12.5"%string /\
  option_map format_amount (parse_f64 "0.0000004") = Some "0"%string /\
  option_map format_amount (parse_f64 "-0.0000004") = Some "-0"%string /\
  format_amount S754_nan = "NaN"%string /\ format_amount (f64_of_Z 0) = "0"%string.
Proof. by vm_compute. Qed.

Section Cost.
Context `{Cel}.

(** [BackendCost::audit_fields], in the order of the [BTreeMap]. *)
Definition audit_fields (c : BackendCost) : json_map :=
  let m := [] in
  let m := obj_insert "db.cost.unit" (VString (CostUnit_as_str (unit c))) m in
  let m := obj_insert "db.cost.currency" (VString (currency c)) m in
  let m := obj_insert "db.cost.source" (VString (source c)) m in
  match max_per_call c with
  | Some cap => obj_insert "db.cost.max_per_call" (VString (format_amount cap)) m
  | None => m
  end.
End Cost.
End Metrics.
