(* ===== verification/DriverOps.v ===== *)
(** The driver interface: the trait [SqlDriver] and [build_registry] of
    [src/src/driver/mod.rs], and [connect] of the three drivers.

    The trait is a record of operations; its default methods are definitions an
    implementation names where it has no method of its own.  That a driver serves
    an operation is stated by the plans of [Plans].  sqlx's URL parsers
    and the opening of a pool are parameters. *)

From Stdlib Require Import ZArith Lia Bool Ascii String.
From stdpp Require Import base list strings gmap.
From S2P Require Import Prelude RustStd Redact Text Errors Json Params InFlight Interval SqliteCancel Sqlx Rows Drivers Plans Cost Config Schema Auth Creds.

Module DriverOps.

(** * Pools *)

(** The options a pool is opened with; durations in milliseconds.
    [startup] is sent when a connection is opened, [after_connect] run on it. *)
Record PoolOptions : Type := {
  opt_max_connections : Z;
  opt_min_connections : Z;
  opt_acquire_timeout : Z;
  opt_idle_timeout : option Z;
  opt_max_lifetime : option Z;
  opt_test_before_acquire : bool;
  startup : list (string * string);
  after_connect : list string;
}.

(** sqlx's rule for [max_lifetime]: a connection older than it is closed. *)
Definition expired (o : PoolOptions) (age : Z) : bool :=
  match opt_max_lifetime o with Some l => l <? age | None => false end.

Definition pool_options (cc : Creds.ConnectCfg) (max_lifetime : option Z)
  (startup : list (string * string)) (after_connect : list string) : PoolOptions := {|
  opt_max_connections := Creds.cc_max_connections cc;
  opt_min_connections := Creds.cc_min_idle cc;
  opt_acquire_timeout := Creds.cc_acquire_timeout_ms cc;
  opt_idle_timeout := Some (Creds.cc_idle_timeout_ms cc);
  opt_max_lifetime := max_lifetime;
  opt_test_before_acquire := Creds.cc_test_before_acquire cc;
  startup := startup; after_connect := after_connect |}.

(** An open pool, and the interval of its token rotator. *)
Record ConnectOutcome : Type := {
  handle : PoolHandle;
  options : PoolOptions;
  rotator : option Z;
}.

(** * The trait *)

Section Drivers.
Context `{SqlxRow Row} `{!Server Row} (to_json : value -> string)
        (debug_id : InFlight.BackendId -> string) (debug_strings : list string -> string)
        (grant_text : Row -> string)
        (describe : string -> result sqlx_error Schema.Describe).
(** sqlx: the URL parsers, opening a pool, and the url crate's host and port. *)
Context (parse_pg parse_mysql parse_sqlite : string -> result string ())
        (open : PoolHandle -> string -> PoolOptions -> result sqlx_error ())
        (url_host : string -> option string) (url_port : string -> option Z).
Context (load_chain : string -> option string -> bool) (issue : string -> result string ())
        (sigv4 : string -> Z -> result string (list (string * string)))
        (append_pairs : string -> list (string * string) -> result string (option string * option string)).

Record SqlDriver : Type := {
  kind : string;
  connect : Creds.ConnectCfg -> result SqlError ConnectOutcome;
  execute : PoolHandle -> PreparedStmt -> list BoundParam -> SessionVars -> M RowBatch;
  execute_with_ctx : PoolHandle -> PreparedStmt -> list BoundParam -> SessionVars -> ExecCtx -> M RowBatch;
  execute_affected : PoolHandle -> PreparedStmt -> list BoundParam -> SessionVars -> M Z;
  execute_affected_with_ctx : PoolHandle -> PreparedStmt -> list BoundParam -> SessionVars -> ExecCtx -> M Z;
  execute_multi_result : PoolHandle -> PreparedStmt -> list BoundParam -> SessionVars -> M (list (list value));
  cancel_backend : PoolHandle -> InFlight.BackendId -> M ();
  health_check : PoolHandle -> M ();
  verify_cancel_privilege : PoolHandle -> M ();
  describe_parameters : PoolHandle -> string -> list string -> result SqlError (option value);
  describe_columns : PoolHandle -> string -> RowMode -> result SqlError (option value);
}.

(** ** The default methods that a driver inherits *)

Definition default_multi_result (kind : string) (pool : PoolHandle) (stmt : PreparedStmt)
  (args : list BoundParam) (session : SessionVars) : M (list (list value)) :=
  raise (InvalidSpec ("row_mode: result_sets is not supported by the '" +:+ kind +:+ "' driver")).

Definition default_verify_cancel_privilege (pool : PoolHandle) : M () := ret ().

Definition default_describe_parameters (pool : PoolHandle) (sql : string) (param_names : list string)
  : result SqlError (option value) := Ok None.

Definition default_describe_columns (pool : PoolHandle) (sql : string) (row_mode : RowMode)
  : result SqlError (option value) := Ok None.

(** ** Connecting *)

Definition pg_startup (cc : Creds.ConnectCfg) : list (string * string) :=
  [("client_encoding", "UTF8"); ("DateStyle", "ISO,YMD"); ("IntervalStyle", "iso_8601")]%string ++
  match Creds.cc_statement_timeout_ms cc with
  | Some ms => [("statement_timeout", show_u ms +:+ "ms")]%string
  | None => []
  end.

(** The pool is opened with the token and the lifetime that [Auth.pg_connect]
    works out. *)
Definition pg_connect (cc : Creds.ConnectCfg) : result SqlError ConnectOutcome :=
  let url := Creds.cc_url cc in
  let? _ := rmap_err (fun e => InvalidSpec ("postgres url: " +:+ e)) (parse_pg url) in
  let? c := Auth.pg_connect load_chain issue sigv4 append_pairs (Creds.cc_max_lifetime_ms cc)
              (Creds.cc_auth_provider cc) (url_host url) (url_port url) (Ok ()) in
  let o := pool_options cc (Auth.max_lifetime_ms c) (pg_startup cc) [] in
  let? _ := rmap_err Connect (open PgPool url o) in
  Ok {| handle := PgPool; options := o; rotator := Auth.rotator c |}.

Definition normalized (url : string) : string :=
  match strip_prefix "mariadb://" url with Some rest => "mysql://" +:+ rest | None => url end.

Definition mysql_connect (cc : Creds.ConnectCfg) : result SqlError ConnectOutcome :=
  match Creds.cc_auth_provider cc with
  | Some _ => Err (InvalidSpec "auth: { ... } block is not yet supported for MySQL/MariaDB")
  | None =>
      let url := normalized (Creds.cc_url cc) in
      let? _ := rmap_err (fun e => InvalidSpec ("mysql url: " +:+ e)) (parse_mysql url) in
      let o := pool_options cc (Some (Creds.cc_max_lifetime_ms cc)) [] ["SET NAMES utf8mb4"]%string in
      let? _ := rmap_err Connect (open MysqlPool url o) in
      Ok {| handle := MysqlPool; options := o; rotator := None |}
  end.

Definition sqlite_connect (cc : Creds.ConnectCfg) : result SqlError ConnectOutcome :=
  match Creds.cc_auth_provider cc with
  | Some _ => Err (InvalidSpec "auth: { ... } blocks are not applicable to SQLite (file-backed)")
  | None =>
      let url := Creds.cc_url cc in
      let? _ := rmap_err (fun e => InvalidSpec ("sqlite url: " +:+ e)) (parse_sqlite url) in
      let o := pool_options cc (Some (Creds.cc_max_lifetime_ms cc)) [] [] in
      let? _ := rmap_err Connect (open SqlitePool url o) in
      Ok {| handle := SqlitePool; options := o; rotator := None |}
  end.

(** ** The drivers *)

Definition PostgresDriver : SqlDriver := {|
  kind := "postgres";
  connect := pg_connect;
  execute := pg_execute; execute_with_ctx := pg_execute_with_ctx;
  execute_affected := pg_execute_affected; execute_affected_with_ctx := pg_execute_affected_with_ctx;
  execute_multi_result := default_multi_result "postgres";
  cancel_backend := pg_cancel_backend debug_id;
  health_check := pg_health_check;
  verify_cancel_privilege := default_verify_cancel_privilege;
  describe_parameters := fun pool sql names => Schema.describe_parameters pool (describe sql) names;
  describe_columns := fun pool sql mode => Schema.describe_columns pool (describe sql) mode;
|}.

Definition MysqlDriver : SqlDriver := {|
  kind := "mysql";
  connect := mysql_connect;
  execute := mysql_execute; execute_with_ctx := mysql_execute_with_ctx;
  execute_affected := mysql_execute_affected; execute_affected_with_ctx := mysql_execute_affected_with_ctx;
  execute_multi_result := mysql_execute_multi_result;
  cancel_backend := mysql_cancel_backend debug_id;
  health_check := mysql_health_check;
  verify_cancel_privilege := mysql_verify_cancel_privilege debug_strings grant_text;
  describe_parameters := default_describe_parameters;
  describe_columns := default_describe_columns;
|}.

Definition sqlite_cancel_backend (pool : PoolHandle) (id : InFlight.BackendId) : M () := fun w =>
  let '(r, d) := SqliteCancel.cancel_backend debug_id id (sqlite w) in
  (r, World (events w) (in_flight w) d (tx_open w)).

(** [conn] is the pooled connection a call with a context pins. *)
Definition SqliteDriver (conn : nat) : SqlDriver := {|
  kind := "sqlite";
  connect := sqlite_connect;
  execute := sqlite_execute to_json; execute_with_ctx := sqlite_execute_with_ctx to_json conn;
  execute_affected := sqlite_execute_affected to_json;
  execute_affected_with_ctx := sqlite_execute_affected_with_ctx to_json conn;
  execute_multi_result := default_multi_result "sqlite";
  cancel_backend := sqlite_cancel_backend;
  health_check := sqlite_health_check;
  verify_cancel_privilege := default_verify_cancel_privilege;
  describe_parameters := default_describe_parameters;
  describe_columns := default_describe_columns;
|}.

(** [build_registry] under the features of a build. *)
Definition build_registry (feature : string -> bool) (conn : nat) (k : DriverKind) : option SqlDriver :=
  match k with
  | Postgres => if feature "postgres" then Some PostgresDriver else None
  | Mysql | Mariadb => if feature "mysql" then Some MysqlDriver else None
  | Sqlite => if feature "sqlite" then Some (SqliteDriver conn) else None
  end%string.

(** * Serving a pool *)

(** The pool a driver opens is of its own kind. *)
Definition own_pool (k : DriverKind) : PoolHandle :=
  match k with Postgres => PgPool | Mysql | Mariadb => MysqlPool | Sqlite => SqlitePool end.

(** The values a driver binds. *)
Definition bound_by (p : PoolHandle) (args : list BoundParam) : list sqlx_arg :=
  match p with PgPool => pg_args args | MysqlPool => mysql_args args | SqlitePool => sqlite_args to_json args end.

Definition health_plan : plan := [need (FetchOne OnPool "SELECT 1")].

(** The id of a statement in flight as a driver of the pool notes it, and the
    calls that cancel the statement: none on SQLite, where a flag is raised. *)
Definition backend_of (p : PoolHandle) (n : Z) : InFlight.BackendId :=
  match p with PgPool => InFlight.PgPid n | MysqlPool => InFlight.MysqlConn n | SqlitePool => InFlight.SqliteHandle n end.

Definition cancel_plan (p : PoolHandle) (n : Z) : plan :=
  match p with
  | PgPool => [need (Exec OnPool "SELECT pg_cancel_backend($1)" [ArgI32 n])]
  | MysqlPool => [need (Exec OnPool ("KILL QUERY " +:+ show_u n) [])]
  | SqlitePool => []
  end.

(** Cancelling: by the server's answer to those calls, or, on SQLite, by the
    flag of the statement. *)
Definition cancels (d : SqlDriver) (p : PoolHandle) : Prop := forall n,
  match p with
  | SqlitePool => forall w, exists lite,
      cancel_backend d p (backend_of p n) w = (Ok (), World (events w) (in_flight w) lite (tx_open w)) /\
      (forall l, SqliteCancel.cells lite !! l =
        (if decide (SqliteCancel.handles (sqlite w) !! n = Some l)
         then (fun c => SqliteCancel.mkCancel true (SqliteCancel.active c)) <$> SqliteCancel.cells (sqlite w) !! l
         else SqliteCancel.cells (sqlite w) !! l)) /\
      SqliteCancel.handles lite = SqliteCancel.handles (sqlite w) /\
      SqliteCancel.handlers lite = SqliteCancel.handlers (sqlite w)
  | _ => planned (cancel_plan p n) (cancel_backend d p (backend_of p n))
  end.

(** [d] serves [p]: every operation makes the calls of its plan. *)
Definition serves (d : SqlDriver) (p : PoolHandle) : Prop :=
  forall stmt args session ctx,
    let bound := bound_by p args in
    planned (path_plan (query_with stmt bound) session p) (execute d p stmt args session) /\
    planned (ctx_plan (query_with stmt bound) session p) (execute_with_ctx d p stmt args session ctx) /\
    planned (path_plan (count_with stmt bound) session p) (execute_affected d p stmt args session) /\
    planned (ctx_plan (count_with stmt bound) session p) (execute_affected_with_ctx d p stmt args session ctx) /\
    planned health_plan (health_check d p) /\ cancels d p.

(** The calls of a statement with several result sets. *)
Definition serves_sets (d : SqlDriver) (p : PoolHandle) : Prop :=
  forall stmt args session,
    planned (mysql_bracket (many_with stmt (mysql_args args)) session []) (execute_multi_result d p stmt args session).

(** [d] refuses [p] without a call; SQLite's [cancel_backend] takes no notice of
    its pool. *)
Definition rejects (d : SqlDriver) (p : PoolHandle) : Prop :=
  (forall stmt args session ctx,
    refuses (execute d p stmt args session) /\ refuses (execute_with_ctx d p stmt args session ctx) /\
    refuses (execute_affected d p stmt args session) /\ refuses (execute_affected_with_ctx d p stmt args session ctx) /\
    refuses (execute_multi_result d p stmt args session) /\ refuses (health_check d p)) /\
  (kind d <> "sqlite"%string -> forall id, refuses (cancel_backend d p id)).

Lemma planned_call {A B} (reply : list event -> call -> result sqlx_error A) c (b : B) :
  (forall ok, scope_step Idle (c, ok) = Some Idle) -> planned [need c] (let! _ := checked reply c in ret b).
Proof.
  intros Hs. apply (plays_bind _ [_] []); [by repeat constructor|by apply plays_checked|intros; apply plays_ret].
Qed.

Lemma pg_serves : serves PostgresDriver PgPool.
Proof.
  intros stmt args session ctx. destruct (pg_paths stmt args session ctx) as (H1 & H2 & H3 & H4). cbv zeta.
  split_and!; try done; [|intros n]; apply planned_call; by intros [].
Qed.

Lemma mysql_serves : serves MysqlDriver MysqlPool /\ serves_sets MysqlDriver MysqlPool.
Proof.
  split; intros stmt args session.
  - intros ctx. destruct (mysql_paths stmt args session ctx) as (H1 & H2 & H3 & H4 & _). cbv zeta.
    split_and!; try done; [|intros n]; apply planned_call; by intros [].
  - apply (mysql_paths stmt args session {| ctx_request_id := None; ctx_in_flight := false |}).
Qed.

Lemma sqlite_serves conn : serves (SqliteDriver conn) SqlitePool.
Proof.
  intros stmt args session ctx. destruct (sqlite_paths to_json stmt args session ctx conn) as (H1 & H2 & H3 & H4). cbv zeta.
  split_and!; try done; [apply planned_call; by intros []|]. intros n w. cbn. unfold sqlite_cancel_backend. cbn.
  eexists. split; [reflexivity|]. destruct (SqliteCancel.handles (sqlite w) !! n) as [l|] eqn:E; (split; [|done]); intros l'.
  - destruct (decide _) as [[= ->]|Hne]; cbn; [apply list_lookup_alter_eq|apply list_lookup_alter_ne; congruence].
  - by rewrite decide_False.
Qed.

Lemma registered_serves feature conn k d : build_registry feature conn k = Some d -> serves d (own_pool k).
Proof.
  destruct k; cbn; destruct (feature _); intros [= <-];
    [apply pg_serves|apply mysql_serves|apply mysql_serves|apply sqlite_serves].
Qed.

Lemma registered_rejects feature conn k d p :
  build_registry feature conn k = Some d -> p <> own_pool k -> rejects d p.
Proof.
  intros Hd Hp.
  destruct k; cbn in Hd, Hp; destruct (feature _); try done; injection Hd as <-; destruct p; try done; (split; [intros; cbn; split_and!|intros Hk id; try done]);
    eexists; reflexivity.
Qed.

(** What a driver's [connect] gives. *)
Lemma registered_outcome feature conn k d cc out :
  build_registry feature conn k = Some d -> connect d cc = Ok out ->
  handle out = own_pool k /\ (Creds.cc_auth_provider cc = None -> rotator out = None) /\
  (k <> Postgres -> rotator out = None) /\ opt_max_connections (options out) = Creds.cc_max_connections cc.
Proof.
  destruct k; cbn; destruct (feature _); intros [= <-]; cbn; unfold pg_connect, mysql_connect, sqlite_connect, rbind, rmap_err;
    intros E; destruct (Creds.cc_auth_provider cc) eqn:Ea; cbn in E; repeat (case_match; simplify_eq/=); try done.
Qed.


(** * What a validated binding gets *)

Context {Url : Type} `{UrlOps Url} `{Cel} (url_scheme : Url -> string) (url_error : string -> string)
        (cred_tokens : string -> list string).

Definition connect_pool (d : SqlDriver) (cc : Creds.ConnectCfg) : result SqlError (ConnectOutcome * option Z) :=
  let? o := connect d cc in Ok (o, rotator o).

Lemma build_pool_connect d enabled c out rot :
  Creds.build_pool (connect_pool d) enabled c = Ok (out, rot) ->
  exists cc, connect d cc = Ok out /\ rot = rotator out /\ (auth c = None -> Creds.cc_auth_provider cc = None) /\
    Creds.cc_max_connections cc = max_connections (pool c).
Proof.
  unfold Creds.build_pool, connect_pool, rbind, rmap_err. destruct (auth c) as [a|].
  - destruct (Auth.build_provider enabled a) as [pr|]; [|done]. intros E.
    destruct (connect d _) as [o|] eqn:Ec; [|done]. injection E as <- <-. by eexists.
  - intros E. destruct (connect d _) as [o|] eqn:Ec; [|done]. injection E as <- <-. by eexists.
Qed.

(** C9.  The pool a validated binding is opened with is one its driver serves:
    each execute path, the health check and cancelling a statement in flight
    make exactly the calls of their plans on it, and so does
    [execute_multi_result] when the binding asks for result sets.  On a pool of
    another driver each of them refuses without a call (except that SQLite's
    [cancel_backend], which only raises a flag, does not look at its pool).
    Only a Postgres binding with an [auth] block has a token rotator; the pool
    has the size the configuration says. *)
Theorem validated_binding_served feature enabled conn c d out rot :
  Config.validate url_scheme url_error cred_tokens debug_strings c = Ok () ->
  build_registry feature conn (Config.driver c) = Some d ->
  Creds.build_pool (connect_pool d) enabled c = Ok (out, rot) ->
  serves d (handle out) /\
  (forall p, p <> handle out -> rejects d p) /\
  (row_mode (query c) = ResultSets -> serves_sets d (handle out)) /\
  (rot <> None -> Config.driver c = Postgres /\ auth c <> None) /\
  opt_max_connections (options out) = max_connections (pool c).
Proof.
  intros Hv Hd Hb. apply validate_safe in Hv. pose proof (safe_result_sets _ _ _ Hv) as Hrs.
  destruct (build_pool_connect _ _ _ _ _ Hb) as (cc & Hc & -> & Ha & Hm).
  destruct (registered_outcome _ _ _ _ _ _ Hd Hc) as (Hh & Hn & Hr & Ho). rewrite Hh. split_and!.
  - by eapply registered_serves.
  - intros p. by eapply registered_rejects.
  - intros Hmode. destruct (Hrs Hmode) as [_ [E|E]]; rewrite E in *; cbn in Hd;
      destruct (feature _); try done; injection Hd as <-; apply mysql_serves.
  - intros Hrot. split; [|intros E; auto]. destruct (decide (Config.driver c = Postgres)) as [|Hne]; [done|]. by destruct (Hr Hne).
  - by rewrite Ho.
Qed.

(** [max_lifetime_ms: 0] means no limit on Postgres, and a limit of nothing on
    the others: sqlx closes every connection there that has any age. *)
Theorem lifetime_zero_differs feature conn k d cc out age :
  build_registry feature conn k = Some d -> connect d cc = Ok out ->
  Creds.cc_auth_provider cc = None -> Creds.cc_max_lifetime_ms cc = 0 -> 0 < age ->
  expired (options out) age = match k with Postgres => false | _ => true end.
Proof.
  intros Hd Hc Ha Hz Hage.
  assert (expired (pool_options cc (Some 0) [] []) age = true) as Hx by (cbn; by apply Z.ltb_lt).
  destruct k; cbn in Hd; destruct (feature _); try done; injection Hd as <-; cbn in Hc;
    unfold pg_connect, mysql_connect, sqlite_connect, rbind, rmap_err in Hc; rewrite ?Ha, ?Hz in Hc; cbn in Hc;
    repeat case_match; simplify_eq/=; done.
Qed.
End Drivers.

(** ** Examples *)

Module Demo.
Import ToyTypes ToyServer ToyUrl ToyCel ConfigDemo.
Local Open Scope string_scope.

#[local] Existing Instance strict_rows.
#[local] Instance server : Server strict_row := refusing "".

Definition no_url (u : string) : result string () := Ok ().
Definition opens (p : PoolHandle) (u : string) (o : PoolOptions) : result sqlx_error () := Ok ().
Definition all_features (f : string) : bool := true.

Definition registry := build_registry (fun _ => "") (fun _ => "") (fun _ => "") (fun _ => "")
  (fun _ => Err PoolClosed) no_url no_url no_url opens (fun _ => Some "db") (fun _ => None)
  (fun _ _ => true) (fun _ => Ok ()) (fun _ _ => Ok []) (fun _ _ => Ok (None, None)) all_features 0.

Definition mysql := MysqlDriver (fun _ => "") (fun _ => "") (fun _ => "") no_url opens.

Definition opened : ConnectOutcome := {|
  handle := MysqlPool; options := pool_options (Creds.from_config demo) (Some 1800000) [] ["SET NAMES utf8mb4"];
  rotator := None |}.

Lemma validated_binding_served_witness :
  serves (fun _ => "") mysql MysqlPool /\ rejects mysql PgPool /\
  opt_max_connections (options opened) = 10.
Proof.
  destruct (validated_binding_served (fun _ => "") (fun _ => "") (fun _ => "") (fun _ => "")
    (fun _ => Err PoolClosed) no_url no_url no_url opens (fun _ => Some "db") (fun _ => None)
    (fun _ _ => true) (fun _ => Ok ()) (fun _ _ => Ok []) (fun _ _ => Ok (None, None))
    (Url := ToyUrl.t) (fun _ => "mysql") (fun _ => "") (fun _ => []) all_features all_features 0 demo mysql opened None)
    as (Hs & Hr & _ & _ & Hm).
  - by vm_compute.
  - reflexivity.
  - by vm_compute.
  - split_and!; [exact Hs|by apply Hr|exact Hm].
Defined.

Example scheme_rewritten : normalized "mariadb://db/app" = "mysql://db/app" /\ normalized "mysql://db" = "mysql://db".
Proof. by vm_compute. Qed.
End Demo.
End DriverOps.
