(* ===== verification/FixedSql.v ===== *)
(** From a request to the database: registration ([Registration]), the call
    path ([Execute]), per-caller credentials ([Creds]) and the drivers
    ([DriverOps]) put together, for what the text of the SQL a server is sent
    can depend on: the statement of a binding, the steps of a transaction group
    and what a cancellation sends.

    A driver call that is cut off by its timeout has made a prefix of its calls. *)

From Stdlib Require Import ZArith Lia Bool Ascii String SpecFloat.
From stdpp Require Import base list strings gmap.
From S2P Require Import Prelude RustStd Redact Text Errors Json Params F64 InFlight Interval SqliteCancel Pool SqlText Sqlx Rows Drivers Transaction Stream Cache Cost Config Shape Execute ParamExprs Schema Auth Creds Registration Surface TxGroup DriverOps.

Module FixedSql.
Import DriverOps.

(** * What a driver call says *)

Definition text (c : call) : option string :=
  match c with
  | Exec _ sql _ | FetchAll _ sql _ | FetchOne _ sql | FetchMany _ sql _ => Some sql
  | _ => None
  end.

(** The SQL texts of some calls. *)
Definition texts (es : list event) : list string := omap (fun e => text (fst e)) es.

Section Says.
Context (allowed : list string).

(** Whatever the server answers, only these texts are sent. *)
Definition says {A} (m : M A) : Prop := forall w,
  exists es, events (snd (m w)) = events w ++ es /\ texts es ⊆ allowed.

Lemma texts_app a b : texts (a ++ b) = texts a ++ texts b.
Proof. unfold texts. apply omap_app. Qed.

Lemma says_nothing {A} (m : M A) : (forall w, events (snd (m w)) = events w) -> says m.
Proof. intros Hm w. exists []. rewrite app_nil_r. split; [apply Hm|apply list_subseteq_nil]. Qed.

Lemma says_lift {A} (r : result SqlError A) : says (Sqlx.lift r).
Proof. by apply says_nothing. Qed.

Lemma says_ret {A} (a : A) : says (ret a).
Proof. apply (says_lift (Ok a)). Qed.

Lemma says_raise {A} e : says (raise (A := A) e).
Proof. apply (says_lift (Err e)). Qed.

Lemma says_bind {A B} (m : M A) (k : A -> M B) : says m -> (forall a, says (k a)) -> says (bind m k).
Proof.
  intros Hm Hk w. unfold bind. destruct (Hm w) as (es & E & T). destruct (m w) as [[a|e] w']; cbn in E; [|by exists es].
  destruct (Hk a w') as (es' & E' & T'). exists (es ++ es'). rewrite E', E, app_assoc, texts_app. split; [done|]. set_solver.
Qed.

Lemma says_attempt {A} (m : M A) : says m -> says (attempt m).
Proof. intros Hm w. destruct (Hm w) as (es & E). exists es. unfold attempt. by destruct (m w). Qed.

Lemma says_perform {A} (reply : list event -> call -> result sqlx_error A) c :
  (forall s, text c = Some s -> s ∈ allowed) -> says (perform reply c).
Proof.
  intros Hc w. eexists [_]. split; [reflexivity|]. unfold texts. cbn. destruct (text c); [|apply list_subseteq_nil].
  specialize (Hc _ eq_refl). set_solver.
Qed.

Lemma says_many `{Server Row} c : (forall s, text c = Some s -> s ∈ allowed) -> says (perform_many (Row := Row) c).
Proof.
  intros Hc w. eexists [_]. split; [reflexivity|]. unfold texts. cbn. destruct (text c); [|apply list_subseteq_nil].
  specialize (Hc _ eq_refl). set_solver.
Qed.

Lemma says_checked {A} (reply : list event -> call -> result sqlx_error A) c :
  (forall s, text c = Some s -> s ∈ allowed) -> says (checked reply c).
Proof. intros Hc. apply says_bind; [by apply says_perform|]. intros r. apply says_lift. Qed.

Lemma says_drop c : text c = None -> says (drop_value c).
Proof. intros Hc w. exists [(c, true)]. split; [done|]. unfold texts. cbn. rewrite Hc. apply list_subseteq_nil. Qed.

Lemma says_on_sqlite {A} (f : SqliteCancel.driver -> A * SqliteCancel.driver) : says (on_sqlite f).
Proof. apply says_nothing. intros w. unfold on_sqlite. by destruct (f (sqlite w)). Qed.

Lemma says_note ctx id : says (note_backend ctx id).
Proof. apply says_nothing. intros w. unfold note_backend. by destruct (ctx_request_id ctx), (ctx_in_flight ctx). Qed.

Lemma says_for_each {A} (f : A -> M ()) l : (forall x, x ∈ l -> says (f x)) -> says (for_each f l).
Proof.
  induction l as [|x l IH]; intros Hf; [apply says_ret|]. apply says_bind; [apply Hf; set_solver|].
  intros _. apply IH. intros y Hy. apply Hf. set_solver.
Qed.

Lemma says_with_conn `{Server Row} {A} (body : M A) : says body -> says (with_conn body).
Proof.
  intros Hb. apply says_bind; [by apply says_checked|]. intros _. apply says_bind; [by apply says_attempt|].
  intros r. apply says_bind; [by apply says_drop|]. intros _. apply says_lift.
Qed.

Lemma says_with_tx `{Server Row} {A} t (body : M A) : says body -> says (with_tx t body).
Proof.
  intros Hb. apply says_bind; [by apply says_checked|]. intros _. apply says_bind; [by apply says_attempt|].
  intros [a|e].
  - apply says_bind; [by apply says_checked|]. intros _. apply says_ret.
  - apply says_bind; [by apply says_drop|]. intros _. apply says_raise.
Qed.
End Says.

Create HintDb says discriminated.
#[export] Hint Resolve says_lift says_ret says_raise says_bind says_attempt says_perform says_many says_checked
  says_on_sqlite says_note says_with_conn says_with_tx : says.

(** ** The texts of the execute paths *)

Definition var_texts (key : string) : list string := [set_var_sql key; null_var_sql key].

(** The drivers' own statements, and those that set and clear the session
    variables of these names. *)
Definition own_texts (names : list string) : list string :=
  ["SELECT set_config($1, $2, true)"; "SELECT pg_backend_pid()"; "SELECT CONNECTION_ID()"]%string ++
  concat (map var_texts names).

Definition allowed (stmt : PreparedStmt) (session : SessionVars) : list string :=
  stmt_sql stmt :: own_texts (map fst (values session)).

Lemma stmt_allowed stmt session : stmt_sql stmt ∈ allowed stmt session.
Proof. by left. Qed.

Lemma var_allowed stmt session k v :
  (k, v) ∈ values session -> set_var_sql k ∈ allowed stmt session /\ null_var_sql k ∈ allowed stmt session.
Proof.
  intros Hk. assert (forall s, s ∈ var_texts k -> s ∈ allowed stmt session) as Hin.
  { intros s Hs. right. apply elem_of_app. right. apply list_elem_of_In, in_concat. exists (var_texts k). split.
    - apply in_map. apply list_elem_of_In. by apply (list_elem_of_fmap_2 fst) in Hk.
    - by apply list_elem_of_In. }
  split; apply Hin; set_solver.
Qed.

Ltac own := intros ? [= <-]; first [apply stmt_allowed | right; apply elem_of_app; left; set_solver].
#[export] Hint Extern 1 (forall s, text _ = Some s -> s ∈ allowed _ _) => own : says.
#[export] Hint Extern 1 (forall s, text _ = Some s -> s ∈ allowed _ _) => done : says.

Section Drivers.
Context `{SqlxRow Row} `{!Server Row} (to_json : value -> string).
Context (stmt : PreparedStmt) (args : list BoundParam) (session : SessionVars) (ctx : ExecCtx) (conn : nat).

Abbreviation ok m := (says (allowed stmt session) m).

Lemma says_set_configs : ok (set_configs session).
Proof. apply says_for_each. intros [k v] _. eauto with says. Qed.

Lemma says_set_vars t : ok (set_vars t session).
Proof.
  apply says_for_each. intros [k v] Hk. apply says_bind; [|auto with says]. apply says_checked.
  intros s [= <-]. by destruct (var_allowed stmt session k v Hk).
Qed.

Lemma says_clear_vars t : ok (clear_vars t session).
Proof.
  apply says_for_each. intros [k v] Hk. apply says_bind; [|auto with says]. apply says_perform.
  intros s [= <-]. by destruct (var_allowed stmt session k v Hk).
Qed.

Lemma says_sqlite_start : ok (sqlite_start conn).
Proof. unfold sqlite_start. auto with says. Qed.

Lemma says_sqlite_finish r : ok (sqlite_finish conn r).
Proof. unfold sqlite_finish. auto 6 with says. Qed.

Hint Resolve says_set_configs says_set_vars says_clear_vars says_sqlite_start says_sqlite_finish : says.

Lemma pg_says pool :
  ok (pg_execute pool stmt args session) /\ ok (pg_execute_with_ctx pool stmt args session ctx) /\
  ok (pg_execute_affected pool stmt args session) /\ ok (pg_execute_affected_with_ctx pool stmt args session ctx).
Proof.
  split_and!; unfold pg_execute, pg_execute_with_ctx, pg_execute_affected, pg_execute_affected_with_ctx, pg_capture_pid, wrong_pool;
    destruct pool; auto with says; destruct (session_is_empty session); simpl negb; cbv iota; auto 15 with says.
Qed.

Lemma mysql_says pool :
  ok (mysql_execute pool stmt args session) /\ ok (mysql_execute_with_ctx pool stmt args session ctx) /\
  ok (mysql_execute_affected pool stmt args session) /\ ok (mysql_execute_affected_with_ctx pool stmt args session ctx) /\
  ok (mysql_execute_multi_result pool stmt args session).
Proof.
  split_and!; unfold mysql_execute, mysql_execute_with_ctx, mysql_execute_affected, mysql_execute_affected_with_ctx,
      mysql_execute_multi_result, mysql_capture_id, wrong_pool;
    destruct pool; auto with says; try destruct (session_is_empty session); auto 15 with says.
Qed.

Lemma sqlite_says pool :
  ok (sqlite_execute to_json pool stmt args session) /\ ok (sqlite_execute_with_ctx to_json conn pool stmt args session ctx) /\
  ok (sqlite_execute_affected to_json pool stmt args session) /\ ok (sqlite_execute_affected_with_ctx to_json conn pool stmt args session ctx).
Proof.
  split_and!; unfold sqlite_execute, sqlite_execute_with_ctx, sqlite_execute_affected, sqlite_execute_affected_with_ctx, wrong_pool;
    destruct pool; auto 15 with says.
Qed.
End Drivers.

(** ** The texts of a transaction group *)

Section Groups.
Context `{SqlxRow Row} `{!Server Row} (to_json : value -> string).
Context (show_error : SqlError -> string) (backend_error : SqlError -> BackendError).

(** The text of a step: what the group gives, its placeholders numbered. *)
Definition step_text (pool : PoolHandle) (step : Execute.TxStep) : string :=
  fst (rewrite_placeholders (Execute.tx_sql step) (TxGroup.tx_driver (TxGroup.handle_of to_json pool))).

Definition level_texts (level : option IsolationLevel) : list string :=
  match level with Some l => [sql_fragment l] | None => [] end.

Definition group_texts (pool : PoolHandle) (level : option IsolationLevel) (steps : list Execute.TxStep) : list string :=
  level_texts level ++ map (step_text pool) steps.

Section Within.
Context (within : list string).
Abbreviation ok m := (says within m).

Lemma says_take : ok take.
Proof. apply says_nothing. intros w. unfold take. by destruct (tx_open w). Qed.

Lemma says_put : ok put.
Proof. by apply says_nothing. Qed.

Lemma says_handle_drop : ok handle_drop.
Proof.
  intros w. unfold handle_drop. destruct (tx_open w); [exists [(DropTx, true)]|exists []; rewrite app_nil_r];
    (split; [done|apply list_subseteq_nil]).
Qed.

Hint Resolve says_take says_put : says.

Lemma says_put_err {A} e : ok (put_err (A := A) e).
Proof. unfold put_err. auto with says. Qed.

Lemma says_finish_tx b : ok (finish_tx b).
Proof. destruct b; cbn; [auto with says|]. apply says_bind; [by apply says_drop|auto with says]. Qed.

Lemma says_finish_affected r : ok (finish_affected r).
Proof. destruct r; cbn; [auto with says|apply says_put_err]. Qed.

Lemma says_end c : text c = None -> ok (let! _ := take in checked reply_unit c).
Proof. intros Hc. apply says_bind; [apply says_take|]. intros _. apply says_checked. by rewrite Hc. Qed.

Hint Resolve says_put_err says_finish_tx says_finish_affected : says.

Ltac says_step :=
  match goal with
  | |- says _ (bind _ _) => apply says_bind; [|intros ?]
  | |- says _ (match ?x with _ => _ end) => destruct x
  | |- says _ (perform _ _) => apply says_perform
  end.

Lemma handle_says pool stmt args :
  stmt_sql stmt ∈ within ->
  let h := TxGroup.handle_of to_json pool in
  ok (TxGroup.tx_execute h stmt args TxGroup.no_session) /\ ok (TxGroup.tx_execute_affected h stmt args TxGroup.no_session) /\
  ok (TxGroup.tx_commit h) /\ ok (TxGroup.tx_rollback h).
Proof.
  intros Hs h. assert (forall c, text c = Some (stmt_sql stmt) -> forall s, text c = Some s -> s ∈ within) as Hc.
  { intros c -> s [= <-]. done. }
  assert (ok (set_configs TxGroup.no_session) /\ ok (apply_session_vars TxGroup.no_session) /\
          ok (clear_session_vars TxGroup.no_session)) as (H1 & H2 & H3) by (split_and!; apply says_ret).
  subst h. destruct pool; cbn; split_and!; try by apply says_end.
  all: unfold pg_tx_execute, pg_tx_execute_affected, mysql_tx_execute, mysql_tx_execute_affected, sqlite_tx_execute,
    sqlite_tx_execute_affected; repeat says_step; first [by apply Hc|auto with says].
Qed.

Lemma says_steps pool steps input results :
  (forall step, step ∈ steps -> step_text pool step ∈ within) ->
  ok (TxGroup.run_tx_steps show_error (TxGroup.handle_of to_json pool) steps input results).
Proof.
  revert results. induction steps as [|step steps IH]; intros results Hs; cbn [TxGroup.run_tx_steps]; [apply says_ret|].
  assert (forall args, ok (TxGroup.tx_execute (TxGroup.handle_of to_json pool) (Execute.tx_stmt (TxGroup.tx_driver (TxGroup.handle_of to_json pool)) step) args TxGroup.no_session) /\
    ok (TxGroup.tx_execute_affected (TxGroup.handle_of to_json pool) (Execute.tx_stmt (TxGroup.tx_driver (TxGroup.handle_of to_json pool)) step) args TxGroup.no_session)) as Hx.
  { intros args. destruct (handle_says pool (Execute.tx_stmt (TxGroup.tx_driver (TxGroup.handle_of to_json pool)) step) args) as (X1 & X2 & _); [|done].
    replace (stmt_sql _) with (step_text pool step); [apply Hs; set_solver|].
    unfold Execute.tx_stmt, step_text. by destruct (rewrite_placeholders _ _). }
  apply says_bind.
  - unfold TxGroup.run_tx_nested_step. destruct (collect_bound_params _ _) as [args|e]; [|apply says_ret].
    destruct (Hx args). repeat case_match; auto with says.
  - intros [v|msg]; [apply IH; intros; apply Hs; set_solver|].
    apply says_bind; [apply says_attempt|intros; apply says_ret].
    destruct pool; cbn; by apply says_end.
Qed.

Lemma says_begin name pool level :
  level_texts level ⊆ within -> ok (Surface.begin_transaction name (Some (pool, level))).
Proof.
  intros Hl. apply says_bind; [by apply says_checked|]. intros _.
  assert (forall l, level = Some l -> forall s, text (Exec OnTx (sql_fragment l) []) = Some s -> s ∈ within) as Hs.
  { intros l -> s [= <-]. apply Hl. by left. }
  destruct pool, level as [l|]; auto with says.
  all: apply says_bind; [apply says_attempt, says_checked, Hs; done|]; intros [|e]; [apply says_put|];
    apply says_bind; [by apply says_drop|auto with says].
Qed.
End Within.

(** A group sends its isolation level and the texts of its own steps. *)
Lemma group_says name pool level steps input :
  says (group_texts pool level steps)
    (TxGroup.execute_transaction to_json show_error backend_error name (Some (pool, level)) steps input).
Proof.
  unfold TxGroup.execute_transaction. apply says_bind.
  - apply says_attempt, says_begin. unfold group_texts. set_solver.
  - intros [_|e]; [|apply says_ret]. apply says_bind.
    + apply says_steps. intros step Hs. unfold group_texts. apply elem_of_app. right. by apply list_elem_of_fmap_2.
    + intros [results|e]; [|apply says_bind; [apply says_handle_drop|intros; apply says_ret]].
      apply says_bind; [apply says_attempt; destruct pool; cbn; by apply says_end|]. intros c.
      apply says_bind; [apply says_handle_drop|]. intros _. apply says_ret.
Qed.
End Groups.

(** * What a call asks of its driver *)

Section Calls.
Import Stream.Stream Execute.
Context `{CursorOps} `{Cel} {Url : Type} `{UrlOps Url} (sqlx_display : sqlx_error -> string) (show_f64 : f64 -> string)
        (digest : list byte -> string) (number_str : number -> string).
Context (name : string) (rt : ProfileRuntime) (env : Env).

(** The statements of a profile. *)
Definition statements : list PreparedStmt :=
  rt_stmt rt :: match await_rt rt with
                | Some aw => check_stmt aw :: match trigger_stmt aw with Some s => [s] | None => [] end
                | None => []
                end.

Context (names : list string).
Hypothesis static_names : map fst (values (rt_session_vars rt)) = names.
Hypothesis call_names : forall vars, call_vars rt env = Ok vars -> map fst (values vars) = names.

Definition fixed_call (e : effect) : Prop :=
  match e with
  | ECall _ stmt _ vars => stmt ∈ statements /\ map fst (values vars) = names
  | _ => True
  end.

Definition fixed {A} (m : W A) : Prop := Forall fixed_call (snd m).

Lemma fixed_lift {A} (r : result BackendError A) : fixed (lift r).
Proof. constructor. Qed.

Lemma fixed_ret {A} (a : A) : fixed (wret a).
Proof. constructor. Qed.

Lemma fixed_bind {A B} (m : W A) (k : A -> W B) : fixed m -> (forall a, fixed (k a)) -> fixed (wbind m k).
Proof.
  unfold fixed. intros Hm Hk. destruct m as [[a|e] fx]; [|done]. cbn in *. specialize (Hk a).
  destruct (k a) as [r fx']. by apply Forall_app.
Qed.

Lemma fixed_call_of n stmt bound :
  stmt ∈ statements -> fixed (tell [ECall n stmt bound (rt_session_vars rt)]).
Proof. intros Hs. constructor; [by split|constructor]. Qed.

Lemma fixed_refund {A} args reason (r : result BackendError A) : fixed (r, refund rt args reason).
Proof. unfold fixed, refund. cbn. destruct (rt_cost rt); by repeat constructor. Qed.

Lemma fixed_charge args n b : fixed (charge sqlx_display show_f64 rt args n b).
Proof. unfold charge. destruct (rt_cost rt); [|apply fixed_ret]. destruct (compute _ _ _ _ _); by repeat constructor. Qed.

(** A timed call's outcome adds no calls. *)
Lemma fixed_outcome {A B} (o : timed A) args (k : A -> W B) : (forall a, fixed (k a)) ->
  fixed match o with
        | TimedOut => fail_timeout rt args
        | Finished (Err e) => fail_refund sqlx_display rt args e
        | Finished (Ok a) => k a
        end.
Proof. intros Hk. destruct o as [|[a|e]]; [apply fixed_refund|apply Hk|apply fixed_refund]. Qed.

Lemma fixed_filtered fx : Forall fixed_call (calls fx) -> Forall fixed_call fx.
Proof.
  unfold calls. induction fx as [|e fx IH]; [done|]. cbn. destruct (is_call e) eqn:E.
  - intros [He Hf]%Forall_cons. constructor; auto.
  - intros Hf. constructor; [by destruct e|auto].
Qed.

Lemma query_fixed req : fixed (execute_query sqlx_display show_f64 digest number_str name req rt env).
Proof.
  apply fixed_filtered.
  destruct (query_calls sqlx_display show_f64 digest number_str name req rt env) as [->|(args & bound & vars & _ & _ & Hv & Hc)]; [constructor|].
  assert (forall n, fixed_call (call_of rt bound vars n)) as Hf by (intros n; split; [by left|by apply call_names]).
  destruct Hc as [-> |[-> _]]; repeat (apply Forall_cons; split; [apply Hf|]); constructor.
Qed.

Lemma check_fixed aw ae args n : await_rt rt = Some aw -> fixed (await_check sqlx_display rt aw ae args n).
Proof.
  intros Ha. apply fixed_bind; [apply fixed_lift|]. intros bound. apply fixed_bind.
  - apply fixed_call_of. unfold statements. rewrite Ha. set_solver.
  - intros _. apply fixed_outcome. intros b. apply fixed_ret.
Qed.

Lemma trigger_fixed aw ae args : await_rt rt = Some aw -> fixed (run_trigger sqlx_display rt aw ae args).
Proof.
  intros Ha. unfold run_trigger. destruct (trigger_stmt aw) as [stmt|] eqn:Et; [|apply fixed_ret].
  apply fixed_bind; [apply fixed_lift|]. intros bound. apply fixed_bind.
  - apply fixed_call_of. unfold statements. rewrite Ha, Et. set_solver.
  - intros _. apply fixed_outcome. intros b. apply fixed_ret.
Qed.

Lemma matched_fixed args row polls : fixed (await_matched sqlx_display show_f64 name rt env args row polls).
Proof.
  apply fixed_bind; [destruct (to_vec env row); [apply fixed_ret|apply fixed_refund]|]. intros bytes.
  apply fixed_bind; [apply fixed_charge|]. intros _. apply fixed_ret.
Qed.

Lemma loop_fixed aw ae args : await_rt rt = Some aw ->
  forall fuel n m, await_loop sqlx_display show_f64 fuel n name rt aw env ae args = Some m -> fixed m.
Proof.
  intros Ha fuel. induction fuel as [|fuel IH]; intros n m; [done|]. cbn [await_loop].
  pose proof (check_fixed aw ae args n Ha) as Hc. unfold fixed in Hc.
  destruct (await_check _ _ _ _ _ _) as [[row|e] fx]; [|by intros [= <-]]. cbn in Hc.
  destruct (evaluate_await_predicate _ _ _).
  { pose proof (matched_fixed args row (Z.of_nat n + 1)) as Hm. unfold fixed in Hm.
    destruct (await_matched _ _ _ _ _ _ _ _) as [r fx']. intros [= <-]. by apply Forall_app. }
  destruct (_ || _).
  { pose proof (fixed_refund (A := BackendResponse) args "timeout" (Err (BTimeout (await_timeout_ms (await_cfg aw))))) as Hm.
    destruct (await_timeout rt aw args) as [r fx'] eqn:Et. unfold await_timeout in Et. injection Et as <- <-.
    intros [= <-]. by apply Forall_app. }
  destruct (await_loop _ _ _ _ _ _ _ _ _ _) as [[r fx']|] eqn:E; [|done]. intros [= <-].
  apply Forall_app. split; [done|]. exact (IH _ _ E).
Qed.

Lemma registered_fixed {A} id (m : W A) : fixed m -> fixed (registered id m).
Proof. intros Hm. constructor; [done|]. apply Forall_app. split; [done|by repeat constructor]. Qed.

Lemma inner_fixed fuel req ae m :
  execute_inner_impl sqlx_display show_f64 digest number_str fuel name req rt env ae = Some m -> fixed m.
Proof.
  unfold execute_inner_impl. destruct (await_rt rt) as [aw|] eqn:Ha.
  2: { intros [= <-]. apply registered_fixed, query_fixed. }
  unfold execute_await_loop. destruct (await_args sqlx_display rt env req) as [args|e]; cbn [lift wbind].
  2: { intros [= <-]. apply registered_fixed. constructor. }
  pose proof (trigger_fixed aw ae args Ha) as Ht. unfold fixed in Ht.
  destruct (run_trigger _ _ _ _ _) as [[[]|e] fx]; cbn [wbind wret]; [|intros [= <-]; by apply registered_fixed].
  rewrite app_nil_r. cbn [app] in *. destruct (await_loop _ _ _ _ _ _ _ _ _ _) as [[r fx']|] eqn:E; [|done].
  intros [= <-]. apply registered_fixed. apply Forall_app. split; [done|]. exact (loop_fixed aw ae args Ha _ _ _ E).
Qed.
End Calls.

(** * From registration to the server *)

Section EndToEnd.
Context `{SqlxRow Row} `{!Server Row} (to_json : value -> string)
        (debug_id : InFlight.BackendId -> string) (debug_strings : list string -> string)
        (grant_text : Row -> string) (describe : string -> result sqlx_error Schema.Describe)
        (parse_pg parse_mysql parse_sqlite : string -> result string ())
        (open : PoolHandle -> string -> PoolOptions -> result sqlx_error ())
        (url_host : string -> option string) (url_port : string -> option Z)
        (load_chain : string -> option string -> bool) (issue : string -> result string ())
        (sigv4 : string -> Z -> result string (list (string * string)))
        (append_pairs : string -> list (string * string) -> result string (option string * option string)).

Abbreviation registry := (build_registry to_json debug_id debug_strings grant_text describe parse_pg parse_mysql
  parse_sqlite open url_host url_port load_chain issue sigv4 append_pairs).

(** The ways the call path runs a statement. *)
Definition runs (d : SqlDriver) (pool : PoolHandle) (stmt : PreparedStmt) (args : list BoundParam)
  (session : SessionVars) (ctx : ExecCtx) : list (world -> world) := [
    fun w => snd (execute d pool stmt args session w);
    fun w => snd (execute_with_ctx d pool stmt args session ctx w);
    fun w => snd (execute_affected d pool stmt args session w);
    fun w => snd (execute_affected_with_ctx d pool stmt args session ctx w);
    fun w => snd (execute_multi_result d pool stmt args session w) ].

(** The calls of one run, or those before its timeout. *)
Definition ran (d : SqlDriver) (stmt : PreparedStmt) (args : list BoundParam) (session : SessionVars)
  (es : list event) : Prop :=
  exists pool ctx run w rest, run ∈ runs d pool stmt args session ctx /\ events (run w) = events w ++ es ++ rest.

(** The calls a driver made for the effects of a call. *)
Inductive sent (d : SqlDriver) : list Execute.effect -> list event -> Prop :=
| sent_nothing : sent d [] []
| sent_call n stmt args session fx es es' :
    ran d stmt args session es -> sent d fx es' -> sent d (Execute.ECall n stmt args session :: fx) (es ++ es')
| sent_other e fx es : Execute.is_call e = false -> sent d fx es -> sent d (e :: fx) es.

Lemma runs_say feature conn k d pool stmt args session ctx run w :
  registry feature conn k = Some d -> run ∈ runs d pool stmt args session ctx ->
  exists es, events (run w) = events w ++ es /\ texts es ⊆ allowed stmt session.
Proof.
  intros Hd Hin. unfold runs in Hin. rewrite !elem_of_cons, elem_of_nil in Hin.
  assert (forall e, says (allowed stmt session) (raise (A := list (list value)) e)) as Hr by (intros; apply says_raise).
  destruct k; cbn in Hd; destruct (feature _); try done; injection Hd as <-.
  - destruct (pg_says stmt args session ctx pool) as (H1 & H2 & H3 & H4).
    destruct Hin as [->|[->|[->|[->|[->|[]]]]]]; [apply H1|apply H2|apply H3|apply H4|apply Hr].
  - destruct (mysql_says stmt args session ctx pool) as (H1 & H2 & H3 & H4 & H5).
    destruct Hin as [->|[->|[->|[->|[->|[]]]]]]; [apply H1|apply H2|apply H3|apply H4|apply H5].
  - destruct (mysql_says stmt args session ctx pool) as (H1 & H2 & H3 & H4 & H5).
    destruct Hin as [->|[->|[->|[->|[->|[]]]]]]; [apply H1|apply H2|apply H3|apply H4|apply H5].
  - destruct (sqlite_says to_json stmt args session ctx conn pool) as (H1 & H2 & H3 & H4).
    destruct Hin as [->|[->|[->|[->|[->|[]]]]]]; [apply H1|apply H2|apply H3|apply H4|apply Hr].
Qed.

Lemma ran_says feature conn k d stmt args session es :
  registry feature conn k = Some d -> ran d stmt args session es -> texts es ⊆ allowed stmt session.
Proof.
  intros Hd (pool & ctx & run & w & rest & Hin & E).
  destruct (runs_say feature conn k d pool stmt args session ctx run w Hd Hin) as (es0 & E0 & T).
  rewrite E0 in E. apply app_inv_head in E as ->. rewrite texts_app in T. set_solver.
Qed.

Context {Url : Type} `{UrlOps Url} (sqlx_display : sqlx_error -> string).
Context `{Cel} `{Stream.CursorOps}.
Context (url_scheme : Url -> string) (url_error : string -> string) (cred_tokens : string -> list string).
Context (substitute : string -> gmap string string -> string) (parse_ref : string -> option (string * string))
        (blake3 : list byte -> Pool.CredDigest).
Context (show_f64 : f64 -> string) (digest : list byte -> string) (number_str : number -> string).

(** Every text a binding can send: its statements, the drivers' own, and the
    [SET]s of its session variables. *)
Definition sql_texts (rt : Execute.ProfileRuntime) (c : SqlBackendConfig) : list string :=
  map stmt_sql (statements rt) ++ own_texts (map fst (session_vars c)).

Lemma sent_texts feature conn k d rt c fx es :
  registry feature conn k = Some d -> Forall (fixed_call rt (map fst (session_vars c))) fx -> sent d fx es ->
  texts es ⊆ sql_texts rt c.
Proof.
  intros Hd Hf Hs. induction Hs as [|n stmt args session fx es es' Hr _ IH|e fx es _ _ IH].
  - apply list_subseteq_nil.
  - apply Forall_cons in Hf as [[Hstmt Hn] Hf]. rewrite texts_app. specialize (IH Hf).
    pose proof (ran_says _ _ _ _ _ _ _ _ Hd Hr) as T. unfold allowed in T. rewrite Hn in T.
    intros s [Hin|Hin]%elem_of_app; [|by apply IH]. apply elem_of_app. apply T in Hin.
    apply elem_of_cons in Hin as [->|Hin]; [left|by right]. by apply list_elem_of_fmap_2.
  - apply Forall_cons in Hf as [_ Hf]. auto.
Qed.

(** The request's environment resolves its session variables as
    [resolve_creds_for] does. *)
Definition resolves (c : SqlBackendConfig) (env : Execute.Env) : Prop :=
  exists resolver ctx, Execute.resolve_vars env =
    (let? r := Creds.resolve_creds_for cred_tokens substitute parse_ref blake3 resolver ctx c in
     Ok {| values := Creds.rc_session_vars r |}).

Lemma call_names rt c env vars :
  values (Execute.rt_session_vars rt) = session_vars c -> resolves c env ->
  Execute.call_vars rt env = Ok vars -> map fst (values vars) = map fst (session_vars c).
Proof.
  intros Hs (resolver & ctx & He). unfold Execute.call_vars. destruct (Execute.has_cred_refs rt).
  - rewrite He. unfold rbind. destruct (Creds.resolve_creds_for _ _ _ _ _ _ _) as [r|] eqn:Er; [|done]. intros [= <-].
    apply Creds.resolve_creds_ok in Er as (mp & _ & ->). cbn. unfold Creds.resolved_session_vars. by rewrite map_map.
  - intros [= <-]. by rewrite Hs.
Qed.

Context {RPool Rotator : Type}.

(** The texts that cancel a statement in flight. *)
Definition cancel_text (id : InFlight.BackendId) : list string :=
  match id with
  | InFlight.MysqlConn n => ["KILL QUERY " +:+ show_u n]
  | _ => ["SELECT pg_cancel_backend($1)"]
  end%string.

Lemma cancel_says feature conn k d pool id :
  registry feature conn k = Some d -> says (cancel_text id) (cancel_backend d pool id).
Proof.
  assert (forall A e, says (cancel_text id) (raise (A := A) e)) as Hr by (intros; apply says_raise).
  assert (forall c, text c = Some (hd EmptyString (cancel_text id)) ->
    says (cancel_text id) (let! _ := checked reply_count c in ret ())) as Hc.
  { intros c Hc. apply says_bind; [|intros; apply says_ret]. apply says_checked. rewrite Hc. intros s [= <-]. destruct id; by left. }
  intros Hd. destruct k; cbn in Hd; destruct (feature _); try done; injection Hd as <-; cbn [cancel_backend PostgresDriver MysqlDriver SqliteDriver].
  1-3: destruct pool; cbn; unfold wrong_pool; try done; destruct id; try done; by apply Hc.
  apply says_nothing. intros w. unfold sqlite_cancel_backend. by destruct (SqliteCancel.cancel_backend _ _ _).
Qed.

(** C1.  No caller of a registered binding writes SQL: every text that a call of
    [execute] has its driver send (the query and its retry, the trigger and the
    checks of a fire-and-wait, cut off by their timeouts or not) is one of a list
    that the configuration fixes, whatever the request, the credentials and the
    server's answers; the statement among them is the configured one with its
    placeholders numbered, and the names that are spliced into [SET] are plain
    identifiers.  Cancelling a statement sends nothing but the driver's own text
    with the number of its backend.  A transaction group, whose steps carry
    their SQL, sends the texts of its steps with their placeholders numbered and
    the configured isolation level, nothing else.  Listing, completion, schema
    derivation and registration itself are outside this theorem. *)
Theorem sql_text_fixed env name spec pl rfx pl' (p : Registration.Profile (PoolHandle := RPool) (Rotator := Rotator)) fuel req call_env ae r fx feature conn d es
  (show_error : SqlError -> string) (backend_error : SqlError -> BackendError) :
  Registration.register_profile sqlx_display url_scheme url_error cred_tokens debug_strings env name spec pl = (Ok (), rfx, pl') ->
  Registration.profiles pl' !! name = Some p ->
  let c := Registration.cfg p in
  let rt := Registration.core p in
  resolves c call_env ->
  Execute.execute_inner_impl sqlx_display show_f64 digest number_str fuel name req rt call_env ae = Some (r, fx) ->
  registry feature conn (Execute.rt_driver rt) = Some d -> sent d fx es ->
  texts es ⊆ sql_texts rt c /\
  (exists raw, Registration.raw_statement (Registration.read_file env) c = Ok raw /\
     stmt_sql (Execute.rt_stmt rt) = fst (rewrite_placeholders raw (driver c))) /\
  (forall k, k ∈ map fst (session_vars c) ->
     match driver c with
     | Postgres => identifier k
     | Mysql | Mariadb => plain_name k
     | Sqlite => False
     end) /\
  (forall pool id, says (cancel_text id) (cancel_backend d pool id)) /\
  (forall pool steps input,
     says (group_texts to_json pool (isolation_level c) steps)
       (TxGroup.execute_transaction to_json show_error backend_error name (Some (pool, isolation_level c)) steps input)).
Proof.
  intros Hreg Hp c rt Hres Hcall Hd Hsent.
  apply Registration.register_ok in Hreg as (_ & p' & E & ->). cbn in Hp. rewrite lookup_insert_eq in Hp.
  injection Hp as ->.
  apply Registration.build_profile_cases in E as [_ [[? _]|(c' & derive & stmt & _ & Hv & _ & Hs & _ & Hok)]]; [done|].
  destruct (Hok p eq_refl) as [_ [Hcfg Hst Hvars ? ? ? ? ? ? ? ? ? ? ? ? ?]]. assert (c = c') as -> by exact Hcfg.
  split_and!.
  - eapply sent_texts; [exact Hd| |exact Hsent].
    assert (fixed rt (map fst (session_vars c')) (r, fx)) as Hf; [|exact Hf].
    eapply inner_fixed; [..|exact Hcall].
    + subst rt. by rewrite Hvars.
    + intros vars. by apply call_names.
  - unfold Registration.prepare_stmt, rbind in Hs.
    destruct (Registration.raw_statement _ _) as [raw|]; [|done]. exists raw. split; [done|].
    subst rt. rewrite Hst. destruct (rewrite_placeholders raw (driver c')) as [sql order].
    destruct (match order with [] => _ | _ => _ end) as [o|]; [by injection Hs as <-|done].
  - intros k Hk. apply validate_safe in Hv. apply (safe_vars _ _ _ Hv k Hk).
  - intros pool id. by eapply cancel_says.
  - intros pool steps input. apply group_says.
Qed.
End EndToEnd.

(** ** Examples *)

Module Demo.
Import ToyTypes ToyServer ToyUrl ToyCel Stream.ToyCursor DriverOps.Demo.
Local Open Scope string_scope.

#[local] Existing Instance strict_rows.
#[local] Existing Instance server.

Definition config : SqlBackendConfig := {|
  driver := Mysql; url := "u:pw"; pool := default_pool; allow_private_backends := true;
  query := {| body := Sql "SELECT id FROM t WHERE owner = :owner"; params := ["owner"]; param_exprs := []; row_mode := Many;
              max_rows := 10; timeout_ms := None; read_only := true; progress_heartbeat_ms := None; stream := None |};
  session_vars := [("tenant_id", "acme")]; circuit_breaker := None; list_query := None; await_ := None;
  isolation_level := None; cache := None; cost := None; auth := None |}.

Definition reg_env : Registration.RegEnv (PoolHandle := nat) (Rotator := ()) := {|
  Registration.parse_spec := fun _ => Ok (config, Schema.Off); Registration.compiled := fun _ => true;
  Registration.auth_enabled := fun _ => false; Registration.read_file := fun _ => Err "no file";
  Registration.connect := fun _ => Ok (0%nat, None); Registration.health_check := fun _ => Ok ();
  Registration.verify_cancel_privilege := fun _ => Ok (); Registration.describe_parameters := fun _ _ _ => Ok None;
  Registration.describe_columns := fun _ _ _ => Ok None; Registration.generated_key := [] |}.

Definition register := Registration.register_profile (Url := ToyUrl.t) ToyUrl.display (fun _ => "mysql") (fun _ => "")
  (fun _ => []) (fun _ => "") reg_env "b" VNull {| Registration.draining := false; Registration.profiles := ∅ |}.

Definition substitute (s : string) (m : gmap string string) : string := s.
Definition no_ref (s : string) : option (string * string) := None.
Definition hash (b : list byte) : Pool.CredDigest := 0.
Definition caller : Creds.HostContext :=
  {| Creds.parent_request_id := "r1"; Creds.host_session_id := None; Creds.host_backend := "b"; Creds.identity := None |}.

(** A caller that tries to write SQL. *)
Definition hostile : string := "x'; DROP TABLE t; --".
Definition batch : RowBatch := {| columns := []; rows := []; rows_affected := None; truncated := false; has_more := false |}.
Definition call_env : Execute.Env := {|
  Execute.from_slice := fun _ => Ok (VObject [("owner", VString hostile)]); Execute.to_vec := fun _ => Ok [];
  Execute.resolve_pool := Ok ();
  Execute.resolve_vars := (let? r := Creds.resolve_creds_for (fun _ => []) substitute no_ref hash (fun _ v => Ok v) caller config in
                           Ok {| values := Creds.rc_session_vars r |});
  Execute.eval_params := fun v => Ok v; Execute.cache_version := 0; Execute.cache_get := fun _ => Ok None;
  Execute.call := fun _ _ _ _ => Execute.Finished (Ok batch); Execute.call_affected := fun _ _ _ _ => Execute.TimedOut;
  Execute.call_multi := fun _ _ _ => Execute.TimedOut |}.
Definition req : Execute.BackendRequest :=
  {| Execute.req_payload := [Byte.x7b]; Execute.request_id := "r1"; Execute.idempotency := None |}.
Definition no_wait : Execute.AwaitEnv := {|
  Execute.trigger_call := fun _ _ _ => Execute.TimedOut; Execute.check_call := fun _ _ _ _ => Execute.TimedOut;
  Execute.started_at := 0; Execute.clock := fun _ => 0; Execute.drained := fun _ => false |}.

Definition prepared : PreparedStmt :=
  {| stmt_sql := "SELECT id FROM t WHERE owner = ?"; param_order := ["owner"]; stmt_driver := Mysql |}.
Definition bound : list BoundParam := [{| bp_name := "owner"; bp_value := VString hostile |}].
Definition vars : SessionVars := {| values := [("tenant_id", "acme")] |}.
Definition ctx : ExecCtx := {| ctx_request_id := Some "r1"; ctx_in_flight := true |}.

(** What the server is sent. *)
Definition made : list event := events (snd (mysql_execute_with_ctx MysqlPool prepared bound vars ctx fresh)).

Example made_texts :
  texts made = ["SELECT CONNECTION_ID()"; "SET @tenant_id = ?"; "SELECT id FROM t WHERE owner = ?"; "SET @tenant_id = NULL"].
Proof. by vm_compute. Qed.

Definition effects : list Execute.effect :=
  [Execute.ERegister "r1"; Execute.ECall 0 prepared bound vars; Execute.EDeregister "r1"].

Lemma sent_made : sent mysql effects made.
Proof.
  apply sent_other; [done|]. rewrite <- (app_nil_r made). apply sent_call; [|apply sent_other; [done|apply sent_nothing]].
  exists MysqlPool, ctx, (fun w => snd (execute_with_ctx mysql MysqlPool prepared bound vars ctx w)), fresh, [].
  split; [right; left|]. by rewrite app_nil_r.
Qed.

Definition all_texts : list string :=
  ["SELECT id FROM t WHERE owner = ?"; "SELECT set_config($1, $2, true)"; "SELECT pg_backend_pid()";
   "SELECT CONNECTION_ID()"; "SET @tenant_id = ?"; "SET @tenant_id = NULL"].

Lemma registered :
  exists p, fst (fst register) = Ok () /\ Registration.profiles (snd register) !! "b" = Some p /\
    Registration.cfg p = config /\ Execute.rt_driver (Registration.core p) = Mysql /\
    sql_texts (Registration.core p) config = all_texts /\
    Execute.execute_inner_impl (Url := ToyUrl.t) ToyUrl.display (fun _ => "") (fun _ => "") (fun _ => "") 1 "b" req
      (Registration.core p) call_env no_wait = Some (Ok (Execute.mkResponse [] false), effects).
Proof. eexists. split; [by vm_compute|]. split; [vm_compute; reflexivity|]. split_and!; by vm_compute. Qed.

Lemma sql_text_fixed_witness : texts made ⊆ all_texts.
Proof.
  destruct registered as (p & Hr & Hp & Hc & Hd & <- & Hx). rewrite <- Hc.
  refine (proj1 (sql_text_fixed (fun _ => "") (fun _ => "") (fun _ => "") (fun _ => "")
    (fun _ => Err PoolClosed) no_url no_url no_url opens (fun _ => Some "db") (fun _ => None)
    (fun _ _ => true) (fun _ => Ok ()) (fun _ _ => Ok []) (fun _ _ => Ok (None, None))
    (Url := ToyUrl.t) ToyUrl.display (fun _ => "mysql") (fun _ => "") (fun _ => []) substitute no_ref hash
    (fun _ => "") (fun _ => "") (fun _ => "")
    reg_env "b" VNull {| Registration.draining := false; Registration.profiles := ∅ |}
    (snd (fst register)) (snd register) p 1 req call_env no_wait _ effects all_features 0 mysql made
    TxGroup.Demo.show_error TxGroup.Demo.backend_error _ Hp _ Hx _ _)).
  - change (register = (Ok (), snd (fst register), snd register)). rewrite <- Hr. by destruct register as [[]].
  - rewrite Hc. by exists (fun _ v => Ok v), caller.
  - by rewrite Hd.
  - exact sent_made.
Defined.
End Demo.
End FixedSql.
