(* ===== verification/Spec.v ===== *)
(** The specs an operator writes, as the plugin reads them: the [Deserialize] and
    [Serialize] implementations derived for the configuration types of
    [src/src/config.rs] and the blocks they hold.

    Each type has a codec built from the combinators of [Serde] by the attributes
    its declaration carries.  [Sensitive<String>] is code of another crate, hence
    a parameter. *)

From Stdlib Require Import ZArith Lia Bool Ascii String SpecFloat.
From stdpp Require Import base list strings option gmap.
From S2P Require Import Prelude RustStd Text Errors Redact Breaker Json Serde Params SqlText Stream Cost Config Schema Creds Registration.

(** * Enums *)

Definition isolation_name (l : IsolationLevel) : string :=
  match l with
  | ReadCommitted => "read_committed"
  | RepeatableRead => "repeatable_read"
  | Serializable => "serializable"
  end.

Definition row_mode_name (r : RowMode) : string :=
  match r with
  | Single => "single"
  | Many => "many"
  | Scalar => "scalar"
  | AffectedRows => "affected_rows"
  | ResourceContents => "resource_contents"
  | StreamMode => "stream"
  | ResultSets => "result_sets"
  end.

Definition list_mode_name (m : ListQueryMode) : string :=
  match m with Keyset => "keyset" | Offset => "offset" end.

Definition derive_name (d : Schema.SchemaDerive) : string :=
  match d with
  | Schema.Off => "off"
  | Schema.Input => "input"
  | Schema.Output => "output"
  | Schema.Both => "both"
  end.

Definition driver_codec : codec DriverKind := unit_enum DriverKind_as_str [Postgres; Mysql; Mariadb; Sqlite].
Definition isolation_codec : codec IsolationLevel :=
  unit_enum isolation_name [ReadCommitted; RepeatableRead; Serializable].
Definition row_mode_codec : codec RowMode :=
  unit_enum row_mode_name [Single; Many; Scalar; AffectedRows; ResourceContents; StreamMode; ResultSets].
Definition list_mode_codec : codec ListQueryMode := unit_enum list_mode_name [Keyset; Offset].
Definition unit_codec : codec CostUnit := unit_enum CostUnit_as_str [PerCall; PerRow; PerByte; PerQuery].
Definition derive_codec : codec Schema.SchemaDerive :=
  unit_enum derive_name [Schema.Off; Schema.Input; Schema.Output; Schema.Both].

(** * The blocks of a configuration *)

Abbreviation u32 := (uint 32).
Abbreviation u64 := (uint 64).

Definition pool_fields : list string :=
  ["max_connections"; "min_idle"; "acquire_timeout_ms"; "idle_timeout_ms"; "max_lifetime_ms"; "test_before_acquire";
   "require_cancel_privilege"]%string.

Definition pool_codec : codec PoolConfig := {|
  ser := fun p => VObject (object [
    ("max_connections", ser u32 (max_connections p)); ("min_idle", ser u32 (min_idle p));
    ("acquire_timeout_ms", ser u64 (acquire_timeout_ms p)); ("idle_timeout_ms", ser u64 (idle_timeout_ms p));
    ("max_lifetime_ms", ser u64 (max_lifetime_ms p)); ("test_before_acquire", ser boolean (test_before_acquire p));
    ("require_cancel_privilege", ser boolean (require_cancel_privilege p))]%string);
  de := fun v =>
    m ← entries true pool_fields v;
    a ← defaulted u32 "max_connections" 10 m;
    b ← defaulted u32 "min_idle" 0 m;
    c ← defaulted u64 "acquire_timeout_ms" 5000 m;
    d ← defaulted u64 "idle_timeout_ms" 300000 m;
    e ← defaulted u64 "max_lifetime_ms" 1800000 m;
    f ← defaulted boolean "test_before_acquire" true m;
    g ← defaulted boolean "require_cancel_privilege" true m;
    Some {| max_connections := a; min_idle := b; acquire_timeout_ms := c; idle_timeout_ms := d; max_lifetime_ms := e;
            test_before_acquire := f; require_cancel_privilege := g |} |}.

Definition breaker_codec : codec Breaker.CircuitBreakerConfig := {|
  ser := fun b => VObject (object [
    ("failure_threshold", ser u32 (Breaker.failure_threshold b)); ("cooldown_ms", ser u64 (Breaker.cooldown_ms b))]%string);
  de := fun v =>
    m ← entries true ["failure_threshold"; "cooldown_ms"]%string v;
    a ← defaulted u32 "failure_threshold" 5 m;
    b ← defaulted u64 "cooldown_ms" 30000 m;
    Some {| Breaker.failure_threshold := a; Breaker.cooldown_ms := b |} |}.

Definition schema_codec : codec Schema.SchemaDerive := {|
  ser := fun d => VObject (object [("derive", ser derive_codec d)]%string);
  de := fun v => m ← entries true ["derive"]%string v; defaulted derive_codec "derive" Schema.Off m |}.

Definition list_fields : list string := ["sql"; "mode"; "cursor_column"; "page_size"]%string.

Definition list_codec : codec ListQueryConfig := {|
  ser := fun l => VObject (object [
    ("sql", ser str (list_sql l)); ("mode", ser list_mode_codec (mode l));
    ("cursor_column", ser (optional str) (cursor_column l)); ("page_size", ser u64 (page_size l))]%string);
  de := fun v =>
    m ← entries true list_fields v;
    a ← required str "sql" m;
    b ← defaulted list_mode_codec "mode" Keyset m;
    c ← opt str "cursor_column" m;
    d ← defaulted u64 "page_size" 100 m;
    Some {| list_sql := a; mode := b; cursor_column := c; page_size := d |} |}.

Definition step_codec : codec AwaitStep := {|
  ser := fun s => VObject (object [("sql", ser str (step_sql s)); ("params", ser (vec str) (step_params s))]%string);
  de := fun v =>
    m ← entries true ["sql"; "params"]%string v;
    a ← required str "sql" m;
    b ← defaulted (vec str) "params" [] m;
    Some {| step_sql := a; step_params := b |} |}.

Definition await_fields : list string := ["trigger"; "check"; "predicate"; "poll_interval_ms"; "timeout_ms"]%string.

Definition await_codec : codec AwaitConfig := {|
  ser := fun a => VObject (object [
    ("trigger", ser (optional step_codec) (trigger a)); ("check", ser step_codec (check a));
    ("predicate", ser str (predicate a)); ("poll_interval_ms", ser u64 (poll_interval_ms a));
    ("timeout_ms", ser u64 (await_timeout_ms a))]%string);
  de := fun v =>
    m ← entries true await_fields v;
    a ← opt step_codec "trigger" m;
    b ← required step_codec "check" m;
    c ← required str "predicate" m;
    d ← defaulted u64 "poll_interval_ms" 1000 m;
    e ← defaulted u64 "timeout_ms" 60000 m;
    Some {| trigger := a; check := b; predicate := c; poll_interval_ms := d; await_timeout_ms := e |} |}.

Definition invalidate_codec : codec CacheInvalidateOn := {|
  ser := fun '(Watch sql ms) => VObject (object [
    ("kind", VString "watch"); ("sql", ser str sql); ("interval_ms", ser u64 ms)]%string);
  de := fun v =>
    '(kind, rest) ← tagged "kind" v;
    read ← variant [("watch"%string, fun rest =>
      m ← entries true ["sql"; "interval_ms"]%string rest;
      a ← required str "sql" m;
      b ← defaulted u64 "interval_ms" 1000 m;
      Some (Watch a b))] kind;
    read rest |}.

Definition cache_codec : codec CacheSpec := {|
  ser := fun c => VObject (object [
    ("enabled", ser boolean (enabled c)); ("ttl_seconds", ser u64 (ttl_seconds c));
    ("invalidate_on", ser (optional invalidate_codec) (invalidate_on c))]%string);
  de := fun v =>
    m ← entries true ["enabled"; "ttl_seconds"; "invalidate_on"]%string v;
    a ← defaulted boolean "enabled" false m;
    b ← defaulted u64 "ttl_seconds" 60 m;
    c ← opt invalidate_codec "invalidate_on" m;
    Some {| enabled := a; ttl_seconds := b; invalidate_on := c |} |}.

Definition cost_fields : list string := ["unit"; "amount"; "expression"; "currency"; "max_per_call"]%string.

Definition cost_codec : codec CostSpec := {|
  ser := fun c => VObject (object [
    ("unit", ser unit_codec (spec_unit c)); ("amount", ser (optional str) (spec_amount c));
    ("expression", ser (optional str) (spec_expression c)); ("currency", ser str (spec_currency c));
    ("max_per_call", ser (optional str) (spec_max_per_call c))]%string);
  de := fun v =>
    m ← entries true cost_fields v;
    a ← required unit_codec "unit" m;
    b ← opt str "amount" m;
    c ← opt str "expression" m;
    d ← defaulted str "currency" "USD"%string m;
    e ← opt str "max_per_call" m;
    Some {| spec_unit := a; spec_amount := b; spec_expression := c; spec_currency := d; spec_max_per_call := e |} |}.

Definition default_azure_ad_scope : string := "https://ossrdbms-aad.database.windows.net/.default".

(** The variants of [AuthConfig], by their [kind]. *)
Definition auth_variants : list (string * (value -> option AuthConfig)) := [
  ("rds_iam"%string, fun rest =>
     m ← entries true ["region"; "username"; "profile"]%string rest;
     a ← required str "region" m;
     b ← required str "username" m;
     c ← opt str "profile" m;
     Some (RdsIam a b c));
  ("azure_ad"%string, fun rest =>
     m ← entries true ["scope"; "tenant_id"]%string rest;
     a ← defaulted str "scope" default_azure_ad_scope m;
     b ← opt str "tenant_id" m;
     Some (AzureAd a b));
  ("gcp_iam"%string, fun rest =>
     m ← entries true ["username"]%string rest;
     a ← required str "username" m;
     Some (GcpIam a));
  ("aurora_failover"%string, fun rest =>
     m ← entries true ["endpoints"]%string rest;
     a ← required (vec str) "endpoints" m;
     Some (AuroraFailover a))].

Definition auth_codec : codec AuthConfig := {|
  ser := fun a => VObject (object
    match a with
    | RdsIam region username profile =>
        [("kind", VString "rds_iam"); ("region", ser str region); ("username", ser str username)]%string ++
        some_field str "profile" profile
    | AzureAd scope tenant_id =>
        [("kind", VString "azure_ad"); ("scope", ser str scope)]%string ++ some_field str "tenant_id" tenant_id
    | GcpIam username => [("kind", VString "gcp_iam"); ("username", ser str username)]%string
    | AuroraFailover endpoints =>
        [("kind", VString "aurora_failover"); ("endpoints", ser (vec str) endpoints)]%string
    end);
  de := fun v =>
    '(kind, rest) ← tagged "kind" v;
    read ← variant auth_variants kind;
    read rest |}.

(** [#[serde(untagged)]]: the first variant whose own field reads, whatever else
    is there. *)
Definition body_of (m : json_map) : option QueryBody :=
  match required str "sql" m with
  | Some s => Some (Sql s)
  | None =>
      match required str "procedure" m with
      | Some p => Some (Procedure p)
      | None => SqlFile <$> required str "sql_file" m
      end
  end.

Definition body_fields (b : QueryBody) : json_map :=
  match b with
  | Sql s => [("sql", ser str s)]
  | Procedure p => [("procedure", ser str p)]
  | SqlFile f => [("sql_file", ser str f)]
  end%string.

Section Spec.
Context (secret : codec string).                    (* mcpg_sensitive::Sensitive<String> *)

Definition stream_codec : codec Stream.StreamConfig := {|
  ser := fun s => VObject (object [
    ("cursor_columns", ser (vec str) (Stream.cursor_columns s)); ("initial", ser json_object (Stream.initial s));
    ("signing_key", ser (optional secret) (Stream.signing_key s))]%string);
  de := fun v =>
    m ← entries true ["cursor_columns"; "initial"; "signing_key"]%string v;
    a ← required (vec str) "cursor_columns" m;
    b ← defaulted json_object "initial" [] m;
    c ← opt secret "signing_key" m;
    Some {| Stream.cursor_columns := a; Stream.initial := b; Stream.signing_key := c |} |}.

(** [QueryShape]: no [deny_unknown_fields], and its body is flattened into it,
    so it is read from an object only. *)
Definition query_fields : list string :=
  ["params"; "param_exprs"; "row_mode"; "max_rows"; "timeout_ms"; "read_only"; "progress_heartbeat_ms"; "stream"]%string.

Definition query_entries (m : json_map) : option QueryShape :=
  a ← defaulted (vec str) "params" [] m;
  b ← defaulted (btree_map str) "param_exprs" [] m;
  c ← required row_mode_codec "row_mode" m;
  d ← defaulted u64 "max_rows" 1000 m;
  e ← opt u64 "timeout_ms" m;
  f ← defaulted boolean "read_only" false m;
  g ← opt u64 "progress_heartbeat_ms" m;
  h ← opt stream_codec "stream" m;
  body ← body_of m;
  Some {| body := body; params := a; param_exprs := b; row_mode := c; max_rows := d; timeout_ms := e; read_only := f;
          progress_heartbeat_ms := g; stream := h |}.

Definition query_codec : codec QueryShape := {|
  ser := fun q => VObject (object (body_fields (body q) ++ [
    ("params", ser (vec str) (params q)); ("param_exprs", ser (btree_map str) (param_exprs q));
    ("row_mode", ser row_mode_codec (row_mode q)); ("max_rows", ser u64 (max_rows q));
    ("timeout_ms", ser (optional u64) (timeout_ms q)); ("read_only", ser boolean (read_only q));
    ("progress_heartbeat_ms", ser (optional u64) (progress_heartbeat_ms q));
    ("stream", ser (optional stream_codec) (stream q))]%string));
  de := fun v => match v with VObject m => query_entries m | _ => None end |}.

(** [SqlBackendConfig], with its schema block. *)
Definition config_entries (m : json_map) : option (SqlBackendConfig * Schema.SchemaDerive) :=
  a ← required driver_codec "driver" m;
  b ← required str "url" m;
  c ← defaulted pool_codec "pool" default_pool m;
  d ← defaulted boolean "allow_private_backends" false m;
  e ← required query_codec "query" m;
  f ← defaulted (btree_map str) "session_vars" [] m;
  derive ← defaulted schema_codec "schema" Schema.Off m;
  g ← opt breaker_codec "circuit_breaker" m;
  h ← opt list_codec "list_query" m;
  i ← opt await_codec "await" m;
  j ← opt isolation_codec "isolation_level" m;
  k ← opt cache_codec "cache" m;
  l ← opt cost_codec "cost" m;
  n ← opt auth_codec "auth" m;
  Some ({| driver := a; url := b; pool := c; allow_private_backends := d; query := e; session_vars := f;
           circuit_breaker := g; list_query := h; await_ := i; isolation_level := j; cache := k; cost := l;
           auth := n |}, derive).

Definition config_values (c : SqlBackendConfig) (derive : Schema.SchemaDerive) : json_map := [
  ("driver", ser driver_codec (driver c)); ("url", ser str (url c)); ("pool", ser pool_codec (pool c));
  ("allow_private_backends", ser boolean (allow_private_backends c)); ("query", ser query_codec (query c));
  ("session_vars", ser (btree_map str) (session_vars c)); ("schema", ser schema_codec derive);
  ("circuit_breaker", ser (optional breaker_codec) (circuit_breaker c));
  ("list_query", ser (optional list_codec) (list_query c)); ("await", ser (optional await_codec) (await_ c));
  ("isolation_level", ser (optional isolation_codec) (isolation_level c)); ("cache", ser (optional cache_codec) (cache c));
  ("cost", ser (optional cost_codec) (cost c)); ("auth", ser (optional auth_codec) (auth c))]%string.

Definition config_codec : codec (SqlBackendConfig * Schema.SchemaDerive) := {|
  ser := fun '(c, derive) => VObject (object (config_values c derive));
  de := fun v => m ← entries true Registration.config_fields v; config_entries m |}.
End Spec.

(** * Values of the declared widths *)

Definition pool_fits (p : PoolConfig) : Prop :=
  fits 32 (max_connections p) /\ fits 32 (min_idle p) /\ fits 64 (acquire_timeout_ms p) /\
  fits 64 (idle_timeout_ms p) /\ fits 64 (max_lifetime_ms p).

Definition breaker_fits (b : Breaker.CircuitBreakerConfig) : Prop :=
  fits 32 (Breaker.failure_threshold b) /\ fits 64 (Breaker.cooldown_ms b).

Definition list_fits (l : ListQueryConfig) : Prop := fits 64 (page_size l).

Definition await_fits (a : AwaitConfig) : Prop := fits 64 (poll_interval_ms a) /\ fits 64 (await_timeout_ms a).

Definition invalidate_fits (i : CacheInvalidateOn) : Prop := let 'Watch _ ms := i in fits 64 ms.

Definition cache_fits (c : CacheSpec) : Prop := fits 64 (ttl_seconds c) /\ opt_all invalidate_fits (invalidate_on c).

Definition query_fits (q : QueryShape) : Prop :=
  fits 64 (max_rows q) /\ opt_all (fits 64) (timeout_ms q) /\ opt_all (fits 64) (progress_heartbeat_ms q).

Record config_fits (c : SqlBackendConfig) : Prop := {
  cf_pool : pool_fits (pool c);
  cf_query : query_fits (query c);
  cf_breaker : opt_all breaker_fits (circuit_breaker c);
  cf_list : opt_all list_fits (list_query c);
  cf_await : opt_all await_fits (await_ c);
  cf_cache : opt_all cache_fits (cache c);
}.

(** The signing key of a stream, if it has one, is not written as null and is read
    back from what it is written as: how a key is written is for [Sensitive] to
    decide. *)
Definition key_readable (secret : codec string) (s : Stream.StreamConfig) : Prop :=
  opt_all (fun key => ser secret key <> VNull /\ de secret (ser secret key) = Some key) (Stream.signing_key s).

(** * Reading back what was written *)

#[export] Instance driver_roundtrips : Roundtrips driver_codec always.
Proof. enum_roundtrips. Qed.
#[export] Instance isolation_roundtrips : Roundtrips isolation_codec always.
Proof. enum_roundtrips. Qed.
#[export] Instance row_mode_roundtrips : Roundtrips row_mode_codec always.
Proof. enum_roundtrips. Qed.
#[export] Instance list_mode_roundtrips : Roundtrips list_mode_codec always.
Proof. enum_roundtrips. Qed.
#[export] Instance unit_roundtrips : Roundtrips unit_codec always.
Proof. enum_roundtrips. Qed.
#[export] Instance derive_roundtrips : Roundtrips derive_codec always.
Proof. enum_roundtrips. Qed.

#[export] Instance pool_roundtrips : Roundtrips pool_codec pool_fits.
Proof. intros [a b c d e f g] (Ha & Hb & Hc & Hd & He). cbn [ser de pool_codec]. read_struct. Qed.

#[export] Instance breaker_roundtrips : Roundtrips breaker_codec breaker_fits.
Proof. intros [a b] (Ha & Hb). cbn [ser de breaker_codec]. read_struct. Qed.
#[export] Instance breaker_not_null : NotNull breaker_codec.
Proof. done. Qed.

#[export] Instance schema_roundtrips : Roundtrips schema_codec always.
Proof. by intros []. Qed.

#[export] Instance list_roundtrips : Roundtrips list_codec list_fits.
Proof. intros [a b c d] Hd. cbn [ser de list_codec]. read_struct. Qed.
#[export] Instance list_not_null : NotNull list_codec.
Proof. done. Qed.

#[export] Instance step_roundtrips : Roundtrips step_codec always.
Proof. intros [a b] _. cbn [ser de step_codec]. read_struct. Qed.
#[export] Instance step_not_null : NotNull step_codec.
Proof. done. Qed.

#[export] Instance await_roundtrips : Roundtrips await_codec await_fits.
Proof. intros [a b c d e] (Hd & He). cbn [ser de await_codec]. read_struct. Qed.
#[export] Instance await_not_null : NotNull await_codec.
Proof. done. Qed.

#[export] Instance invalidate_roundtrips : Roundtrips invalidate_codec invalidate_fits.
Proof.
  intros [sql ms] H. cbn [ser de invalidate_codec].
  change (tagged _ _) with (Some ("watch"%string, VObject (object [("sql", ser str sql); ("interval_ms", ser u64 ms)]%string))).
  cbn -[entries object field uint str]. read_struct.
Qed.
#[export] Instance invalidate_not_null : NotNull invalidate_codec.
Proof. by intros []. Qed.

#[export] Instance cache_roundtrips : Roundtrips cache_codec cache_fits.
Proof. intros [a b c] (Hb & Hc). cbn [ser de cache_codec]. read_struct. Qed.
#[export] Instance cache_not_null : NotNull cache_codec.
Proof. done. Qed.

#[export] Instance cost_roundtrips : Roundtrips cost_codec always.
Proof. intros [a b c d e] _. cbn [ser de cost_codec]. read_struct. Qed.
#[export] Instance cost_not_null : NotNull cost_codec.
Proof. done. Qed.

#[export] Instance auth_roundtrips : Roundtrips auth_codec always.
Proof.
  intros [region username [profile|]|scope [tenant|]|username|endpoints] _; try done.
  cbn [ser de auth_codec].
  change (tagged _ _) with (Some ("aurora_failover"%string, VObject (object [("endpoints", ser (vec str) endpoints)]%string))).
  cbn -[entries object field vec str]. read_struct.
Qed.
#[export] Instance auth_not_null : NotNull auth_codec.
Proof. by intros []. Qed.

Section Roundtrip.
Context (secret : codec string).

(** An optional secret, by what is needed of the value at hand. *)
#[export] Instance secret_roundtrips : Roundtrips (optional secret)
  (opt_all (fun key => ser secret key <> VNull /\ de secret (ser secret key) = Some key)).
Proof. intros [key|] Hk; [|done]. destruct Hk as [Hn Hk]. cbn. rewrite Hk. by destruct (ser secret key). Qed.

#[export] Instance stream_roundtrips : Roundtrips (stream_codec secret) (key_readable secret).
Proof. intros [a b c] Hk. unfold key_readable in Hk. cbn in Hk. cbn [ser de stream_codec]. read_struct. Qed.
#[export] Instance stream_not_null : NotNull (stream_codec secret).
Proof. done. Qed.

Definition query_readable (q : QueryShape) : Prop := query_fits q /\ opt_all (key_readable secret) (stream q).

#[export] Instance query_roundtrips : Roundtrips (query_codec secret) query_readable.
Proof.
  intros [[s|s|s] a b c d e f g h] [(Hd & He & Hg) Hh]; cbn [ser de query_codec query_entries]; unfold query_entries;
    read_fields; done.
Qed.

Definition config_readable (c : SqlBackendConfig) : Prop := config_fits c /\ query_readable (query c).

#[export] Instance config_roundtrips : Roundtrips (config_codec secret) (fun cd => config_readable (fst cd)).
Proof.
  intros [[a b c d e f g h i j k l n] derive] [[Hpool Hquery Hbreaker Hlist Hawait Hcache] Hread].
  cbn [ser de config_codec fst pool query circuit_breaker list_query await_ cache] in *. read_object. unfold config_entries, config_values. read_fields; done.
Qed.
End Roundtrip.

(** * What is read has the declared widths *)

#[export] Instance pool_typed : Typed pool_codec pool_fits.
Proof.
  intros v p H. cbn [de pool_codec] in H. read_inv H. injection H as <-. unfold pool_fits. cbn. split_and!; width.
Qed.

#[export] Instance breaker_typed : Typed breaker_codec breaker_fits.
Proof.
  intros v b H. cbn [de breaker_codec] in H. read_inv H. injection H as <-. split; cbn; width.
Qed.

#[export] Instance list_typed : Typed list_codec list_fits.
Proof. intros v l H. cbn [de list_codec] in H. read_inv H. injection H as <-. unfold list_fits. cbn. width. Qed.

#[export] Instance await_typed : Typed await_codec await_fits.
Proof. intros v a H. cbn [de await_codec] in H. read_inv H. injection H as <-. split; cbn; width. Qed.

#[export] Instance invalidate_typed : Typed invalidate_codec invalidate_fits.
Proof.
  intros v i H. cbn [de invalidate_codec] in H. apply bind_Some in H as ([kind rest] & _ & H).
  apply bind_Some in H as (read & Hv & H). cbn [variant] in Hv. destruct (String.eqb kind "watch"); [|done].
  injection Hv as <-. read_inv H. injection H as <-. cbn. width.
Qed.

#[export] Instance cache_typed : Typed cache_codec cache_fits.
Proof. intros v c H. cbn [de cache_codec] in H. read_inv H. injection H as <-. split; cbn; width. Qed.

Section Read.
Context (secret : codec string).

#[export] Instance query_typed : Typed (query_codec secret) query_fits.
Proof.
  intros v q H. destruct v as [| | | | |m]; try done. cbn [de query_codec] in H. unfold query_entries in H.
  read_inv H. injection H as <-. unfold query_fits. cbn. split_and!; width.
Qed.

#[export] Instance config_typed : Typed (config_codec secret) (fun cd => config_fits (fst cd)).
Proof.
  intros v cd H. cbn [de config_codec] in H. unfold config_entries in H. read_inv H. injection H as <-.
  split; cbn; [|by eapply required_typed; [apply query_typed|]|width..].
  eapply defaulted_typed; [apply pool_typed| |eassumption]. done.
Qed.

Lemma reads_back v c derive :
  de (config_codec secret) v = Some (c, derive) -> opt_all (key_readable secret) (stream (query c)) ->
  config_fits c /\ de (config_codec secret) (ser (config_codec secret) (c, derive)) = Some (c, derive).
Proof.
  intros H Hk. pose proof (config_typed v _ H) as Hf. split; [done|].
  apply (config_roundtrips secret). split; [done|]. split; [by destruct Hf|done].
Qed.

(** C17.  A configuration whose integers have the widths of their types is read back
    from what it is written as; and every spec that is accepted gives such a
    configuration, so writing it spells out the defaults and loses nothing.  Both
    as far as the signing key of the stream, when there is one, reads back from
    what its type [Sensitive<String>], which is not part of the repository, writes
    for it. *)
Theorem config_roundtrip :
  (forall c derive, config_readable secret c -> de (config_codec secret) (ser (config_codec secret) (c, derive)) = Some (c, derive)) /\
  (forall v c derive, de (config_codec secret) v = Some (c, derive) -> opt_all (key_readable secret) (stream (query c)) ->
     config_fits c /\ de (config_codec secret) (ser (config_codec secret) (c, derive)) = Some (c, derive)).
Proof. split; [intros c derive Hc; by apply (config_roundtrips secret)|apply reads_back]. Qed.

End Read.

(** * Unknown keys *)

(** An object with a key that is not one of the names is refused. *)
Class Strict {A} (c : codec A) (names : list string) : Prop :=
  de_strict : forall m j v, obj_get j m = Some v -> known names j = false -> de c (VObject m) = None.

#[export] Instance optional_strict {A} (c : codec A) names : Strict c names -> Strict (optional c) names.
Proof. intros Hs m j v Hj Hn. cbn. by rewrite (Hs m j v Hj Hn). Qed.

Lemma strict_struct {A} (c : codec A) names (k : json_map -> option A) :
  (forall v, de c v = entries true names v ≫= k) -> Strict c names.
Proof. intros Hde m j v Hj Hn. by rewrite Hde, (entries_unknown names m j v Hj Hn). Qed.

#[export] Instance pool_strict : Strict pool_codec pool_fields.
Proof. by eapply strict_struct. Qed.
#[export] Instance schema_strict : Strict schema_codec ["derive"]%string.
Proof. by eapply strict_struct. Qed.
#[export] Instance breaker_strict : Strict breaker_codec ["failure_threshold"; "cooldown_ms"]%string.
Proof. by eapply strict_struct. Qed.
#[export] Instance list_strict : Strict list_codec list_fields.
Proof. by eapply strict_struct. Qed.
#[export] Instance await_strict : Strict await_codec await_fields.
Proof. by eapply strict_struct. Qed.
#[export] Instance cache_strict : Strict cache_codec ["enabled"; "ttl_seconds"; "invalidate_on"]%string.
Proof. by eapply strict_struct. Qed.
#[export] Instance cost_strict : Strict cost_codec cost_fields.
Proof. by eapply strict_struct. Qed.

Definition auth_fields : list string :=
  ["kind"; "region"; "username"; "profile"; "scope"; "tenant_id"; "endpoints"]%string.

#[export] Instance auth_strict : Strict auth_codec auth_fields.
Proof.
  intros m j v Hj Hn. cbn [de auth_codec tagged]. destruct (obj_get "kind" m) as [[| | |kind| |]|]; try done.
  cbn [mbind option_bind].
  assert (known ["kind"]%string j = false /\ known ["region"; "username"; "profile"]%string j = false /\
          known ["scope"; "tenant_id"]%string j = false /\ known ["username"]%string j = false /\
          known ["endpoints"]%string j = false) as (Hkind & H1 & H2 & H3 & H4).
  { cbn in Hn |- *. bool_hyps. repeat match goal with H : j <> _ |- _ => apply String.eqb_neq in H; rewrite H; clear H end. done. }
  assert (obj_get j (obj_remove "kind" m) = Some v) as Hr.
  { rewrite obj_get_remove. cbn in Hkind. rewrite orb_false_r in Hkind. by rewrite Hkind. }
  unfold auth_variants. cbn [variant].
  repeat match goal with |- context [String.eqb kind ?n] => destruct (String.eqb kind n) end; cbn [mbind option_bind];
    rewrite ?(entries_unknown _ _ j v Hr) by done; done.
Qed.

Section Unknown.
Context (secret : codec string).

#[export] Instance stream_strict : Strict (stream_codec secret) ["cursor_columns"; "initial"; "signing_key"]%string.
Proof. by eapply strict_struct. Qed.
#[export] Instance config_strict : Strict (config_codec secret) Registration.config_fields.
Proof. by eapply strict_struct. Qed.

Lemma strict_field {A} (c : codec A) names key d o a m j v :
  Strict c names -> obj_get key o = Some (VObject m) -> obj_get j m = Some v -> known names j = false ->
  defaulted c key d o <> Some a.
Proof. intros Hs Ho Hj Hn. unfold defaulted, field. by rewrite Ho, (Hs m j v Hj Hn). Qed.

(** A block whose type denies unknown fields, at its place in a configuration. *)
Definition strict_blocks : list (string * list string) := [
  ("pool", pool_fields); ("schema", ["derive"]); ("circuit_breaker", ["failure_threshold"; "cooldown_ms"]);
  ("list_query", list_fields); ("await", await_fields); ("cache", ["enabled"; "ttl_seconds"; "invalidate_on"]);
  ("cost", cost_fields); ("auth", auth_fields)]%string.

Lemma strict_block_refused key names o m j v :
  (key, names) ∈ strict_blocks -> obj_get key o = Some (VObject m) -> obj_get j m = Some v -> known names j = false ->
  config_entries secret o = None.
Proof.
  intros Hk Ho Hj Hn. destruct (config_entries secret o) as [cd|] eqn:E; [|done]. exfalso.
  unfold config_entries in E. read_inv E. unfold opt in *. unfold strict_blocks in Hk.
  repeat (apply elem_of_cons in Hk as [[= -> ->]|Hk];
    [match goal with H : defaulted ?c ?k ?d o = Some _, Ho : obj_get ?k o = Some (VObject _) |- _ =>
       by apply (strict_field c _ k d o _ m j v _ Ho Hj Hn) in H end|]).
  by apply elem_of_nil in Hk.
Qed.

(** The keys of a query block: its own and those of the three bodies. *)
Definition query_keys : list string := query_fields ++ ["sql"; "procedure"; "sql_file"]%string.

Lemma field_insert_other {A} (c : codec A) k d j v m :
  String.eqb k j = false -> field c k d (obj_insert j v m) = field c k d m.
Proof. intros Hne. unfold field. by rewrite obj_get_insert, Hne. Qed.

Lemma query_ignores m j v :
  known query_keys j = false -> query_entries secret (obj_insert j v m) = query_entries secret m.
Proof.
  intros Hn. cbn in Hn. bool_hyps.
  unfold query_entries, body_of, opt, defaulted, required.
  by rewrite !field_insert_other by (apply String.eqb_neq; congruence).
Qed.
End Unknown.

(** * Configurations of an operator *)

Section Operator.
Context {Url : Type} `{UrlOps Url} `{Cel}
        (url_scheme : Url -> string) (url_error : string -> string) (cred_tokens : string -> list string)
        (debug_strings : list string -> string).
Context (secret : codec string).

Abbreviation from_value := (de (config_codec secret)).

Lemma only_known_insert names k v m :
  known names k = true -> only_known names (obj_insert k v m) = only_known names m.
Proof.
  intros Hk. unfold only_known. induction m as [|[k' v'] m IH]; cbn; [by rewrite Hk|].
  destruct (String.compare k k') eqn:E; cbn; [|by rewrite Hk|by rewrite IH].
  apply String.compare_eq_iff in E as ->. by rewrite Hk.
Qed.

Lemma config_insert_query o q q' :
  obj_get "query" o = Some q -> de (query_codec secret) q' = de (query_codec secret) q ->
  from_value (VObject (obj_insert "query" q' o)) = from_value (VObject o).
Proof.
  intros Hq Hd. cbn [de config_codec]. unfold entries. cbn [negb orb].
  rewrite only_known_insert by done. destruct (only_known _ o); [|done]. cbn [mbind option_bind].
  unfold config_entries, opt, defaulted, required.
  repeat match goal with
  | |- context [field ?c ?k ?d (obj_insert "query" q' o)] => rewrite (field_insert_other c k d "query" q' o) by reflexivity
  end.
  assert (field (query_codec secret) "query" None (obj_insert "query" q' o) = field (query_codec secret) "query" None o) as ->; [|done].
  unfold field. by rewrite obj_get_insert, Hq.
Qed.

(** C18.  Which misspelt keys an operator hears of: a key that is not a field of the
    configuration, or of one of its blocks, refuses the whole spec; except inside
    [query], where every key that is not a field has no effect at all. *)
Theorem unknown_keys_exact o :
  (forall k v, obj_get k o = Some v -> known Registration.config_fields k = false -> from_value (VObject o) = None) /\
  (forall key names m j v, (key, names) ∈ strict_blocks -> obj_get key o = Some (VObject m) ->
     obj_get j m = Some v -> known names j = false -> from_value (VObject o) = None) /\
  (forall m j v, obj_get "query" o = Some (VObject m) -> known query_keys j = false ->
     from_value (VObject (obj_insert "query" (VObject (obj_insert j v m)) o)) = from_value (VObject o)).
Proof.
  split_and!.
  - intros k v. apply config_strict.
  - intros key names m j v Hk Ho Hj Hn. cbn [de config_codec]. destruct (entries _ _ _) as [e|] eqn:E; [|done].
    apply entries_strict in E as [-> _]. by eapply strict_block_refused.
  - intros m j v Hq Hn. apply config_insert_query with (VObject m); [done|]. cbn [de query_codec]. by apply query_ignores.
Qed.

(** The least an operator writes. *)
Definition minimal (d : DriverKind) (u : string) (b : QueryBody) (r : RowMode) : value :=
  VObject (object [("driver", VString (DriverKind_as_str d)); ("url", VString u);
                   ("query", VObject (object (body_fields b ++ [("row_mode", VString (row_mode_name r))])))]%string).

Definition minimal_config (d : DriverKind) (u : string) (b : QueryBody) (r : RowMode) : SqlBackendConfig := {|
  driver := d; url := u; pool := default_pool; allow_private_backends := false;
  query := {| body := b; params := []; param_exprs := []; row_mode := r; max_rows := 1000; timeout_ms := None;
              read_only := false; progress_heartbeat_ms := None; stream := None |};
  session_vars := []; circuit_breaker := None; list_query := None; await_ := None; isolation_level := None;
  cache := None; cost := None; auth := None |}.

Lemma minimal_read d u b r : from_value (minimal d u b r) = Some (minimal_config d u b r, Schema.Off).
Proof. by destruct d, b, r. Qed.

Lemma validate_scheme_iff d s : validate_scheme d s = Ok () <-> s ∈ schemes d.
Proof.
  split; [apply validate_scheme_ok|].
  destruct d; cbn; rewrite ?elem_of_cons; intros Hs; repeat destruct Hs as [->|Hs]; try done; by apply elem_of_nil in Hs.
Qed.

(** C33.  The defaults of a configuration are themselves valid: with nothing but a
    driver, a URL, a body and a row mode, validation comes down to the scheme of
    the URL, the statement, and the two row modes that ask for more. *)
Theorem minimal_spec_validates d u b r :
  from_value (minimal d u b r) = Some (minimal_config d u b r, Schema.Off) /\
  (Config.validate url_scheme url_error cred_tokens debug_strings (minimal_config d u b r) = Ok () <->
   (exists parsed, url_parse u = Some parsed /\ url_scheme parsed ∈ schemes d) /\
   validate_body b = Ok () /\ r <> StreamMode /\
   (r = ResultSets -> is_procedure b = true /\ (d = Mysql \/ d = Mariadb))).
Proof.
  split; [apply minimal_read|]. unfold Config.validate. cbn [minimal_config url driver query body row_mode].
  destruct (url_parse u) as [parsed|] eqn:Eu; cbn [ok_or rbind]; cycle 1.
  { split; [done|]. by intros [(p & Hp & _) _]. }
  assert ((exists p, Some parsed = Some p /\ url_scheme p ∈ schemes d) <-> validate_scheme d (url_scheme parsed) = Ok ()) as ->.
  { rewrite validate_scheme_iff. split; [by intros (p & [= <-] & ?)|eauto]. }
  destruct (validate_scheme d (url_scheme parsed)) as [[]|]; cbn [rbind]; [|naive_solver].
  assert (r = ResultSets \/ r <> ResultSets) as [->|Hr] by (destruct r; auto).
  - destruct b, d; cbn -[validate_body]; try (destruct (validate_body _) as [[]|]); naive_solver.
  - destruct r; try done; cbn -[validate_body]; [..|naive_solver]; destruct (validate_body b) as [[]|]; naive_solver.
Qed.
End Operator.

(** * Registering from JSON *)

Section FromJson.
Context {Url : Type} `{UrlOps Url} (sqlx_display : sqlx_error -> string).
Context `{Cel} `{Stream.CursorOps}.
Context (url_scheme : Url -> string) (url_error : string -> string) (cred_tokens : string -> list string)
        (debug_strings : list string -> string).
Context {PoolHandle Rotator : Type}.
Context (secret : codec string) (serde_error : value -> string).

Abbreviation RegEnv := (Registration.RegEnv (PoolHandle := PoolHandle) (Rotator := Rotator)).
Abbreviation register :=
  (Registration.register_profile sqlx_display url_scheme url_error cred_tokens debug_strings).

(** [serde_json::from_value::<SqlBackendConfig>]. *)
Definition parse_config (v : value) : result string (SqlBackendConfig * Schema.SchemaDerive) :=
  ok_or (de (config_codec secret) v) (serde_error v).

(** The environment of a registration, with the parser of the program. *)
Definition json_env (env : RegEnv) : RegEnv := {|
  Registration.parse_spec := parse_config; Registration.compiled := Registration.compiled env;
  Registration.auth_enabled := Registration.auth_enabled env; Registration.read_file := Registration.read_file env;
  Registration.connect := Registration.connect env; Registration.health_check := Registration.health_check env;
  Registration.verify_cancel_privilege := Registration.verify_cancel_privilege env;
  Registration.describe_parameters := Registration.describe_parameters env;
  Registration.describe_columns := Registration.describe_columns env;
  Registration.generated_key := Registration.generated_key env |}.

Lemma json_env_strict env : Registration.strict_spec (json_env env).
Proof.
  intros o r Hp k v Hk. cbn [Registration.parse_spec json_env] in Hp. unfold parse_config in Hp.
  destruct (known Registration.config_fields k) eqn:E.
  - unfold known in E. apply existsb_exists in E as (k' & Hin & ->%String.eqb_eq). by apply list_elem_of_In.
  - by rewrite (config_strict secret o k v Hk E) in Hp.
Qed.

(** Secret rotation reaches no profile: the hint that names the secrets of a
    spec is an unknown field of the configuration it travels in, so a spec that
    carries it is refused; and the subscription of every profile that does
    register ignores every rotation. *)
Theorem rotation_hint_refused env name spec pl :
  let '(r, _, pl') := register (json_env env) name spec pl in
  (forall o hint, spec = VObject o -> obj_get "__mcpg_secret_refs" o = Some hint -> is_ok r = false /\ pl' = pl) /\
  (is_ok r = true -> exists p, Registration.profiles pl' !! name = Some p /\
     forall secret_ref m,
       Registration.on_secret_rotation (PoolHandle := PoolHandle) (Registration.rotation_secret_refs p) secret_ref m
         = (0%nat, m)).
Proof.
  destruct (register (json_env env) name spec pl) as [[r fx] pl'] eqn:E.
  by apply (Registration.rotation_never_evicts _ _ _ _ _ _ _ _ _ _ _ _ (json_env_strict env) E).
Qed.

Lemma build_profile_spec env s1 s2 :
  Registration.parse_spec env s1 = Registration.parse_spec env s2 ->
  Registration.secret_refs s1 = Registration.secret_refs s2 ->
  Registration.build_profile (PoolHandle := PoolHandle) (Rotator := Rotator) sqlx_display url_scheme url_error cred_tokens debug_strings env s1
  = Registration.build_profile sqlx_display url_scheme url_error cred_tokens debug_strings env s2.
Proof. intros Hp Hs. unfold Registration.build_profile. by rewrite Hp, Hs. Qed.

Lemma accepted_no_refs v cd : de (config_codec secret) v = Some cd -> Registration.secret_refs v = [].
Proof.
  intros Hv. destruct v as [| | | | |o]; try done. cbn.
  destruct (obj_get "__mcpg_secret_refs" o) as [hint|] eqn:E; [|done].
  by rewrite (config_strict secret o _ hint E eq_refl) in Hv.
Qed.

(** What an operator left out may as well be written out: the configuration that
    was read from a spec, written as JSON, registers exactly as the spec itself
    does, with the same effects and the same profile. *)
Theorem canonical_spec_registers env name v pl c derive :
  de (config_codec secret) v = Some (c, derive) -> opt_all (key_readable secret) (stream (query c)) ->
  register (json_env env) name (ser (config_codec secret) (c, derive)) pl = register (json_env env) name v pl.
Proof.
  intros Hv Hk. destruct (reads_back secret v c derive Hv Hk) as [_ Hb]. unfold Registration.register_profile.
  destruct (Registration.draining pl); [done|]. rewrite (build_profile_spec _ _ v); [done|..].
  - cbn [Registration.parse_spec json_env]. unfold parse_config. by rewrite Hb, Hv.
  - by rewrite (accepted_no_refs _ _ Hb), (accepted_no_refs _ _ Hv).
Qed.
End FromJson.

(** * Examples *)

Module Demo.
Import ToyUrl ToyCel Stream.ToyCursor.

Definition read (v : value) : option (SqlBackendConfig * Schema.SchemaDerive) := de (config_codec str) v.

Definition q (more : json_map) : value := VObject (more ++ [("row_mode", VString "many")]%string).
Definition spec (query : value) (more : json_map) : value :=
  VObject ([("driver", VString "postgres"); ("query", query); ("url", VString "u:pw")]%string ++ more).

Definition bare : value := spec (q [("sql", VString "SELECT 1")]%string) [].

(** A misspelt [read_only] leaves the query writable without a word; a misspelt
    pool setting is refused; of two bodies the first in declaration order is
    taken, and one that does not read is passed over. *)
Example misspelt_read_only :
  (fun c => read_only (query (fst c))) <$> read (spec (q [("readonly", VBool true); ("sql", VString "DELETE FROM t")]%string) [])
  = Some false.
Proof. reflexivity. Qed.

Example misspelt_pool :
  read (spec (q [("sql", VString "SELECT 1")]%string) [("pool", VObject [("max_connection", VNumber (PosInt 5))])]%string) = None.
Proof. reflexivity. Qed.

Example two_bodies :
  (fun c => body (query (fst c))) <$> read (spec (q [("procedure", VString "p"); ("sql", VString "SELECT 1")]%string) [])
  = Some (Sql "SELECT 1") /\
  (fun c => body (query (fst c))) <$> read (spec (q [("procedure", VString "p"); ("sql", VNull)]%string) [])
  = Some (Procedure "p").
Proof. done. Qed.

(** A block may be an array of its fields in order, a variant an object with a
    null; an integer too large for its type, or written as a float, is refused. *)
Example other_shapes :
  let body := q [("sql", VString "SELECT 1")]%string in
  (fun c => max_connections (pool (fst c))) <$>
    read (VObject [("driver", VObject [("postgres", VNull)]); ("pool", VArray [VNumber (PosInt 3)]); ("query", body);
                   ("url", VString "u:pw")]%string) = Some 3 /\
  read (spec body [("pool", VArray [VNumber (PosInt (2 ^ 32))])]%string) = None /\
  read (spec body [("pool", VArray [VNumber (Float (S754_finite false 5 0))])]%string) = None.
Proof. done. Qed.

(** A stream with a signing key. *)
Definition streaming : value :=
  spec (VObject [("row_mode", VString "stream"); ("sql", VString "SELECT id FROM t WHERE id > :cursor_id");
                 ("stream", VObject [("cursor_columns", VArray [VString "id"]); ("initial", VObject [("id", VNumber (PosInt 0))]);
                                     ("signing_key", VString "k")])]%string) [].

Lemma config_roundtrip_witness :
  exists c, read streaming = Some (c, Schema.Off) /\
    (Stream.signing_key <$> stream (query c)) = Some (Some "k"%string) /\
    read (ser (config_codec str) (c, Schema.Off)) = Some (c, Schema.Off).
Proof.
  eexists. split; [reflexivity|]. split; [reflexivity|].
  refine (proj2 (proj2 (config_roundtrip str) streaming _ Schema.Off eq_refl _)). by split.
Defined.

Definition misspelt : json_map :=
  [("driver", VString "postgres"); ("pool", VObject [("max_connection", VNumber (PosInt 5))]); ("query", q [("sql", VString "SELECT 1")]);
   ("url", VString "u:pw")]%string.

Lemma unknown_keys_exact_witness : read (VObject misspelt) = None.
Proof.
  refine (proj1 (proj2 (unknown_keys_exact str misspelt)) "pool"%string pool_fields [("max_connection"%string, VNumber (PosInt 5))]
            "max_connection"%string (VNumber (PosInt 5)) _ eq_refl eq_refl eq_refl).
  left.
Defined.

Abbreviation register v :=
  (Registration.register_profile (Url := ToyUrl.t) ToyUrl.display (fun _ => "postgres"%string) (fun _ => EmptyString)
     (fun _ => []) (fun _ => EmptyString)
     (json_env str (fun _ => "refused"%string) (Registration.Demo.env Registration.Demo.statement true)) "b" v
     Registration.Demo.empty).

Example bare_registers : is_ok (fst (fst (register bare))) = true.
Proof. by vm_compute. Qed.

Lemma canonical_spec_registers_witness :
  register (ser (config_codec str) (minimal_config Postgres "u:pw" (Sql "SELECT 1") Many, Schema.Off)) = register bare.
Proof. apply canonical_spec_registers; [reflexivity|exact I]. Defined.
End Demo.
