(* ===== verification/Inspect.v ===== *)
(** What the host reads of a registered binding without calling it:
    [input_schema], [output_schema], [audit_metadata] and [circuit_snapshot] of
    [src/src/lib.rs], over the plugin state of [Registration]. *)

From Stdlib Require Import ZArith Lia Bool Ascii String.
From stdpp Require Import base list strings gmap.
From S2P Require Import Prelude RustStd Redact Text Errors Breaker Json Params F64 Stream Cost Config Schema Execute Registration Metrics FixedSql.

Module Inspect.

Section Inspect.
Context {Url : Type} `{UrlOps Url} (sqlx_display : sqlx_error -> string).
Context `{Cel} `{Stream.CursorOps}.
Context (url_scheme : Url -> string) (url_error : string -> string) (cred_tokens : string -> list string)
        (debug_strings : list string -> string).
Context {PoolHandle Rotator : Type}.

Abbreviation plugin := (Registration.plugin (PoolHandle := PoolHandle) (Rotator := Rotator)).
Abbreviation Profile := (Registration.Profile (PoolHandle := PoolHandle) (Rotator := Rotator)).

Implicit Types pl : plugin.

(** [profiles.get(backend_name).and_then(f)]. *)
Definition of_profile {A} (f : Profile -> option A) (backend_name : string) pl : option A :=
  match Registration.profiles pl !! backend_name with Some r => f r | None => None end.

Definition input_schema (backend_name : string) pl : option value :=
  of_profile Registration.input_schema backend_name pl.

Definition output_schema (backend_name : string) pl : option value :=
  of_profile Registration.output_schema backend_name pl.

(** The breaker a profile starts with; calls move it on. *)
Definition circuit_snapshot (backend_name : string) pl : option Breaker.Breaker.CircuitSnapshot :=
  of_profile (fun r => option_map Breaker.Breaker.snapshot (Registration.breaker r)) backend_name pl.

Definition audit_metadata (backend_name : string) pl : json_map :=
  match Registration.profiles pl !! backend_name with
  | Some runtime =>
      let m := obj_insert "db.driver" (VString (DriverKind_as_str (Execute.rt_driver (Registration.core runtime)))) [] in
      let m := obj_insert "db.query_ref" (VString backend_name) m in
      match Execute.rt_cost (Registration.core runtime) with
      | Some cost => fold_left (fun m kv => obj_insert (fst kv) (snd kv) m) (Metrics.audit_fields cost) m
      | None => m
      end
  | None => []
  end.

Lemma cost_compile_fields spec c : cost_compile spec = Ok c -> unit c = spec_unit spec /\ currency c = spec_currency spec.
Proof.
  unfold cost_compile, rbind. destruct (map_opt _ (spec_amount spec)); [|done].
  destruct (map_opt _ (spec_expression spec)); [|done]. destruct (map_opt _ (spec_max_per_call spec)); [|done].
  by intros [= <-].
Qed.

(** The cost fields, in the order of their names. *)
Lemma audit_fields_shown c :
  Metrics.audit_fields c =
    [("db.cost.currency", VString (currency c))]%string ++
    match max_per_call c with
    | Some m => [("db.cost.max_per_call", VString (Metrics.format_amount m))]%string
    | None => []
    end ++
    [("db.cost.source", VString (source c)); ("db.cost.unit", VString (CostUnit_as_str (unit c)))]%string.
Proof. unfold Metrics.audit_fields. by destruct (max_per_call c). Qed.

(** The metadata of a profile, field by field. *)
Definition profile_metadata (name : string) (d : DriverKind) (cost : option BackendCost) : json_map :=
  let m := obj_insert "db.query_ref" (VString name) (obj_insert "db.driver" (VString (DriverKind_as_str d)) []) in
  match cost with
  | Some k => fold_left (fun m kv => obj_insert (fst kv) (snd kv) m) (Metrics.audit_fields k) m
  | None => m
  end.

Lemma profile_metadata_gets name d cost :
  let m := profile_metadata name d cost in
  obj_get "db.driver" m = Some (VString (DriverKind_as_str d)) /\ obj_get "db.query_ref" m = Some (VString name) /\
  obj_get "db.cost.unit" m = option_map (fun k => VString (CostUnit_as_str (unit k))) cost /\
  obj_get "db.cost.currency" m = option_map (fun k => VString (currency k)) cost.
Proof.
  cbv zeta. unfold profile_metadata. destruct cost as [k|]; [|by split_and!].
  rewrite audit_fields_shown. destruct (max_per_call k) as [cap|]; cbn [app fold_left fst snd];
    split_and!; rewrite !obj_get_insert; reflexivity.
Qed.

(** What the host reads of a binding is what was registered: the audit
    metadata name its driver and itself, and the unit and currency of its cost
    exactly when it has one; its breaker starts closed and there is one exactly
    when it is configured; every other binding, and an unknown name, read as
    before. *)
Theorem inspection_exact env name spec (pl : plugin) rfx pl' :
  Registration.register_profile sqlx_display url_scheme url_error cred_tokens debug_strings env name spec pl = (Ok (), rfx, pl') ->
  exists p, Registration.profiles pl' !! name = Some p /\
    let c := Registration.cfg p in
    let m := audit_metadata name pl' in
    obj_get "db.driver" m = Some (VString (DriverKind_as_str (driver c))) /\
    obj_get "db.query_ref" m = Some (VString name) /\
    obj_get "db.cost.unit" m = option_map (fun k => VString (CostUnit_as_str (spec_unit k))) (cost c) /\
    obj_get "db.cost.currency" m = option_map (fun k => VString (spec_currency k)) (cost c) /\
    circuit_snapshot name pl' = option_map (fun k => Breaker.Breaker.snapshot (Breaker.Breaker.new k)) (circuit_breaker c) /\
    forall other, other <> name ->
      audit_metadata other pl' = audit_metadata other pl /\ input_schema other pl' = input_schema other pl /\
      output_schema other pl' = output_schema other pl /\ circuit_snapshot other pl' = circuit_snapshot other pl.
Proof.
  intros Hreg. apply Registration.register_ok in Hreg as (_ & p & E & ->). exists p. cbn.
  split; [apply lookup_insert_eq|].
  apply Registration.build_profile_cases in E as [_ [[? _]|(c & derive & stmt & _ & _ & _ & _ & _ & Hok)]]; [done|].
  destruct (Hok p eq_refl) as [_ [Hcfg _ _ Hdrv _ _ _ _ _ _ _ _ _ _ Hcost Hbr]]. rewrite Hcfg.
  assert (forall A (f : Profile -> option A), of_profile f name
    {| Registration.draining := false; Registration.profiles := <[name := p]> (Registration.profiles pl) |} = f p) as Hp.
  { intros A f. unfold of_profile. cbn. by rewrite lookup_insert_eq. }
  assert (forall A (f : Profile -> option A) other, other <> name -> of_profile f other
    {| Registration.draining := false; Registration.profiles := <[name := p]> (Registration.profiles pl) |}
    = of_profile f other pl) as Hother.
  { intros A f other Hne. unfold of_profile. cbn. by rewrite lookup_insert_ne. }
  assert (forall f : BackendCost -> value, forall g : CostSpec -> value,
    (forall k s, cost_compile s = Ok k -> f k = g s) ->
    option_map f (Execute.rt_cost (Registration.core p)) = option_map g (cost c)) as Hc.
  { intros f g Hfg. destruct (cost c) as [s|]; cbn in Hcost; unfold rbind in Hcost; [|by injection Hcost as <-].
    destruct (cost_compile s) as [k|] eqn:Ek; [|done]. injection Hcost as <-. cbn. by rewrite (Hfg k s Ek). }
  destruct (profile_metadata_gets name (driver c) (Execute.rt_cost (Registration.core p))) as (H1' & H2' & H3' & H4').
  assert (audit_metadata name {| Registration.draining := false; Registration.profiles := <[name := p]> (Registration.profiles pl) |}
    = profile_metadata name (driver c) (Execute.rt_cost (Registration.core p))) as ->.
  { unfold audit_metadata. cbn. by rewrite lookup_insert_eq, Hdrv. }
  split_and!; [exact H1'|exact H2'| | | |].
  - rewrite H3'. apply Hc. intros k s Ek. by destruct (cost_compile_fields s k Ek) as [-> _].
  - rewrite H4'. apply Hc. intros k s Ek. by destruct (cost_compile_fields s k Ek) as [_ ->].
  - unfold circuit_snapshot. rewrite Hp, Hbr. by destruct (circuit_breaker c).
  - intros other Hne. unfold input_schema, output_schema, circuit_snapshot. rewrite !Hother by done. split_and!; try done.
    unfold audit_metadata. cbn. by rewrite lookup_insert_ne.
Qed.
End Inspect.

(** ** Examples *)

Module Demo.
Import ToyUrl ToyCel Stream.ToyCursor FixedSql.Demo.
Local Open Scope string_scope.

Lemma inspection_exact_witness :
  obj_get "db.driver" (audit_metadata "b" (snd register)) = Some (VString "mysql") /\
  audit_metadata "other" (snd register) = [].
Proof.
  destruct (inspection_exact (Url := ToyUrl.t) ToyUrl.display (fun _ => "mysql") (fun _ => "") (fun _ => []) (fun _ => "")
    reg_env "b" VNull {| Registration.draining := false; Registration.profiles := ∅ |} (snd (fst register)) (snd register))
    as (p & Hp & Hd & _ & _ & _ & _ & Ho); [by vm_compute|].
  split; [|exact (proj1 (Ho "other" ltac:(done)))]. rewrite Hd.
  assert (option_map (fun p => driver (Registration.cfg p)) (Registration.profiles (snd register) !! "b") = Some Mysql) as E
    by by vm_compute.
  rewrite Hp in E. injection E as ->. done.
Defined.
End Demo.
End Inspect.
