(* ===== verification/Sweeper.v ===== *)
(** The idle-pool sweeper of [src/src/pool.rs]: [spawn_idle_sweeper],
    [idle_sweep_loop] and the guard whose last clone cancels the task, over the
    registry of [Pool].

    Times are in milliseconds since the registry's epoch.  A call of
    [get_or_build] reads the clock before it waits for the registry's lock, the
    sweep does so too; both readings are part of the machine. *)

From Stdlib Require Import ZArith Lia Bool Ascii String.
From stdpp Require Import base list gmap relations.
From S2P Require Import Prelude RustStd Redact Errors Pool.

Module Sweeper.
Import Pool.

Section Sweeper.
Context {PoolHandle : Type} (cfg : PoolRegistryConfig) (interval : Z).
(** How late the executor polls a task that is ready, and how long a caller or
    the sweep waits for the registry's lock. *)
Context (late patience : Z).

Abbreviation entry := (PoolEntry (PoolHandle := PoolHandle)).

(** The task before its first poll; in [select!] since a time, until a tick is
    due; past the tick, with the clock read, waiting for the registry's lock; returned. *)
Inductive phase : Type :=
| Spawned
| Waiting (since due : Z)
| Sweeping (at_ due : Z)
| Ended.

Record world : Type := mkWorld {
  now : Z;
  pools : gmap CredDigest entry;
  task : phase;
  holders : nat;              (* clones of [Arc<IdleSweeper>] *)
}.

(** [spawn_idle_sweeper] on a new registry. *)
Definition spawn_idle_sweeper : world := mkWorld 0 ∅ Spawned 1.

(** [Interval::tick] with [MissedTickBehavior::Delay]: a tick at least 5 ms late
    moves the schedule. *)
Definition next_due (t due : Z) : Z := if due + 5 <? t then t + interval else due + interval.

(** One poll of the task at time [t]: cancellation is looked at first. *)
Definition poll (t : Z) (cancelled : bool) (p : phase) : option phase :=
  match p with
  | Spawned => Some (Waiting t (t + interval))
  | Waiting _ due => if cancelled then Some Ended
                   else if due <=? t then Some (Sweeping t (next_due t due)) else None
  | Sweeping _ _ | Ended => None
  end.

Definition set_pools (m : gmap CredDigest entry) (w : world) : world := mkWorld (now w) m (task w) (holders w).
Definition set_task (p : phase) (w : world) : world := mkWorld (now w) (pools w) p (holders w).

Definition cancelled (w : world) : bool := match holders w with O => true | S _ => false end.

(** The latest time at which the task's next step is taken. *)
Definition in_time (t : Z) (p : phase) : bool :=
  match p with
  | Spawned => t <=? late
  | Waiting since due => t <=? Z.max since due + late
  | Sweeping at_ _ => t <=? at_ + patience
  | Ended => true
  end.

Inductive step : world -> world -> Prop :=
| step_time w d : 0 <= d -> in_time (now w + d) (task w) = true ->
    step w (mkWorld (now w + d) (pools w) (task w) (holders w))
| step_get w t digest keys built r m :
    0 <= t -> now w - patience <= t <= now w ->
    get_or_build cfg t digest keys built (pools w) = (r, m) -> step w (set_pools m w)
| step_revoke w p t : step w (set_pools (snd (evict_for p t (pools w))) w)
| step_secret w s : step w (set_pools (snd (evict_for_secret s (pools w))) w)
| step_clone w : holders w <> 0%nat -> step w (mkWorld (now w) (pools w) (task w) (S (holders w)))
| step_drop w n : holders w = S n -> step w (mkWorld (now w) (pools w) (task w) n)
| step_poll w p : poll (now w) (cancelled w) (task w) = Some p -> step w (set_task p w)
| step_sweep w at_ due : task w = Sweeping at_ due ->
    step w (set_task (Waiting (now w) due) (set_pools (snd (sweep_idle cfg at_ (pools w))) w)).

Definition idle (e : entry) (t : Z) : Z := t - last_used e.

(** * The invariant *)

Hypothesis cfg_ok : 0 <= interval /\ 0 <= late /\ 0 <= patience <= idle_eviction_ms cfg.

(** Every pool was used, but for [idle_eviction], after this time. *)
Definition horizon (p : phase) : Z :=
  match p with
  | Spawned => 0
  | Waiting since due => Z.max since due - late - Z.max interval patience
  | Sweeping at_ _ => at_ - 2 * late - Z.max interval patience
  | Ended => 0
  end.

Record entry_ok (w : world) (e : entry) : Prop := {
  ok_clock : 0 <= last_used e <= now w;
  ok_used : task w <> Ended -> horizon (task w) <= last_used e + idle_eviction_ms cfg;
}.

Record world_ok (w : world) : Prop := {
  ok_entries : map_Forall (fun _ e => entry_ok w e) (pools w);
  ok_now : 0 <= now w;
  ok_task : match task w with
            | Waiting since due => since <= now w /\ due - interval <= now w
            | Sweeping at_ due => at_ <= now w /\ due - interval <= at_
            | Spawned | Ended => True
            end;
  ok_time : in_time (now w) (task w) = true;
}.

Lemma spawned_ok : world_ok spawn_idle_sweeper.
Proof. split; cbn; [intros k e; by rewrite lookup_empty|lia|done|]. apply Z.leb_le. lia. Qed.

(** Steps that only remove pools, or use them now. *)
Lemma pools_ok w m :
  world_ok w ->
  (forall k e, m !! k = Some e -> pools w !! k = Some e \/ 0 <= last_used e /\ now w - patience <= last_used e <= now w) ->
  world_ok (set_pools m w).
Proof.
  intros [H1 H2 H3 H4] Hm. split; try done. intros k e He. destruct (Hm k e He) as [Hold|Hnew].
  - destruct (H1 k e Hold). by split.
  - split; cbn; [lia|]. intros Hne. destruct (task w); cbn [horizon] in *; try done; lia.
Qed.

Lemma remove_where_old p (m : gmap CredDigest entry) k e :
  snd (remove_where p m) !! k = Some e -> m !! k = Some e /\ p e = false.
Proof.
  destruct (remove_where_spec p m) as [-> _]. destruct (m !! k) as [e'|]; [|done]. destruct (p e') eqn:E; [done|].
  by intros [= <-].
Qed.

Lemma get_or_build_old t digest keys built (m m' : gmap CredDigest entry) r k e :
  get_or_build cfg t digest keys built m = (r, m') -> m' !! k = Some e -> m !! k = Some e \/ last_used e = t.
Proof.
  unfold get_or_build. destruct (m !! digest) as [e0|] eqn:E0.
  - intros [= <- <-] H. destruct (decide (k = digest)) as [->|Hne].
    + rewrite lookup_insert_eq in H. injection H as <-. by right.
    + rewrite lookup_insert_ne in H by done. by left.
  - destruct built as [p|err]; intros [= <- <-] H; [|by left]. destruct (decide (k = digest)) as [->|Hne].
    + rewrite lookup_insert_eq in H. injection H as <-. by right.
    + rewrite lookup_insert_ne in H by done. left. by eapply lookup_weaken, evict_lru_spec.
Qed.

Lemma poll_ok w p : world_ok w -> poll (now w) (cancelled w) (task w) = Some p -> world_ok (set_task p w).
Proof.
  intros [H1 H2 H3 H4] Hp. destruct (task w) as [|since due|at_ due|] eqn:Et; cbn [poll] in Hp; try done.
  - injection Hp as <-. cbn in H4. apply Z.leb_le in H4. split; cbn; try lia.
    intros k e He. destruct (H1 k e He) as [Hc _]. split; cbn; [done|lia].
  - destruct (cancelled w).
    + injection Hp as <-. split; cbn; try done. intros k e He. destruct (H1 k e He) as [Hc _]. by split.
    + destruct (Z.leb_spec due (now w)) as [Hd|]; [|done]. injection Hp as <-. cbn in H4. apply Z.leb_le in H4.
      split; cbn; [|done| |apply Z.leb_le; lia].
      * intros k e He. destruct (H1 k e He) as [Hc Hu]. rewrite Et in Hu. split; cbn; [done|]. specialize (Hu ltac:(done)).
        cbn in Hu. lia.
      * unfold next_due. destruct (Z.ltb_spec (due + 5) (now w)); lia.
Qed.

Lemma sweep_ok w at_ due :
  world_ok w -> task w = Sweeping at_ due ->
  world_ok (set_task (Waiting (now w) due) (set_pools (snd (sweep_idle cfg at_ (pools w))) w)).
Proof.
  intros [H1 H2 H3 H4] Et. rewrite Et in *. cbn in H4. apply Z.leb_le in H4. split; cbn.
  - intros k e [He Hi]%remove_where_old. destruct (H1 k e He) as [Hc _]. split; cbn; [done|]. intros _.
    unfold is_idle, sat_sub in Hi. apply Z.leb_gt in Hi. lia.
  - done.
  - lia.
  - apply Z.leb_le. lia.
Qed.

Lemma holders_ok w n : world_ok w -> world_ok (mkWorld (now w) (pools w) (task w) n).
Proof. intros [H1 H2 H3 H4]. split; cbn; try done. intros k e He. destruct (H1 k e He). by split. Qed.

Lemma sweeper_step_ok w w' : world_ok w -> step w w' -> world_ok w'.
Proof.
  intros Hw Hs. destruct Hs as [w d Hd Ht|w t digest keys built r m H0 Ht Hg|w p t|w s|w Hh|w n Hh|w p Hp|w at_ due Et].
  - destruct Hw as [H1 H2 H3 H4]. split; cbn; [|lia| |done].
    + intros k e He. destruct (H1 k e He) as [Hc Hu]. split; cbn; [lia|done].
    + destruct (task w); lia.
  - apply pools_ok; [done|]. intros k e He. destruct (get_or_build_old t digest keys built (pools w) m r k e Hg He) as [?| ->]; [by left|].
    right. lia.
  - apply pools_ok; [done|]. intros k e He. left. by apply remove_where_old in He as [? _].
  - apply pools_ok; [done|]. intros k e He. cbn in He. by rewrite lookup_empty in He.
  - by apply holders_ok.
  - by apply holders_ok.
  - by apply poll_ok.
  - by apply sweep_ok.
Qed.

Lemma sweeper_reachable_ok w : rtc step spawn_idle_sweeper w -> world_ok w.
Proof.
  assert (forall a b, rtc step a b -> world_ok a -> world_ok b) as H.
  { intros a b HR. induction HR as [|a b c Hs _ IH]; [done|]. intros Ha. by eapply IH, sweeper_step_ok. }
  intros HR. exact (H _ _ HR spawned_ok).
Qed.

(** C13.  While its sweeper lives, a registry keeps no pool that was unused for
    much longer than [idle_eviction]: at most one interval, or one wait for the
    lock, more, and the delays of the executor; and a sweep takes exactly the
    pools that were idle for [idle_eviction] when it read the clock. *)
Theorem idle_pools_swept w :
  rtc step spawn_idle_sweeper w ->
  (task w <> Ended -> forall k e, pools w !! k = Some e ->
     idle e (now w) <= idle_eviction_ms cfg + Z.max interval patience + 2 * late + patience) /\
  (forall at_ due k e, task w = Sweeping at_ due -> pools w !! k = Some e ->
     snd (sweep_idle cfg at_ (pools w)) !! k = if idle_eviction_ms cfg <=? Z.max 0 (idle e at_) then None else Some e).
Proof.
  intros HR. destruct (sweeper_reachable_ok w HR) as [H1 H2 H3 H4]. split.
  - intros Hne k e He. destruct (H1 k e He) as [Hc Hu]. specialize (Hu Hne). unfold idle.
    destruct (task w); cbn in *; try done; apply Z.leb_le in H4; lia.
  - intros at_ due k e _ He. destruct (remove_where_spec (is_idle cfg at_) (pools w)) as [Hs _].
    unfold sweep_idle. by rewrite Hs, He.
Qed.

(** ** The end of the task *)

(** No holder is left, and the task is past at most the tick it was past. *)
Definition winding_down (p : phase) (w : world) : Prop :=
  holders w = 0%nat /\ forall at_ due, task w = Sweeping at_ due -> p = Sweeping at_ due.

Lemma winding_down_step p w w' : winding_down p w -> step w w' -> winding_down p w'.
Proof.
  intros [Hh Hp] Hs. destruct Hs as [w d _ _|w t digest keys built r m _ _ _|w q t|w s|w Hne|w n Hn|w q Hq|w at_ due Et]; split; cbn; try done; try congruence.
  unfold cancelled in Hq. rewrite Hh in Hq. destruct (task w); cbn in Hq; try done; by injection Hq as <-.
Qed.

Lemma winding_down_steps p w w' : winding_down p w -> rtc step w w' -> winding_down p w'.
Proof. intros Hp HR. induction HR as [|a b c Hs _ IH]; [done|]. by eapply IH, winding_down_step. Qed.

(** Once the last clone of the guard is dropped no further sweep begins,
    and when the executor polls the task again it ends, whatever is due. *)
Theorem no_sweep_after_drop w w' :
  holders w = 0%nat -> rtc step w w' ->
  (forall at_ due, task w' = Sweeping at_ due -> task w = Sweeping at_ due) /\
  (forall since due, task w' = Waiting since due -> poll (now w') (cancelled w') (task w') = Some Ended).
Proof.
  intros Hh HR. assert (winding_down (task w) w') as [Hh' Hp].
  { eapply winding_down_steps; [|done]. done. }
  split; [done|]. intros since due Et. rewrite Et. unfold cancelled. by rewrite Hh'.
Qed.
End Sweeper.

(** ** Examples *)

Module Demo.

Definition cfg : PoolRegistryConfig := {| pool_max_entries := 2; idle_eviction_ms := 1000 |}.
Lemma cfg_ok : 0 <= 100 /\ 0 <= 10 /\ 0 <= 20 <= idle_eviction_ms cfg.
Proof. cbn. lia. Qed.

Abbreviation steps := (rtc (step (PoolHandle := nat) cfg 100 10 20)).

Definition one_pool (used : Z) : gmap CredDigest (PoolEntry (PoolHandle := nat)) :=
  {[7%Z := mkEntry 3%nat [] used]}.

(** A pool opened at once, the task polled, and a tick past. *)
Definition opened : world := mkWorld 0 (one_pool 0) Spawned 1.
Definition ticked : world := mkWorld 100 (one_pool 0) (Sweeping 100 200) 1.

Lemma ticked_reachable : steps (spawn_idle_sweeper) ticked.
Proof.
  eapply rtc_l with (y := opened).
  { apply (step_get cfg 100 10 20 spawn_idle_sweeper 0 7 [] (Ok 3%nat) (Ok 3%nat) (one_pool 0)); [done|cbn; lia|by vm_compute]. }
  eapply rtc_l; [by apply (step_poll cfg 100 10 20 opened (Waiting 0 100))|].
  eapply rtc_l; [by apply (step_time cfg 100 10 20 _ 100)|].
  eapply rtc_l; [by apply (step_poll cfg 100 10 20 _ (Sweeping 100 200))|]. apply rtc_refl.
Qed.

Lemma idle_pools_swept_witness : idle (PoolHandle := nat) (mkEntry 3%nat [] 0) 100 <= 1000 + 100 + 20 + 20.
Proof.
  refine (proj1 (idle_pools_swept cfg 100 10 20 cfg_ok ticked ticked_reachable) _ 7 (mkEntry 3%nat [] 0) _).
  - done.
  - by vm_compute.
Defined.

(** The sweep that is past its tick when the guard goes still runs; then the
    task ends. *)
Definition dropped : world := mkWorld 100 (one_pool 0) (Sweeping 100 200) 0.
Definition over : world := mkWorld 100 (one_pool 0) (Waiting 100 200) 0.

Lemma no_sweep_after_drop_witness : poll 100 500 true (task over) = Some Ended.
Proof.
  assert (steps dropped over) as HR.
  { apply rtc_once. exact (step_sweep cfg 100 10 20 dropped 100 200 eq_refl). }
  exact (proj2 (no_sweep_after_drop cfg 100 10 20 dropped over eq_refl HR) 100 200 eq_refl).
Defined.
End Demo.
End Sweeper.
