(* ===== verification/Invalidator.v ===== *)
(** The cache invalidator at work: the task [spawn_invalidator] of
    [src/src/cache.rs] starts, its ticks and its cancellation, with the calls of
    [src/src/lib.rs] that read its version into their cache key.

    [Cache] has one poll and the key; here polls, calls, changes of the data and
    the clones of the [Arc] the task and the profile share are steps of one
    machine.  Times are in milliseconds. *)

From Stdlib Require Import ZArith Lia Bool Ascii String.
From stdpp Require Import base list gmap relations.
From S2P Require Import Prelude RustStd Json Errors Sqlx Cache Sweeper.

Module Invalidator.
Import Cache.

Section Invalidator.
Context (interval : Z).
(** What the tracking query answers when the data changed [n] times. *)
Context (answer : Z -> RowBatch).

(** Before the first poll; in [select!]; in [driver.execute], the server not yet
    or already asked; returned.  The next tick is due when its time says. *)
Inductive phase : Type :=
| Spawned
| Waiting (due : Z)
| Querying (due : Z)
| Answering (data due : Z)
| Ended.

(** A call of [execute]: with the version in its key, with the rows of its own
    query, returned.  Beside them what the last answered poll had seen when the
    version was read. *)
Inductive call : Type :=
| Keyed (version : Z) (seen : option Z)
| Fetched (version : Z) (seen : option Z) (data : Z)
| Served (version : Z) (seen : option Z) (data : Z).

Record world : Type := mkWorld {
  now : Z;
  epoch : Z;                  (* how often the tracked data changed *)
  task : phase;
  inv : invalidator;
  holders : nat;              (* clones of the [Arc] in profile runtimes *)
  tracking : nat;             (* tracking queries sent *)
  seen : option Z;            (* what the last answered poll saw *)
  store : gmap Z Z;           (* the host's cache: of which data the response under a key is *)
  calls : list call;
}.

(** [spawn_invalidator] for a binding whose entries in the host's cache are [s]. *)
Definition spawn_invalidator (t n : Z) (s : gmap Z Z) : world :=
  mkWorld t n Spawned new_invalidator 1 0 None s [].

(** The task holds a clone of the [Arc<CacheInvalidator>] for as long as it runs. *)
Definition task_clone (p : phase) : nat := match p with Ended => 0%nat | _ => 1%nat end.
Definition strong_count (w : world) : nat := (holders w + task_clone (task w))%nat.

(** The token is cancelled by the guard in the invalidator, dropped with the last
    clone of its [Arc]. *)
Definition cancelled (w : world) : bool := match strong_count w with O => true | S _ => false end.

(** One poll of [invalidation_loop] at time [t]; [select!] is biased. *)
Definition poll_task (t : Z) (c : bool) (p : phase) : option phase :=
  match p with
  | Spawned => Some (Waiting t)
  | Waiting due => if c then Some Ended
                   else if due <=? t then Some (Querying (Sweeper.next_due interval t due)) else None
  | _ => None
  end.

Definition set_task (p : phase) (w : world) : world :=
  mkWorld (now w) (epoch w) p (inv w) (holders w) (tracking w) (seen w) (store w) (calls w).
Definition set_call (i : nat) (c : call) (w : world) : world :=
  mkWorld (now w) (epoch w) (task w) (inv w) (holders w) (tracking w) (seen w) (store w) (<[i:=c]> (calls w)).

(** The handler of a tick: the server is asked, then the answer is compared. *)
Definition asked (w : world) : option world :=
  match task w with
  | Querying due =>
      Some (mkWorld (now w) (epoch w) (Answering (epoch w) due) (inv w) (holders w) (S (tracking w)) (seen w) (store w) (calls w))
  | _ => None
  end.
Definition answered (w : world) : option world :=
  match task w with
  | Answering data due =>
      Some (mkWorld (now w) (epoch w) (Waiting due) (Cache.poll (Ok (answer data)) (inv w)) (holders w) (tracking w)
              (Some data) (store w) (calls w))
  | _ => None
  end.
Definition failed (e : SqlError) (w : world) : option world :=
  match task w with
  | Querying due | Answering _ due =>
      Some (mkWorld (now w) (epoch w) (Waiting due) (Cache.poll (Err e) (inv w)) (holders w) (tracking w) (seen w) (store w) (calls w))
  | _ => None
  end.

(** The three points at which a call meets the cache. *)
Definition read_version (w : world) : world :=
  mkWorld (now w) (epoch w) (task w) (inv w) (holders w) (tracking w) (seen w) (store w)
    (calls w ++ [Keyed (inv_version (inv w)) (seen w)]).
Definition cache_hit (i : nat) (w : world) : option world :=
  match calls w !! i with
  | Some (Keyed v o) => e ← store w !! v; Some (set_call i (Served v o e) w)
  | _ => None
  end.
Definition query (i : nat) (w : world) : option world :=
  match calls w !! i with
  | Some (Keyed v o) => Some (set_call i (Fetched v o (epoch w)) w)
  | _ => None
  end.
Definition cache_put (i : nat) (w : world) : option world :=
  match calls w !! i with
  | Some (Fetched v o e) =>
      Some (mkWorld (now w) (epoch w) (task w) (inv w) (holders w) (tracking w) (seen w) (<[v:=e]> (store w))
              (<[i:=Served v o e]> (calls w)))
  | _ => None
  end.
(** A response that is not stored, the host refusing it. *)
Definition respond (i : nat) (w : world) : option world :=
  match calls w !! i with
  | Some (Fetched v o e) => Some (set_call i (Served v o e) w)
  | _ => None
  end.

Inductive step : world -> world -> Prop :=
| step_time w d : 0 <= d ->
    step w (mkWorld (now w + d) (epoch w) (task w) (inv w) (holders w) (tracking w) (seen w) (store w) (calls w))
| step_change w :
    step w (mkWorld (now w) (epoch w + 1) (task w) (inv w) (holders w) (tracking w) (seen w) (store w) (calls w))
| step_clone w : holders w <> 0%nat ->
    step w (mkWorld (now w) (epoch w) (task w) (inv w) (S (holders w)) (tracking w) (seen w) (store w) (calls w))
| step_drop w n : holders w = S n ->
    step w (mkWorld (now w) (epoch w) (task w) (inv w) n (tracking w) (seen w) (store w) (calls w))
| step_expire w v :
    step w (mkWorld (now w) (epoch w) (task w) (inv w) (holders w) (tracking w) (seen w) (delete v (store w)) (calls w))
| step_poll w p : poll_task (now w) (cancelled w) (task w) = Some p -> step w (set_task p w)
| step_asked w w' : asked w = Some w' -> step w w'
| step_answered w w' : answered w = Some w' -> step w w'
| step_failed w e w' : failed e w = Some w' -> step w w'
| step_call w : holders w <> 0%nat -> step w (read_version w)
| step_hit w i w' : cache_hit i w = Some w' -> step w w'
| step_query w i w' : query i w = Some w' -> step w w'
| step_put w i w' : cache_put i w = Some w' -> step w w'
| step_respond w i w' : respond i w = Some w' -> step w w'.

Abbreviation steps := (rtc step).

(** [register_profile] again, over the entries the host kept. *)
Definition reload (w : world) : world := spawn_invalidator (now w) (epoch w) (store w).

(** * The task is never cancelled *)

Lemma task_alive w : task w <> Ended -> cancelled w = false.
Proof. unfold cancelled, strong_count. destruct (task w); cbn; rewrite ?Nat.add_1_r; done. Qed.

Lemma alive_step w w' : task w <> Ended -> step w w' -> task w' <> Ended.
Proof.
  intros Ha Hs. pose proof (task_alive w Ha) as Hc.
  destruct Hs as [| | | | |w p Hp|w w' H|w w' H|w e w' H| |w i w' H|w i w' H|w i w' H|w i w' H]; try done.
  - rewrite Hc in Hp. unfold poll_task in Hp. cbn. destruct (task w); try done; [by injection Hp as <-|].
    destruct (_ <=? _); [by injection Hp as <-|done].
  - unfold asked in H. destruct (task w); try done. by injection H as <-.
  - unfold answered in H. destruct (task w); try done. by injection H as <-.
  - unfold failed in H. destruct (task w); try done; by injection H as <-.
  - unfold cache_hit in H. destruct (calls w !! i) as [[v o|v o d|v o d]|]; try done. cbn in H.
    destruct (store w !! v); [|done]. by injection H as <-.
  - unfold query in H. destruct (calls w !! i) as [[v o|v o d|v o d]|]; try done. by injection H as <-.
  - unfold cache_put in H. destruct (calls w !! i) as [[v o|v o d|v o d]|]; try done. by injection H as <-.
  - unfold respond in H. destruct (calls w !! i) as [[v o|v o d|v o d]|]; try done. by injection H as <-.
Qed.

(** The next tracking query, whatever the state of a live task. *)
Lemma next_query w :
  task w <> Ended -> exists w', steps w w' /\ holders w' = holders w /\ tracking w' = S (tracking w) /\ task w' <> Ended.
Proof.
  assert (forall w due, task w = Waiting due ->
            exists w', steps w w' /\ holders w' = holders w /\ tracking w' = S (tracking w) /\ task w' <> Ended) as Hwait.
  { intros v due Et. eexists. split_and!.
    - eapply rtc_l; [by apply (step_time v (Z.max 0 (due - now v))); lia|].
      eapply rtc_l; [eapply step_poll|].
      + cbn [now task]. rewrite task_alive by (cbn [task]; congruence). rewrite Et. cbn [poll_task].
        destruct (Z.leb_spec due (now v + Z.max 0 (due - now v))); [reflexivity|lia].
      + apply rtc_once, step_asked. reflexivity.
    - done.
    - done.
    - done. }
  intros Ha. destruct (task w) as [|due|due|data due|] eqn:Et; [| | | |done].
  - destruct (Hwait (set_task (Waiting (now w)) w) (now w) eq_refl) as (w' & HR & H).
    exists w'. split; [|done]. eapply rtc_l; [|exact HR]. apply step_poll. by rewrite Et.
  - by apply (Hwait w due).
  - eexists. split; [apply rtc_once, step_asked; unfold asked; by rewrite Et|done].
  - destruct (Hwait (mkWorld (now w) (epoch w) (Waiting due) (Cache.poll (Err (Timeout 0)) (inv w)) (holders w) (tracking w) (seen w)
      (store w) (calls w)) due eq_refl) as (w' & HR & H).
    exists w'. split; [|done]. eapply rtc_l; [|exact HR]. apply (step_failed _ (Timeout 0)). unfold failed. by rewrite Et.
Qed.

Lemma live_until w w' : steps w w' -> task w <> Ended -> task w' <> Ended.
Proof. intros HR. induction HR as [|a b c Hs _ IH]; [done|]. intros Ha. by eapply IH, alive_step. Qed.

(** C26.  The invalidator's task is never cancelled: the task itself holds one of the
    clones whose last drop would cancel it.  So in every state after a
    registration, also when the profile is gone and with it every clone it gave
    out, the task is alive, and from there any number of further tracking queries
    can be sent with nothing else happening to the profile. *)
Theorem invalidator_outlives_profile t n s w :
  steps (spawn_invalidator t n s) w ->
  task w <> Ended /\ cancelled w = false /\
  forall k, exists w', steps w w' /\ holders w' = holders w /\ tracking w' = (k + tracking w)%nat.
Proof.
  intros HR. assert (task w <> Ended) as Ha by by eapply live_until. split; [done|]. split; [by apply task_alive|].
  intros k. assert (exists w', steps w w' /\ holders w' = holders w /\ tracking w' = (k + tracking w)%nat /\ task w' <> Ended)
    as (w' & H1 & H2 & H3 & _); [|by exists w'].
  induction k as [|k (w1 & H1 & H2 & H3 & H4)]; [by exists w|]. destruct (next_query w1 H4) as (w2 & G1 & G2 & G3 & G4).
  exists w2. split; [by etrans|]. split_and!; [congruence| |done]. rewrite G3, H3. done.
Qed.

(** * Fresh responses *)

(** The tracking query has a value, whatever the data. *)
Hypothesis answers : forall a, first_scalar (rows (answer a)) <> None.

Definition token (a : Z) : option value := first_scalar (rows (answer a)).

(** The poll that saw [o] took it for the data [b]. *)
Definition same (b o : Z) : Prop := b = o \/ cursor_eqb (token o) (token b) = true.

(** The data a version stands for: what the poll that set it saw; every poll
    since then has taken what it saw for that. *)
Definition version_ok (f : Z -> Z) (w : world) (v : Z) (o : option Z) : Prop :=
  0 <= v <= inv_version (inv w) /\ (0 < v -> exists d, o = Some d /\ f v <= d /\ same (f v) d).

Definition call_ok (f : Z -> Z) (w : world) (c : call) : Prop :=
  match c with
  | Keyed v o => version_ok f w v o
  | Fetched v o e | Served v o e => version_ok f w v o /\ (0 < v -> f v <= e) /\ e <= epoch w
  end.

Definition in_flight (p : phase) : option Z := match p with Answering data _ => Some data | _ => None end.

Definition flight (p : phase) : nat := match in_flight p with Some _ => 1 | None => 0 end.

Record world_ok (f : Z -> Z) (w : world) : Prop := {
  ok_version : 0 <= inv_version (inv w) /\ inv_version (inv w) + Z.of_nat (flight (task w)) <= Z.of_nat (tracking w);
  ok_cursor : match seen w with
              | Some o => o <= epoch w /\ exists b, last_cursor (inv w) = token b /\ b <= o /\ same b o /\
                            (0 < inv_version (inv w) -> b = f (inv_version (inv w)))
              | None => last_cursor (inv w) = None /\ inv_version (inv w) = 0
              end;
  ok_epoch : 0 <= epoch w;
  ok_floor : forall v, 0 < v <= inv_version (inv w) -> f v <= epoch w;
  ok_flight : forall e, in_flight (task w) = Some e -> 0 <= e <= epoch w /\ (forall o, seen w = Some o -> o <= e);
  ok_store : forall v e, store w !! v = Some e -> 0 <= v <= inv_version (inv w) /\ (0 < v -> f v <= e) /\ e <= epoch w;
  ok_calls : Forall (call_ok f w) (calls w);
}.

Lemma invalidator_spawned_ok f t n : 0 <= n -> world_ok f (spawn_invalidator t n ∅).
Proof. intros Hn. split; cbn; try done; try lia. Qed.

(** What a step may do without touching the version, the data or the cache. *)
Lemma quiet_ok f w w' :
  world_ok f w -> inv w' = inv w -> seen w' = seen w -> epoch w <= epoch w' ->
  (forall e, in_flight (task w') = Some e -> in_flight (task w) = Some e \/ e = epoch w) ->
  (tracking w + flight (task w') <= tracking w' + flight (task w))%nat ->
  (forall v e, store w' !! v = Some e -> store w !! v = Some e) -> calls w' = calls w -> world_ok f w'.
Proof.
  intros [H1 H2 H3 H4 H5 H6 H7] Ei Es Ee Ef Et Est Ec. split; rewrite ?Ei, ?Es, ?Ec; try done.
  - lia.
  - destruct (seen w); [|done]. destruct H2 as [? H2]. split; [lia|done].
  - lia.
  - intros v Hv. specialize (H4 v Hv). lia.
  - intros e He. destruct (Ef e He) as [Hold| ->].
    + destruct (H5 e Hold). split; [lia|done].
    + split; [lia|]. intros o Ho. rewrite Ho in H2. lia.
  - intros v e He. destruct (H6 v e (Est v e He)) as (? & ? & ?). split_and!; try done; lia.
  - eapply Forall_impl; [exact H7|]. intros c. unfold call_ok, version_ok. rewrite Ei.
    destruct c; [done| |]; intros (? & ? & ?); (split; [done|split; [done|lia]]).
Qed.

(** A call that moves. *)
Lemma call_moves f w i c s :
  world_ok f w -> call_ok f w c ->
  (forall v e, s !! v = Some e -> store w !! v = Some e \/ exists o, c = Served v o e) ->
  world_ok f (mkWorld (now w) (epoch w) (task w) (inv w) (holders w) (tracking w) (seen w) s (<[i:=c]> (calls w))).
Proof.
  intros [H1 H2 H3 H4 H5 H6 H7] Hc Hs. split; cbn; try done.
  - intros v e He. destruct (Hs v e He) as [Hold|[o ->]]; [by apply H6|]. destruct Hc as ([? _] & ? & ?). done.
  - by apply Forall_insert.
Qed.

Lemma call_at f w i c : world_ok f w -> calls w !! i = Some c -> call_ok f w c.
Proof. intros Hw Hi. eapply Forall_lookup_1; [by apply Hw|exact Hi]. Qed.

Lemma epoch_floor f w v : world_ok f w -> 0 <= v <= inv_version (inv w) -> 0 < v -> f v <= epoch w.
Proof. intros Hw Hv Hp. apply (ok_floor f w Hw). lia. Qed.

Lemma calls_ok f w w' :
  world_ok f w -> (exists i, cache_hit i w = Some w' \/ query i w = Some w' \/ cache_put i w = Some w' \/ respond i w = Some w') ->
  world_ok f w'.
Proof.
  intros Hw (i & [H|[H|[H|H]]]); unfold cache_hit, query, cache_put, respond in H;
    destruct (calls w !! i) as [[v o|v o e|v o e]|] eqn:Hi; try done; pose proof (call_at f w i _ Hw Hi) as Hc; cbn in H.
  - destruct (store w !! v) as [e|] eqn:Es; [|done]. injection H as <-. apply call_moves; [done| |auto].
    destruct (ok_store f w Hw v e Es) as (? & ? & ?). by split_and!.
  - injection H as <-. apply call_moves; [done| |auto]. split; [done|]. split; [|done].
    intros Hp. by apply epoch_floor; [|apply Hc|].
  - injection H as <-. apply call_moves; [done|done|]. intros v' e' He. destruct (decide (v' = v)) as [->|Hne].
    + rewrite lookup_insert_eq in He. injection He as <-. right. by exists o.
    + rewrite lookup_insert_ne in He by done. by left.
  - injection H as <-. apply call_moves; [done|done|auto].
Qed.

(** A poll that finds a new value: the next version stands for its data. *)
Lemma new_version_ok f w e due :
  world_ok f w -> task w = Answering e due -> inv_version (inv w) < u64_max ->
  forall f', f' = (fun u => if u =? inv_version (inv w) + 1 then e else f u) ->
  world_ok f' (mkWorld (now w) (epoch w) (Waiting due) {| last_cursor := token e; inv_version := inv_version (inv w) + 1 |}
                 (holders w) (tracking w) (Some e) (store w) (calls w)).
Proof.
  intros [H1 H2 H3 H4 H5 H6 H7] Et Hmax f' Hf'. destruct (H5 e) as [He Hle]; [by rewrite Et|].
  unfold flight in H1. rewrite Et in H1. cbn in H1. set (v := inv_version (inv w)) in *.
  assert (forall u, 0 <= u <= v -> f' u = f u) as Hf.
  { intros u Hu. rewrite Hf'. destruct (Z.eqb_spec u (v + 1)); [lia|done]. }
  assert (f' (v + 1) = e) as Hnew by (rewrite Hf'; by rewrite Z.eqb_refl).
  split; cbn; try lia; try done.
  - split; [lia|]. exists e. split_and!; [done|lia|by left|by rewrite Hnew].
  - intros u Hu. destruct (decide (u = v + 1)) as [->|]; [lia|]. rewrite Hf by lia. apply H4. lia.
  - intros u d Hd. destruct (H6 u d Hd) as (Hu & Hx & Hd'). rewrite Hf by done. split_and!; [lia|lia|done|done].
  - eapply Forall_impl; [exact H7|]. intros c. unfold call_ok, version_ok. cbn.
    destruct c as [u o|u o d|u o d]; intros Hc; [destruct Hc as [Hu Hc]|destruct Hc as ([Hu Hc] & ? & ?)..];
      rewrite (Hf u Hu); [split; [lia|done]|split; [split; [lia|done]|done]..].
Qed.

(** The end of a poll: data taken for the same, or a new version for it. *)
Lemma answered_ok f w w' :
  world_ok f w -> Z.of_nat (tracking w) <= u64_max -> answered w = Some w' -> exists f', world_ok f' w'.
Proof.
  intros Hw Hmax H. pose proof Hw as [H1 H2 H3 H4 H5 H6 H7]. unfold answered in H.
  destruct (task w) as [| | |e due|] eqn:Et; try done. injection H as <-.
  destruct (H5 e eq_refl) as [He Hle]. unfold flight in H1. cbn in H1.
  unfold Cache.poll. cbv zeta. fold (token e). destruct (seen w) as [o|] eqn:Es.
  - destruct H2 as [Ho (b & Hl & Hb & Hs & Hv)]. specialize (Hle o eq_refl). rewrite Hl.
    destruct (cursor_eqb (token e) (token b)) eqn:Ee; cbn [negb].
    + exists f. split; cbn; try done; try lia. split; [lia|]. exists b. split_and!; [done|lia|by right|done].
    + destruct (token b) as [y|] eqn:Ey; [|by destruct (answers b)].
      assert (bump (inv_version (inv w)) = inv_version (inv w) + 1) as Eb
        by (unfold bump; apply wrapu_small; unfold u64_max in Hmax; lia).
      eexists. rewrite Eb. eapply new_version_ok; [done|done|lia|reflexivity].
  - destruct H2 as [Hc Hv]. rewrite Hc. destruct (token e) as [x|] eqn:Ex; [|by destruct (answers e)].
    cbn [cursor_eqb negb]. exists f. split; cbn; try done; try lia. split; [lia|]. exists e. split_and!; [done|lia|by left|lia].
Qed.

Lemma invalidator_step_ok f w w' :
  world_ok f w -> Z.of_nat (tracking w') <= u64_max -> step w w' -> exists f', world_ok f' w'.
Proof.
  intros Hw Hmax Hs. destruct Hs as [w d|w|w|w n|w v|w p Hp|w w' H|w w' H|w e w' H|w Hh|w i w' H|w i w' H|w i w' H|w i w' H].
  - exists f. eapply quiet_ok; [exact Hw|..]; cbn; try done; auto; lia.
  - exists f. eapply quiet_ok; [exact Hw|..]; cbn; try done; auto; lia.
  - exists f. eapply quiet_ok; [exact Hw|..]; cbn; try done; auto; lia.
  - exists f. eapply quiet_ok; [exact Hw|..]; cbn; try done; auto; lia.
  - exists f. eapply quiet_ok; [exact Hw|..]; cbn; try done; auto. by intros u e [_ ?]%lookup_delete_Some.
  - exists f. unfold poll_task in Hp.
    assert (in_flight p = None) as Hn.
    { destruct (task w) as [|due| | |]; try done; [by injection Hp as <-|]. destruct (cancelled w); [by injection Hp as <-|].
      destruct (due <=? now w); [by injection Hp as <-|done]. }
    eapply quiet_ok; [exact Hw|..]; cbn; try done; auto; [by rewrite Hn|]. unfold flight at 1. rewrite Hn. lia.
  - exists f. unfold asked in H. destruct (task w) eqn:Et; try done. injection H as <-.
    eapply quiet_ok; [exact Hw|..]; cbn; rewrite ?Et; cbn; try done; auto; [|unfold flight; cbn; lia]. intros e [= <-]. by right.
  - eapply answered_ok; [exact Hw| |exact H]. unfold answered in H. destruct (task w); try done. by injection H as <-.
  - exists f. unfold failed in H. destruct (task w) eqn:Et; try done; injection H as <-;
      (eapply quiet_ok; [exact Hw|..]; cbn; rewrite ?Et; unfold flight; cbn; try done; auto; lia).
  - exists f. destruct Hw as [H1 H2 H3 H4 H5 H6 H7]. split; cbn; try done. apply Forall_app. split; [done|].
    constructor; [|done]. split; [cbn; lia|]. intros Hp. destruct (seen w) as [o|]; [|lia].
    destruct H2 as [_ (b & _ & Hb & Hs & Hv)]. rewrite (Hv Hp) in Hb, Hs. by exists o.
  - exists f. eapply calls_ok; [exact Hw|]. exists i. auto.
  - exists f. eapply calls_ok; [exact Hw|]. exists i. auto.
  - exists f. eapply calls_ok; [exact Hw|]. exists i. auto.
  - exists f. eapply calls_ok; [exact Hw|]. exists i. auto.
Qed.

Lemma tracking_step w w' : step w w' -> (tracking w <= tracking w')%nat.
Proof.
  intros Hs. destruct Hs as [w d|w|w|w n|w v|w p Hp|w w' H|w w' H|w e w' H|w Hh|w i w' H|w i w' H|w i w' H|w i w' H]; cbn; try lia;
    unfold asked, answered, failed, cache_hit, query, cache_put, respond in H;
    repeat (case_match; try done); try (injection H as <-; cbn; lia);
    (apply bind_Some in H as (d & _ & H); injection H as <-; cbn; lia).
Qed.

Lemma invalidator_reachable_ok t n w :
  0 <= n -> steps (spawn_invalidator t n ∅) w -> Z.of_nat (tracking w) <= u64_max -> exists f, world_ok f w.
Proof.
  intros Hn HR. refine (rtc_ind_r (fun w => Z.of_nat (tracking w) <= u64_max -> exists f, world_ok f w) _ _ _ w HR).
  - intros _. exists (fun _ => 0). by apply invalidator_spawned_ok.
  - intros b c _ Hbc IH Hmax. destruct IH as [f Hf]; [pose proof (tracking_step _ _ Hbc); lia|]. by eapply invalidator_step_ok.
Qed.

(** C19.  How old a response of a cached binding may be.  Let the tracking query
    always have a value, the host's cache start empty, and the tracking queries
    made be fewer than 2^64 (the version is a [u64]).  Of every response
    under a version past the first, cached or not and whatever else runs, fails,
    expires or changes: when [o] is the data the invalidator had last seen when
    the call read the version, the response is of data no older than [o], or than
    some earlier [b] that the tracking query does not tell from [o].  So where
    that query tells all states of the data apart the response is no older than
    [o]; where it does not, as with a [COUNT( * )] or [MAX(updated_at)] that misses
    a change, a response from before the change can be served. *)
Theorem served_fresh t n w v o e :
  0 <= n -> steps (spawn_invalidator t n ∅) w -> Z.of_nat (tracking w) <= u64_max ->
  Served v (Some o) e ∈ calls w -> 0 < v ->
  e <= epoch w /\
  (exists b, b <= e /\ b <= o /\
     (b = o \/ cursor_eqb (first_scalar (rows (answer o))) (first_scalar (rows (answer b))) = true)) /\
  ((forall a b, cursor_eqb (first_scalar (rows (answer a))) (first_scalar (rows (answer b))) = true -> a = b) -> o <= e).
Proof.
  intros Hn HR Hmax Hin Hv. destruct (invalidator_reachable_ok t n w Hn HR Hmax) as [f Hw].
  pose proof (proj1 (Forall_forall _ _) (ok_calls f w Hw) _ Hin) as ([_ Hs] & He & Hle).
  destruct (Hs Hv) as (d & [= <-] & Hd & Hsame). split; [done|]. specialize (He Hv). split; [by exists (f v)|].
  intros Hinj. destruct Hsame as [<-|Heq]; [done|]. apply Hinj in Heq. lia.
Qed.
End Invalidator.

(** * Examples *)

Module Demo.

(** A table whose tracking query counts its changes, polled every second. *)
Definition interval : Z := 1000.
Definition answer (n : Z) : RowBatch :=
  {| columns := []; rows := [VObject [("changes"%string, VNumber (PosInt n))]]; rows_affected := None; truncated := false;
     has_more := false |}.

Lemma tells_apart a b : cursor_eqb (first_scalar (rows (answer a))) (first_scalar (rows (answer b))) = true -> a = b.
Proof. apply Z.eqb_eq. Qed.

Lemma answers a : first_scalar (rows (answer a)) <> None.
Proof. done. Qed.

(** Runs as lists of what happens. *)
Inductive act : Type := Time (d : Z) | Change | Drop | Poll | Ask | Answer | Call | Hit (i : nat) | Query (i : nat) | Put (i : nat).

Definition run1 (a : act) (w : world) : option world :=
  match a with
  | Time d => Some (mkWorld (now w + Z.max 0 d) (epoch w) (task w) (inv w) (holders w) (tracking w) (seen w) (store w) (calls w))
  | Change => Some (mkWorld (now w) (epoch w + 1) (task w) (inv w) (holders w) (tracking w) (seen w) (store w) (calls w))
  | Drop => match holders w with
            | O => None
            | S n => Some (mkWorld (now w) (epoch w) (task w) (inv w) n (tracking w) (seen w) (store w) (calls w))
            end
  | Poll => (fun p => set_task p w) <$> poll_task interval (now w) (cancelled w) (task w)
  | Ask => asked w
  | Answer => answered answer w
  | Call => match holders w with O => None | S _ => Some (read_version w) end
  | Hit i => cache_hit i w
  | Query i => query i w
  | Put i => cache_put i w
  end.

Fixpoint run (l : list act) (w : world) : option world :=
  match l with
  | [] => Some w
  | a :: l' => w' ← run1 a w; run l' w'
  end.

Abbreviation steps := (rtc (step interval answer)).

Lemma run1_step a w w' : run1 a w = Some w' -> step interval answer w w'.
Proof.
  destruct a as [d| | | | | | |i|i|i]; cbn [run1]; intros H.
  - injection H as <-. apply step_time. lia.
  - injection H as <-. apply step_change.
  - destruct (holders w) eqn:Eh; [done|]. injection H as <-. by apply step_drop.
  - apply fmap_Some in H as (p & Hp & ->). by apply step_poll.
  - by apply step_asked.
  - by apply step_answered.
  - destruct (holders w) eqn:Eh; [done|]. injection H as <-. apply step_call. by rewrite Eh.
  - by eapply step_hit.
  - by eapply step_query.
  - by eapply step_put.
Qed.

Lemma run_steps l : forall w w', run l w = Some w' -> steps w w'.
Proof.
  induction l as [|a l IH]; intros w w'; cbn [run]; [by intros [= <-]|].
  intros (w1 & H1 & H2)%bind_Some. eapply rtc_l; [by eapply run1_step|by apply IH].
Qed.

Definition after (l : list act) (w : world) : world := default w (run l w).
Definition runs (l : list act) (w : world) : bool := match run l w with Some _ => true | None => false end.

Lemma after_steps l w : runs l w = true -> steps w (after l w).
Proof. unfold runs, after. destruct (run l w) eqn:E; [|done]. intros _. by eapply run_steps. Qed.

Ltac by_run := apply after_steps; vm_compute; reflexivity.

Definition start : world := spawn_invalidator 0 0 ∅.

(** The data changes between two polls; two calls follow, the second is served
    from the cache. *)
Definition observed : list act :=
  [Poll; Poll; Ask; Answer; Change; Time 1000; Poll; Ask; Answer; Call; Query 0; Put 0; Call; Hit 1].

Lemma served_fresh_witness :
  Served 1 (Some 1) 1 ∈ calls (after observed start) /\ 1 <= 1 <= epoch (after observed start).
Proof.
  assert (Served 1 (Some 1) 1 ∈ calls (after observed start)) as Hin by (vm_compute; right; left).
  split; [exact Hin|].
  assert (1 <= epoch (after observed start) /\ 1 <= 1) as [H1 H2]; [|done].
  destruct (served_fresh interval answer answers 0 0 (after observed start) 1 1 1) as (H1 & _ & H2);
    [lia|by_run|vm_compute; discriminate|exact Hin|lia|]. split; [exact H1|apply H2, tells_apart].
Defined.

(** The profile is dropped, and a minute later the task still asks. *)
Lemma invalidator_outlives_profile_witness :
  holders (after [Poll; Poll; Ask; Answer; Drop; Time 60000; Poll; Ask] start) = 0%nat /\
  tracking (after [Poll; Poll; Ask; Answer; Drop; Time 60000; Poll; Ask] start) = 2%nat /\
  task (after [Poll; Poll; Ask; Answer; Drop; Time 60000; Poll; Ask] start) <> Ended.
Proof.
  split; [by vm_compute|]. split; [by vm_compute|].
  apply (invalidator_outlives_profile interval answer 0 0 ∅ (after [Poll; Poll; Ask; Answer; Drop; Time 60000; Poll; Ask] start)).
  by_run.
Defined.

(** A response cached before the first poll is under the version the first poll
    leaves in place: data that changed in between is served from it although the
    task has seen the change. *)
Example baseline_serves_stale :
  calls (after [Call; Query 0; Put 0; Change; Poll; Poll; Ask; Answer; Call; Hit 1] start) = [Served 0 None 0; Served 0 (Some 1) 0].
Proof. by vm_compute. Qed.

(** A response cached before a change comes back when the binding is registered
    again: the new invalidator starts at version 0. *)
Definition cached : world := after [Poll; Poll; Ask; Answer; Call; Query 0; Put 0; Change; Time 1000; Poll; Ask; Answer] start.

Theorem reload_serves_stale :
  steps start cached /\ seen cached = Some 1 /\ inv_version (inv cached) = 1 /\
  exists w, steps (reload cached) w /\ seen w = Some 1 /\ Served 0 (Some 1) 0 ∈ calls w.
Proof.
  split; [by_run|]. split; [by vm_compute|]. split; [by vm_compute|].
  exists (after [Poll; Poll; Ask; Answer; Call; Hit 0] (reload cached)).
  split; [by_run|]. split; [by vm_compute|]. vm_compute. left.
Qed.
End Demo.
End Invalidator.
