(* ===== verification/Rotator.v ===== *)
(** The token rotator's task, [TokenRotator::spawn] of [src/src/auth/rotator.rs],
    beside the pool whose connect options it renews, and the mock provider of
    [src/src/auth/mod.rs].

    A machine whose steps are the task's polls, what the provider and the sink
    answer, the passing of time, and what the holders of the rotator do.
    Durations are nanoseconds.  [Auth] has the schedule's consequences for the age
    of a token; here is what the task does at all, and when it stops. *)

From Stdlib Require Import ZArith Lia Bool Ascii String.
From stdpp Require Import base list strings relations.
From S2P Require Import Prelude RustStd Errors Json Config Auth.

Module Rotator.
Import Auth.

(** What a turn of the loop came to: the label of its counter. *)
Inductive outcome : Type :=
| Refreshed (token : string)
| ApplyError (token : string)
| FetchError.

Definition outcome_label (o : outcome) : string :=
  match o with Refreshed _ => "ok" | ApplyError _ => "apply_error" | FetchError => "fetch_error" end.

(** Before the first poll; the task of a provider without a TTL; in [select!]
    since a time; waiting for the provider, asked at a time; for the sink; returned. *)
Inductive phase : Type :=
| Spawned
| Parked
| Sleeping (since : Z)
| Fetching
| Applying (token : string)
| Ended.

Record world : Type := mkWorld {
  now : Z;
  task : phase;
  holders : nat;                    (* clones of the [Arc<TokenRotator>] *)
  pool_token : string;              (* the password in the pool's connect options *)
  asked : list Z;                   (* when [fetch_token] was called, the latest first *)
  outcomes : list outcome;          (* the latest first *)
  notified : nat;                   (* [refresh_notify] *)
}.

Section Task.
Context (cfg : RotatorConfig) (ttl : Z).

(** [spawn], the seed token in the pool. *)
Definition spawn (at_ : Z) (seed : string) : world := mkWorld at_ Spawned 1 seed [] [] 0.

Definition cancelled (w : world) : bool := match holders w with O => true | S _ => false end.

(** [select!], biased: the cancellation first, then a sleep from now on. *)
Definition select (w : world) : phase := if cancelled w then Ended else Sleeping (now w).

Definition set_task (p : phase) (w : world) : world :=
  mkWorld (now w) p (holders w) (pool_token w) (asked w) (outcomes w) (notified w).
Definition set_holders (n : nat) (w : world) : world :=
  mkWorld (now w) (task w) n (pool_token w) (asked w) (outcomes w) (notified w).
Definition set_now (t : Z) (w : world) : world :=
  mkWorld t (task w) (holders w) (pool_token w) (asked w) (outcomes w) (notified w).

(** One poll that is not woken by the provider or the sink. *)
Definition poll (w : world) : option world :=
  match task w with
  | Spawned => Some (set_task (match interval_for cfg ttl with
                               | Some _ => select w
                               | None => if cancelled w then Ended else Parked
                               end) w)
  | Parked => if cancelled w then Some (set_task Ended w) else None
  | Sleeping since =>
      if cancelled w then Some (set_task Ended w)
      else match interval_for cfg ttl with
           | Some i =>
               if since + i <=? now w then
                 Some (mkWorld (now w) Fetching (holders w) (pool_token w) (now w :: asked w) (outcomes w) (notified w))
               else None
           | None => None
           end
  | Fetching | Applying _ | Ended => None
  end.

(** The provider answers. *)
Definition fetched (r : result AuthError string) (w : world) : option world :=
  match task w with
  | Fetching =>
      Some (match r with
            | Ok token => set_task (Applying token) w
            | Err _ => mkWorld (now w) (select w) (holders w) (pool_token w) (asked w) (FetchError :: outcomes w) (notified w)
            end)
  | _ => None
  end.

(** The sink answers; what it does on success is to put the token in the pool. *)
Definition applied (r : result AuthError ()) (w : world) : option world :=
  match task w with
  | Applying token =>
      Some (match r with
            | Ok _ => mkWorld (now w) (select w) (holders w) token (asked w) (Refreshed token :: outcomes w) (S (notified w))
            | Err _ => mkWorld (now w) (select w) (holders w) (pool_token w) (asked w) (ApplyError token :: outcomes w)
                         (notified w)
            end)
  | _ => None
  end.

Inductive step : world -> world -> Prop :=
| step_time w d : 0 <= d -> step w (set_now (now w + d) w)
| step_clone w : holders w <> 0%nat -> step w (set_holders (S (holders w)) w)
| step_drop w n : holders w = S n -> step w (set_holders n w)
| step_shutdown w : holders w <> 0%nat -> step w (set_task Ended w)      (* [shutdown] aborts the task *)
| step_poll w w' : poll w = Some w' -> step w w'
| step_fetched w r w' : fetched r w = Some w' -> step w w'
| step_applied w r w' : applied r w = Some w' -> step w w'.

Abbreviation steps := (rtc step).

(** ** The invariant *)

Definition refreshed (os : list outcome) : list string :=
  omap (fun o => match o with Refreshed t => Some t | _ => None end) os.

(** Turns that are under way. *)
Definition in_turn (p : phase) : nat := match p with Fetching | Applying _ => 1%nat | _ => 0%nat end.

Record world_ok (start : Z) (seed : string) (w : world) : Prop := {
  ok_now : start <= now w;
  ok_asked : Forall (fun t => t <= now w) (asked w);
  ok_token : pool_token w = default seed (head (refreshed (outcomes w)));
  ok_notified : notified w = length (refreshed (outcomes w));
  ok_count : (length (asked w) <= length (outcomes w) + 1)%nat /\
             (task w <> Ended -> length (asked w) = length (outcomes w) + in_turn (task w))%nat /\
             (length (outcomes w) <= length (asked w))%nat;
  ok_rate : match interval_for cfg ttl with
            | Some i =>
                start + Z.of_nat (length (asked w)) * i <= now w /\
                match task w with Sleeping since => start + Z.of_nat (length (asked w)) * i <= since <= now w | _ => True end
            | None => asked w = [] /\ match task w with Sleeping _ | Fetching | Applying _ => False | _ => True end
            end;
}.

Lemma spawn_ok start seed : world_ok start seed (spawn start seed).
Proof.
  split; cbn -[interval_for Z.mul]; try done; [split_and!; [lia|done|lia]|].
  destruct (interval_for cfg ttl); [split; [lia|done]|done].
Qed.

(** A step that only moves the clock or the task, outside a turn. *)
Lemma set_task_ok start seed p w :
  world_ok start seed w -> in_turn (task w) = 0%nat -> p = Ended \/ p = Parked \/ p = select w ->
  (interval_for cfg ttl = None -> p = Ended \/ p = Parked) ->
  (task w = Ended -> p = Ended) ->
  world_ok start seed (set_task p w).
Proof.
  intros [H1 H2 H3 H4 (H5 & H6 & H7) H8] Hin Hp Hnone Hend.
  assert (in_turn p = 0%nat) as Hp0.
  { destruct Hp as [->|[->| ->]]; try done. unfold select. by destruct (cancelled w). }
  split; try done; cbn [task asked outcomes set_task now].
  - split_and!; [done| |done]. intros Hne. rewrite Hp0. rewrite H6, Hin; [done|]. intros He. by apply Hne, Hend.
  - destruct (interval_for cfg ttl) as [i|]; destruct H8 as [H8 H9].
    + split; [done|]. destruct Hp as [->|[->| ->]]; try done. unfold select. destruct (cancelled w); [done|lia].
    + split; [done|]. by destruct (Hnone eq_refl) as [->| ->].
Qed.

(** The end of a turn. *)
Lemma turn_ok start seed w w' o :
  world_ok start seed w -> in_turn (task w) = 1%nat ->
  now w' = now w -> task w' = select w -> asked w' = asked w -> outcomes w' = o :: outcomes w ->
  pool_token w' = match o with Refreshed t => t | _ => pool_token w end ->
  notified w' = (notified w + match o with Refreshed _ => 1 | _ => 0 end)%nat ->
  world_ok start seed w'.
Proof.
  intros [H1 H2 H3 H4 (H5 & H6 & H7) H8] Hin En Et Ea Eo Ep Ef.
  assert (task w <> Ended) as Hne by (intros E; by rewrite E in Hin). specialize (H6 Hne). rewrite Hin in H6.
  assert (in_turn (select w) = 0%nat) as Hs by (unfold select; by destruct (cancelled w)).
  split; rewrite ?En, ?Et, ?Ea, ?Eo; cbn [length]; try done.
  - rewrite Ep, H3. by destruct o.
  - rewrite Ef, H4. unfold refreshed. destruct o; cbn; lia.
  - rewrite Hs. split_and!; [lia|intros _; lia|lia].
  - destruct (interval_for cfg ttl) as [i|]; destruct H8 as [H8 H9].
    + split; [done|]. unfold select. destruct (cancelled w); [done|lia].
    + destruct (task w); done.
Qed.

Lemma rotator_step_ok start seed w w' : world_ok start seed w -> step w w' -> world_ok start seed w'.
Proof.
  intros Hw Hs. destruct Hs as [w d Hd|w Hh|w n Hh|w Hh|w w' Hp|w r w' Hf|w r w' Ha].
  - destruct Hw as [H1 H2 H3 H4 H5 H6]. split; cbn -[interval_for Z.mul]; try done; [lia| |].
    + eapply Forall_impl; [exact H2|]. cbn. intros; lia.
    + destruct (interval_for cfg ttl) as [i|]; [|done]. destruct H6 as [H6 H7]. split; [lia|].
      destruct (task w); try done. lia.
  - destruct Hw. by split.
  - destruct Hw. by split.
  - destruct Hw as [H1 H2 H3 H4 (H5 & H6 & H7) H8]. split; cbn -[interval_for Z.mul]; try done.
    destruct (interval_for cfg ttl) as [i|]; split; (done || by destruct H8).
  - unfold poll in Hp. destruct (task w) as [| |since| |t|] eqn:Et; try done.
    + injection Hp as <-. apply set_task_ok; rewrite ?Et; try done.
      * destruct (interval_for cfg ttl); [auto|]. destruct (cancelled w); auto.
      * intros ->. destruct (cancelled w); auto.
    + destruct (cancelled w); [|done]. injection Hp as <-. apply set_task_ok; rewrite ?Et; auto.
    + destruct (cancelled w).
      * injection Hp as <-. apply set_task_ok; rewrite ?Et; auto.
      * destruct (interval_for cfg ttl) as [i|] eqn:Ei; [|done]. destruct (Z.leb_spec (since + i) (now w)) as [Hl|]; [|done].
        injection Hp as <-. destruct Hw as [H1 H2 H3 H4 (H5 & H6 & H7) H8]. rewrite Ei, Et in H8.
        assert (length (asked w) = length (outcomes w)) as Hlen by (rewrite H6 by (by rewrite Et); rewrite Et; cbn; lia).
        split; cbn -[interval_for Z.mul Z.of_nat]; rewrite ?Ei; try done; try lia.
        constructor; [lia|done].
  - unfold fetched in Hf. destruct (task w) eqn:Et; try done. destruct r as [token|e]; injection Hf as <-.
    + destruct Hw as [H1 H2 H3 H4 (H5 & H6 & H7) H8]. rewrite Et in H6, H8. split; cbn -[interval_for Z.mul]; try done.
      * split_and!; try done. intros _. by apply H6.
    + apply (turn_ok start seed w _ FetchError Hw); cbn; rewrite ?Et; (done || lia).
  - unfold applied in Ha. destruct (task w) as [| | | |token|] eqn:Et; try done. destruct r as [u|e]; injection Ha as <-.
    + apply (turn_ok start seed w _ (Refreshed token) Hw); cbn; rewrite ?Et; (done || lia).
    + apply (turn_ok start seed w _ (ApplyError token) Hw); cbn; rewrite ?Et; (done || lia).
Qed.

Lemma rotator_reachable_ok start seed w : steps (spawn start seed) w -> world_ok start seed w.
Proof.
  assert (forall a b, steps a b -> world_ok start seed a -> world_ok start seed b) as Hall.
  { intros a b HR. induction HR as [|a b c Hs _ IH]; [done|]. intros Ha. by eapply IH, rotator_step_ok. }
  intros HR. exact (Hall _ _ HR (spawn_ok start seed)).
Qed.

(** C34.  A rotator asks for tokens at most once per interval, whatever the provider
    says of their lifetime, and never when they do not expire; the pool holds the
    token last applied, the seed before; and every turn that ended is counted once,
    a notification with each that succeeded. *)
Theorem rotations_paced start seed w :
  steps (spawn start seed) w ->
  (forall i, interval_for cfg ttl = Some i ->
     min_interval cfg <= i /\ start + Z.of_nat (length (asked w)) * i <= now w) /\
  (interval_for cfg ttl = None -> asked w = [] /\ outcomes w = [] /\ pool_token w = seed) /\
  pool_token w = default seed (head (refreshed (outcomes w))) /\
  notified w = length (refreshed (outcomes w)) /\
  (length (outcomes w) <= length (asked w) <= length (outcomes w) + 1)%nat.
Proof.
  intros HR. destruct (rotator_reachable_ok start seed w HR) as [H1 H2 H3 H4 (H5 & H6 & H7) H8]. split_and!; try done.
  - intros i Hi. rewrite Hi in H8. destruct (interval_for_spec _ _ _ Hi) as (_ & Hmin & _). split; [done|apply H8].
  - intros Hn. rewrite Hn in H8. destruct H8 as [H8 _]. rewrite H8 in H7. destruct (outcomes w) as [|o os] eqn:Eo; [done|].
    cbn in H7. lia.
Qed.

(** ** The end of the task *)

(** What a task without holders can still do: end the turn it is in. *)
Definition winding_down (w0 w : world) : Prop :=
  holders w = 0%nat /\ asked w = asked w0 /\
  match task w with
  | Fetching => task w0 = Fetching /\ pool_token w = pool_token w0
  | Applying t => (task w0 = Fetching \/ task w0 = Applying t) /\ pool_token w = pool_token w0
  | _ => pool_token w = pool_token w0 \/ (in_turn (task w0) = 1%nat /\ task w = Ended)
  end.

Lemma rotator_winding_down_step w0 w w' : winding_down w0 w -> step w w' -> winding_down w0 w'.
Proof.
  intros (Hh & Ha & Hp) Hs.
  assert (cancelled w = true) as Hc by (unfold cancelled; by rewrite Hh).
  destruct Hs as [w d _|w Hne|w n Hn|w Hne|w w' Hw|w r w' Hw|w r w' Hw]; try congruence; [by split_and!|..].
  - unfold poll, select in Hw. rewrite Hc in Hw.
    destruct (task w); try done; injection Hw as <-; split_and!; try done; cbn;
      destruct (interval_for cfg ttl); destruct Hp as [?|[? ?]]; auto.
  - unfold fetched, select in Hw. rewrite Hc in Hw. destruct (task w); try done.
    destruct r; injection Hw as <-; split_and!; try done; cbn; destruct Hp; auto.
  - unfold applied, select in Hw. rewrite Hc in Hw. destruct (task w); try done. destruct Hp as [Ht Hp].
    assert (in_turn (task w0) = 1%nat) as Hin by (destruct Ht as [E|E]; by rewrite E).
    destruct r; injection Hw as <-; split_and!; try done; cbn; auto.
Qed.

(** When the last holder of a rotator is dropped, no token is asked for any more;
    only the turn under way may still put its token in the pool, after which the
    task is over, and a sleeping task ends at its next poll, however long it has
    left to sleep. *)
Theorem rotation_stops w w' :
  holders w = 0%nat -> steps w w' ->
  asked w' = asked w /\
  (in_turn (task w) = 0%nat -> pool_token w' = pool_token w) /\
  (pool_token w' <> pool_token w -> task w' = Ended) /\
  (forall since, task w' = Sleeping since -> poll w' = Some (set_task Ended w')).
Proof.
  intros Hh HR. assert (winding_down w w') as (Hh' & Ha & Hp).
  { assert (winding_down w w) as H0 by (split_and!; try done; destruct (task w); auto).
    revert H0. generalize w at 1 3 as w0. intros w0 H0. induction HR as [|a b c Hs _ IH]; [done|].
    apply IH; [|by eapply rotator_winding_down_step]. by destruct (rotator_winding_down_step _ _ _ H0 Hs). }
  split_and!; [done| | |].
  - intros Hin. destruct (task w'); try (by destruct Hp as [?|[? ?]]; [|congruence]).
    + destruct Hp as [E _]. by rewrite E in Hin.
    + destruct Hp as [[E|E] _]; by rewrite E in Hin.
  - intros Hne. destruct (task w'); try (by destruct Hp as [?|[? ?]]; [done|]); by destruct Hp.
  - intros since Et. unfold poll, cancelled. by rewrite Et, Hh'.
Qed.
End Task.

(** * The mock provider *)

(** [MockAuthProvider]: the fixed token, and a count of the fetches. *)
Record MockAuthProvider : Type := { mock_token : string; mock_ttl : Z; fetches : Z }.

Definition mock_new (token : string) (ttl : Z) : MockAuthProvider :=
  {| mock_token := token; mock_ttl := ttl; fetches := 0 |}.

(** [fetch_token], and the counter after it. *)
Definition mock_fetch (p : MockAuthProvider) : result AuthError string * MockAuthProvider :=
  (Ok (mock_token p), {| mock_token := mock_token p; mock_ttl := mock_ttl p; fetches := wrapu 64 (fetches p + 1) |}).

Definition fetch_count (p : MockAuthProvider) : Z := fetches p.

(** * Examples *)

Module Demo.

Abbreviation steps := (rtc (step default_rotator RDS_TOKEN_TTL)).

Definition at_ (t : Z) (p : phase) (n : nat) (token : string) (asked : list Z) (os : list outcome) : world :=
  mkWorld t p n token asked os (length (refreshed os)).

(** A first rotation, 840 s after the connect. *)
Definition fetching : world := at_ (840 * sec) Fetching 1 "t0" [840 * sec] [].
Definition rotated : world := at_ (841 * sec) (Sleeping (841 * sec)) 1 "t1" [840 * sec] [Refreshed "t1"].

Lemma fetching_reachable : steps (spawn 0 "t0") fetching.
Proof.
  eapply rtc_l; [by apply step_poll|]. eapply rtc_l; [by apply (step_time _ _ _ (840 * sec))|].
  apply rtc_once, step_poll. reflexivity.
Qed.

Lemma rotated_reachable : steps (spawn 0 "t0") rotated.
Proof.
  etrans; [exact fetching_reachable|]. eapply rtc_l; [by apply (step_time _ _ _ sec)|].
  eapply rtc_l; [by apply (step_fetched _ _ _ (Ok "t1"%string))|]. apply rtc_once. by apply (step_applied _ _ _ (Ok ())).
Qed.

Lemma rotations_paced_witness :
  interval_for default_rotator RDS_TOKEN_TTL = Some (840 * sec) /\ 0 + 1 * (840 * sec) <= now rotated /\
  pool_token rotated = "t1"%string.
Proof.
  destruct (rotations_paced default_rotator RDS_TOKEN_TTL 0 "t0" rotated rotated_reachable) as (H1 & _ & H3 & _).
  split; [reflexivity|]. split; [exact (proj2 (H1 (840 * sec) eq_refl))|exact H3].
Defined.

(** The profile goes while a token is fetched: the token still arrives, then the
    task is over. *)
Definition orphaned : world := at_ (840 * sec) Fetching 0 "t0" [840 * sec] [].
Definition over : world := at_ (840 * sec) Ended 0 "t1" [840 * sec] [Refreshed "t1"].

Lemma rotation_stops_witness : pool_token over <> pool_token orphaned /\ task over = Ended.
Proof.
  assert (steps orphaned over) as HR.
  { eapply rtc_l; [by apply (step_fetched _ _ _ (Ok "t1"%string))|]. apply rtc_once. by apply (step_applied _ _ _ (Ok ())). }
  split; [done|]. by apply (rotation_stops default_rotator RDS_TOKEN_TTL orphaned over eq_refl HR).
Defined.

(** The mock counts its fetches. *)
Example mock_counts : fetch_count (snd (mock_fetch (snd (mock_fetch (mock_new "t" sec))))) = 2.
Proof. reflexivity. Qed.
End Demo.
End Rotator.
