(* ===== verification/Plugin.v ===== *)
(** The library as the host loads it: the constructors, manifests and [Debug]
    printers of the plugins, the host handle of [src/src/lib.rs], and the entities
    of [src/src/cdylib.rs] with the bridge that blocks on the asynchronous backend.

    Printing is that of the standard library's [debug_struct] and [debug_tuple], on
    one line; the printers of strings and durations are parameters. *)

From Stdlib Require Import ZArith Lia Bool Ascii String.
From stdpp Require Import base list strings gmap.
From S2P Require Import Prelude RustStd Errors Json Config Sqlx Auth Rotator Pool Creds DriverOps.

Module Plugin.

(** * Printers *)

Fixpoint comma (l : list string) : string :=
  match l with
  | [] => ""
  | [x] => x
  | x :: l' => x +:+ ", " +:+ comma l'
  end.

Definition debug_struct (name : string) (fields : list (string * string)) : string :=
  name +:+ " { " +:+ comma (map (fun kv => fst kv +:+ ": " +:+ snd kv) fields) +:+ " }".
Definition debug_tuple (name : string) (fields : list string) : string :=
  match fields with [] => name | _ => name +:+ "(" +:+ comma fields +:+ ")" end.
Definition debug_list (l : list string) : string := "[" +:+ comma l +:+ "]".
Definition debug_option {A} (d : A -> string) (o : option A) : string :=
  match o with Some a => debug_tuple "Some" [d a] | None => "None" end.
Definition debug_bool (b : bool) : string := if b then "true" else "false".

Section Printers.
Context (debug_str : string -> string) (debug_duration : Z -> string).

Definition redacted : string := debug_str "<redacted>".

Definition secret_token_debug (token : string) : string := debug_tuple "SecretToken" [redacted].

Definition connect_cfg_debug (c : Creds.ConnectCfg) : string :=
  debug_struct "ConnectCfg" [
    ("url", redacted); ("max_connections", show_u (Creds.cc_max_connections c)); ("min_idle", show_u (Creds.cc_min_idle c));
    ("acquire_timeout_ms", show_u (Creds.cc_acquire_timeout_ms c)); ("idle_timeout_ms", show_u (Creds.cc_idle_timeout_ms c));
    ("max_lifetime_ms", show_u (Creds.cc_max_lifetime_ms c)); ("test_before_acquire", debug_bool (Creds.cc_test_before_acquire c));
    ("statement_timeout_ms", debug_option show_u (Creds.cc_statement_timeout_ms c));
    ("auth_provider", debug_option (fun p => debug_str (Auth.scheme p)) (Creds.cc_auth_provider c))]%string.

Definition pool_handle_debug (p : PoolHandle) : string :=
  match p with
  | PgPool => debug_tuple "PoolHandle::Postgres" []
  | MysqlPool => debug_tuple "PoolHandle::Mysql" []
  | SqlitePool => debug_tuple "PoolHandle::Sqlite" []
  end.

Definition pool_entry_debug {P} (e : Pool.PoolEntry (PoolHandle := P)) : string :=
  debug_struct "PoolEntry" [
    ("cred_keys", debug_list (map (fun kt => debug_tuple "" [debug_str (fst kt); debug_str (snd kt)]) (Pool.cred_keys e)));
    ("last_used_ms", show_u (Pool.last_used e))]%string.

Definition rds_debug (p : Auth.RdsIamAuthProvider) : string :=
  debug_struct "RdsIamAuthProvider" [
    ("region", debug_str (Auth.region p)); ("username", debug_str (Auth.username p));
    ("profile", debug_option debug_str (Auth.profile p))]%string.

Definition mock_debug (p : Rotator.Rotator.MockAuthProvider) : string :=
  debug_struct "MockAuthProvider" [
    ("token", secret_token_debug (Rotator.Rotator.mock_token p)); ("ttl", debug_duration (Rotator.Rotator.mock_ttl p));
    ("fetches", show_u (Rotator.Rotator.fetches p))]%string.

(** The connection URL, the pool and the token of a provider do not show in what
    is printed of the values that hold them. *)
Theorem secrets_not_printed :
  (forall u c, connect_cfg_debug (Creds.with_url u c) = connect_cfg_debug c) /\
  (forall p q c, Auth.scheme p = Auth.scheme q ->
     connect_cfg_debug (Creds.with_auth_provider p c) = connect_cfg_debug (Creds.with_auth_provider q c)) /\
  (forall P Q (p : P) (q : Q) keys t,
     pool_entry_debug (Pool.mkEntry p keys t) = pool_entry_debug (Pool.mkEntry q keys t)) /\
  (forall t t' ttl, mock_debug (Rotator.Rotator.mock_new t ttl) = mock_debug (Rotator.Rotator.mock_new t' ttl)).
Proof. split_and!; try done. intros p q c E. unfold connect_cfg_debug. cbn. by rewrite E. Qed.
End Printers.

(** * Plugins *)

Inductive class : Type := Backend | WatchStrategy.

Record manifest : Type := { id : string; name : string; plugin_class : class }.

Section Plugins.
(** The profiles and the in-flight calls a plugin keeps, a driver, the host. *)
Context {Profile InFlight Driver Handle : Type} (no_calls : InFlight) (build_registry : DriverKind -> option Driver).

(** [SqlBackendPlugin]; the handle is a cell that is set once. *)
Record SqlBackendPlugin : Type := {
  plugin_manifest : manifest;
  profiles : gmap string Profile;
  drivers : DriverKind -> option Driver;
  in_flight : InFlight;
  draining : bool;
  host_handle : option Handle;
}.

Definition backend_manifest : manifest :=
  {| id := "dev.mcpg.backend.sql"; name := "SQL Binding"; plugin_class := Backend |}.

Definition with_drivers (ds : DriverKind -> option Driver) : SqlBackendPlugin := {|
  plugin_manifest := backend_manifest; profiles := ∅; drivers := ds; in_flight := no_calls; draining := false;
  host_handle := None |}.

Definition new : SqlBackendPlugin := with_drivers build_registry.

Definition set_host_handle (h : Handle) (p : SqlBackendPlugin) : bool * SqlBackendPlugin :=
  match host_handle p with
  | Some _ => (false, p)
  | None => (true, {| plugin_manifest := plugin_manifest p; profiles := profiles p; drivers := drivers p; in_flight := in_flight p;
                      draining := draining p; host_handle := Some h |})
  end.

Definition is_draining (p : SqlBackendPlugin) : bool := draining p.

(** Handles offered one after the other. *)
Fixpoint offers (hs : list Handle) (p : SqlBackendPlugin) : list bool * SqlBackendPlugin :=
  match hs with
  | [] => ([], p)
  | h :: hs' => let '(b, p1) := set_host_handle h p in let '(bs, p2) := offers hs' p1 in (b :: bs, p2)
  end.

Lemma offers_kept hs p h : host_handle p = Some h -> offers hs p = (map (fun _ => false) hs, p).
Proof. intros Hp. induction hs as [|h' hs IH]; [done|]. cbn. unfold set_host_handle. by rewrite Hp, IH. Qed.

(** * Entities of the library *)

(** The library: whether the crypto provider was installed, a [Once]. *)
Record library : Type := { crypto_installed : bool; installs : nat }.

Definition loaded : library := {| crypto_installed := false; installs := 0 |}.

Definition install_crypto_provider (l : library) : library :=
  if crypto_installed l then l else {| crypto_installed := true; installs := S (installs l) |}.

(** [SqlBackendCdylib]: the plugin and the host its registrations get. *)
Record SqlBackendCdylib : Type := { inner : SqlBackendPlugin; host : Handle }.

Definition backend_from_host_config (config_json : string) (h : Handle) (l : library) : SqlBackendCdylib * library :=
  let l := install_crypto_provider l in
  ({| inner := snd (set_host_handle h new); host := h |}, l).

(** The watch plugins; only the first two hold drivers. *)
Record WatchPlugin : Type := { watch_manifest : manifest; watch_kind : string; watch_drivers : DriverKind -> option Driver }.

Definition watch_manifest_of (id name : string) : manifest := {| id := id; name := name; plugin_class := WatchStrategy |}.

Definition SqlPollingWatchPlugin : WatchPlugin := {|
  watch_manifest := watch_manifest_of "dev.mcpg.watch.sql_polling" "SQL Polling Watch"; watch_kind := "sql_polling";
  watch_drivers := build_registry |}.
Definition SqlChangesWatchPlugin : WatchPlugin := {|
  watch_manifest := watch_manifest_of "dev.mcpg.watch.sql_changes" "SQL Changes Watch"; watch_kind := "sql_changes";
  watch_drivers := build_registry |}.
Definition PostgresListenNotifyWatchPlugin : WatchPlugin := {|
  watch_manifest := watch_manifest_of "dev.mcpg.watch.postgres_listen_notify" "Postgres LISTEN/NOTIFY Watch";
  watch_kind := "postgres_listen_notify"; watch_drivers := fun _ => None |}.
Definition PostgresCdcWatch : WatchPlugin := {|
  watch_manifest := watch_manifest_of "dev.mcpg.backend.sql" "PostgreSQL CDC Watch Strategy"; watch_kind := "postgres_cdc";
  watch_drivers := fun _ => None |}.

Definition watch_from_host_config (p : WatchPlugin) (config_json : string) (h : Handle) (l : library) : WatchPlugin * library :=
  (p, install_crypto_provider l).

(** The entities [declare_plugin] exports, by their inner name. *)
Inductive entity : Type := EBackend (b : SqlBackendCdylib) | EWatch (p : WatchPlugin).

Definition entities : list (string * (string -> Handle -> library -> entity * library)) :=
  let watch p := fun cfg h l => let '(e, l') := watch_from_host_config p cfg h l in (EWatch e, l') in
  [(""%string, fun cfg h l => let '(e, l') := backend_from_host_config cfg h l in (EBackend e, l'));
   ("watch-polling"%string, watch SqlPollingWatchPlugin);
   ("watch-pg-listen"%string, watch PostgresListenNotifyWatchPlugin);
   ("watch-changes"%string, watch SqlChangesWatchPlugin);
   ("watch-pg-cdc"%string, watch PostgresCdcWatch)].

(** [kind] of an entity. *)
Definition entity_kind (e : entity) : string := match e with EBackend _ => "sql" | EWatch p => watch_kind p end.

(** The host builds entities by inner name, as often as it likes. *)
Fixpoint build (names : list (string * Handle)) (l : library) : list entity * library :=
  match names with
  | [] => ([], l)
  | (n, h) :: names' =>
      match find (fun e => String.eqb n (fst e)) entities with
      | Some (_, factory) => let '(e, l1) := factory EmptyString h l in let '(es, l2) := build names' l1 in (e :: es, l2)
      | None => build names' l
      end
  end.

Definition ready (e : entity) : Prop :=
  match e with
  | EBackend b => host_handle (inner b) = Some (host b) /\ draining (inner b) = false /\ profiles (inner b) = ∅ /\
                  forall hs, offers hs (inner b) = (map (fun _ => false) hs, inner b)
  | EWatch _ => True
  end.

Lemma factories_ok n f h l :
  In (n, f) entities -> ready (fst (f EmptyString h l)) /\ snd (f EmptyString h l) = install_crypto_provider l.
Proof.
  assert (ready (EBackend (fst (backend_from_host_config EmptyString h l)))) as Hb.
  { cbn. split_and!; try done. intros hs. by eapply offers_kept. }
  cbn. intros [[= <- <-]|[[= <- <-]|[[= <- <-]|[[= <- <-]|[[= <- <-]|[]]]]]]; (split; [done||exact Hb|done]).
Qed.

(** Whatever entities the host builds, in any order and any number: the crypto
    provider is installed once, before the first of them, and every backend
    reports to the host it was built with, which no later handle replaces, with no
    profile and not draining. *)
Theorem entities_ready names l es l' :
  build names l = (es, l') -> crypto_installed l = false -> es <> [] ->
  Forall ready es /\ crypto_installed l' = true /\ installs l' = S (installs l).
Proof.
  assert (forall names l es l', build names l = (es, l') ->
            Forall ready es /\ (crypto_installed l = true -> l' = l) /\
            (crypto_installed l = false -> es <> [] -> l' = {| crypto_installed := true; installs := S (installs l) |})) as H.
  { clear. induction names as [|[n h] names IH]; intros l es l'; cbn [build]; [by intros [= <- <-]|].
    destruct (find _ entities) as [[n' f]|] eqn:E; [|apply IH].
    apply find_some in E as [Hin _]. destruct (factories_ok n' f h l Hin) as [Hr Hl].
    destruct (f EmptyString h l) as [e l1]. cbn in Hr, Hl. subst l1. destruct (build names _) as [es1 l2] eqn:Eb.
    intros [= <- <-]. destruct (IH _ _ _ Eb) as (H1 & H2 & H3). unfold install_crypto_provider in *.
    split; [by constructor|]. split; intros Hc; rewrite Hc in *; auto. }
  intros Hb Hc Hne. destruct (H _ _ _ _ Hb) as (H1 & _ & H3). rewrite (H3 Hc Hne). auto.
Qed.

(** * The synchronous bridge *)

(** The asynchronous operations over the state of a plugin; [block_on] runs one to
    its end. *)
Context {S Request Response Page : Type}.

Record BackendPlugin : Type := {
  kind : S -> string;
  register_profile : string -> value -> Handle -> S -> result BackendError () * S;
  execute : string -> Request -> S -> result BackendError Response * S;
  execute_transaction : string -> value -> S -> result BackendError value * S;
  input_schema : string -> S -> option value;
  output_schema : string -> S -> option value;
  audit_metadata : string -> S -> json_map;
  list_resources : string -> option string -> S -> result BackendError Page * S;
  complete_template_variable : string -> string -> string -> value -> list (string * string) -> S ->
    result BackendError (list string) * S;
  shutdown : S -> S;
}.

Record SyncBackendPlugin : Type := {
  sync_kind : S -> string;
  sync_register_profile : string -> value -> S -> result BackendError () * S;
  sync_execute : string -> Request -> S -> result BackendError Response * S;
  sync_execute_transaction : string -> value -> S -> result BackendError value * S;
  sync_input_schema : string -> S -> option value;
  sync_output_schema : string -> S -> option value;
  sync_audit_metadata : string -> S -> json_map;
  sync_list_resources : string -> option string -> S -> result BackendError Page * S;
  sync_complete_template_variable : string -> string -> string -> value -> list (string * string) -> S ->
    result BackendError (list string) * S;
  sync_shutdown : S -> S;
}.

Definition bridge (b : BackendPlugin) (host : Handle) : SyncBackendPlugin := {|
  sync_kind := kind b;
  sync_register_profile profile spec := register_profile b profile spec host;
  sync_execute := execute b;
  sync_execute_transaction := execute_transaction b;
  sync_input_schema := input_schema b;
  sync_output_schema := output_schema b;
  sync_audit_metadata := audit_metadata b;
  sync_list_resources := list_resources b;
  sync_complete_template_variable := complete_template_variable b;
  sync_shutdown := shutdown b;
|}.
End Plugins.

(** * Examples *)

Module Demo.

Abbreviation build := (build (Profile := ()) (Handle := nat) () (fun _ : DriverKind => Some ())).

Definition both : list (string * nat) := [("watch-changes", 1%nat); ("", 2%nat); ("", 3%nat)]%string.

Lemma entities_ready_witness : installs (snd (build both loaded)) = 1%nat /\ length (fst (build both loaded)) = 3%nat.
Proof.
  destruct (build both loaded) as [es l] eqn:E.
  destruct (entities_ready () (fun _ => Some ()) both loaded es l E eq_refl) as (_ & _ & H).
  - vm_compute in E. injection E as <- <-. done.
  - split; [exact H|]. vm_compute in E. by injection E as <- <-.
Defined.

(** The kinds of the five entities differ. *)
Example kinds_distinct :
  map entity_kind (fst (build (map (fun n => (n, 0%nat)) ["watch-pg-cdc"; "watch-pg-listen"; "watch-polling"; "watch-changes"; ""]%string) loaded))
  = ["postgres_cdc"; "postgres_listen_notify"; "sql_polling"; "sql_changes"; "sql"]%string.
Proof. reflexivity. Qed.
End Demo.
End Plugin.
