(* ===== verification/Telemetry.v ===== *)
(** What a call reports, [execute] of [src/src/lib.rs]: the drain check, the
    host span, the instrumented call path, the call record, the structured
    line, the host's metrics and audit event.

    Effects of [Execute] and emissions of [Metrics] interleave in one trace of
    events; forgetting the emissions gives the call path of [Execute]. *)

From Stdlib Require Import ZArith Lia Bool Ascii String SpecFloat.
From stdpp Require Import base list strings sets.
From S2P Require Import Prelude RustStd Redact Text Errors Breaker Json Params F64 Sqlx Stream Cache Cost Config Shape Execute ParamExprs Surface Metrics.

Module Telemetry.
Import Stream.Stream Execute Surface Metrics.

Abbreviation PluginIdentity := ParamExprs.ParamExprs.PluginIdentity.

Definition synthetic_system_identity : PluginIdentity := {|
  ParamExprs.ParamExprs.id_kind := "system";
  ParamExprs.ParamExprs.id_trust_level := "verified";
  ParamExprs.ParamExprs.id_subject_id := Some "dev.mcpg.backend.sql";
  ParamExprs.ParamExprs.id_auth_provider := None;
  ParamExprs.ParamExprs.id_issuer := None;
  ParamExprs.ParamExprs.id_roles := []; ParamExprs.ParamExprs.id_groups := [];
  ParamExprs.ParamExprs.id_scopes := []; ParamExprs.ParamExprs.id_attributes := [];
|}%string.

(** The host's [AuditEvent]; its outcome is always [Failure], and the upstream
    request, the node and the previous hash are absent. *)
Record AuditEvent : Type := {
  event_id : string;
  occurred_at : string;
  actor : PluginIdentity;
  action : string;
  resource : string;
  audit_request_id : string;
  details : value;
}.

(** The line at target [mcpg::sql::audit]. *)
Record CallLine : Type := {
  line_backend : string;
  line_driver : string;
  line_request_id : string;
  line_session_id : string;
  line_duration_ms : Z;
  line_rows : Z;
  line_status : string;
  line_error_kind : string;
}.

Inductive event : Type :=
| Did (e : effect)
| Emitted (m : emission)
| Line (l : CallLine)
| SpanStart (name : string) (attrs : json_map)
| HostMetric (m : emission)
| HostAudit (a : AuditEvent)
| SpanEnd.

Definition did (e : event) : list effect := match e with Did e => [e] | _ => [] end.
Definition emitted (e : event) : list emission := match e with Emitted m => [m] | _ => [] end.
Definition host_metric (e : event) : list emission := match e with HostMetric m => [m] | _ => [] end.
Definition audited (e : event) : list AuditEvent := match e with HostAudit a => [a] | _ => [] end.
Definition line (e : event) : list CallLine := match e with Line l => [l] | _ => [] end.

Definition effects (es : list event) : list effect := flat_map did es.
Definition emissions (es : list event) : list emission := flat_map emitted es.
Definition host_metrics (es : list event) : list emission := flat_map host_metric es.
Definition audits (es : list event) : list AuditEvent := flat_map audited es.
Definition lines (es : list event) : list CallLine := flat_map line es.

Definition all (ms : list emission) : list event := map Emitted ms.

(** A computation with its trace, and the same without the emissions. *)
Definition T (A : Type) : Type := (result BackendError A * list event)%type.
Definition erase {A} (m : T A) : W A := (fst m, effects (snd m)).

Section Call.
Context {Url : Type} `{UrlOps Url} (sqlx_display : sqlx_error -> string).
Context `{CursorOps} `{Cel} (show_f64 : f64 -> string).
Context (digest : list byte -> string) (number_str : number -> string).
Context (show_backend : BackendError -> string).          (* [BackendError]'s [Display] *)

(** What the registry of calls in flight holds when the call registers and
    when it leaves, whether the host stores a cache entry, and the time since
    the wait started at poll [n], in nanoseconds. *)
Record Meters : Type := {
  len_registered : Z;
  len_dropped : Z;
  put_ok : bool;
  wait_elapsed : nat -> Z;
}.

Section Observed.
Context (name : string) (rt : ProfileRuntime) (env : Env) (mt : Meters).

(** The emissions beside an effect: [InFlightGuard], the cache arms,
    [emit_charge] and [emit_refund]. *)
Definition observed (e : effect) : list event :=
  match e with
  | ERegister _ => Did e :: all (record_in_flight (len_registered mt) (rt_driver rt))
  | EDeregister _ => Did e :: all (record_in_flight (len_dropped mt) (rt_driver rt))
  | ECacheGet key =>
      Did e :: match cache_get env key with
               | Ok (Some []) => []
               | Ok (Some _) => all (record_cache_hit name (rt_driver rt))
               | Ok None => all (record_cache_miss name (rt_driver rt))
               | Err _ => []
               end
  | ECachePut _ _ _ => Did e :: if put_ok mt then all (record_cache_write name (rt_driver rt)) else []
  | ECall _ _ _ _ => [Did e]
  | ECharge a =>
      Did e :: match rt_cost rt with
               | Some c => all (record_cost name (rt_driver rt) (currency c) (unit c) a)
               | None => []
               end
  | ERefund a reason =>
      Did e :: match rt_cost rt with
               | Some c => all (record_cost_refunded name (rt_driver rt) (currency c) reason a)
               | None => []
               end
  end.

Definition seen (fx : list effect) : list event := flat_map observed fx.

(** On the query path the second call is the retry of a stale statement. *)
Definition observed_query (e : effect) : list event :=
  match e with
  | ECall (S _) _ _ _ => all (record_prepare_retry name (rt_driver rt)) ++ observed e
  | _ => observed e
  end.

Definition seen_query (fx : list effect) : list event := flat_map observed_query fx.

Definition query_trace (req : BackendRequest) : T BackendResponse :=
  let (r, fx) := registered (request_id req) (execute_query sqlx_display show_f64 digest number_str name req rt env) in
  (r, seen_query fx).

(** * The await loop with its metrics *)

Definition terminal (outcome : string) (n : nat) : list event :=
  all (record_await_wait name (rt_driver rt) outcome (Z.of_nat n + 1) ++
       record_await_wake name (rt_driver rt) outcome ++
       record_await_duration name (rt_driver rt) outcome (wait_elapsed mt n)).

Definition spurious : list event := all (record_await_wake name (rt_driver rt) "spurious").

Fixpoint await_trace (fuel n : nat) (aw : AwaitRuntime) (ae : AwaitEnv) (args : value)
  : option (T BackendResponse) :=
  match fuel with
  | O => None
  | S fuel' =>
      let deadline := started_at ae + await_timeout_ms (await_cfg aw) in
      match await_check sqlx_display rt aw ae args n with
      | (Err e, fx) => Some (Err e, seen fx)
      | (Ok row, fx) =>
          if evaluate_await_predicate (await_predicate aw) row args then
            let (r, fx') := await_matched sqlx_display show_f64 name rt env args row (Z.of_nat n + 1) in
            Some (r, seen fx ++ terminal "matched" n ++ seen fx')
          else if (deadline <=? clock ae n) || drained ae n then
            let (r, fx') := await_timeout rt aw args in
            Some (r, seen fx ++ spurious ++ terminal "timeout" n ++ seen fx')
          else
            match await_trace fuel' (S n) aw ae args with
            | Some (r, es) => Some (r, seen fx ++ spurious ++ es)
            | None => None
            end
      end
  end.

(** Both guards around the loop: the gauge of active waits is dropped first. *)
Definition guarded (id : string) (es : list event) : list event :=
  observed (ERegister id) ++ all (await_waits_guard (rt_driver rt)) ++ es ++
  all (waits_guard_drop (rt_driver rt)) ++ observed (EDeregister id).

Definition await_call (fuel : nat) (req : BackendRequest) (aw : AwaitRuntime) (ae : AwaitEnv)
  : option (T BackendResponse) :=
  match (do! args := lift (await_args sqlx_display rt env req) in
         do! _ := run_trigger sqlx_display rt aw ae args in wret args) with
  | (Err e, fx) => Some (Err e, guarded (request_id req) (seen fx))
  | (Ok args, fx) =>
      match await_trace fuel 0 aw ae args with
      | Some (r, es) => Some (r, guarded (request_id req) (seen fx ++ es))
      | None => None
      end
  end.

Definition inner_trace (fuel : nat) (req : BackendRequest) (ae : AwaitEnv) : option (T BackendResponse) :=
  match await_rt rt with
  | Some aw => await_call fuel req aw ae
  | None => Some (query_trace req)
  end.
End Observed.

(** [execute_inner] around the instrumented call. *)
Definition with_breaker (t0 t1 : Z) (b : option Breaker.Breaker.CircuitBreaker) (inner : T BackendResponse)
  : T BackendResponse * option Breaker.Breaker.CircuitBreaker :=
  match b with
  | None => (inner, None)
  | Some b =>
      match Breaker.Breaker.try_admit t0 b with
      | (Err e, b') => ((Err (backend_error sqlx_display e), []), Some b')
      | (Ok guard, b') => (inner, Some (Breaker.Breaker.record t1 guard (counts_as_success (fst inner)) b'))
      end
  end.

(** * The wrapper *)

(** What [execute] reads of the request besides the payload. *)
Record Caller : Type := {
  session_id : option string;
  identity : option PluginIdentity;
}.

(** At the end of the call: the driver of the profile then registered under the
    name, the duration in nanoseconds, the later reading that goes into the
    event id, and the wall clock as text. *)
Record Ending : Type := {
  still : option DriverKind;
  duration : Z;
  event_nanos : Z;
  now_text : string;
}.

Definition error_kind {A} (r : result BackendError A) : string :=
  match r with
  | Err (BTimeout _) => "timeout"
  | Err (BInvalidSpec _) => "invalid_spec"
  | Err (BTransport _) => "transport"
  | Err (BProfileNotFound _) => "profile_not_found"
  | Ok _ => ""
  end.

(** [Duration::as_millis() as u64]. *)
Definition as_millis (nanos : Z) : Z := wrapu 64 (nanos / 1000000).

Definition response_rows (env : Env) (r : result BackendError BackendResponse) : option Z :=
  match r with
  | Ok resp => match from_slice env (payload resp) with
               | Ok v => row_count_hint v
               | Err _ => None
               end
  | Err _ => None
  end.

Definition audit_event (name alias : string) (driver : DriverKind) (req : BackendRequest) (who : Caller)
  (fin : Ending) (act : string) (e : BackendError) : AuditEvent := {|
  event_id := "sql-" +:+ request_id req +:+ "-" +:+ show_u (event_nanos fin);
  occurred_at := now_text fin;
  actor := match identity who with Some i => i | None => synthetic_system_identity end;
  action := act;
  resource := "sql-binding://" +:+ name;
  audit_request_id := request_id req;
  details := VObject (obj_insert "alias" (VString alias)
              (obj_insert "reason" (VString (show_backend e))
              (obj_insert "duration_ms" (VNumber (PosInt (as_millis (duration fin))))
              (obj_insert "driver" (VString (DriverKind_as_str driver))
              (obj_insert "backend" (VString name) [])))));
|}.

Definition host_labels (r : result BackendError BackendResponse) (driver : DriverKind) : labels :=
  [("outcome", host_outcome_label r); ("driver", DriverKind_as_str driver)]%string.

Definition report (name : string) (host : option string) (env : Env) (req : BackendRequest) (who : Caller)
  (fin : Ending) (r : result BackendError BackendResponse) : list event :=
  match still fin with
  | None => []
  | Some driver =>
      let rows := response_rows env r in
      all (record_call name name driver (call_status r) (duration fin) rows) ++
      [Line {| line_backend := name; line_driver := DriverKind_as_str driver;
               line_request_id := request_id req;
               line_session_id := match session_id who with Some s => s | None => EmptyString end;
               line_duration_ms := as_millis (duration fin);
               line_rows := match rows with Some n => n | None => 0 end;
               line_status := CallStatus_as_str (call_status r);
               line_error_kind := error_kind r |}] ++
      match host with
      | None => []
      | Some alias =>
          [HostMetric (Histogram "mcpg_sql_backend_latency_seconds" (host_labels r driver)
                         (as_secs_f64 (duration fin)));
           HostMetric (Counter "mcpg_sql_backend_calls_total" (host_labels r driver) 1)] ++
          match audit_action_for r, r with
          | Some act, Err e => [HostAudit (audit_event name alias driver req who fin act e)]
          | _, _ => []
          end
      end
  end.

Definition refused : BackendError :=
  BTransport "sql binding plugin is draining; refusing new requests".

(** [execute] of a plugin with these [profiles]; [inner] is the instrumented
    call of a profile. *)
Definition execute (draining : bool) (host : option string)
  (profile : option (ProfileRuntime * option Breaker.Breaker.CircuitBreaker))
  (inner : ProfileRuntime -> T BackendResponse) (t0 t1 : Z)
  (name : string) (env : Env) (req : BackendRequest) (who : Caller) (fin : Ending) : T BackendResponse :=
  if draining then (Err refused, [])
  else
    let label := match profile with Some (rt, _) => DriverKind_as_str (rt_driver rt) | None => "unknown"%string end in
    let (r, es) := match profile with
                   | None => (Err (BProfileNotFound name), [])
                   | Some (rt, b) => fst (with_breaker t0 t1 b (inner rt))
                   end in
    (r, (match host with
         | Some _ => [SpanStart "sql_backend.execute"
                        (obj_insert "request_id" (VString (request_id req))
                        (obj_insert "driver" (VString label) (obj_insert "backend" (VString name) [])))]
         | None => []
         end) ++ es ++ report name host env req who fin r ++
        match host with Some _ => [SpanEnd] | None => [] end).
End Call.

(** * Erasure: reporting leaves the call as it is *)

Lemma effects_app a b : effects (a ++ b) = effects a ++ effects b.
Proof. apply flat_map_app. Qed.
Lemma emissions_app a b : emissions (a ++ b) = emissions a ++ emissions b.
Proof. apply flat_map_app. Qed.
Lemma host_metrics_app a b : host_metrics (a ++ b) = host_metrics a ++ host_metrics b.
Proof. apply flat_map_app. Qed.
Lemma audits_app a b : audits (a ++ b) = audits a ++ audits b.
Proof. apply flat_map_app. Qed.
Lemma lines_app a b : lines (a ++ b) = lines a ++ lines b.
Proof. apply flat_map_app. Qed.
Lemma effects_all ms : effects (all ms) = [].
Proof. by induction ms. Qed.
Lemma emissions_all ms : emissions (all ms) = ms.
Proof. induction ms as [|m ms IH]; [done|]. cbn. by f_equal. Qed.
Lemma host_metrics_all ms : host_metrics (all ms) = [].
Proof. by induction ms. Qed.
Lemma audits_all ms : audits (all ms) = [].
Proof. by induction ms. Qed.
Lemma lines_all ms : lines (all ms) = [].
Proof. by induction ms. Qed.

Create Rewrite HintDb traces.

#[export] Hint Rewrite effects_app emissions_app host_metrics_app audits_app lines_app
  effects_all emissions_all host_metrics_all audits_all lines_all @app_nil_r : traces.

Section Facts.
Context {Url : Type} `{UrlOps Url} (sqlx_display : sqlx_error -> string).
Context `{CursorOps} `{Cel} (show_f64 : f64 -> string).
Context (digest : list byte -> string) (number_str : number -> string).
Context (show_backend : BackendError -> string).

Section Erase.
Context (name : string) (rt : ProfileRuntime) (env : Env) (mt : Meters).

Lemma effects_observed e : effects (observed name rt env mt e) = [e].
Proof.
  destruct e; cbn [observed]; try done.
  - by destruct (cache_get env _) as [[[]|]|].
  - by destruct (put_ok mt).
  - by destruct (rt_cost rt).
  - by destruct (rt_cost rt).
Qed.

Lemma effects_seen fx : effects (seen name rt env mt fx) = fx.
Proof.
  unfold seen. induction fx as [|e fx IH]; [done|]. cbn [flat_map].
  by rewrite effects_app, IH, effects_observed.
Qed.

Lemma effects_seen_query fx : effects (seen_query name rt env mt fx) = fx.
Proof.
  unfold seen_query. induction fx as [|e fx IH]; [done|]. cbn [flat_map].
  rewrite effects_app, IH. destruct e as [| | | |[|k] stmt bound vars| |]; cbn [observed_query];
    autorewrite with traces; by rewrite effects_observed.
Qed.

Lemma erase_await_trace fuel n aw ae args :
  option_map erase (await_trace sqlx_display show_f64 name rt env mt fuel n aw ae args)
  = await_loop sqlx_display show_f64 fuel n name rt aw env ae args.
Proof.
  revert n. induction fuel as [|fuel IH]; intros n; [done|]. cbn [await_trace await_loop].
  destruct (await_check _ _ _ _ _ _) as [[row|e] fx].
  2: { cbn. unfold erase. cbn. by rewrite effects_seen. }
  destruct (evaluate_await_predicate _ _ _).
  { destruct (await_matched _ _ _ _ _ _ _ _) as [r fx']. cbn [option_map]. unfold erase, terminal. cbn [fst snd].
    autorewrite with traces. cbn [app]. by rewrite !effects_seen. }
  destruct (_ || _).
  { destruct (await_timeout rt aw args) as [r fx']. cbn [option_map]. unfold erase, terminal, spurious. cbn [fst snd].
    autorewrite with traces. cbn [app]. by rewrite !effects_seen. }
  rewrite <- IH. destruct (await_trace _ _ _ _ _ _ _ _ _ _ _) as [[r es]|]; [|done]. cbn [option_map].
  unfold erase, spurious. cbn [fst snd]. autorewrite with traces. cbn [app]. by rewrite effects_seen.
Qed.

Lemma effects_guarded id es :
  effects (guarded name rt env mt id es) = [ERegister id] ++ effects es ++ [EDeregister id].
Proof. unfold guarded. autorewrite with traces. cbn [app]. by rewrite !effects_observed. Qed.

Lemma erase_inner_trace fuel req ae :
  option_map erase (inner_trace sqlx_display show_f64 digest number_str name rt env mt fuel req ae)
  = execute_inner_impl sqlx_display show_f64 digest number_str fuel name req rt env ae.
Proof.
  unfold inner_trace, execute_inner_impl. destruct (await_rt rt) as [aw|].
  - unfold await_call, execute_await_loop.
    destruct (wbind _ _) as [[args|e] fx].
    + rewrite <- erase_await_trace. destruct (await_trace _ _ _ _ _ _ _ _ _ _ _) as [[r es]|]; [|done].
      cbn [option_map]. unfold erase, registered. cbn [fst snd].
      by rewrite effects_guarded, effects_app, effects_seen.
    + cbn [option_map]. unfold erase, registered. cbn [fst snd]. by rewrite effects_guarded, effects_seen.
  - unfold query_trace, erase. destruct (registered _ _) as [r fx]. cbn. by rewrite effects_seen_query.
Qed.
End Erase.

(** * The charges and refunds of a call *)

Definition refund_reasons : list string := ["timeout"; "transport"; "invalid_spec"]%string.

Definition billed (rt : ProfileRuntime) (e : effect) : Prop :=
  match e with
  | ECharge a => exists c args n b, rt_cost rt = Some c /\ compute show_f64 c args n b = Ok a
  | ERefund a r => exists c args, rt_cost rt = Some c /\ a = refund_amount c args /\ r ∈ refund_reasons
  | _ => True
  end.

Definition bills {A} (rt : ProfileRuntime) (m : W A) : Prop := Forall (billed rt) (snd m).

Lemma bills_ret {A} rt (a : A) : bills rt (wret a).
Proof. constructor. Qed.
Lemma bills_lift {A} rt (r : result BackendError A) : bills rt (lift r).
Proof. constructor. Qed.
Lemma bills_call rt n stmt bound vars : bills rt (tell [ECall n stmt bound vars]).
Proof. by repeat constructor. Qed.

Lemma bills_bind {A B} rt (m : W A) (k : A -> W B) : bills rt m -> (forall a, bills rt (k a)) -> bills rt (wbind m k).
Proof.
  unfold bills. destruct m as [[a|e] fx]; cbn; [|done]. intros Hm Hk. specialize (Hk a).
  destruct (k a) as [r fx']. cbn in *. by apply Forall_app.
Qed.

Lemma refund_reason_closed e : refund_reason_for e ∈ refund_reasons.
Proof. unfold refund_reasons. destruct e; cbn; set_solver. Qed.

Lemma bills_refund {A} rt args reason (r : result BackendError A) :
  reason ∈ refund_reasons -> bills rt (r, refund rt args reason).
Proof.
  intros Hr. unfold bills, refund. destruct (rt_cost rt) as [c|] eqn:E; cbn; [|constructor].
  constructor; [cbn; eauto|constructor].
Qed.

#[local] Hint Resolve bills_ret bills_lift bills_call : rust.

Lemma bills_fail_refund {A} rt args e : bills rt (fail_refund (A := A) sqlx_display rt args e).
Proof. apply bills_refund, refund_reason_closed. Qed.
Lemma bills_fail_timeout {A} rt args : bills rt (fail_timeout (A := A) rt args).
Proof. apply bills_refund. unfold refund_reasons. set_solver. Qed.

#[local] Hint Resolve bills_fail_refund bills_fail_timeout : rust.

Lemma bills_serialize rt env args v : bills rt (serialize rt env args v).
Proof.
  unfold serialize. destruct (to_vec env v); [auto with rust|]. apply bills_refund. unfold refund_reasons. set_solver.
Qed.

Lemma bills_charge rt args n b : bills rt (charge sqlx_display show_f64 rt args n b).
Proof.
  unfold charge. destruct (rt_cost rt) as [c|] eqn:E; [|auto with rust].
  destruct (compute _ _ _ _ _) eqn:Ec; [|constructor]. repeat constructor. cbn. eauto 10.
Qed.

Lemma bills_attempt {A} rt args bound vars n (o : timed A) retry :
  (forall r, retry = Some r -> bills rt r) -> bills rt (attempt sqlx_display rt args bound vars n o retry).
Proof.
  intros Hr. apply bills_bind; [auto with rust|]. intros _. destruct o as [|[b|e]]; auto with rust.
  destruct retry as [r|]; [destruct (is_retryable_stale e)|]; auto with rust.
Qed.

Lemma bills_attempts {A} rt args bound vars (d : nat -> PreparedStmt -> list BoundParam -> SessionVars -> timed A) :
  bills rt (attempts sqlx_display rt args bound vars d).
Proof. apply bills_attempt. intros r [= <-]. by apply bills_attempt. Qed.

Lemma bills_rows rt env name args bound vars key :
  bills rt (run_rows sqlx_display show_f64 rt env name args bound vars key).
Proof.
  apply bills_bind.
  { unfold run_batch. destruct (rt_row_mode rt); try apply bills_attempts.
    apply bills_bind; [apply bills_attempts|auto with rust]. }
  intros batch. apply bills_bind; [auto with rust|]. intros [payload t].
  apply bills_bind; [apply bills_serialize|]. intros bytes.
  apply bills_bind; [apply bills_charge|]. intros _.
  apply bills_bind; [|auto with rust]. unfold cache_put, bills. destruct key, (rt_cache rt); by repeat constructor.
Qed.

Lemma bills_result_sets rt env args bound vars :
  bills rt (run_result_sets sqlx_display show_f64 rt env args bound vars).
Proof.
  apply bills_bind; [auto with rust|]. intros _. apply bills_bind.
  { destruct (call_multi _ _ _ _) as [|[]]; auto with rust. }
  intros sets. destruct (Shape.Shape.shape_result_sets _ _) as [payload t].
  apply bills_bind; [apply bills_serialize|]. intros bytes. apply bills_bind; [apply bills_charge|auto with rust].
Qed.

(** What a finished query has charged: nothing, or what the profile costs. *)
Lemma query_ledger name req rt env :
  let m := execute_query sqlx_display show_f64 digest number_str name req rt env in
  bills rt m /\ exists c, (c <= costs rt)%nat /\ ledger c m.
Proof.
  cbv zeta. destruct (query_prepared sqlx_display show_f64 digest number_str name req rt env)
    as [e|args bound vars _ _ _]; [split; [constructor|exists 0%nat; split; [lia|apply (ledger_lift (Err e))]]|].
  split.
  - apply bills_bind.
    { unfold cache_lookup. destruct (rt_cache rt) as [c|]; [|auto with rust]. destruct (enabled c); [|auto with rust].
      apply bills_bind; [by repeat constructor|auto with rust]. }
    intros [r|key]; [auto with rust|]. destruct (rt_row_mode rt); try apply bills_rows. apply bills_result_sets.
  - destruct (lookup_effects digest number_str rt env name bound vars) as (l & fx & E & _ & Hch & Hr). rewrite E.
    assert (ledger 0 ((Ok l, fx) : W lookup)) as H0l by done.
    destruct l as [r|key]; [exists 0%nat|exists (costs rt)]; (split; [lia|]); (apply ledger_then; [exact H0l|]); intros _ [= <-].
    + done.
    + destruct (rt_row_mode rt); try apply ledger_rows. apply ledger_result_sets.
Qed.

(** The same for a fire-and-wait call. *)
Lemma bills_await_check rt aw ae args n : bills rt (await_check sqlx_display rt aw ae args n).
Proof.
  apply bills_bind; [auto with rust|]. intros bound. apply bills_bind; [auto with rust|]. intros _.
  destruct (check_call ae n (check_stmt aw) bound (rt_session_vars rt)) as [|[b|e]]; auto with rust.
Qed.

Lemma ledger_await_check rt aw ae args n : ledger 0 (await_check sqlx_display rt aw ae args n).
Proof.
  apply ledger_then; [auto with rust|]. intros bound _. apply ledger_then; [done|]. intros _ _.
  destruct (check_call ae n (check_stmt aw) bound (rt_session_vars rt)) as [|[b|e]]; try apply ledger_refund. done.
Qed.

Lemma trigger_ledger rt aw ae args :
  bills rt (run_trigger sqlx_display rt aw ae args) /\ ledger 0 (run_trigger sqlx_display rt aw ae args).
Proof.
  unfold run_trigger. destruct (trigger_stmt aw) as [stmt|]; [|split; [constructor|done]]. split.
  - apply bills_bind; [auto with rust|]. intros bound. apply bills_bind; [auto with rust|]. intros _.
    destruct (trigger_call ae stmt bound (rt_session_vars rt)) as [|[b|e]]; auto with rust.
  - apply ledger_then; [auto with rust|]. intros bound _. apply ledger_then; [done|]. intros _ _.
    destruct (trigger_call ae stmt bound (rt_session_vars rt)) as [|[b|e]]; try apply ledger_refund. done.
Qed.

Lemma matched_ledger name rt env args row polls :
  let m := await_matched sqlx_display show_f64 name rt env args row polls in bills rt m /\ ledger (costs rt) m.
Proof.
  cbv zeta. unfold await_matched. split.
  - apply bills_bind.
    { destruct (to_vec env row); [auto with rust|]. apply bills_refund. unfold refund_reasons. set_solver. }
    intros bytes. apply bills_bind; [apply bills_charge|auto with rust].
  - apply ledger_then; [destruct (to_vec env row); [done|apply ledger_refund]|]. intros bytes _.
    replace (costs rt) with (costs rt + 0)%nat by lia. apply ledger_bind; [apply ledger_charge|done|right; done].
Qed.

Lemma await_loop_ledger fuel n name rt aw env ae args m :
  await_loop sqlx_display show_f64 fuel n name rt aw env ae args = Some m -> bills rt m /\ ledger (costs rt) m.
Proof.
  revert n m. induction fuel as [|fuel IH]; intros n m; [done|]. cbn [await_loop].
  pose proof (bills_await_check rt aw ae args n) as B1. pose proof (ledger_await_check rt aw ae args n) as L1.
  destruct (await_check _ _ _ _ _ _) as [[row|e] fx]; [|intros [= <-]; done].
  assert (forall (k : W BackendResponse), bills rt k -> ledger (costs rt) k ->
    bills rt (fst k, fx ++ snd k) /\ ledger (costs rt) (fst k, fx ++ snd k)) as Hk.
  { intros k Bk Lk. split; [by apply Forall_app|]. pose proof (ledger_then (costs rt) _ (fun _ => k) L1 (fun _ _ => Lk)) as L.
    cbn in L. by destruct k. }
  destruct (evaluate_await_predicate _ _ _).
  { destruct (matched_ledger name rt env args row (Z.of_nat n + 1)) as [B2 L2]. specialize (Hk _ B2 L2).
    destruct (await_matched _ _ _ _ _ _ _ _) as [r fx']. by intros [= <-]. }
  destruct (_ || _).
  { assert (bills rt (await_timeout (A := BackendResponse) rt aw args)) as B2
      by (apply bills_refund; unfold refund_reasons; set_solver).
    assert (ledger (costs rt) (await_timeout (A := BackendResponse) rt aw args)) as L2.
    { pose proof (ledger_refund (A := BackendResponse) rt args "timeout" (BTimeout (await_timeout_ms (await_cfg aw)))) as L.
      done. }
    specialize (Hk _ B2 L2). destruct (await_timeout rt aw args) as [r fx']. by intros [= <-]. }
  destruct (await_loop _ _ _ _ _ _ _ _ _ _) as [[r fx']|] eqn:E; [|done]. intros [= <-].
  destruct (IH _ _ E) as [B2 L2]. apply (Hk _ B2 L2).
Qed.

Lemma ledger_registered {A} c id (m : W A) : ledger c m -> ledger c (registered id m).
Proof.
  destruct m as [r fx]. unfold ledger, registered. cbn [fst snd].
  rewrite !charges_app, !refunds_app. by change (charges [ERegister id]) with 0%nat; change (refunds [ERegister id]) with 0%nat;
    change (charges [EDeregister id]) with 0%nat; change (refunds [EDeregister id]) with 0%nat; rewrite !Nat.add_0_r.
Qed.

Lemma bills_registered {A} rt id (m : W A) : bills rt m -> bills rt (registered id m).
Proof. intros Hm. unfold bills, registered. cbn. constructor; [done|]. apply Forall_app. split; [done|by repeat constructor]. Qed.

Lemma inner_ledger fuel name req rt env ae m :
  execute_inner_impl sqlx_display show_f64 digest number_str fuel name req rt env ae = Some m ->
  bills rt m /\ exists c, (c <= costs rt)%nat /\ ledger c m.
Proof.
  unfold execute_inner_impl. destruct (await_rt rt) as [aw|].
  2: { intros [= <-]. destruct (query_ledger name req rt env) as [B (c & Hc & L)].
       split; [by apply bills_registered|]. exists c. split; [done|by apply ledger_registered]. }
  unfold execute_await_loop. destruct (await_args sqlx_display rt env req) as [args|e]; cbn [lift wbind].
  2: { intros [= <-]. split; [apply bills_registered; constructor|]. exists 0%nat. split; [lia|]. apply ledger_registered, (ledger_lift (Err e)). }
  destruct (trigger_ledger rt aw ae args) as [B1 L1].
  destruct (run_trigger _ _ _ _ _) as [[[]|e] fx]; cbn [wbind wret].
  2: { intros [= <-]. split; [by apply bills_registered|]. exists 0%nat. split; [lia|]. by apply ledger_registered. }
  rewrite app_nil_r. cbn [app].
  destruct (await_loop _ _ _ _ _ _ _ _ _ _) as [[r fx']|] eqn:E; [|done]. intros [= <-].
  destruct (await_loop_ledger _ _ _ _ _ _ _ _ _ E) as [B2 L2]. split.
  - apply bills_registered. by apply Forall_app.
  - exists (costs rt). split; [lia|]. apply ledger_registered.
    pose proof (ledger_then (costs rt) _ (fun _ => (r, fx')) L1 (fun _ _ => L2)) as L. by cbn in L.
Qed.

(** * What a call emits *)

Definition total (metric : string) (es : list event) : Z := counter_total metric (emissions es).

Lemma total_app metric a b : total metric (a ++ b) = total metric a + total metric b.
Proof. unfold total. by rewrite emissions_app, counter_total_app. Qed.

Definition charged (fx : list effect) : list f64 :=
  flat_map (fun e => match e with ECharge a => [a] | _ => [] end) fx.
Definition refunded (fx : list effect) : list f64 :=
  flat_map (fun e => match e with ERefund a _ => [a] | _ => [] end) fx.

Fixpoint sum_micro (l : list f64) : Z :=
  match l with
  | [] => 0
  | a :: l' => micro a + sum_micro l'
  end.

Lemma sum_micro_app a b : sum_micro (a ++ b) = sum_micro a + sum_micro b.
Proof. induction a as [|x a IH]; cbn [sum_micro app]; lia. Qed.

Lemma charges_length fx : charges fx = length (charged fx).
Proof. unfold charges, charged. induction fx as [|[] fx IH]; cbn; lia. Qed.
Lemma refunds_length fx : refunds fx = length (refunded fx).
Proof. unfold refunds, refunded. induction fx as [|[] fx IH]; cbn; lia. Qed.

(** Every series the call path of a profile can touch; neither the request nor
    the caller occurs in it. *)
Definition inner_series (name : string) (rt : ProfileRuntime) : list (string * labels) :=
  let d := driver_label (rt_driver rt) in
  let bd := [backend_label name; d] in
  [(REQUESTS_IN_FLIGHT, [d]); (AWAIT_WAITS_ACTIVE, [d]); (CACHE_HITS, bd); (CACHE_MISSES, bd); (CACHE_WRITES, bd);
   (PREPARE_RETRIES, bd)] ++
  map (fun o => (AWAIT_POLLS, bd ++ [("outcome"%string, o)])) ["matched"; "timeout"]%string ++
  map (fun o => (AWAIT_DURATION_SECONDS, bd ++ [("outcome"%string, o)])) ["matched"; "timeout"]%string ++
  map (fun k => (AWAIT_WAKES, bd ++ [("kind"%string, k)])) ["matched"; "timeout"; "spurious"]%string ++
  match rt_cost rt with
  | Some c =>
      let l := bd ++ [("currency"%string, currency c); ("unit"%string, CostUnit_as_str (unit c))] in
      [(COST_TOTAL, l); (CALL_COST, l)] ++
      map (fun r => (COST_REFUNDED, bd ++ [("currency"%string, currency c); ("reason"%string, r)])) refund_reasons
  | None => []
  end.

(** The cost counters of a piece of a trace are its charges and refunds, and
    its series are among the profile's. *)
Record fine (name : string) (rt : ProfileRuntime) (es : list event) : Prop := {
  fine_charged : total COST_TOTAL es = sum_micro (charged (effects es));
  fine_refunded : total COST_REFUNDED es = sum_micro (refunded (effects es));
  fine_series : Forall (fun m => series m ∈ inner_series name rt) (emissions es);
  fine_quiet : lines es = [] /\ host_metrics es = [] /\ audits es = [];
}.

Section Fine.
Context (name : string) (rt : ProfileRuntime) (env : Env) (mt : Meters).

Lemma fine_app a b : fine name rt a -> fine name rt b -> fine name rt (a ++ b).
Proof.
  intros [A1 A2 A3 (A4 & A5 & A6)] [B1 B2 B3 (B4 & B5 & B6)].
  split; rewrite ?total_app, ?effects_app, ?emissions_app, ?lines_app, ?host_metrics_app, ?audits_app.
  - unfold charged in *. rewrite flat_map_app, sum_micro_app. lia.
  - unfold refunded in *. rewrite flat_map_app, sum_micro_app. lia.
  - by apply Forall_app.
  - by rewrite A4, A5, A6, B4, B5, B6.
Qed.

Lemma fine_nil : fine name rt [].
Proof. by split. Qed.

(** Emissions of their own that are not about costs. *)
Lemma fine_all ms :
  Forall (fun m => series m ∈ inner_series name rt) ms ->
  counter_total COST_TOTAL ms = 0 -> counter_total COST_REFUNDED ms = 0 -> fine name rt (all ms).
Proof.
  intros Hs H1' H2'. split; unfold total; autorewrite with traces; done.
Qed.

Ltac in_series := unfold inner_series; cbn; rewrite ?elem_of_cons; tauto.

Lemma fine_observed e : billed rt e -> fine name rt (observed name rt env mt e).
Proof.
  assert (forall e ms, match e with ECharge _ | ERefund _ _ => False | _ => True end ->
    Forall (fun m => series m ∈ inner_series name rt) ms ->
    counter_total COST_TOTAL ms = 0 -> counter_total COST_REFUNDED ms = 0 -> fine name rt (Did e :: all ms)) as Hplain.
  { intros e' ms He Hs H1' H2'. change (Did e' :: all ms) with ([Did e'] ++ all ms). apply fine_app; [|by apply fine_all].
    by destruct e'. }
  destruct e as [id|id|k|k entry ttl|n stmt bound vars|a|a reason]; cbn [observed]; intros HB.
  - apply Hplain; [done| |done|done]. by repeat constructor; in_series.
  - apply Hplain; [done| |done|done]. by repeat constructor; in_series.
  - destruct (cache_get env k) as [[[]|]|]; apply (Hplain _ []) || apply Hplain; try done; repeat constructor; in_series.
  - destruct (put_ok mt); apply (Hplain _ []) || apply Hplain; try done; repeat constructor; in_series.
  - apply (Hplain _ []); [done|constructor|done|done].
  - destruct HB as (c & args & n & b & Hc & _). rewrite Hc. split; unfold total; cbn; [lia|done| |done].
    repeat constructor; unfold inner_series; rewrite Hc; cbn; rewrite ?elem_of_cons; tauto.
  - destruct HB as (c & args & Hc & _ & Hr). rewrite Hc. split; unfold total; cbn; [done|lia| |done].
    repeat constructor. unfold inner_series. rewrite Hc. unfold refund_reasons in Hr.
    rewrite !elem_of_cons, elem_of_nil in Hr. destruct Hr as [->|[->|[->|[]]]]; cbn; rewrite ?elem_of_cons; tauto.
Qed.

Lemma fine_seen fx : Forall (billed rt) fx -> fine name rt (seen name rt env mt fx).
Proof.
  induction 1 as [|e fx He _ IH]; [apply fine_nil|]. by apply fine_app; [apply fine_observed|].
Qed.

Lemma fine_seen_query fx : Forall (billed rt) fx -> fine name rt (seen_query name rt env mt fx).
Proof.
  induction 1 as [|e fx He _ IH]; [apply fine_nil|]. apply fine_app; [|done].
  pose proof (fine_observed e He) as Ho. destruct e as [| | | |[|k] stmt bound vars| |]; cbn [observed_query]; try done.
  apply fine_app; [|done]. apply fine_all; [|done|done]. by repeat constructor; in_series.
Qed.

Lemma fine_terminal outcome n : outcome ∈ ["matched"; "timeout"]%string -> fine name rt (terminal name rt mt outcome n).
Proof.
  rewrite !elem_of_cons, elem_of_nil. intros Ho. apply fine_all.
  - unfold record_await_wait. destruct (0 <? _); destruct Ho as [->|[->|[]]]; repeat constructor; in_series.
  - unfold record_await_wait. by destruct (0 <? _).
  - unfold record_await_wait. by destruct (0 <? _).
Qed.

Lemma fine_spurious : fine name rt (spurious name rt).
Proof. apply fine_all; [|done|done]. by repeat constructor; in_series. Qed.

Lemma fine_await_trace fuel n aw ae args m :
  await_trace sqlx_display show_f64 name rt env mt fuel n aw ae args = Some m -> fine name rt (snd m).
Proof.
  revert n m. induction fuel as [|fuel IH]; intros n m; [done|]. cbn [await_trace].
  pose proof (bills_await_check rt aw ae args n) as B1. unfold bills in B1.
  destruct (await_check _ _ _ _ _ _) as [[row|e] fx]; cbn [snd] in B1; [|intros [= <-]; by apply fine_seen].
  destruct (evaluate_await_predicate _ _ _).
  { destruct (matched_ledger name rt env args row (Z.of_nat n + 1)) as [B2 _]. unfold bills in B2.
    destruct (await_matched _ _ _ _ _ _ _ _) as [r fx']. intros [= <-]. cbn [snd].
    apply fine_app; [by apply fine_seen|]. apply (fine_app (terminal name rt mt _ n)); [apply fine_terminal; set_solver|by apply fine_seen]. }
  destruct (_ || _).
  { assert (bills rt (await_timeout (A := BackendResponse) rt aw args)) as B2
      by (apply bills_refund; unfold refund_reasons; set_solver). unfold bills in B2.
    destruct (await_timeout rt aw args) as [r fx']. intros [= <-]. cbn [snd].
    apply fine_app; [by apply fine_seen|]. apply (fine_app (spurious name rt)); [apply fine_spurious|].
    apply (fine_app (terminal name rt mt _ n)); [apply fine_terminal; set_solver|by apply fine_seen]. }
  destruct (await_trace _ _ _ _ _ _ _ _ _ _ _) as [[r es]|] eqn:E; [|done]. intros [= <-]. cbn [snd].
  apply fine_app; [by apply fine_seen|]. apply (fine_app (spurious name rt)); [apply fine_spurious|]. apply (IH _ _ E).
Qed.

Lemma fine_guarded id es : fine name rt es -> fine name rt (guarded name rt env mt id es).
Proof.
  intros He. unfold guarded. apply fine_app; [by apply fine_observed|].
  apply fine_app; [by apply fine_all; [repeat constructor; in_series|..]|]. apply fine_app; [done|].
  apply fine_app; [by apply fine_all; [repeat constructor; in_series|..]|by apply fine_observed].
Qed.

Lemma fine_inner fuel req ae m :
  inner_trace sqlx_display show_f64 digest number_str name rt env mt fuel req ae = Some m -> fine name rt (snd m).
Proof.
  unfold inner_trace. destruct (await_rt rt) as [aw|].
  2: { intros [= <-]. unfold query_trace.
       destruct (query_ledger name req rt env) as [B _]. apply (bills_registered rt (request_id req)) in B.
       unfold bills in B. destruct (registered _ _) as [r fx]. by apply fine_seen_query. }
  unfold await_call. destruct (await_args sqlx_display rt env req) as [args|e]; cbn [lift wbind].
  2: { intros [= <-]. apply fine_guarded, fine_nil. }
  destruct (trigger_ledger rt aw ae args) as [B1 _]. unfold bills in B1.
  destruct (run_trigger _ _ _ _ _) as [[[]|e] fx]; cbn [wbind wret snd app] in *.
  2: { intros [= <-]. by apply fine_guarded, fine_seen. }
  rewrite app_nil_r. destruct (await_trace _ _ _ _ _ _ _ _ _ _ _) as [[r es]|] eqn:E; [|done]. intros [= <-].
  apply fine_guarded, fine_app; [by apply fine_seen|]. by apply fine_await_trace in E.
Qed.
End Fine.

(** The series of the record of a call, and those of the host. *)
Definition call_series (name : string) (d : DriverKind) : list (string * labels) :=
  let l := [backend_label name; ("query"%string, name)] in
  map (fun s => (CALLS_TOTAL, l ++ [driver_label d; ("status"%string, s)]))
    ["success"; "timeout"; "invalid_spec"; "transport_error"]%string ++
  [(DURATION_SECONDS, l ++ [driver_label d]); (ROWS_RETURNED, l)].

Definition outcomes : list string := ["ok"; "timeout"; "transport"; "invalid_spec"; "profile_not_found"]%string.

Definition host_series (d : DriverKind) : list (string * labels) :=
  flat_map (fun o => let l := [("outcome"%string, o); ("driver"%string, DriverKind_as_str d)] in
                     [("mcpg_sql_backend_latency_seconds"%string, l); ("mcpg_sql_backend_calls_total"%string, l)]) outcomes.

Definition end_series (name : string) (fin : Ending) : list (string * labels) :=
  match still fin with Some d => call_series name d | None => [] end.

Section Whole.
Context (host : option string) (name : string) (env : Env) (req : BackendRequest) (who : Caller) (fin : Ending).

Abbreviation reported := (report show_backend name host env req who fin).

Lemma report_effects r : effects (reported r) = [].
Proof.
  unfold report. destruct (still fin) as [d|]; [|done]. autorewrite with traces. cbn [app effects flat_map did].
  destruct host; [|done]. cbn. by destruct (audit_action_for r), r.
Qed.

Lemma report_emissions r :
  emissions (reported r) = match still fin with
                           | Some d => record_call name name d (call_status r) (duration fin) (response_rows env r)
                           | None => []
                           end.
Proof.
  unfold report. destruct (still fin) as [d|]; [|done]. autorewrite with traces.
  destruct host; cbn [emissions flat_map emitted app]; [|by rewrite app_nil_r].
  destruct (audit_action_for r), r; cbn; by rewrite ?app_nil_r.
Qed.

Lemma report_series r : Forall (fun m => series m ∈ end_series name fin) (emissions (reported r)).
Proof.
  rewrite report_emissions. unfold end_series. destruct (still fin) as [d|]; [|constructor].
  unfold record_call, call_series. constructor; [|constructor].
  - cbn. rewrite !elem_of_cons. destruct r as [a|[]]; cbn; tauto.
  - cbn. rewrite !elem_of_cons. tauto.
  - destruct (response_rows env r); [|constructor]. constructor; [|constructor]. cbn. rewrite !elem_of_cons. tauto.
Qed.

Lemma report_host_series r :
  Forall (fun m => match still fin with Some d => series m ∈ host_series d | None => False end) (host_metrics (reported r)).
Proof.
  unfold report. destruct (still fin) as [d|]; [|constructor]. autorewrite with traces. cbn [app host_metrics flat_map host_metric].
  destruct host; [|constructor].
  destruct r as [a|[]]; cbn; repeat constructor; unfold host_series, outcomes; cbn; rewrite !elem_of_cons; tauto.
Qed.

Lemma report_line r :
  lines (reported r) = match still fin with
    | Some d => [{| line_backend := name; line_driver := DriverKind_as_str d; line_request_id := request_id req;
                    line_session_id := default EmptyString (session_id who);
                    line_duration_ms := as_millis (duration fin); line_rows := default 0 (response_rows env r);
                    line_status := CallStatus_as_str (call_status r); line_error_kind := error_kind r |}]
    | None => []
    end.
Proof.
  unfold report. destruct (still fin) as [d|]; [|done]. autorewrite with traces.
  destruct host; [|done]. by destruct r as [a|[]].
Qed.

Lemma report_host r :
  host_metrics (reported r) = match still fin, host with
    | Some d, Some _ => [Histogram "mcpg_sql_backend_latency_seconds" (host_labels r d) (as_secs_f64 (duration fin));
                         Counter "mcpg_sql_backend_calls_total" (host_labels r d) 1]
    | _, _ => []
    end /\
  audits (reported r) = match still fin, host, audit_action_for r, r with
    | Some d, Some alias, Some act, Err e => [audit_event show_backend name alias d req who fin act e]
    | _, _, _, _ => []
    end.
Proof.
  unfold report. destruct (still fin) as [d|]; [|done]. autorewrite with traces.
  destruct host; [|done]. by destruct r as [a|[]].
Qed.
End Whole.

(** Events that are only the host's span. *)
Definition silent (es : list event) : Prop :=
  effects es = [] /\ emissions es = [] /\ lines es = [] /\ host_metrics es = [] /\ audits es = [].

(** The trace of a call is the trace of its inner call, which the breaker may
    have kept from running, and the report, between the ends of the span. *)
Lemma execute_shape host profile inner t0 t1 name env req who fin :
  let (r, es) := execute sqlx_display show_backend false host profile inner t0 t1 name env req who fin in
  exists start stop mid,
    es = start ++ mid ++ report show_backend name host env req who fin r ++ stop /\ silent start /\ silent stop /\
    match profile with
    | None => (r, mid) = (Err (BProfileNotFound name), [])
    | Some (rt, b) => (r, mid) = fst (with_breaker sqlx_display t0 t1 b (inner rt))
    end.
Proof.
  unfold execute.
  destruct profile as [[rt b]|]; [destruct (fst (with_breaker _ _ _ _ _)) as [r mid] eqn:E|];
    do 3 eexists; (split; [reflexivity|]); unfold silent; by destruct host.
Qed.

Lemma breaker_trace t0 t1 b inner r mid :
  (r, mid) = fst (with_breaker sqlx_display t0 t1 b inner) ->
  (r, mid) = inner \/ mid = [] /\ exists e, r = Err e.
Proof.
  unfold with_breaker. destruct b as [b|]; [|by left].
  destruct (Breaker.Breaker.try_admit t0 b) as [[g|e] b']; cbn; [by left|]. intros [= -> ->]. eauto.
Qed.

(** ** What a finished call should be reported as *)

(** The status and the error kind of the log line, the outcome label of the
    host's metrics and the action of the audit event, by the result. *)
Inductive labelled {A} : result BackendError A -> string -> string -> string -> option string -> Prop :=
| labelled_ok a : labelled (Ok a) "success" "" "ok" None
| labelled_timeout ms :
    labelled (Err (BTimeout ms)) "timeout" "timeout" "timeout" (Some "dev.mcpg.backend.sql.query_timeout"%string)
| labelled_transport msg :
    labelled (Err (BTransport msg)) "transport_error" "transport" "transport" (Some "dev.mcpg.backend.sql.query_failed"%string)
| labelled_spec msg : labelled (Err (BInvalidSpec msg)) "invalid_spec" "invalid_spec" "invalid_spec" None
| labelled_profile msg :
    labelled (Err (BProfileNotFound msg)) "transport_error" "profile_not_found" "profile_not_found" None.

Definition has_count (m : json_map) : Prop := exists n, obj_get "rows_affected" m = Some (VNumber n).
Definition has_contents (m : json_map) : Prop := exists l, obj_get "contents" m = Some (VArray l).

(** The rows a response counts as: the elements of an array; of an object its
    [rows_affected] when that is a number, else the elements of its [contents]
    when that is an array, else one; of anything else nothing. *)
Inductive payload_rows : value -> option Z -> Prop :=
| rows_array l : payload_rows (VArray l) (Some (Z.of_nat (length l)))
| rows_affected m n : obj_get "rows_affected" m = Some (VNumber n) -> payload_rows (VObject m) (as_u64 (VNumber n))
| rows_contents m l : ~ has_count m -> obj_get "contents" m = Some (VArray l) ->
    payload_rows (VObject m) (Some (Z.of_nat (length l)))
| rows_object m : ~ has_count m -> ~ has_contents m -> payload_rows (VObject m) (Some 1)
| rows_other v : match v with VArray _ | VObject _ => False | _ => True end -> payload_rows v None.

Definition result_rows (env : Env) (r : result BackendError BackendResponse) (rows : option Z) : Prop :=
  match r with
  | Ok resp => match from_slice env (payload resp) with
               | Ok v => payload_rows v rows
               | Err _ => rows = None
               end
  | Err _ => rows = None
  end.

Lemma row_count_rows v : payload_rows v (row_count_hint v).
Proof.
  destruct v as [| | | |l|m]; try by constructor. cbn [row_count_hint].
  assert ((exists n, obj_get "rows_affected" m = Some (VNumber n)) \/ ~ has_count m) as [[n E]|Hn].
  { unfold has_count. destruct (obj_get "rows_affected" m) as [[]|]; first [left; by eexists|right; by intros [? [=]]]. }
  { rewrite E. by apply rows_affected. }
  assert (forall (A : Type) (x : number -> A) (y : A),
    match obj_get "rows_affected" m with Some (VNumber n) => x n | _ => y end = y) as ->.
  { intros A x y. destruct (obj_get "rows_affected" m) as [[]|] eqn:E; try done. destruct Hn. by eexists. }
  destruct (obj_get "contents" m) as [[]|] eqn:E;
    first [by apply rows_contents|apply rows_object; [done|intros [l El]; congruence]].
Qed.

Lemma response_rows_spec env r : result_rows env r (response_rows env r).
Proof.
  unfold result_rows, response_rows. destruct r as [resp|e]; [|done].
  destruct (from_slice env (payload resp)); [apply row_count_rows|done].
Qed.

(** The emissions of one metric. *)
Definition of_metric (metric : string) (es : list event) : list emission :=
  List.filter (fun m => String.eqb (fst (series m)) metric) (emissions es).

Lemma of_metric_app metric a b : of_metric metric (a ++ b) = of_metric metric a ++ of_metric metric b.
Proof. unfold of_metric. by rewrite emissions_app, List.filter_app. Qed.

(** The inner trace has none of what only the report emits. *)
Lemma inner_plain name rt es metric :
  metric ∈ [CALLS_TOTAL; DURATION_SECONDS; ROWS_RETURNED] ->
  Forall (fun m => series m ∈ inner_series name rt) (emissions es) -> of_metric metric es = [].
Proof.
  intros Hmet. unfold of_metric. induction 1 as [|m ms Hm _ IH]; [done|]. cbn [List.filter]. rewrite IH.
  assert (fst (series m) <> metric) as Hn.
  { intros E. assert (Forall (fun s => fst s <> metric) (inner_series name rt)) as Hf.
    { rewrite !elem_of_cons, elem_of_nil in Hmet. unfold inner_series.
      destruct Hmet as [->|[->|[->|[]]]]; destruct (rt_cost rt); repeat constructor; done. }
    rewrite Forall_forall in Hf. by apply (Hf _ Hm). }
  by rewrite (proj2 (String.eqb_neq _ _)).
Qed.

Section Theorems.
Context (host : option string) (name : string) (rt : ProfileRuntime) (b : option Breaker.Breaker.CircuitBreaker).
Context (env : Env) (mt : Meters) (fuel : nat) (req : BackendRequest) (ae : AwaitEnv) (who : Caller) (fin : Ending).
Context (t0 t1 : Z).

Abbreviation inner_of := (inner_trace sqlx_display show_f64 digest number_str name rt env mt fuel req ae).
Abbreviation call_with m :=
  (execute sqlx_display show_backend false host (Some (rt, b)) (fun _ => m) t0 t1 name env req who fin).

Lemma free_effects r fx : rt_cost r = None -> Forall (billed r) fx -> charged fx = [] /\ refunded fx = [].
Proof.
  intros E. induction 1 as [|e fx He _ [IH1 IH2]]; [done|]. destruct e; cbn in *; try done.
  - destruct He as (c & args & n & k & Hc & _). congruence.
  - destruct He as (c & args & Hc & _). congruence.
Qed.

(** What precedes and follows the report of a call, and what the inner call did. *)
Lemma call_parts m :
  inner_of = Some m ->
  let (r, es) := call_with m in
  exists start stop mid,
    es = start ++ mid ++ report show_backend name host env req who fin r ++ stop /\ silent start /\ silent stop /\
    fine name rt mid /\ Forall (billed rt) (effects mid) /\ exists c, (c <= costs rt)%nat /\ ledger c ((r, effects mid) : W BackendResponse).
Proof.
  intros Hm. pose proof (execute_shape host (Some (rt, b)) (fun _ => m) t0 t1 name env req who fin) as Hs.
  destruct (execute _ _ _ _ _ _ _ _ _ _ _ _ _) as [r es].
  destruct Hs as (start & stop & mid & -> & H1' & H2' & E). exists start, stop, mid. split_and!; try done.
  - apply breaker_trace in E as [E|[-> _]]; [|apply fine_nil]. pose proof (fine_inner name rt env mt fuel req ae m Hm) as Hf.
    by rewrite <- E in Hf.
  - apply breaker_trace in E as [<-|[-> _]]; [|constructor].
    pose proof (erase_inner_trace name rt env mt fuel req ae) as He. rewrite Hm in He. symmetry in He.
    by destruct (inner_ledger _ _ _ _ _ _ _ He) as [Hb _].
  - apply breaker_trace in E as [<-|[-> (e & ->)]]; [|exists 0%nat; split; [lia|apply (ledger_lift (Err e))]].
    pose proof (erase_inner_trace name rt env mt fuel req ae) as He. rewrite Hm in He. symmetry in He.
    by destruct (inner_ledger _ _ _ _ _ _ _ He) as [_ Hl].
Qed.

(** C27.  Reporting is transparent: without what it emits, a call of a registered
    profile is the call path of [Execute], breaker included, with the same
    result; and a draining plugin refuses without doing or reporting
    anything. *)
Theorem reporting_transparent m w :
  inner_of = Some m ->
  execute_inner_impl sqlx_display show_f64 digest number_str fuel name req rt env ae = Some w ->
  erase (call_with m) = fst (execute_inner sqlx_display t0 t1 b w) /\
  forall profile inner, execute sqlx_display show_backend true host profile inner t0 t1 name env req who fin
    = (Err refused, []).
Proof.
  intros Hm Hw. split; [|done].
  pose proof (erase_inner_trace name rt env mt fuel req ae) as He. rewrite Hm, Hw in He. injection He as <-.
  pose proof (execute_shape host (Some (rt, b)) (fun _ => m) t0 t1 name env req who fin) as Hs.
  destruct (execute _ _ _ _ _ _ _ _ _ _ _ _ _) as [r es].
  destruct Hs as (start & stop & mid & -> & (E1 & _) & (E2 & _) & E).
  unfold erase. cbn [fst snd]. autorewrite with traces. rewrite E1, E2, report_effects, !app_nil_r. cbn [app].
  unfold with_breaker in E. unfold execute_inner. destruct m as [r' es']. destruct b as [b'|].
  - destruct (Breaker.Breaker.try_admit t0 b') as [[g|e] b'']; cbn in E |- *; injection E as -> ->; done.
  - cbn in E |- *. by injection E as -> ->.
Qed.

(** C28.  Every finished call of a binding that is still registered reports
    itself exactly once: one log line, one count, one duration and, when the
    response has rows to count, one sample of them, with the name, the driver of
    the registered profile, the request and its session, and the status, error
    kind and row count of the very result the caller gets; the host gets one
    latency sample and one count with the outcome, and an audit event exactly for
    timeouts and transport failures, with the request's id.  A binding that is
    gone, or never existed, reports nothing of this. *)
Theorem calls_reported m :
  inner_of = Some m ->
  let (r, es) := call_with m in
  exists status kind outcome act nrows, labelled r status kind outcome act /\ result_rows env r nrows /\
  match still fin with
  | None => lines es = [] /\ host_metrics es = [] /\ audits es = [] /\
      Forall (fun metric => of_metric metric es = []) [CALLS_TOTAL; DURATION_SECONDS; ROWS_RETURNED]
  | Some d =>
      let bq := [backend_label name; ("query", name)]%string in
      lines es = [{| line_backend := name; line_driver := DriverKind_as_str d; line_request_id := request_id req;
                     line_session_id := default EmptyString (session_id who);
                     line_duration_ms := as_millis (duration fin); line_rows := default 0 nrows;
                     line_status := status; line_error_kind := kind |}] /\
      of_metric CALLS_TOTAL es = [Counter CALLS_TOTAL (bq ++ [driver_label d; ("status"%string, status)]) 1] /\
      of_metric DURATION_SECONDS es = [Histogram DURATION_SECONDS (bq ++ [driver_label d]) (as_secs_f64 (duration fin))] /\
      of_metric ROWS_RETURNED es = match nrows with
                                   | Some n => [Histogram ROWS_RETURNED bq (f64_of_Z n)]
                                   | None => []
                                   end /\
      match host with
      | None => host_metrics es = [] /\ audits es = []
      | Some alias =>
          let l := [("outcome", outcome); ("driver", DriverKind_as_str d)]%string in
          host_metrics es = [Histogram "mcpg_sql_backend_latency_seconds" l (as_secs_f64 (duration fin));
                             Counter "mcpg_sql_backend_calls_total" l 1] /\
          match act with
          | None => audits es = []
          | Some a => exists e, r = Err e /\ audits es = [audit_event show_backend name alias d req who fin a e] /\
              Forall (fun ev => action ev = a /\ audit_request_id ev = request_id req /\
                                resource ev = "sql-binding://" +:+ name) (audits es)
          end
      end
  end.
Proof.
  intros Hm. pose proof (call_parts m Hm) as Hp. destruct (execute _ _ _ _ _ _ _ _ _ _ _ _ _) as [r es].
  destruct Hp as (start & stop & mid & -> & (_ & A1 & A2 & A3 & A4) & (_ & B1 & B2 & B3 & B4) & [_ _ Hs (C2 & C3 & C4)] & _).
  assert (forall metric, metric ∈ [CALLS_TOTAL; DURATION_SECONDS; ROWS_RETURNED] ->
    of_metric metric (start ++ mid ++ report show_backend name host env req who fin r ++ stop) =
    of_metric metric (report show_backend name host env req who fin r)) as Hof.
  { intros metric Hin. rewrite !of_metric_app, (inner_plain name rt mid metric Hin Hs). unfold of_metric at 1 3.
    by rewrite A1, B1, app_nil_r. }
  exists (CallStatus_as_str (call_status r)), (error_kind r), (host_outcome_label r), (audit_action_for r), (response_rows env r).
  split; [destruct r as [a|[]]; constructor|]. split; [apply response_rows_spec|].
  destruct (report_host host name env req who fin r) as [H3 H4].
  assert (lines (start ++ mid ++ report show_backend name host env req who fin r ++ stop) =
          lines (report show_backend name host env req who fin r)) as Hl.
  { autorewrite with traces. by rewrite A2, B2, C2, app_nil_r. }
  assert (host_metrics (start ++ mid ++ report show_backend name host env req who fin r ++ stop) =
          host_metrics (report show_backend name host env req who fin r)) as Hh.
  { autorewrite with traces. by rewrite A3, B3, C3, app_nil_r. }
  assert (audits (start ++ mid ++ report show_backend name host env req who fin r ++ stop) =
          audits (report show_backend name host env req who fin r)) as Hau.
  { autorewrite with traces. by rewrite A4, B4, C4, app_nil_r. }
  rewrite Hl, Hh, Hau, H3, H4. rewrite report_line. destruct (still fin) as [d|] eqn:Ed.
  2: { split_and!; try done. repeat constructor; rewrite Hof by set_solver; unfold of_metric; rewrite report_emissions, Ed; done. }
  cbv zeta. rewrite !Hof by set_solver. unfold of_metric. rewrite report_emissions, Ed. unfold record_call, host_labels.
  split_and!; [done|by destruct (response_rows env r)..|].
  destruct host as [alias|]; [|done]. split; [done|]. destruct r as [a|[]]; cbn; try done; eexists; (split; [done|]); by repeat constructor.
Qed.

(** C29.  The cost counters are the accounts: over a whole call, fire-and-wait
    included, what [mcpg_sql_cost_total] and [mcpg_sql_cost_refunded_total] gain
    is the micro-units of what was charged and refunded, at most one of the two
    and at most once; a success is never refunded and a failure never
    charged. *)
Theorem billing_exact m :
  inner_of = Some m ->
  let (r, es) := call_with m in
  total COST_TOTAL es = sum_micro (charged (effects es)) /\
  total COST_REFUNDED es = sum_micro (refunded (effects es)) /\
  (length (charged (effects es)) + length (refunded (effects es)) <= 1)%nat /\
  (if is_ok r then refunded (effects es) = [] else charged (effects es) = []) /\
  (rt_cost rt = None -> charged (effects es) = [] /\ refunded (effects es) = []).
Proof.
  intros Hm. pose proof (call_parts m Hm) as Hp. destruct (execute _ _ _ _ _ _ _ _ _ _ _ _ _) as [r es].
  destruct Hp as (start & stop & mid & -> & (A0 & A1 & _) & (B0 & B1 & _) & [C1 C2 _ _] & HB & (c & Hc & HL)).
  rewrite !total_app. autorewrite with traces. rewrite A0, B0, report_effects, !app_nil_r. cbn [app].
  assert (forall metric, metric = COST_TOTAL \/ metric = COST_REFUNDED ->
    counter_total metric (emissions (report show_backend name host env req who fin r)) = 0) as Hr.
  { intros metric Hmetric. rewrite report_emissions. destruct (still fin); [|done]. unfold record_call.
    destruct Hmetric as [->| ->]; by destruct (response_rows env r). }
  unfold ledger in HL. rewrite charges_length, refunds_length in HL.
  unfold costs in Hc. split_and!.
  - unfold total in *. rewrite A1, B1, Hr by auto. cbn. lia.
  - unfold total in *. rewrite A1, B1, Hr by auto. cbn. lia.
  - destruct (rt_cost rt), (is_ok r); lia.
  - destruct (is_ok r); apply nil_length_inv; lia.
  - intros E. by apply (free_effects rt).
Qed.

(** Label cardinality is bounded: every series a call touches is one of 24
    fixed by the binding's name, drivers and cost block, and one of 10 of the
    host; no argument, identity, statement or answer reaches a label. *)
Theorem series_bounded m :
  inner_of = Some m ->
  let (_, es) := call_with m in
  Forall (fun m => series m ∈ inner_series name rt ++ end_series name fin) (emissions es) /\
  Forall (fun m => match still fin with Some d => series m ∈ host_series d | None => False end) (host_metrics es) /\
  (length (inner_series name rt ++ end_series name fin) <= 24)%nat /\
  forall d, length (host_series d) = 10%nat.
Proof.
  intros Hm. pose proof (call_parts m Hm) as Hp. destruct (execute _ _ _ _ _ _ _ _ _ _ _ _ _) as [r es].
  destruct Hp as (start & stop & mid & -> & (_ & A1 & _ & A3 & _) & (_ & B1 & _ & B3 & _) & [_ _ Hs (_ & C3 & _)] & _).
  autorewrite with traces. rewrite A1, A3, B1, B3, C3, !app_nil_r. cbn [app]. split_and!.
  - apply Forall_app. split.
    + eapply Forall_impl; [exact Hs|]. intros x Hx. apply elem_of_app. by left.
    + eapply Forall_impl; [apply report_series|]. intros x Hx. apply elem_of_app. by right.
  - apply report_host_series.
  - unfold inner_series, end_series. destruct (rt_cost rt), (still fin); cbn; lia.
  - done.
Qed.
End Theorems.

(** * What a fire-and-wait call counts *)

Definition conclusion (m : emission) : list () :=
  match m with Histogram n _ _ => if String.eqb n AWAIT_DURATION_SECONDS then [()] else [] | _ => [] end.
Definition gauge_step (m : emission) : list f64 := match m with GaugeAdd _ _ v => [v] | _ => [] end.

(** How often a wait was concluded, and what the gauge of active waits was
    moved by. *)
Definition conclusions (es : list event) : nat := length (flat_map conclusion (emissions es)).
Definition gauge_steps (es : list event) : list f64 := flat_map gauge_step (emissions es).

Lemma conclusions_app a b : conclusions (a ++ b) = (conclusions a + conclusions b)%nat.
Proof. unfold conclusions. by rewrite emissions_app, flat_map_app, length_app. Qed.
Lemma gauge_steps_app a b : gauge_steps (a ++ b) = gauge_steps a ++ gauge_steps b.
Proof. unfold gauge_steps. by rewrite emissions_app, flat_map_app. Qed.

(** Traces that count nothing about a wait. *)
Record waitless (es : list event) : Prop := {
  no_conclusions : conclusions es = 0%nat;
  no_gauge : gauge_steps es = [];
  no_polls : total AWAIT_POLLS es = 0;
  no_wakes : total AWAIT_WAKES es = 0;
}.

Section Waits.
Context (name : string) (rt : ProfileRuntime) (env : Env) (mt : Meters).

Lemma waitless_app a b : waitless a -> waitless b -> waitless (a ++ b).
Proof.
  intros [A1 A2 A3 A4] [B1 B2 B3 B4].
  split; rewrite ?conclusions_app, ?gauge_steps_app, ?total_app, ?A1, ?A2, ?A3, ?A4, ?B1, ?B2, ?B3, ?B4; done.
Qed.

Lemma waitless_observed e : waitless (observed name rt env mt e).
Proof.
  destruct e as [id|id|k|k entry ttl|n stmt bound vars|a|a reason]; cbn [observed]; try by split.
  - by destruct (cache_get env k) as [[[]|]|]; split.
  - by destruct (put_ok mt); split.
  - by destruct (rt_cost rt); split.
  - by destruct (rt_cost rt); split.
Qed.

Lemma waitless_seen fx : waitless (seen name rt env mt fx).
Proof. induction fx as [|e fx IH]; [by split|]. apply (waitless_app (observed name rt env mt e)); [apply waitless_observed|done]. Qed.

Lemma terminal_counts outcome n :
  Z.of_nat n + 1 <= i64_max ->
  conclusions (terminal name rt mt outcome n) = 1%nat /\ gauge_steps (terminal name rt mt outcome n) = [] /\
  total AWAIT_POLLS (terminal name rt mt outcome n) = Z.of_nat n + 1 /\
  total AWAIT_WAKES (terminal name rt mt outcome n) = 1.
Proof.
  intros Hn. pose proof (record_await_wait_total name (rt_driver rt) outcome (Z.of_nat n + 1) ltac:(lia)) as Hp.
  unfold conclusions, gauge_steps, total, terminal. rewrite !emissions_all, !counter_total_app, !flat_map_app, Hp.
  unfold record_await_wait. destruct (0 <? _); cbn; split_and!; done || lia.
Qed.

Lemma effects_terminal outcome n : effects (terminal name rt mt outcome n) = [].
Proof. apply effects_all. Qed.
Lemma effects_spurious : effects (spurious name rt) = [].
Proof. apply effects_all. Qed.

Lemma check_one_call aw ae args n row fx :
  await_check sqlx_display rt aw ae args n = (Ok row, fx) -> length (calls fx) = 1%nat.
Proof.
  unfold await_check. destruct (from_sql _ _) as [bound|e]; [|done]. cbn [lift wbind tell].
  destruct (check_call ae n (check_stmt aw) bound (rt_session_vars rt)) as [|[b|e]]; cbn; [done| |done].
  by intros [= <- <-].
Qed.

Lemma spurious_counts :
  conclusions (spurious name rt) = 0%nat /\ gauge_steps (spurious name rt) = [] /\
  total AWAIT_POLLS (spurious name rt) = 0 /\ total AWAIT_WAKES (spurious name rt) = 1.
Proof. done. Qed.

#[local] Opaque spurious terminal.

Lemma await_trace_counts fuel n aw ae args r es :
  await_trace sqlx_display show_f64 name rt env mt fuel n aw ae args = Some (r, es) ->
  Z.of_nat n + Z.of_nat fuel <= i64_max ->
  let checks := Z.of_nat (length (calls (effects es))) in
  gauge_steps es = [] /\
  (conclusions es = 1%nat /\ total AWAIT_POLLS es = Z.of_nat n + checks /\
     checks <= total AWAIT_WAKES es <= checks + 1 /\ (is_ok r = true -> total AWAIT_WAKES es = checks) \/
   conclusions es = 0%nat /\ total AWAIT_POLLS es = 0 /\ is_ok r = false).
Proof.
  cbv zeta. destruct spurious_counts as (P1 & P2 & P3 & P4).
  revert n r es. induction fuel as [|fuel IH]; intros n r es; [done|]. cbn [await_trace]. intros E Hn.
  pose proof (fun row fx => check_one_call aw ae args n row fx) as H1c.
  destruct (await_check _ _ _ _ _ _) as [[row|e] fx].
  2: { injection E as <- <-. destruct (waitless_seen fx). auto. }
  specialize (H1c row fx eq_refl). destruct (waitless_seen fx) as [S1 S2 S3 S4].
  destruct (evaluate_await_predicate _ _ _).
  { destruct (matched_response sqlx_display show_f64 name rt env args row (Z.of_nat n + 1)) as [Hc _].
    destruct (await_matched _ _ _ _ _ _ _ _) as [r' fx']. injection E as <- <-. cbn [snd] in Hc.
    destruct (waitless_seen fx') as [M1 M2 M3 M4].
    destruct (terminal_counts "matched" n) as (T1 & T2 & T3 & T4); [lia|].
    rewrite !effects_app, !effects_seen, !calls_app, !gauge_steps_app, !conclusions_app, !total_app, !length_app, Hc.
    rewrite effects_terminal, S1, S2, S3, S4, M1, M2, M3, M4, T1, T2, T3, T4, H1c.
    change (calls []) with (@nil effect). split; [done|]. left. split_and!; try done; try intros _; cbn; lia. }
  destruct (_ || _).
  { destruct (await_timeout rt aw args) as [r' fx'] eqn:Et. injection E as <- <-.
    assert (calls fx' = []) as Hc by (unfold await_timeout in Et; injection Et as _ <-; apply calls_refund).
    assert (is_ok r' = false) as Hr by (unfold await_timeout in Et; by injection Et as <- _).
    destruct (waitless_seen fx') as [M1 M2 M3 M4].
    destruct (terminal_counts "timeout" n) as (T1 & T2 & T3 & T4); [lia|].
    rewrite !effects_app, !effects_seen, !calls_app, !gauge_steps_app, !conclusions_app, !total_app, !length_app, Hc.
    rewrite effects_terminal, effects_spurious, S1, S2, S3, S4, M1, M2, M3, M4, T1, T2, T3, T4, P1, P2, P3, P4, H1c, Hr.
    change (calls []) with (@nil effect). split; [done|]. left. split_and!; try done; try intros _; cbn; lia. }
  destruct (await_trace _ _ _ _ _ _ _ _ _ _ _) as [[r' es']|] eqn:E'; [|done]. injection E as <- <-.
  destruct (IH _ _ _ E') as [G IH']; [lia|].
  rewrite !effects_app, !effects_seen, !calls_app, !gauge_steps_app, !conclusions_app, !total_app, !length_app.
  rewrite effects_spurious, S1, S2, S3, S4, P1, P2, P3, P4, G, H1c. split; [done|].
  change (calls []) with (@nil effect).
  destruct IH' as [(I1 & I2 & I3 & I4)|(I1 & I2 & I3)]; [left|right].
  - rewrite I1, I2. split_and!; try (cbn; lia). intros Hr. rewrite (I4 Hr). cbn. lia.
  - by rewrite I1, I2.
Qed.

Definition trigger_checks (aw : AwaitRuntime) : Z := match trigger_stmt aw with Some _ => 1 | None => 0 end.

Lemma trigger_one_call aw ae args fx :
  run_trigger sqlx_display rt aw ae args = (Ok (), fx) -> Z.of_nat (length (calls fx)) = trigger_checks aw.
Proof.
  unfold run_trigger, trigger_checks. destruct (trigger_stmt aw) as [stmt|]; [|by intros [= <-]].
  destruct (from_sql _ _) as [bound|e]; [|done]. cbn [lift wbind tell].
  destruct (trigger_call ae stmt bound (rt_session_vars rt)) as [|[b|e]]; cbn; [done| |done]. by intros [= <-].
Qed.

Lemma guarded_counts id es :
  gauge_steps (guarded name rt env mt id es) = [f64_of_Z 1] ++ gauge_steps es ++ [f64_of_Z (-1)] /\
  conclusions (guarded name rt env mt id es) = conclusions es /\
  total AWAIT_POLLS (guarded name rt env mt id es) = total AWAIT_POLLS es /\
  total AWAIT_WAKES (guarded name rt env mt id es) = total AWAIT_WAKES es /\
  calls (effects (guarded name rt env mt id es)) = calls (effects es).
Proof.
  unfold guarded.
  rewrite !gauge_steps_app, !conclusions_app, !total_app, !effects_app, !calls_app, !effects_observed, !effects_all.
  split_and!; try reflexivity.
  - change (conclusions (observed name rt env mt (ERegister id))) with 0%nat.
    change (conclusions (observed name rt env mt (EDeregister id))) with 0%nat.
    change (conclusions (all (await_waits_guard (rt_driver rt)))) with 0%nat.
    change (conclusions (all (waits_guard_drop (rt_driver rt)))) with 0%nat. lia.
  - unfold total at 1 2 4 5. cbn. lia.
  - unfold total at 1 2 4 5. cbn. lia.
  - change (calls [ERegister id]) with (@nil effect). change (calls [EDeregister id]) with (@nil effect).
    change (calls []) with (@nil effect). cbn [app]. by rewrite app_nil_r.
Qed.

(** Every fire-and-wait call moves the gauge of active waits up once and
    down once; it concludes at most once, a success exactly once, and then
    [mcpg_sql_await_polls_total] gains the number of check queries that ran and
    there was one wake for each, and one more when it timed out.  A wait that a
    failing check ended is not concluded at all. *)
Theorem await_reported fuel req aw ae r es :
  await_call sqlx_display show_f64 name rt env mt fuel req aw ae = Some (r, es) ->
  Z.of_nat fuel <= i64_max ->
  gauge_steps es = [f64_of_Z 1; f64_of_Z (-1)] /\ (is_ok r = true -> conclusions es = 1%nat) /\
  (conclusions es = 1%nat /\
     (let checks := Z.of_nat (length (calls (effects es))) - trigger_checks aw in
      total AWAIT_POLLS es = checks /\ checks <= total AWAIT_WAKES es <= checks + 1 /\
      (is_ok r = true -> total AWAIT_WAKES es = checks)) \/
   conclusions es = 0%nat /\ total AWAIT_POLLS es = 0 /\ is_ok r = false).
Proof.
  unfold await_call. intros E Hf.
  destruct (await_args sqlx_display rt env req) as [args|e]; cbn [lift wbind] in E.
  2: { injection E as <- <-. destruct (guarded_counts (request_id req) []) as (-> & -> & -> & _ & _).
       split; [done|]. split; [done|]. by right. }
  pose proof (trigger_one_call aw ae args) as Ht.
  destruct (run_trigger _ _ _ _ _) as [[[]|e] fx]; cbn [wbind wret] in E.
  2: { injection E as <- <-. destruct (waitless_seen fx) as [S1 S2 S3 S4].
       destruct (guarded_counts (request_id req) (seen name rt env mt fx)) as (-> & -> & -> & _ & _).
       rewrite S1, S2, S3. split; [done|]. split; [done|]. by right. }
  rewrite app_nil_r in E. destruct (await_trace _ _ _ _ _ _ _ _ _ _ _) as [[r' es']|] eqn:E'; [|done].
  injection E as <- <-. destruct (await_trace_counts _ _ _ _ _ _ _ E') as [G HC]; [lia|].
  destruct (waitless_seen fx) as [S1 S2 S3 S4]. specialize (Ht fx eq_refl).
  destruct (guarded_counts (request_id req) (seen name rt env mt fx ++ es')) as (-> & -> & -> & -> & ->).
  rewrite gauge_steps_app, conclusions_app, !total_app, effects_app, effects_seen, calls_app, length_app, S1, S2, S3, S4, G.
  split; [done|]. destruct HC as [(C1 & C2 & C3 & C4)|(C1 & C2 & C3)].
  - split; [lia|]. left. split; [lia|]. cbv zeta. split_and!; try lia. intros Hr. specialize (C4 Hr). lia.
  - split; [congruence|]. right. by rewrite C1, C2.
Qed.
End Waits.
End Facts.

(** * Concrete calls *)

Module Demo.
Import ToyUrl ToyCel Stream.ToyCursor Execute.Demo.

Definition mt : Meters := {| len_registered := 1; len_dropped := 0; put_ok := true; wait_elapsed n := Z.of_nat n * 100000000 |}.
Definition who : Caller := {| session_id := None; identity := None |}.
Definition fin : Ending :=
  {| still := Some Postgres; duration := 2500000; event_nanos := 2600000; now_text := "2026-01-01T00:00:00.000Z" |}%string.
Definition show_backend (e : BackendError) : string := host_outcome_label (A := ()) (Err e).

Definition inner_of (p : ProfileRuntime) (first : byte) : T BackendResponse :=
  match inner_trace ToyUrl.display shown digest number_str "b" p env mt 4 (req first) ae with
  | Some m => m
  | None => (Err refused, [])
  end.

Definition run (p : ProfileRuntime) (first : byte) : T BackendResponse :=
  execute ToyUrl.display show_backend false (Some "sql"%string) (Some (p, None)) (fun _ => inner_of p first) 0 0
    "b" env (req first) who fin.

(** The call of [Execute.Demo] with its retry, its charge of 1.5 and its cache
    write; a call that cannot be parsed, which is not audited. *)
Example reported_calls :
  (let (r, es) := run rt Byte.x7b in
   is_ok r = true /\ total PREPARE_RETRIES es = 1 /\ total COST_TOTAL es = 1500000 /\ total CACHE_MISSES es = 1 /\
   total CACHE_WRITES es = 1 /\ audits es = [] /\ last es = Some SpanEnd) /\
  (let (r, es) := run rt Byte.x21 in
   is_ok r = false /\ total CALLS_TOTAL es = 1 /\ total COST_REFUNDED es = 0 /\ audits es = []).
Proof. by vm_compute. Qed.

Definition waiting : ProfileRuntime := {|
  rt_driver := Postgres; rt_stmt := stmt; rt_row_mode := Many; rt_max_rows := 2; rt_timeout := 1000;
  has_cred_refs := false; rt_session_vars := vars; has_param_exprs := false; stream_rt := None; rt_cache := None;
  rt_cost := None; await_rt := Some aw |}.

(** A wait that times out at its fourth check is audited; one whose first check
    times out leaves no conclusion. *)
Example reported_waits :
  (let (r, es) := run waiting Byte.x7b in
   r = Err (BTimeout 250) /\ total AWAIT_POLLS es = 4 /\ total AWAIT_WAKES es = 5 /\
   map action (audits es) = ["dev.mcpg.backend.sql.query_timeout"]%string) /\
  match await_call ToyUrl.display shown "b" waiting env mt 4 (req Byte.x7b) aw
          {| trigger_call := trigger_call ae; check_call := fun _ _ _ _ => TimedOut;
             started_at := 0; clock := clock ae; drained := drained ae |} with
  | Some (r, es) => r = Err (BTimeout 1000) /\ conclusions es = 0%nat /\ total AWAIT_POLLS es = 0
  | None => False
  end.
Proof. by vm_compute. Qed.

Lemma reporting_transparent_witness :
  erase (run rt Byte.x7b) = registered "r1" answer.
Proof.
  apply (reporting_transparent ToyUrl.display shown digest number_str show_backend (Some "sql"%string) "b" rt None env mt 4
    (req Byte.x7b) ae who fin 0 0 (inner_of rt Byte.x7b) (registered "r1" answer)); reflexivity.
Defined.

Lemma calls_reported_witness :
  map line_status (lines (snd (run rt Byte.x7b))) = ["success"]%string /\
  of_metric CALLS_TOTAL (snd (run rt Byte.x7b)) =
    [Counter CALLS_TOTAL [backend_label "b"; ("query", "b"); driver_label Postgres; ("status", "success")] 1]%string.
Proof.
  pose proof (calls_reported ToyUrl.display shown digest number_str show_backend (Some "sql"%string) "b" rt None env mt 4
    (req Byte.x7b) ae who fin 0 0 (inner_of rt Byte.x7b) eq_refl) as (status & kind & outcome & act & nrows & Hl & _ & H1 & H2 & _).
  fold (run rt Byte.x7b) in Hl, H1, H2. assert (status = "success"%string) as -> by (inversion Hl; reflexivity).
  split; [exact (f_equal (map line_status) H1)|exact H2].
Defined.

Lemma billing_exact_witness :
  total COST_TOTAL (snd (run rt Byte.x7b)) = sum_micro (charged (effects (snd (run rt Byte.x7b)))).
Proof.
  exact (proj1 (billing_exact ToyUrl.display shown digest number_str show_backend (Some "sql"%string) "b" rt None env mt 4
    (req Byte.x7b) ae who fin 0 0 (inner_of rt Byte.x7b) eq_refl)).
Defined.

Lemma series_bounded_witness :
  Forall (fun m => series m ∈ inner_series "b" rt ++ end_series "b" fin) (emissions (snd (run rt Byte.x7b))).
Proof.
  exact (proj1 (series_bounded ToyUrl.display shown digest number_str show_backend (Some "sql"%string) "b" rt None env mt 4
    (req Byte.x7b) ae who fin 0 0 (inner_of rt Byte.x7b) eq_refl)).
Defined.

Lemma await_reported_witness :
  gauge_steps (snd (inner_of waiting Byte.x7b)) = [f64_of_Z 1; f64_of_Z (-1)].
Proof.
  refine (proj1 (await_reported ToyUrl.display shown "b" waiting env mt 4 (req Byte.x7b) aw ae
    (fst (inner_of waiting Byte.x7b)) (snd (inner_of waiting Byte.x7b)) _ _)); by vm_compute.
Defined.
End Demo.
End Telemetry.
