(* ===== verification/Heartbeat.v ===== *)
(** Progress heartbeats, [with_heartbeat] of [src/src/lib.rs], under the
    [tokio::time::timeout] that every driver call is wrapped in.

    A use of [with_heartbeat] spawns a task that ticks; when the wrapped future
    returns the task is aborted.  A timeout drops the whole future instead, and
    dropping a [JoinHandle] detaches its task.  The machine has one frame per
    use and a step for every poll of a task, every return, every drop and the
    passing of time; times are in milliseconds. *)

From Stdlib Require Import ZArith Lia Bool.
From stdpp Require Import base list gmap relations.
From S2P Require Import Prelude.

Module Heartbeat.

(** The task before its first poll; asleep until a tick is due; past a tick,
    before the metrics are recorded. *)
Inductive phase : Type :=
| Spawned
| Sleeping (due : Z)
| Ticking (due : Z).

Record task : Type := mkTask { at_phase : phase; aborted : bool }.

(** The wrapped future: not finished, returned, or dropped by the timeout. *)
Inductive status : Type := Running | Returned | Dropped.

Record frame : Type := mkFrame {
  started : Z;
  interval : option Z;
  future : status;
  hb : option task;             (* the spawned task while it lives *)
  beats : nat;                  (* heartbeats recorded so far *)
}.

Record world : Type := mkWorld { now : Z; frames : gmap nat frame }.

Definition set_frame (id : nat) (f : frame) (w : world) : world := mkWorld (now w) (<[id := f]> (frames w)).

(** [with_heartbeat] called. *)
Definition begin (t : Z) (heartbeat : option Z) : frame :=
  mkFrame t heartbeat Running (match heartbeat with Some _ => Some (mkTask Spawned false) | None => None end) 0.

(** [JoinHandle::abort]: a task that waits is gone at once, one being polled
    finishes that poll. *)
Definition abort (o : option task) : option task :=
  match o with
  | Some (mkTask (Ticking due) _) => Some (mkTask (Ticking due) true)
  | _ => None
  end.

Definition returned (f : frame) : frame := mkFrame (started f) (interval f) Returned (abort (hb f)) (beats f).
(** The timeout drops the future and with it the handle. *)
Definition dropped (f : frame) : frame := mkFrame (started f) (interval f) Dropped (hb f) (beats f).

(** One poll of the task at time [t]; [iv] is the period of the ticker.  The
    first tick of an interval is due at once and is consumed. *)
Definition poll (t iv : Z) (k : task) : option (option task * nat) :=
  match at_phase k with
  | Spawned => Some (Some (mkTask (Sleeping (t + iv)) (aborted k)), 0%nat)
  | Sleeping due => if due <=? t then Some (Some (mkTask (Ticking due) (aborted k)), 0%nat) else None
  | Ticking due => Some (if aborted k then None else Some (mkTask (Sleeping (due + iv)) false), 1%nat)
  end.

Definition polled (t : Z) (f : frame) : option frame :=
  match interval f, hb f with
  | Some iv, Some k =>
      match poll t iv k with
      | Some (k', n) => Some (mkFrame (started f) (interval f) (future f) k' (beats f + n))
      | None => None
      end
  | _, _ => None
  end.

Inductive step : world -> world -> Prop :=
| step_begin w id heartbeat :
    frames w !! id = None -> (forall iv, heartbeat = Some iv -> 0 < iv) ->
    step w (set_frame id (begin (now w) heartbeat) w)
| step_return w id f : frames w !! id = Some f -> future f = Running -> step w (set_frame id (returned f) w)
| step_timeout w id f : frames w !! id = Some f -> future f = Running -> step w (set_frame id (dropped f) w)
| step_poll w id f f' : frames w !! id = Some f -> polled (now w) f = Some f' -> step w (set_frame id f' w)
| step_time w d : 0 <= d -> step w (mkWorld (now w + d) (frames w)).

Definition start (t : Z) : world := mkWorld t ∅.

(** * The invariant *)

(** The tick a task waits for, or is past, is one interval after the heartbeats
    recorded so far. *)
Definition on_time (t iv : Z) (f : frame) (k : task) : Prop :=
  match at_phase k with
  | Spawned => beats f = 0%nat
  | Sleeping due => started f + (Z.of_nat (beats f) + 1) * iv <= due
  | Ticking due => started f + (Z.of_nat (beats f) + 1) * iv <= due <= t
  end.

Record frame_ok (t : Z) (f : frame) : Prop := {
  ok_started : started f <= t;
  ok_interval : forall iv, interval f = Some iv -> 0 < iv;
  ok_beats : match interval f with
             | Some iv => Z.of_nat (beats f) * iv <= t - started f
             | None => beats f = 0%nat /\ hb f = None
             end;
  ok_task : forall iv k, interval f = Some iv -> hb f = Some k -> on_time t iv f k;
  ok_alive : future f <> Returned -> forall iv, interval f = Some iv -> exists p, hb f = Some (mkTask p false);
  ok_ended : future f = Returned -> hb f = None \/ exists due, hb f = Some (mkTask (Ticking due) true);
}.

Definition world_ok (w : world) : Prop := forall id f, frames w !! id = Some f -> frame_ok (now w) f.

Lemma begin_ok t heartbeat : (forall iv, heartbeat = Some iv -> 0 < iv) -> frame_ok t (begin t heartbeat).
Proof.
  intros Hiv. split; cbn; try lia; try done.
  - destruct heartbeat; [lia|done].
  - intros iv k -> [= <-]. done.
  - intros _ iv ->. by eexists.
Qed.

Lemma later_ok t t' f : t <= t' -> frame_ok t f -> frame_ok t' f.
Proof.
  intros Ht [H1 H2 H3 H4 H5 H6]. split; try done; try lia.
  - destruct (interval f); [lia|done].
  - intros iv k Hiv Hk. specialize (H4 iv k Hiv Hk). unfold on_time in *. destruct (at_phase k); lia.
Qed.

Lemma returned_ok t f : frame_ok t f -> frame_ok t (returned f).
Proof.
  intros [H1 H2 H3 H4 H5 H6]. split; cbn; try done.
  - destruct (interval f); [done|]. destruct H3 as [? ->]. done.
  - intros iv k Hiv Hk. unfold abort in Hk. destruct (hb f) as [[[] b]|]; try done. injection Hk as <-.
    by apply (H4 iv (mkTask (Ticking due) b)).
  - unfold abort. destruct (hb f) as [[[] b]|]; eauto.
Qed.

Lemma dropped_ok t f : frame_ok t f -> future f = Running -> frame_ok t (dropped f).
Proof. intros [H1 H2 H3 H4 H5 H6] E. rewrite E in H5. split; cbn; try done. intros _. by apply H5. Qed.

(** What a poll leaves of the task. *)
Lemma polled_task t f f' iv p b :
  interval f = Some iv -> hb f = Some (mkTask p b) -> polled t f = Some f' ->
  started f' = started f /\ interval f' = Some iv /\ future f' = future f /\
  match p with
  | Spawned => beats f' = beats f /\ hb f' = Some (mkTask (Sleeping (t + iv)) b)
  | Sleeping due => due <= t /\ beats f' = beats f /\ hb f' = Some (mkTask (Ticking due) b)
  | Ticking due => beats f' = S (beats f) /\ hb f' = if b then None else Some (mkTask (Sleeping (due + iv)) false)
  end.
Proof.
  intros Ei Eh. unfold polled, poll. rewrite Ei, Eh. cbn. destruct p as [|due|due].
  - intros [= <-]. cbn. rewrite Nat.add_0_r. done.
  - destruct (Z.leb_spec due t); [|done]. intros [= <-]. cbn. rewrite Nat.add_0_r. done.
  - intros [= <-]. cbn. rewrite Nat.add_1_r. done.
Qed.

Lemma polled_ok t f f' : frame_ok t f -> polled t f = Some f' -> frame_ok t f'.
Proof.
  intros [H1 H2 H3 H4 H5 H6] E.
  destruct (interval f) as [iv|] eqn:Ei; [|by unfold polled in E; rewrite Ei in E].
  destruct (hb f) as [[p b]|] eqn:Eh; [|by unfold polled in E; rewrite Ei, Eh in E].
  destruct (polled_task t f f' iv p b Ei Eh E) as (E1 & E2 & E3 & E4).
  specialize (H2 iv eq_refl). specialize (H4 iv _ eq_refl eq_refl). unfold on_time in H4. cbn in H4.
  assert (future f <> Returned -> b = false) as Hb by (intros Hf; by destruct (H5 Hf iv eq_refl) as [p' [= _ ->]]).
  assert (future f = Returned -> b = true /\ exists due, p = Ticking due) as Hr
    by (intros Hf; destruct (H6 Hf) as [[=]|[due [= -> ->]]]; eauto).
  split; rewrite ?E1, ?E2, ?E3.
  - done.
  - by intros iv' [= <-].
  - destruct p as [|due|due]; destruct E4 as [E4 E5]; try rewrite (proj1 E5); try rewrite E4; lia || nia.
  - intros iv' k [= <-] Hk. unfold on_time. destruct p as [|due|due].
    + destruct E4 as [-> E5]. rewrite E5 in Hk. injection Hk as <-. cbn. rewrite E1, H4. lia.
    + destruct E4 as (Hd & -> & E5). rewrite E5 in Hk. injection Hk as <-. cbn. rewrite E1. lia.
    + destruct E4 as [-> E5]. rewrite E5 in Hk. destruct b; [done|]. injection Hk as <-. cbn. rewrite E1. lia.
  - intros Hf iv' [= <-]. rewrite (Hb Hf) in E4. destruct p as [|due|due];
      [destruct E4 as [_ ->]|destruct E4 as (_ & _ & ->)|destruct E4 as [_ ->]]; eauto.
  - intros Hf. destruct (Hr Hf) as [-> [due ->]]. destruct E4 as [_ ->]. by left.
Qed.

#[export] Hint Resolve begin_ok returned_ok dropped_ok polled_ok : rust.

Lemma world_step_ok w w' : world_ok w -> step w w' -> world_ok w'.
Proof.
  intros Hw Hs id f. destruct Hs as [w id' heartbeat _ Hiv|w id' f' Hf E|w id' f' Hf E|w id' f' f2 Hf E|w d Hd]; cbn.
  5: { intros Hf. apply (later_ok (now w)); [lia|by apply (Hw id)]. }
  all: destruct (decide (id = id')) as [->|Hne];
    [rewrite lookup_insert_eq; intros [= <-]|rewrite lookup_insert_ne by done; apply Hw]; eauto with rust.
Qed.

Lemma reachable_world_ok t w : rtc step (start t) w -> world_ok w.
Proof.
  intros HR. assert (world_ok (start t)) as H0 by done.
  induction HR as [|a b c Hs _ IH]; [done|]. apply IH. by eapply world_step_ok.
Qed.
(** * Theorems *)

(** A detached task stays, and keeps its interval, whatever happens. *)
Definition detached (w : world) (id : nat) (iv : Z) : Prop :=
  exists f p, frames w !! id = Some f /\ future f = Dropped /\ interval f = Some iv /\ hb f = Some (mkTask p false).

Lemma detached_set w id iv id' f' :
  detached w id iv ->
  (id' = id -> future f' = Dropped /\ interval f' = Some iv /\ exists p, hb f' = Some (mkTask p false)) ->
  detached (set_frame id' f' w) id iv.
Proof.
  intros (f & p & Hf & Hd & Hi & Hp) Hset. unfold detached, set_frame. cbn. destruct (decide (id' = id)) as [->|Hne].
  - destruct (Hset eq_refl) as (H1 & H2 & p' & H3). exists f', p'. by rewrite lookup_insert_eq.
  - exists f, p. by rewrite lookup_insert_ne.
Qed.

Lemma detached_step w w' id iv : detached w id iv -> step w w' -> detached w' id iv.
Proof.
  intros Hw Hs. pose proof Hw as (f & p & Hf & Hd & Hi & Hp).
  destruct Hs as [w id' heartbeat Hn _|w id' f' Hf' E|w id' f' Hf' E|w id' f' f2 Hf' E|w d Hd'];
    [apply detached_set; [done|intros ->; congruence]..| |by exists f, p].
  apply detached_set; [done|]. intros ->. assert (f' = f) as -> by congruence.
  destruct (polled_task _ _ _ _ _ _ Hi Hp E) as (_ & -> & -> & H4). split; [done|]. split; [done|].
  destruct p as [|due|due]; [destruct H4 as [_ ->]|destruct H4 as (_ & _ & ->)|destruct H4 as [_ ->]]; eauto.
Qed.

Lemma detached_steps w w' id iv : detached w id iv -> rtc step w w' -> detached w' id iv.
Proof. intros Hw HR. induction HR as [|a b c Hs _ IH]; [done|]. by eapply IH, detached_step. Qed.

Definition beats_of (id : nat) (w : world) : nat :=
  match frames w !! id with Some f => beats f | None => 0%nat end.

Lemma poll_step w id f iv p b :
  frames w !! id = Some f -> interval f = Some iv -> hb f = Some (mkTask p b) ->
  (forall due, p = Sleeping due -> due <= now w) ->
  exists f', step w (set_frame id f' w) /\ polled (now w) f = Some f'.
Proof.
  intros Hf Hi Hp Hdue. assert (exists f', polled (now w) f = Some f') as [f' E].
  { unfold polled, poll. rewrite Hi, Hp. cbn. destruct p as [|due|due]; [eauto| |eauto].
    rewrite (proj2 (Z.leb_le _ _) (Hdue due eq_refl)). eauto. }
  exists f'. split; [|done]. by apply (step_poll w id f).
Qed.

(** From a detached task the next heartbeat is a matter of time. *)
Lemma next_beat w id iv :
  detached w id iv -> exists w', rtc step w w' /\ detached w' id iv /\ beats_of id w' = S (beats_of id w).
Proof.
  assert (forall w, detached w id iv -> (exists f due, frames w !! id = Some f /\ hb f = Some (mkTask (Ticking due) false)) ->
    exists w', step w w' /\ beats_of id w' = S (beats_of id w)) as Htick.
  { intros w1 (f & p & Hf & Hd & Hi & Hp) (f' & due & Hf' & Hp'). assert (f' = f) as -> by congruence.
    destruct (poll_step w1 id f iv _ _ Hf Hi Hp') as (f2 & Hs & E); [done|].
    destruct (polled_task _ _ _ _ _ _ Hi Hp' E) as (_ & _ & _ & Hb & _).
    exists (set_frame id f2 w1). split; [done|]. unfold beats_of, set_frame. cbn. by rewrite lookup_insert_eq, Hf. }
  assert (forall w due, detached w id iv -> (exists f, frames w !! id = Some f /\ hb f = Some (mkTask (Sleeping due) false)) ->
    exists w', rtc step w w' /\ beats_of id w' = S (beats_of id w)) as Hsleep.
  { intros w1 due Hw (f & Hf & Hp). pose proof Hw as (f' & p' & Hf' & Hd & Hi & _). assert (f' = f) as -> by congruence.
    set (w2 := mkWorld (now w1 + Z.max 0 (due - now w1)) (frames w1)).
    assert (step w1 w2) as H12 by (apply step_time; lia).
    destruct (poll_step w2 id f iv _ _ Hf Hi Hp) as (f2 & Hs & E); [intros ? [= <-]; cbn; lia|].
    destruct (polled_task _ _ _ _ _ _ Hi Hp E) as (_ & _ & _ & _ & Hb & Hk).
    destruct (Htick (set_frame id f2 w2)) as (w3 & H23 & Hb3).
    - eapply detached_step; [|exact Hs]. by eapply detached_step.
    - exists f2, due. cbn. by rewrite lookup_insert_eq.
    - exists w3. split; [by do 3 (eapply rtc_l; [eassumption|])|]. rewrite Hb3. unfold beats_of, set_frame. cbn.
      by rewrite lookup_insert_eq, Hf, Hb. }
  intros Hw. pose proof Hw as (f & p & Hf & Hd & Hi & Hp).
  assert (exists w', rtc step w w' /\ beats_of id w' = S (beats_of id w)) as (w' & HR & Hb).
  2: { exists w'. split; [done|]. split; [by eapply detached_steps|done]. }
  destruct p as [|due|due].
  - destruct (poll_step w id f iv _ _ Hf Hi Hp) as (f2 & Hs & E); [done|].
    destruct (polled_task _ _ _ _ _ _ Hi Hp E) as (_ & _ & _ & Hb & Hk).
    destruct (Hsleep (set_frame id f2 w) (now w + iv)) as (w' & HR & Hb').
    + by eapply detached_step.
    + exists f2. cbn. by rewrite lookup_insert_eq.
    + exists w'. split; [by eapply rtc_l|]. rewrite Hb'. unfold beats_of, set_frame. cbn. by rewrite lookup_insert_eq, Hf, Hb.
  - eapply Hsleep; eauto.
  - destruct (Htick w Hw) as (w' & Hs & Hb); [eauto|]. exists w'. split; [by apply rtc_once|done].
Qed.

(** Heartbeats come no faster than their interval, so a call that returns
    within one interval has none; after a call returned its task is gone, or
    is at a tick whose heartbeat is its last. *)
Theorem heartbeats_timely t w id f :
  rtc step (start t) w -> frames w !! id = Some f ->
  (forall iv, interval f = Some iv -> Z.of_nat (beats f) * iv <= now w - started f) /\
  (interval f = None -> beats f = 0%nat) /\
  (future f = Returned -> hb f = None \/
     forall f', polled (now w) f = Some f' -> beats f' = S (beats f) /\ hb f' = None).
Proof.
  intros HR Hf. destruct (reachable_world_ok t w HR id f Hf) as [H1 H2 H3 H4 H5 H6]. split_and!.
  - intros iv Hi. by rewrite Hi in H3.
  - intros Hi. rewrite Hi in H3. by destruct H3.
  - intros Hr. destruct (H6 Hr) as [|[due Hd]]; [by left|right]. intros f' E.
    destruct (interval f) as [iv|] eqn:Ei; [|by unfold polled in E; rewrite Ei in E].
    by destruct (polled_task _ _ _ _ _ _ Ei Hd E) as (_ & _ & _ & Hb & Hk).
Qed.

(** The heartbeat of a call that timed out is never stopped: whatever
    happens afterwards its task is alive, and from every later state it goes on
    to record as many more heartbeats as one likes, for a query that is long
    over.  Timing out takes a running call with a heartbeat there at once. *)
Theorem heartbeat_outlives_timeout t w id f iv :
  rtc step (start t) w -> frames w !! id = Some f -> future f = Running -> interval f = Some iv ->
  step w (set_frame id (dropped f) w) /\
  forall w', rtc step (set_frame id (dropped f) w) w' ->
    (exists f' p, frames w' !! id = Some f' /\ future f' = Dropped /\ hb f' = Some (mkTask p false)) /\
    forall n, exists w'', rtc step w' w'' /\ beats_of id w'' = (n + beats_of id w')%nat.
Proof.
  intros HR Hf Hrun Hi. destruct (reachable_world_ok t w HR id f Hf) as [H1 H2 H3 H4 H5 H6].
  destruct (H5 ltac:(by rewrite Hrun) iv Hi) as [p Hp]. split; [by apply step_timeout|]. intros w' HR'.
  assert (detached w' id iv) as Hw'.
  { eapply detached_steps; [|exact HR']. exists (dropped f), p. unfold set_frame. cbn. by rewrite lookup_insert_eq. }
  split; [destruct Hw' as (f' & p' & ? & ? & ? & ?); eauto 10|].
  intros n. clear HR'. induction n as [|n IH]; [by exists w'|]. destruct IH as (w2 & HR2 & Hb2).
  assert (detached w2 id iv) as Hw2 by by eapply detached_steps.
  destruct (next_beat w2 id iv Hw2) as (w3 & HR3 & _ & Hb3). exists w3. split; [by etransitivity|]. lia.
Qed.

(** A call with a heartbeat of 50 ms that times out after 5 ms. *)
Module Demo.

Definition called : world := set_frame 0 (begin 0 (Some 50)) (start 0).

Lemma called_reachable : rtc step (start 0) called.
Proof. apply rtc_once, step_begin; [done|]. by intros iv [= <-]. Qed.

Lemma heartbeats_timely_witness : Z.of_nat 0 * 50 <= 0 - 0.
Proof.
  exact (proj1 (heartbeats_timely 0 called 0 (begin 0 (Some 50)) called_reachable eq_refl) 50 eq_refl).
Defined.

Lemma heartbeat_outlives_timeout_witness :
  exists w'', rtc step (set_frame 0 (dropped (begin 0 (Some 50))) called) w'' /\ beats_of 0 w'' = 100%nat.
Proof.
  destruct (proj2 (proj2 (heartbeat_outlives_timeout 0 called 0 (begin 0 (Some 50)) 50 called_reachable
    eq_refl eq_refl eq_refl) _ (rtc_refl _ _)) 100%nat) as (w'' & HR & Hb).
  exists w''. split; [exact HR|]. rewrite Hb. vm_compute. reflexivity.
Defined.
End Demo.
End Heartbeat.
