(* ===== verification/WatchHandle.v ===== *)
(** Cancelling a watch: the handles of [src/src/watch_changes.rs] and
    [src/src/watch.rs], and the boxed handles [src/src/cdylib.rs] gives the host
    across the C interface. *)

From Stdlib Require Import ZArith Lia Bool.
From stdpp Require Import base list gmap relations.
From S2P Require Import Prelude.

(** * [ChangesHandle]: cancel and join

    [cancel] fires the token, then takes the join handle out of a mutex and
    waits for the task, for at most [CANCEL_JOIN].  The guard of the mutex is a
    temporary of the [if let] and lives through its body, so the lock is held
    while the caller waits. *)
Module ChangesHandle.

Inductive outcome : Type := NothingToJoin | Joined | TimedOut.

(** A caller of [cancel]. *)
Inductive phase : Type :=
| Called
| Locking                     (* the token is fired *)
| Joining                     (* holds the lock and the join handle *)
| Done (o : outcome).

Record world : Type := mkWorld {
  token : bool;
  slot : bool;                (* the mutex holds [Some(task)] *)
  lock : option nat;          (* the caller that holds the mutex *)
  callers : gmap nat phase;
  stopped : bool;             (* the loop has ended *)
  events : nat;               (* events the loop has emitted *)
}.

Definition start : world := mkWorld false true None ∅ false 0.

Definition set_caller (id : nat) (p : phase) (w : world) : world :=
  mkWorld (token w) (slot w) (lock w) (<[id := p]> (callers w)) (stopped w) (events w).

(** [self.cancel.cancel()]. *)
Definition fire (id : nat) (w : world) : world :=
  mkWorld true (slot w) (lock w) (<[id := Locking]> (callers w)) (stopped w) (events w).

(** [self.task.lock().await.take()]. *)
Definition acquire (id : nat) (w : world) : world :=
  if slot w
  then mkWorld (token w) false (Some id) (<[id := Joining]> (callers w)) (stopped w) (events w)
  else set_caller id (Done NothingToJoin) w.

(** The end of the body, with the guard. *)
Definition release (id : nat) (o : outcome) (w : world) : world :=
  mkWorld (token w) (slot w) None (<[id := Done o]> (callers w)) (stopped w) (events w).

Inductive step : world -> world -> Prop :=
| step_call w id : callers w !! id = None -> step w (set_caller id Called w)
| step_fire w id : callers w !! id = Some Called -> step w (fire id w)
| step_acquire w id : callers w !! id = Some Locking -> lock w = None -> step w (acquire id w)
| step_joined w id : callers w !! id = Some Joining -> stopped w = true -> step w (release id Joined w)
| step_timed_out w id : callers w !! id = Some Joining -> step w (release id TimedOut w)
| step_emit w : stopped w = false ->
    step w (mkWorld (token w) (slot w) (lock w) (callers w) false (S (events w)))
| step_stop w : token w = true -> stopped w = false ->
    step w (mkWorld (token w) (slot w) (lock w) (callers w) true (events w)).

(** Somebody gave up waiting for the loop. *)
Definition gave_up (w : world) : Prop := exists id, callers w !! id = Some (Done TimedOut).

Record world_ok (w : world) : Prop := {
  (* the holder of the lock, and only it, is joining *)
  ok_joining : forall id, callers w !! id = Some Joining <-> lock w = Some id;
  ok_taken : lock w <> None -> slot w = false;
  ok_fired : (exists id p, callers w !! id = Some p /\ p <> Called) -> token w = true;
  (* the handle is gone and nobody waits: the loop ended or was given up *)
  ok_over : slot w = false -> lock w = None -> stopped w = true \/ gave_up w;
  ok_done : forall id o, callers w !! id = Some (Done o) ->
    slot w = false /\ (stopped w = true \/ gave_up w);
}.

Lemma gave_up_insert w w' id p :
  callers w' = <[id := p]> (callers w) -> (forall q, callers w !! id = Some q -> q <> Done TimedOut) ->
  gave_up w -> gave_up w'.
Proof.
  intros E Hn [i Hi]. exists i. rewrite E, lookup_insert_ne; [done|]. intros ->. by apply (Hn _ Hi).
Qed.

Lemma start_ok : world_ok start.
Proof. split; cbn; try done. by intros (id & p & Hp & _). Qed.

Ltac caller_cases id :=
  let i := fresh "i" in intros i; destruct (decide (i = id)) as [->|];
  [rewrite lookup_insert_eq|rewrite lookup_insert_ne by done].

Lemma step_ok_handle w w' : world_ok w -> step w w' -> world_ok w'.
Proof.
  intros [H1 H2 H3 H4 H5] Hs. destruct Hs as [w id E|w id E|w id E El|w id E Es|w id E|w Es|w Et Es].
  - assert (gave_up w -> gave_up (set_caller id Called w)) as Hg by (apply (gave_up_insert _ _ id Called); [done|congruence]).
    split; cbn; try done.
    + caller_cases id; [|apply H1]. split; [done|]. intros Hl. apply H1 in Hl. congruence.
    + intros (i & p & Hp & Hne). apply H3. revert Hp. destruct (decide (i = id)) as [->|];
        [rewrite lookup_insert_eq; congruence|rewrite lookup_insert_ne by done; eauto].
    + intros Hsl Hlk. destruct (H4 Hsl Hlk); auto.
    + caller_cases id; [done|]. intros o Ho. destruct (H5 i o Ho) as [? [?|?]]; auto.
  - assert (gave_up w -> gave_up (fire id w)) as Hg by (apply (gave_up_insert _ _ id Locking); [done|congruence]).
    split; cbn; try done.
    + caller_cases id; [|apply H1]. split; [done|]. intros Hl. apply H1 in Hl. congruence.
    + intros Hsl Hlk. destruct (H4 Hsl Hlk); auto.
    + caller_cases id; [done|]. intros o Ho. destruct (H5 i o Ho) as [? [?|?]]; auto.
  - assert (token w = true) as Htok by (apply H3; eauto).
    unfold acquire. destruct (slot w) eqn:Esl.
    + split; cbn; try done.
      * caller_cases id; [done|]. rewrite (H1 i). split; intros; congruence.
      * caller_cases id; [done|]. intros o Ho. destruct (H5 i o Ho); congruence.
    + assert (gave_up w -> gave_up (set_caller id (Done NothingToJoin) w)) as Hg
        by (apply (gave_up_insert _ _ id (Done NothingToJoin)); [done|congruence]).
      pose proof (H4 eq_refl El) as Hover. split; cbn; try done.
      * caller_cases id; [|apply H1]. split; [done|]. congruence.
      * intros _ _. destruct Hover; auto.
      * caller_cases id; intros o Ho; (split; [done|]); destruct Hover; auto.
  - assert (lock w = Some id) as Hl by by apply H1. assert (slot w = false) as Hsl by (apply H2; congruence).
    assert (token w = true) as Htok by (apply H3; eauto). split; cbn; try done.
    + caller_cases id; [done|]. rewrite (H1 i). split; congruence.
    + intros _ _. by left.
    + intros i o _. split; [done|]. by left.
  - assert (lock w = Some id) as Hl by by apply H1. assert (slot w = false) as Hsl by (apply H2; congruence).
    assert (token w = true) as Htok by (apply H3; eauto).
    assert (gave_up (release id TimedOut w)) as Hg by (exists id; cbn; by rewrite lookup_insert_eq).
    split; cbn; try done.
    + caller_cases id; [done|]. rewrite (H1 i). split; congruence.
    + intros _ _. by right.
    + intros i o _. split; [done|]. by right.
  - split; cbn; try done.
    + intros Hsl Hlk. destruct (H4 Hsl Hlk) as [|]; [congruence|by right].
    + intros i o Ho. destruct (H5 i o Ho) as [? [|]]; [congruence|]. split; [done|]. by right.
  - split; cbn; try done.
    + intros Hsl Hlk. by left.
    + intros i o Ho. destruct (H5 i o Ho) as [? _]. split; [done|]. by left.
Qed.

Lemma handle_ok w : rtc step start w -> world_ok w.
Proof.
  intros HR. pose proof start_ok as H0. induction HR as [|a b c Hs _ IH]; [done|]. apply IH. by eapply step_ok_handle.
Qed.

Lemma stopped_stays w w' : rtc step w w' -> stopped w = true -> stopped w' = true /\ events w' = events w.
Proof.
  intros HR. induction HR as [|a b c Hs _ IH]; [done|]. intros Ha.
  assert (stopped b = true /\ events b = events a) as [Hb <-]; [|by apply IH].
  destruct Hs; cbn; try done; try congruence. unfold acquire. by destruct (slot w).
Qed.

(** C40.  When any call of [cancel] has returned, a second or concurrent one
    included, the loop has ended and never emits again, unless some caller gave
    up after [CANCEL_JOIN]. *)
Theorem cancel_stops_loop w id o w' :
  rtc step start w -> callers w !! id = Some (Done o) -> ~ gave_up w ->
  stopped w = true /\ (rtc step w w' -> events w' = events w).
Proof.
  intros HR Hd Hg. destruct (ok_done w (handle_ok w HR) id o Hd) as [_ [Hs|Hs]]; [|done].
  split; [done|]. intros HR'. by apply (stopped_stays w w').
Qed.

(** The holder of the lock can always finish, at the latest by its timeout. *)
Lemma lock_freed w : world_ok w -> exists w', rtc step w w' /\ lock w' = None /\ events w' = events w /\
  forall i p, callers w !! i = Some p -> p <> Joining -> callers w' !! i = Some p.
Proof.
  intros Hok. destruct (lock w) as [h|] eqn:El; [|by exists w].
  assert (callers w !! h = Some Joining) as Hh by by apply Hok.
  exists (release h TimedOut w). split; [by apply rtc_once, step_timed_out|]. split; [done|]. split; [done|].
  intros i p Hi Hne. cbn. rewrite lookup_insert_ne; congruence.
Qed.

Definition returns (w : world) (id : nat) : Prop :=
  exists w' o, rtc step w w' /\ callers w' !! id = Some (Done o) /\ events w' = events w.

Lemma joining_returns w id : callers w !! id = Some Joining -> returns w id.
Proof.
  intros Hc. exists (release id TimedOut w), TimedOut. split; [by apply rtc_once, step_timed_out|]. cbn.
  by rewrite lookup_insert_eq.
Qed.

Lemma returns_later w w1 id : rtc step w w1 -> events w1 = events w -> returns w1 id -> returns w id.
Proof. intros H1 He (w' & o & H2 & Hd & He'). exists w', o. split; [by etransitivity|]. split; [done|congruence]. Qed.

Lemma locking_returns w id : world_ok w -> callers w !! id = Some Locking -> returns w id.
Proof.
  intros Hok Hc. destruct (lock_freed w Hok) as (w1 & H1 & El & He & Hk). specialize (Hk id Locking Hc ltac:(done)).
  apply (returns_later w w1); [done..|]. pose proof (step_acquire w1 id Hk El) as Hs.
  apply (returns_later w1 (acquire id w1)); [by apply rtc_once|unfold acquire; by destruct (slot w1)|].
  unfold acquire. destruct (slot w1).
  - apply joining_returns. cbn. by rewrite lookup_insert_eq.
  - exists (set_caller id (Done NothingToJoin) w1), NothingToJoin. cbn. by rewrite lookup_insert_eq.
Qed.

(** No call of [cancel] hangs: from every reachable state each caller can
    return without the loop's help, because the caller that holds the lock
    waits for at most [CANCEL_JOIN]. *)
Theorem cancel_returns w id p :
  rtc step start w -> callers w !! id = Some p ->
  exists w' o, rtc step w w' /\ callers w' !! id = Some (Done o) /\ events w' = events w.
Proof.
  intros HR Hc. pose proof (handle_ok w HR) as Hok. destruct p as [| | |o].
  - pose proof (step_fire w id Hc) as Hs. apply (returns_later w (fire id w)); [by apply rtc_once|done|].
    apply locking_returns; [by eapply step_ok_handle|]. cbn. by rewrite lookup_insert_eq.
  - by apply locking_returns.
  - by apply joining_returns.
  - by exists w, o.
Qed.

(** Two callers: the second finds nothing to join, and only after the first has
    joined the ended loop. *)
Module Demo.

Definition both : world := mkWorld true false None {[0%nat := Done Joined; 1%nat := Done NothingToJoin]} true 1.

Lemma both_reachable : rtc step start both.
Proof.
  assert (forall w1 w2 w3, step w1 w2 -> rtc step w2 w3 -> rtc step w1 w3) as Hl by (intros; by eapply rtc_l).
  eapply Hl; [apply step_emit; reflexivity|]. eapply Hl; [apply (step_call _ 0); reflexivity|].
  eapply Hl; [apply (step_call _ 1); reflexivity|]. eapply Hl; [apply (step_fire _ 0); reflexivity|].
  eapply Hl; [apply (step_fire _ 1); reflexivity|]. eapply Hl; [apply (step_acquire _ 0); reflexivity|].
  eapply Hl; [apply step_stop; reflexivity|]. eapply Hl; [apply (step_joined _ 0); reflexivity|].
  eapply Hl; [apply (step_acquire _ 1); reflexivity|].
  apply rtc_refl.
Qed.

Lemma cancel_stops_loop_witness : stopped both = true.
Proof.
  refine (proj1 (cancel_stops_loop both 1 NothingToJoin both both_reachable eq_refl _)).
  intros [i Hi]. cbn in Hi. destruct (decide (i = 0%nat)) as [->|H0]; [done|]. destruct (decide (i = 1%nat)) as [->|H1]; [done|].
  by rewrite lookup_insert_ne, lookup_singleton_ne in Hi by done.
Defined.

Lemma cancel_returns_witness :
  exists w' o, rtc step both w' /\ callers w' !! 1%nat = Some (Done o) /\ events w' = events both.
Proof. exact (cancel_returns both 1 (Done NothingToJoin) both_reachable eq_refl). Defined.
End Demo.
End ChangesHandle.

(** * [SqlPollingWatchHandle]: cancel only

    [cancel] fires the token and returns.  The loop looks at the token before
    each tick, so what it is doing then runs to its end. *)
Module PollHandle.

Inductive place : Type := AtSelect | Executing | Emitting | Ended.

Record world : Type := mkWorld {
  token : bool;
  at_ : place;
  events : nat;
  late : nat;                 (* events emitted after the token fired *)
}.

Definition start : world := mkWorld false AtSelect 0 0.

Inductive step : world -> world -> Prop :=
| step_cancel w : step w (mkWorld true (at_ w) (events w) (late w))
| step_leave w : at_ w = AtSelect -> token w = true -> step w (mkWorld true Ended (events w) (late w))
| step_tick w : at_ w = AtSelect -> token w = false -> step w (mkWorld false Executing (events w) (late w))
| step_same w : at_ w = Executing -> step w (mkWorld (token w) AtSelect (events w) (late w))
| step_change w : at_ w = Executing -> step w (mkWorld (token w) Emitting (events w) (late w))
| step_emit w : at_ w = Emitting ->
    step w (mkWorld (token w) AtSelect (S (events w)) (if token w then S (late w) else late w)).

Definition late_ok (w : world) : Prop :=
  match token w, at_ w with
  | false, _ => late w = 0%nat
  | true, (Executing | Emitting) => late w = 0%nat
  | true, _ => (late w <= 1)%nat
  end.

Lemma late_step w w' : late_ok w -> step w w' -> late_ok w'.
Proof.
  unfold late_ok. intros Hw Hs. destruct Hs as [w|w E Et|w E Et|w E|w E|w E]; cbn; rewrite ?E in *; destruct (token w) eqn:Ht;
    try congruence; try lia. by destruct (at_ w); lia.
Qed.

(** A polling watch can emit once more after its [cancel] returned, when
    the token fires during a poll that finds a change, and never twice. *)
Theorem polling_cancel_late :
  (forall w, rtc step start w -> (late w <= 1)%nat) /\
  exists w, rtc step start w /\ token w = true /\ at_ w = Emitting /\ late w = 0%nat /\
    exists w', step w w' /\ late w' = 1%nat.
Proof.
  split.
  - intros w HR. assert (late_ok w) as Hok.
    { assert (late_ok start) as H0 by done. induction HR as [|a b c Hs _ IH]; [done|]. apply IH. by eapply late_step. }
    unfold late_ok in Hok. destruct (token w), (at_ w); lia.
  - exists (mkWorld true Emitting 0 0). split; [|split_and!; [done..|]].
    + eapply rtc_l; [by apply step_tick|]. eapply rtc_l; [by apply step_change|]. apply rtc_once, (step_cancel (mkWorld false Emitting 0 0)).
    + eexists. split; [by apply step_emit|done].
Qed.
End PollHandle.

(** * The C interface

    [watch] boxes the handle of the started watch with the runtime it runs on
    and gives the host the address; [cancel] takes the box back and cancels the
    handle in it.  An address that is not of a live box is undefined behaviour,
    which is the result [None]. *)
Module Bridge.

Record WatchCancelState : Type := { handle : nat; rt : nat }.

(** The live boxes, and the handles [cancel] was called on, latest first. *)
Record bridge : Type := mkBridge {
  boxes : gmap N WatchCancelState;
  cancelled : list nat;
}.

Definition empty : bridge := mkBridge ∅ [].

Section Bridge.
Context {Error : Type}.
(** The allocator: where the next box goes. *)
Context (alloc : gmap N WatchCancelState -> N).

(** [SyncWatchStrategyPlugin::watch]: the outcome of the inner [watch], on the
    wrapper's runtime. *)
Definition watch (runtime : nat) (inner : result Error nat) (b : bridge) : result Error N * bridge :=
  match inner with
  | Err e => (Err e, b)
  | Ok h => let p := alloc (boxes b) in
            (Ok p, mkBridge (<[p := {| handle := h; rt := runtime |}]> (boxes b)) (cancelled b))
  end.

(** [SyncWatchStrategyPlugin::cancel]. *)
Definition cancel (p : N) (b : bridge) : option bridge :=
  if (p =? 0)%N then Some b
  else match boxes b !! p with
       | Some s => Some (mkBridge (delete p (boxes b)) (handle s :: cancelled b))
       | None => None
       end.

(** The host: watches, and cancels of null or of the [k]-th handle it got. *)
Inductive call : Type :=
| Watch (runtime : nat) (inner : result Error nat)
| CancelNull
| Cancel (k : nat).

(** [given] are the addresses the host got, first one first. *)
Fixpoint run (calls : list call) (given : list N) (b : bridge) : option (list N * bridge) :=
  match calls with
  | [] => Some (given, b)
  | Watch runtime inner :: rest =>
      let (r, b') := watch runtime inner b in
      run rest (match r with Ok p => given ++ [p] | Err _ => given end) b'
  | CancelNull :: rest =>
      match cancel 0 b with Some b' => run rest given b' | None => None end
  | Cancel k :: rest =>
      match given !! k with
      | Some p => match cancel p b with Some b' => run rest given b' | None => None end
      | None => None
      end
  end.

(** The handles of the started watches, and the calls of a host that cancels
    only what it was given, each once. *)
Fixpoint started (calls : list call) : list nat :=
  match calls with
  | [] => []
  | Watch _ (Ok h) :: rest => h :: started rest
  | _ :: rest => started rest
  end.

Fixpoint obedient (calls : list call) (count : nat) (gone : gset nat) : bool :=
  match calls with
  | [] => true
  | Watch _ (Ok _) :: rest => obedient rest (S count) gone
  | Watch _ (Err _) :: rest | CancelNull :: rest => obedient rest count gone
  | Cancel k :: rest => (k <? count)%nat && bool_decide (k ∉ gone) && obedient rest count ({[k]} ∪ gone)
  end.

Fixpoint cancels (calls : list call) : list nat :=
  match calls with
  | [] => []
  | Cancel k :: rest => k :: cancels rest
  | _ :: rest => cancels rest
  end.

(** What the documentation of [Box::into_raw] gives: not null, and no live box
    has the address. *)
Hypothesis alloc_fresh : forall h, alloc h <> 0%N /\ h !! alloc h = None.

(** The boxes are those of the watches not cancelled yet. *)
Record bridge_ok (hs : list nat) (given : list N) (gone : gset nat) (b : bridge) : Prop := {
  ok_length : length given = length hs;
  ok_gone : forall k, k ∈ gone -> (k < length hs)%nat;
  ok_live : forall k, (k < length hs)%nat -> k ∉ gone ->
    exists p s, given !! k = Some p /\ boxes b !! p = Some s /\ hs !! k = Some (handle s) /\ p <> 0%N;
  ok_apart : forall j k p, given !! j = Some p -> given !! k = Some p -> j ∉ gone -> k ∉ gone -> j = k;
  ok_size : (size (boxes b) + size gone)%nat = length hs;
}.

Lemma watch_bridge_ok hs given gone b runtime h :
  bridge_ok hs given gone b ->
  let p := alloc (boxes b) in
  bridge_ok (hs ++ [h]) (given ++ [p]) gone
    (mkBridge (<[p := {| handle := h; rt := runtime |}]> (boxes b)) (cancelled b)).
Proof.
  intros [H1 H2 H3 H4 H5]. cbv zeta. destruct (alloc_fresh (boxes b)) as [Hnz Hnone]. split; cbn.
  - rewrite !length_app. cbn. lia.
  - intros k Hk. rewrite length_app. specialize (H2 k Hk). lia.
  - intros k Hk Hg. rewrite length_app in Hk. cbn in Hk. destruct (decide (k = length hs)) as [->|Hne].
    + exists (alloc (boxes b)), {| handle := h; rt := runtime |}. rewrite <- H1 at 1.
      rewrite !list_lookup_middle by done. by rewrite lookup_insert_eq.
    + destruct (H3 k ltac:(lia) Hg) as (p & s & Hp & Hs & Hh & Hz). exists p, s.
      rewrite !lookup_app_l by lia. rewrite lookup_insert_ne; [done|congruence].
  - assert (forall j k p, given !! j = Some p -> j ∉ gone -> (given ++ [alloc (boxes b)]) !! k = Some p -> k ∉ gone ->
      (length given <= k)%nat -> False) as Hnew.
    { intros j k p Hj Hgj Hk Hgk Hlen. assert (j < length given)%nat by by eapply lookup_lt_Some.
      destruct (H3 j ltac:(lia) Hgj) as (p' & s & Hp & Hs & _ & _). rewrite lookup_app_r in Hk by lia.
      apply list_lookup_singleton_Some in Hk as [_ <-]. congruence. }
    intros j k p Hj Hk Hgj Hgk.
    destruct (decide (j < length given)%nat) as [Lj|Lj], (decide (k < length given)%nat) as [Lk|Lk].
    + rewrite lookup_app_l in Hj, Hk by lia. by eapply H4.
    + rewrite lookup_app_l in Hj by lia. exfalso. by eapply (Hnew j k); [..|lia].
    + rewrite lookup_app_l in Hk by lia. exfalso. by eapply (Hnew k j); [..|lia].
    + apply lookup_lt_Some in Hj, Hk. rewrite length_app in Hj, Hk. cbn in Hj, Hk. lia.
  - rewrite map_size_insert_None, length_app by done. cbn. lia.
Qed.

Lemma cancel_bridge_ok hs given gone b k :
  bridge_ok hs given gone b -> (k < length hs)%nat -> k ∉ gone ->
  exists p b' h, given !! k = Some p /\ cancel p b = Some b' /\ hs !! k = Some h /\
    cancelled b' = h :: cancelled b /\ bridge_ok hs given ({[k]} ∪ gone) b'.
Proof.
  intros [H1 H2 H3 H4 H5] Hk Hg. destruct (H3 k Hk Hg) as (p & s & Hp & Hs & Hh & Hz).
  exists p, (mkBridge (delete p (boxes b)) (handle s :: cancelled b)), (handle s).
  unfold cancel. rewrite (proj2 (N.eqb_neq _ _) Hz), Hs. split_and!; try done. split; cbn; try done.
  - intros i. rewrite elem_of_union, elem_of_singleton. intros [->|Hi]; [done|by apply H2].
  - intros i Hi Hn. rewrite elem_of_union, elem_of_singleton in Hn.
    destruct (H3 i Hi ltac:(tauto)) as (p' & s' & Hp' & Hs' & Hh' & Hz'). exists p', s'.
    rewrite lookup_delete_ne; [done|]. intros ->. apply Hn. left. symmetry. apply (H4 k i p' Hp Hp'); tauto.
  - intros i j q Hi Hj Hni Hnj. rewrite elem_of_union, elem_of_singleton in Hni, Hnj. apply (H4 i j q Hi Hj); tauto.
  - rewrite map_size_delete_Some by (by eexists). rewrite size_union, size_singleton by set_solver.
    assert (size (boxes b) <> 0%nat); [|lia]. intros E%map_size_empty_inv. by rewrite E in Hs.
Qed.

Lemma run_ok calls : forall hs given gone b,
  bridge_ok hs given gone b -> obedient calls (length hs) gone = true ->
  exists given' b' gone', run calls given b = Some (given', b') /\ bridge_ok (hs ++ started calls) given' gone' b' /\
    size gone' = (size gone + length (cancels calls))%nat /\
    map Some (rev (cancelled b')) = map Some (rev (cancelled b)) ++ map (fun k => (hs ++ started calls) !! k) (cancels calls).
Proof.
  induction calls as [|c calls IH]; intros hs given gone b Hok Hob.
  { exists given, b, gone. cbn. by rewrite !app_nil_r, Nat.add_0_r. }
  destruct c as [runtime [h|e]| |k]; cbn [obedient run started cancels watch cancel] in *.
  - destruct (IH (hs ++ [h]) _ gone _ (watch_bridge_ok hs given gone b runtime h Hok)) as (g' & b' & gone' & Hr & Hok' & Hs & Hc).
    { rewrite length_app. cbn. by rewrite Nat.add_1_r. }
    exists g', b', gone'. rewrite <- app_assoc in Hok', Hc. done.
  - by apply IH.
  - by apply IH.
  - apply andb_true_iff in Hob as [Hk Hob]. apply andb_true_iff in Hk as [Hk Hg].
    apply Nat.ltb_lt in Hk. apply bool_decide_eq_true in Hg.
    destruct (cancel_bridge_ok hs given gone b k Hok Hk Hg) as (p & b1 & h & -> & -> & Hh & Hc1 & Hok1).
    destruct (IH hs given _ b1 Hok1 Hob) as (g' & b' & gone' & Hr & Hok' & Hs & Hc).
    exists g', b', gone'. split; [done|]. split; [done|]. rewrite size_union, size_singleton in Hs by set_solver.
    split; [cbn; lia|]. rewrite Hc, Hc1. cbn [rev map]. rewrite map_app, <- app_assoc. cbn [map app].
    by rewrite (lookup_app_l_Some _ _ _ _ Hh).
Qed.

(** Under the contract of the C interface, that the host hands back each
    handle at most once, no sequence of watches and cancels is undefined: each
    cancel reaches exactly the handle of its own watch, and the boxes left are
    those of the watches not cancelled, so nothing leaks or is freed twice. *)
Theorem bridge_sound calls :
  obedient calls 0 ∅ = true ->
  exists given b, run calls [] empty = Some (given, b) /\
    map Some (rev (cancelled b)) = map (fun k => started calls !! k) (cancels calls) /\
    (size (boxes b) + length (cancels calls))%nat = length (started calls).
Proof.
  intros Hob. destruct (run_ok calls [] [] ∅ empty) as (given & b & gone & Hr & Hok & Hs & Hc); [|done|].
  - split; cbn; try done; try lia.
  - exists given, b. split; [done|]. split; [done|]. rewrite size_empty in Hs. pose proof (ok_size _ _ _ _ Hok). cbn in *. lia.
Qed.
End Bridge.

(** A host that cancels one handle twice: with fresh addresses the second
    cancel is undefined; when the allocator has given the address to another
    watch, that watch is cancelled instead. *)
Module Demo.

Definition next (h : gmap N WatchCancelState) : N := (1 + fold_right N.max 0 (map fst (map_to_list h)))%N.

Lemma fold_max_bound (l : list N) p : p ∈ l -> (p <= fold_right N.max 0 l)%N.
Proof. induction 1; cbn; lia. Qed.

Lemma next_fresh h : next h <> 0%N /\ h !! next h = None.
Proof.
  split; [unfold next; lia|]. destruct (h !! next h) as [s|] eqn:E; [|done].
  apply elem_of_map_to_list in E. assert (next h ∈ map fst (map_to_list h)) as Hin.
  { apply list_elem_of_fmap. by exists (next h, s). }
  apply fold_max_bound in Hin. unfold next in Hin at 1. lia.
Qed.

Definition twice : list (call (Error := ())) := [Watch 0 (Ok 7%nat); Cancel 0; Cancel 0].
Definition reused : list (call (Error := ())) := [Watch 0 (Ok 7%nat); Cancel 0; Watch 0 (Ok 8%nat); Cancel 0].

Example cancelled_twice :
  run next twice [] empty = None /\ obedient twice 0 ∅ = false /\
  option_map (fun r => cancelled (snd r)) (run next reused [] empty) = Some [8%nat; 7%nat].
Proof. by vm_compute. Qed.

Lemma bridge_sound_witness :
  exists given b, run next [Watch 0 (Ok 7%nat); Watch 1 (Err ()); Watch 2 (Ok 9%nat); CancelNull; Cancel 1] [] empty = Some (given, b) /\
    (size (boxes b) + 1)%nat = 2%nat.
Proof.
  destruct (bridge_sound next next_fresh [Watch 0 (Ok 7%nat); Watch 1 (Err ()); Watch 2 (Ok 9%nat); CancelNull; Cancel 1])
    as (given & b & Hr & _ & Hs); [reflexivity|].
  exists given, b. split; [exact Hr|exact Hs].
Defined.
End Demo.
End Bridge.
