(* ===== verification/WatchStart.v ===== *)
(** Starting the watches whose state the other files model: [watch] of the
    keyset change watcher ([src/src/watch_changes.rs]) and of the logical
    replication watcher ([src/src/watch_pg_cdc.rs]), and the sink of
    [src/src/cdylib.rs].

    Splitting the resume position off a spec, the host's queue options and blake3
    are parameters; the specs themselves are read in [WatchSpec]. *)

From Stdlib Require Import ZArith Lia Bool Ascii String.
From stdpp Require Import base list strings gmap.
From S2P Require Import Prelude RustStd Serde Redact Text Errors Json Params Sqlx Cost Config WatchChanges Cdc.

(** * The change watcher *)

Module ChangesStart.
Import WatchChanges.

Section Watch.
Context {Url : Type} `{UrlOps Url} `{Cel}
        (url_scheme : Url -> string) (url_error : string -> string)
        (cred_tokens : string -> list string) (debug_strings : list string -> string)
        (show_error : SqlError -> string).
Context (take_watch_resume : value -> value * option value)
        (from_value : value -> result string SqlChangesWatchSpec)
        (serde_error : value -> string).

Definition invalid_spec {A} (show : string -> string) (r : result string A) : result WatchError A :=
  rmap_err (fun e => WatchInvalidSpec (show e)) r.

(** [watch] up to the spawn of its loop: the connection, the plan and the key
    to resume after; [compiled] are the drivers of this build. *)
Definition watch (compiled : DriverKind -> bool) (spec : value)
  : result WatchError (SqlBackendConfig * Plan * option (list value)) :=
  let (spec, resume) := take_watch_resume spec in
  let? parsed := invalid_spec (fun e => "sql_changes watch spec: " +:+ e) (from_value spec) in
  let? plan := rmap_err (fun e => WatchInvalidSpec (show_error e))
                 (compile url_scheme url_error cred_tokens debug_strings parsed) in
  let? resume := match resume with
                 | Some r => let? k := resume_key serde_error plan r in Ok (Some k)
                 | None => Ok None
                 end in
  let kind := driver (connection parsed) in
  if compiled kind then Ok (connection parsed, plan, resume)
  else Err (WatchInvalidSpec ("driver '" +:+ DriverKind_as_str kind +:+ "' is not compiled into this build")).

Context (hash_hex : list byte -> string) (to_json : list value -> string) (occurred_at : value -> option string)
        (event_size : WatchEvent -> option Z).

Lemma watch_ok compiled spec conn plan resume :
  watch compiled spec = Ok (conn, plan, resume) ->
  exists parsed, from_value (fst (take_watch_resume spec)) = Ok parsed /\ conn = connection parsed /\
    compile url_scheme url_error cred_tokens debug_strings parsed = Ok plan /\ compiled (driver conn) = true /\
    match snd (take_watch_resume spec) with
    | Some r => exists key, resume_key serde_error plan r = Ok key /\ resume = Some key
    | None => resume = None
    end.
Proof.
  unfold watch, invalid_spec, rbind, rmap_err. destruct (take_watch_resume spec) as [body at_]. cbn [fst snd].
  destruct (from_value body) as [parsed|] eqn:Ef; [|done]. destruct (compile _ _ _ _ parsed) as [p|] eqn:Ec; [|done].
  intros E. exists parsed. destruct at_ as [r|].
  - destruct (resume_key serde_error p r) as [key|] eqn:Er; [|done].
    destruct (compiled _) eqn:Ed; [|done]. injection E as <- <- <-. eauto 10.
  - destruct (compiled _) eqn:Ed; [|done]. by injection E as <- <- <-.
Qed.

(** C39.  Restarting a change watch from the cursor of an event it emitted, with
    the rest of its spec unchanged, starts the same plan right after the key of
    that event's row; and a watch only ever starts with a cursor whose values
    are as many as its key columns. *)
Theorem resume_roundtrip compiled spec conn plan resume uri row key e spec' :
  watch compiled spec = Ok (conn, plan, resume) ->
  row_key plan row = Some key ->
  emitted_event hash_hex to_json occurred_at event_size plan uri row key = Some e ->
  take_watch_resume spec' = (fst (take_watch_resume spec), upstream_cursor e) ->
  watch compiled spec' = Ok (conn, plan, Some key) /\
  forall k, resume = Some k -> length k = length (key_columns plan).
Proof.
  intros Hw Hk He Hspec. destruct (watch_ok _ _ _ _ _ Hw) as (parsed & Hf & -> & Hc & Hd & Hr).
  assert (upstream_cursor e = Some (ser cursor_codec {| v := CURSOR_VERSION; k := key |})) as Hcur.
  { unfold emitted_event, row_event in He. destruct (match op_column plan with Some _ => _ | None => _ end); [|done].
    destruct (event_size _); [|done]. destruct (_ <? _); [done|]. by injection He as <-. }
  assert (length key = length (key_columns plan)) as Hlen by by eapply key_of_length.
  split.
  - unfold watch, invalid_spec. rewrite Hspec, Hcur, Hf. cbn [rmap_err rbind]. rewrite Hc. cbn [rmap_err rbind].
    rewrite resume_key_back by done. cbn [rbind]. by rewrite Hd.
  - intros k ->. destruct (snd (take_watch_resume spec)) as [r|]; [|done]. destruct Hr as (k' & Hr & [= <-]).
    unfold resume_key, rbind, rmap_err in Hr. destruct (de cursor_codec r) as [c|]; [|done]. cbn [ok_or] in Hr.
    destruct (_ || _) eqn:Eb; [done|]. injection Hr as <-. apply orb_false_iff in Eb as [_ Eb].
    apply negb_false_iff in Eb. by apply Nat.eqb_eq.
Qed.
End Watch.

(** ** Examples *)

Module Demo.
Import ToyUrl ToyCel WatchChanges.Demo.

(** A spec on the wire: the body, and the resume position when there is one. *)
Definition wire (resume : list value) : value := VArray (VNull :: resume).
Definition take (x : value) : value * option value :=
  match x with VArray [body; r] => (body, Some r) | VArray [body] => (body, None) | _ => (x, None) end.
Definition parse (x : value) : result string SqlChangesWatchSpec :=
  match x with VNull => Ok spec | _ => Err "not a spec"%string end.

Definition start (x : value) :=
  watch (Url := ToyUrl.t) (fun _ => "postgres"%string) (fun _ => EmptyString) (fun _ => [])
    debug (fun _ => "refused"%string) take parse unreadable (fun _ => true) x.

Example not_compiled_in :
  watch (Url := ToyUrl.t) (fun _ => "postgres"%string) (fun _ => EmptyString) (fun _ => [])
    debug (fun _ => "refused"%string) take parse unreadable (fun k => match k with Postgres => false | _ => true end) (wire [])
  = Err (WatchInvalidSpec "driver 'postgres' is not compiled into this build"%string).
Proof. by vm_compute. Qed.

Lemma resume_roundtrip_witness :
  start (wire []) = Ok (connection spec, plan, None) /\
  start (wire [ser cursor_codec {| v := CURSOR_VERSION; k := [json_i64 2] |}])
    = Ok (connection spec, plan, Some [json_i64 2]).
Proof.
  assert (start (wire []) = Ok (connection spec, plan, None)) as E by by vm_compute.
  split; [exact E|].
  assert (exists e, emitted_event hash json at_none size plan "sql://t" (row 2) [json_i64 2] = Some e /\
            upstream_cursor e = Some (ser cursor_codec {| v := CURSOR_VERSION; k := [json_i64 2] |})) as (e & He & Hu).
  { eexists. split; by vm_compute. }
  refine (proj1 (resume_roundtrip (Url := ToyUrl.t) (fun _ => "postgres"%string) (fun _ => EmptyString) (fun _ => [])
    debug (fun _ => "refused"%string) take parse unreadable hash json at_none size
    (fun _ => true) (wire []) (connection spec) plan None "sql://t"%string (row 2) [json_i64 2] e
    (wire [ser cursor_codec {| v := CURSOR_VERSION; k := [json_i64 2] |}]) E _ He _)).
  - by vm_compute.
  - by rewrite Hu.
Defined.
End Demo.
End ChangesStart.

(** * The replication watcher *)

Module CdcStart.
Import WatchChanges.

(** [WatchSpec]; durations in milliseconds. *)
Record WatchSpec : Type := {
  url : string;
  publication : string;
  tables : list string;
  slot : option string;
  poll_interval_ms : Z;
  max_in_flight : Z;
  ack_timeout_ms : Z;
}.

Definition default_poll_interval_ms : Z := 1000.

(** The host's [QueueOptions]. *)
Record QueueOptions : Type := {
  source : string;
  opt_max_in_flight : Z;
  ack_timeout : Z;
  receive_wait : Z;
}.

(** [PostgresCdc]: what stays fixed, and the state of [Cdc]. *)
Record PostgresCdc : Type := {
  cdc_url : string;
  cdc_publication : string;
  cdc_tables : list string;
  cdc_slot : string;
  resumed : bool;
  state : Cdc.Cdc.cdc;
}.

Section Watch.
Context (hash_hex : list byte -> string).           (* blake3, in hex *)
Context (take_watch_resume : value -> value * option value)
        (from_value : value -> result string WatchSpec)
        (options_validate : QueueOptions -> result string ()).

(** [&digest[..16]]. *)
Definition derived_slot (resource_uri : string) : string :=
  "mcpg_" +:+ str_take 16 (hash_hex (str_bytes resource_uri)).

Definition require (b : bool) (message : string) : result WatchError () :=
  if b then Ok () else Err (WatchInvalidSpec message).

Definition new_source (s : WatchSpec) (slot : string) (resume : option value) : PostgresCdc := {|
  cdc_url := url s; cdc_publication := publication s; cdc_tables := tables s; cdc_slot := slot;
  resumed := match resume with Some _ => true | None => false end;
  state := Cdc.Cdc.mkCdc false Cdc.Cdc.default_progress false None |}.

(** [watch] up to [spawn_queue_watch]; [runtime] is the outcome of building the
    watch's runtime. *)
Definition watch (resource_uri : string) (spec : value) (runtime : result string ())
  : result WatchError (QueueOptions * PostgresCdc) :=
  let (spec, resume) := take_watch_resume spec in
  let? s := rmap_err (fun e => WatchInvalidSpec ("invalid postgres_cdc watch spec: " +:+ e)) (from_value spec) in
  let? _ := require (starts_with "postgres://" (url s) || starts_with "postgresql://" (url s))
              "url must start with postgres:// or postgresql://" in
  let? _ := require (negb (str_contains "cred://" (url s)))
              "url must not contain cred:// — per-caller credentials are unsupported; use ${env.X} / ${secret.X} / vault:// (resolved before the watch starts)" in
  let? _ := require (negb (str_is_empty (trim (publication s)))) "publication must not be empty" in
  let name := match slot s with Some n => n | None => derived_slot resource_uri end in
  let? _ := require (Cdc.Cdc.valid_slot name) "slot must be 1 to 63 lower-case letters, digits or _" in
  let? _ := require (negb ((poll_interval_ms s <? 100) || (20000 <? poll_interval_ms s)))
              "poll_interval_ms must be 100 to 20000" in
  let options := {| source := "postgres slot " +:+ name; opt_max_in_flight := max_in_flight s;
                    ack_timeout := ack_timeout_ms s; receive_wait := poll_interval_ms s |} in
  let? _ := rmap_err WatchInvalidSpec (options_validate options) in
  let? _ := rmap_err (fun e => WatchSubscribe ("postgres_cdc: tokio runtime init failed: " +:+ e)) runtime in
  Ok (options, new_source s name resume).

(** [Drop]: whether a pool is closed, and the source after it; the slot keeps its
    position, whatever was delivered. *)
Definition drop_source (s : PostgresCdc) : bool * PostgresCdc :=
  (Cdc.Cdc.connected (state s),
   {| cdc_url := cdc_url s; cdc_publication := cdc_publication s; cdc_tables := cdc_tables s; cdc_slot := cdc_slot s;
      resumed := resumed s;
      state := Cdc.Cdc.mkCdc false (Cdc.Cdc.prog (state s)) (Cdc.Cdc.gap (state s)) (Cdc.Cdc.unadvanced (state s)) |}).

(** Hexadecimal digits, as [blake3::Hash::to_hex] prints 64 of them. *)
Definition is_hex (c : ascii) : bool := is_ascii_digit c || (is_ascii_lower c && (char_Z c <=? 102)).
Hypothesis hash_is_hex : forall b, String.length (hash_hex b) = 64%nat /\ str_forall is_hex (hash_hex b) = true.

Lemma str_take_forall p n s : str_forall p s = true -> str_forall p (str_take n s) = true.
Proof.
  revert n. induction s as [|c s IH]; intros [|n]; try done. cbn. intros [-> Hs]%andb_true_iff. by apply IH.
Qed.

Lemma str_take_length n s : (n <= String.length s)%nat -> String.length (str_take n s) = n.
Proof. revert n. induction s as [|c s IH]; intros [|n]; cbn; try lia. intros Hn. rewrite IH; lia. Qed.

Lemma derived_slot_valid uri : Cdc.Cdc.valid_slot (derived_slot uri) = true.
Proof.
  destruct (hash_is_hex (str_bytes uri)) as [Hlen Hhex]. unfold Cdc.Cdc.valid_slot, derived_slot.
  set (d := str_take 16 (hash_hex (str_bytes uri))).
  assert (String.length d = 16%nat) as Hd by (apply str_take_length; lia).
  assert (str_forall is_hex d = true) as Hf by by apply str_take_forall.
  rewrite str_length_app, str_forall_app, Hd. cbn [str_is_empty String.append negb String.length Nat.add Nat.leb andb].
  assert (forall t, str_forall is_hex t = true ->
    str_forall (fun c => is_ascii_lower c || is_ascii_digit c || Ascii.eqb c "_") t = true) as Himp.
  { intros t. induction t as [|c t IH]; [done|]. cbn. intros [Hc Ht]%andb_true_iff. rewrite (IH Ht), andb_true_r.
    unfold is_hex in Hc. destruct (is_ascii_digit c), (is_ascii_lower c); done. }
  by rewrite (Himp d Hf).
Qed.

Lemma cdc_watch_ok uri spec runtime options src :
  watch uri spec runtime = Ok (options, src) ->
  exists p name, from_value (fst (take_watch_resume spec)) = Ok p /\
    name = match slot p with Some n => n | None => derived_slot uri end /\
    src = new_source p name (snd (take_watch_resume spec)) /\
    (starts_with "postgres://" (url p) || starts_with "postgresql://" (url p)) = true /\
    str_contains "cred://" (url p) = false /\ str_is_empty (trim (publication p)) = false /\
    Cdc.Cdc.valid_slot name = true /\ 100 <= receive_wait options <= 20000 /\ options_validate options = Ok ().
Proof.
  unfold watch, rbind, rmap_err, require. destruct (take_watch_resume spec) as [body at_]. cbn [fst snd].
  destruct (from_value body) as [p|]; [|done].
  destruct (starts_with "postgres://" (url p) || starts_with "postgresql://" (url p)) eqn:E1; [|done].
  destruct (str_contains "cred://" (url p)) eqn:E2; [done|]. cbn [negb].
  destruct (str_is_empty (trim (publication p))) eqn:E3; [done|]. cbn [negb].
  destruct (Cdc.Cdc.valid_slot _) eqn:E4; [|done].
  destruct ((poll_interval_ms p <? 100) || (20000 <? poll_interval_ms p)) eqn:E5; [done|]. cbn [negb].
  apply orb_false_iff in E5 as [E5 E6]. apply Z.ltb_ge in E5, E6.
  destruct (options_validate _) as [[]|] eqn:E7; [|done]. destruct runtime as [[]|]; [|done].
  intros [= <- <-]. exists p, (match slot p with Some n => n | None => derived_slot uri end). by split_and!.
Qed.

Lemma watch_failed uri spec runtime m : watch uri spec runtime = Err (WatchSubscribe m) -> runtime <> Ok ().
Proof.
  unfold watch, rbind, rmap_err, require. destruct (take_watch_resume spec) as [body at_].
  destruct (from_value body) as [p|]; [|done]. repeat (match goal with |- context [if ?b then _ else _] => destruct b end; try done).
  destruct (options_validate _) as [[]|]; [|done]. by destruct runtime as [[]|].
Qed.

(** A replication watch that starts has a Postgres URL without caller
    credentials, a publication, a slot name PostgreSQL accepts, and an interval
    in range, on a queue whose options the host accepted, with nothing consumed;
    without a configured slot it uses the same derived one at every start, which
    is always valid.  A watch that does not start says so as an invalid spec,
    unless only its runtime could not be built. *)
Theorem cdc_start_checked uri spec runtime :
  Cdc.Cdc.valid_slot (derived_slot uri) = true /\
  match watch uri spec runtime with
  | Ok (options, src) =>
      (starts_with "postgres://" (cdc_url src) || starts_with "postgresql://" (cdc_url src)) = true /\
      str_contains "cred://" (cdc_url src) = false /\ str_is_empty (trim (cdc_publication src)) = false /\
      Cdc.Cdc.valid_slot (cdc_slot src) = true /\ 100 <= receive_wait options <= 20000 /\
      options_validate options = Ok () /\
      Cdc.Cdc.connected (state src) = false /\ Cdc.Cdc.prog (state src) = Cdc.Cdc.default_progress /\
      exists p, from_value (fst (take_watch_resume spec)) = Ok p /\
        cdc_slot src = match slot p with Some n => n | None => derived_slot uri end
  | Err (WatchInvalidSpec _) => True
  | Err (WatchSubscribe _) => runtime <> Ok ()
  end.
Proof.
  split; [apply derived_slot_valid|]. destruct (watch uri spec runtime) as [[options src]|[m|m]] eqn:E; [|done|].
  - destruct (cdc_watch_ok _ _ _ _ _ E) as (p & name & Hp & -> & -> & ? & ? & ? & ? & ? & ?). split_and!; try done; try (cbn; lia).
    by exists p.
  - by apply watch_failed in E.
Qed.

Lemma connect_gap redact resumed opened publication tables db c c' :
  Cdc.Cdc.connect redact resumed opened publication tables db c = (Ok (), c') ->
  exists slotted, Cdc.Cdc.slot_exists db = Ok slotted /\
    Cdc.Cdc.gap c' = Cdc.Cdc.gap c || (negb slotted && resumed) /\ Cdc.Cdc.connected c' = true.
Proof.
  unfold Cdc.Cdc.connect. destruct opened as [[]|]; [|done].
  destruct (Cdc.Cdc.prepare _ _ _) as [created|] eqn:E; [|done]. intros [= <-]. cbn. revert E.
  unfold Cdc.Cdc.prepare, rbind, rmap_err. destruct (Cdc.Cdc.wal_level db); [|done]. destruct (negb _); [done|].
  destruct (Cdc.Cdc.publication_exists db) as [pub|]; [|done].
  assert (forall (x : result string ()) (k : result string bool), match x with Ok _ => k | Err e => Err e end = Ok created -> k = Ok created)
    as Hk by (by intros [[]|] k).
  intros E. apply Hk in E. destruct (Cdc.Cdc.slot_exists db) as [slotted|]; [|done]. apply Hk in E. injection E as <-. eauto.
Qed.

(** A change that may have been lost with its slot is reported: a watch
    that was restarted from a position and finds no slot delivers a gap before
    anything else, unless that peek fails; a first start reports none. *)
Theorem lost_slot_reported uri spec runtime options src redact db opened js oc fetch adv max s' r s'' :
  watch uri spec runtime = Ok (options, src) ->
  Cdc.Cdc.connect redact (resumed src) opened (cdc_publication src) (cdc_tables src) db (state src) = (Ok (), s') ->
  Cdc.Cdc.receive js oc (cdc_slot src) fetch adv max s' = Some (Ok r, s'') ->
  (snd (take_watch_resume spec) <> None -> Cdc.Cdc.slot_exists db = Ok false -> exists rest, r = Cdc.Cdc.gap_delivery :: rest) /\
  (snd (take_watch_resume spec) = None -> Cdc.Cdc.gap s' = false).
Proof.
  intros Hw Hc Hr. destruct (cdc_watch_ok _ _ _ _ _ Hw) as (p & name & _ & _ & -> & _).
  set (src := new_source p name (snd (take_watch_resume spec))) in *.
  destruct (connect_gap redact (resumed src) opened (cdc_publication src) (cdc_tables src) db (state src) s' Hc) as (slotted & Hsl & Hgap & Hcon).
  cbn [src new_source state Cdc.Cdc.gap orb] in Hgap. split.
  - intros Hre Hslot. assert (resumed src = true) as Hr' by (subst src; by destruct (snd (take_watch_resume spec))). rewrite Hslot in Hsl. injection Hsl as <-. rewrite Hr' in Hgap. cbn in Hgap.
    unfold Cdc.Cdc.receive in Hr. rewrite Hcon, Hgap in Hr. cbn [negb] in Hr.
    destruct (Cdc.Cdc.peek _ _ _ _ _ _) as [[[ds|e] pr]|]; [| |done]; [|done].
    destruct (Cdc.Cdc.settle _ _) as [x s2]. injection Hr as <- _. eauto.
  - intros Hre. rewrite Hgap. subst src. cbn [new_source resumed]. rewrite Hre. apply andb_false_r.
Qed.
End Watch.

(** ** Examples *)

Module Demo.
Import ChangesStart.Demo.
Local Open Scope string_scope.

Definition hash (b : list byte) : string :=
  "0123456789abcdef0123456789abcdef0123456789abcdef0123456789abcdef".
Lemma hash_hex_ok b : String.length (hash b) = 64%nat /\ str_forall is_hex (hash b) = true.
Proof. by vm_compute. Qed.

Definition parsed : WatchSpec := {|
  url := "postgres://db/app"; publication := "pub"; tables := ["public.t"]; slot := None;
  poll_interval_ms := default_poll_interval_ms; max_in_flight := 64; ack_timeout_ms := 30000 |}.
Definition parse (x : value) : result string WatchSpec :=
  match x with VNull => Ok parsed | _ => Err "not a spec" end.
Definition accept (o : QueueOptions) : result string () := Ok ().
Definition start (x : value) (runtime : result string ()) := watch hash take parse accept "pg://orders" x runtime.

Lemma cdc_start_checked_witness :
  Cdc.Cdc.valid_slot "mcpg_0123456789abcdef" = true /\
  (exists o src, start (wire []) (Ok ()) = Ok (o, src) /\ cdc_slot src = "mcpg_0123456789abcdef" /\ receive_wait o = 1000) /\
  (exists m, start (wire []) (Err "no threads") = Err (WatchSubscribe m)).
Proof.
  destruct (cdc_start_checked hash take parse accept hash_hex_ok "pg://orders" (wire []) (Ok ())) as [Hs _].
  split; [exact Hs|]. split; [do 2 eexists|eexists]; by vm_compute.
Defined.

(** A server whose slot is gone. *)
Definition db : Cdc.Cdc.Answers := {|
  Cdc.Cdc.wal_level := Ok "logical"; Cdc.Cdc.publication_exists := Ok true;
  Cdc.Cdc.create_publication := fun _ => Ok (); Cdc.Cdc.slot_exists := Ok false; Cdc.Cdc.create_slot := Ok () |}.
Definition js (s : string) : option value := None.
Definition oc (z : Z) : option string := None.
Definition no_rows (n : nat) (limit : Z) : result string (list Cdc.Cdc.slot_row) := Ok [].
Definition adv (s : string) : result string () := Ok ().

(** The first delivery after starting on [x]. *)
Definition first_delivery (x : value) : option (list Cdc.Cdc.Delivery) :=
  match start x (Ok ()) with
  | Ok (_, src) =>
      match Cdc.Cdc.connect (fun t => t) (resumed src) (Ok ()) (cdc_publication src) (cdc_tables src) db (state src) with
      | (Ok (), s') => match Cdc.Cdc.receive js oc (cdc_slot src) no_rows adv 10 s' with
                       | Some (Ok r, _) => Some r | _ => None end
      | _ => None
      end
  | Err _ => None
  end.

Lemma lost_slot_reported_witness :
  first_delivery (wire []) = Some [] /\
  exists rest, first_delivery (wire [VNull]) = Some (Cdc.Cdc.gap_delivery :: rest).
Proof.
  split; [by vm_compute|].
  unfold first_delivery. destruct (start (wire [VNull]) (Ok ())) as [[o src]|] eqn:E; [|by vm_compute in E].
  assert (exists s', Cdc.Cdc.connect (fun t => t) (resumed src) (Ok ()) (cdc_publication src) (cdc_tables src) db (state src) = (Ok (), s') /\
    exists r s'', Cdc.Cdc.receive js oc (cdc_slot src) no_rows adv 10 s' = Some (Ok r, s'')) as (s' & Ec & r & s'' & Er).
  { vm_compute in E. injection E as <- <-. eexists. split; [by vm_compute|]. do 2 eexists. by vm_compute. }
  rewrite Ec, Er.
  destruct (proj1 (lost_slot_reported hash take parse accept "pg://orders" (wire [VNull]) (Ok ()) o src
    (fun t => t) db (Ok ()) js oc no_rows adv 10 s' r s'' E Ec Er)) as [rest ->]; [done|done|eauto].
Defined.
End Demo.
End CdcStart.

(** * The sink across the C interface *)

(** [ClosureWatchSink::emit]: what reaches the host's callback; an event that
    does not serialize is dropped. *)
Definition closure_sink (to_string : WatchChanges.WatchEvent -> result string string)
  (events : list WatchChanges.WatchEvent) : list string :=
  flat_map (fun e => match to_string e with Ok json => [json] | Err _ => [] end) events.
