(* ===== verification/WatchSpec.v ===== *)
(** The specs of the four watches and the wire forms of [src/src/lib.rs], read from
    JSON: [SqlPollingWatchSpec], [SqlChangesWatchSpec], the LISTEN and the
    replication watch's specs, [TxGroupWire] and [SqlCompletionConfig].

    The first two flatten a binding's configuration into their own fields.  The
    defaults of the host's queue and [Sensitive<String>] are parameters. *)

From Stdlib Require Import ZArith Lia Bool Ascii String.
From stdpp Require Import base list strings option.
From S2P Require Import Prelude RustStd Text Errors Json Serde Stream Cost Config WatchChanges WatchPoll WatchListen Schema Execute Registration Surface WatchStart Spec.

(** * Specs that hold a configuration *)

(** The entries a flattened [SqlBackendConfig] takes. *)
Definition config_part (m : json_map) : json_map :=
  List.filter (fun kv => known Registration.config_fields (fst kv)) m.

Section Flattened.
Context (secret : codec string).

(** [deny_unknown_fields] beside [flatten]: a key neither part takes is refused;
    such a struct is read from an object only. *)
Definition flattened (own : list string) (v : value) : option json_map :=
  match v with
  | VObject m => if only_known (own ++ Registration.config_fields) m then Some m else None
  | _ => None
  end.

Definition polling_of_value (v : value) : option WatchPoll.SqlPollingWatchSpec :=
  m ← flattened ["interval_ms"]%string v;
  b ← defaulted u64 "interval_ms" 1000 m;
  a ← config_entries secret (config_part m);
  Some {| WatchPoll.connection := fst a; WatchPoll.interval_ms := b |}.

Definition changes_fields : list string :=
  ["key_columns"; "initial"; "start"; "latest_sql"; "batch_size"; "interval_ms"; "occurred_at_column"; "op_column";
   "settle_ms"]%string.

Definition start_name (s : WatchChanges.ChangesStart) : string :=
  match s with WatchChanges.Latest => "latest" | WatchChanges.Beginning => "beginning" end.
Definition start_codec : codec WatchChanges.ChangesStart :=
  unit_enum start_name [WatchChanges.Latest; WatchChanges.Beginning].

Definition changes_of_value (v : value) : option WatchChanges.SqlChangesWatchSpec :=
  m ← flattened changes_fields v;
  b ← required (vec str) "key_columns" m;
  c ← required json_object "initial" m;
  d ← defaulted start_codec "start" WatchChanges.Latest m;
  e ← opt str "latest_sql" m;
  f ← defaulted u32 "batch_size" 100 m;
  g ← defaulted u64 "interval_ms" 1000 m;
  h ← opt str "occurred_at_column" m;
  i ← opt str "op_column" m;
  j ← opt u64 "settle_ms" m;
  a ← config_entries secret (config_part m);
  Some {| WatchChanges.connection := fst a; WatchChanges.spec_key_columns := b;
          WatchChanges.spec_initial := c; WatchChanges.spec_start := d;
          WatchChanges.latest_sql := e; WatchChanges.spec_batch_size := f;
          WatchChanges.interval_ms := g; WatchChanges.spec_occurred_at_column := h;
          WatchChanges.spec_op_column := i; WatchChanges.settle_ms := j |}.
End Flattened.

(** * The other two specs *)

Definition uri_match_codec : codec WatchListen.UriMatch := {|
  ser := fun u => VObject (object [
    ("payload_field", ser str (WatchListen.payload_field u)); ("uris", ser (vec str) (WatchListen.uris u))]%string);
  de := fun v =>
    m ← entries true ["payload_field"; "uris"]%string v;
    a ← required str "payload_field" m;
    b ← required (vec str) "uris" m;
    Some {| WatchListen.payload_field := a; WatchListen.uris := b |} |}.

Definition listen_codec : codec WatchListen.ListenSpec := {|
  ser := fun s => VObject (object ([
    ("url", ser str (WatchListen.sp_url s)); ("channel", ser str (WatchListen.channel s))]%string ++
    some_field uri_match_codec "uri_match" (WatchListen.uri_match s)));
  de := fun v =>
    m ← entries true ["url"; "channel"; "uri_match"]%string v;
    a ← required str "url" m;
    b ← required str "channel" m;
    c ← opt uri_match_codec "uri_match" m;
    Some {| WatchListen.sp_url := a; WatchListen.channel := b; WatchListen.uri_match := c |} |}.

(** The defaults come with the host's queue. *)
Definition cdc_of_value (default_max_in_flight default_ack_timeout_ms : Z) (v : value) : option CdcStart.WatchSpec :=
  m ← entries true ["url"; "publication"; "tables"; "slot"; "poll_interval_ms"; "max_in_flight"; "ack_timeout_ms"]%string v;
  a ← required str "url" m;
  b ← required str "publication" m;
  c ← defaulted (vec str) "tables" [] m;
  d ← opt str "slot" m;
  e ← defaulted u64 "poll_interval_ms" CdcStart.default_poll_interval_ms m;
  f ← defaulted u64 "max_in_flight" default_max_in_flight m;
  g ← defaulted u64 "ack_timeout_ms" default_ack_timeout_ms m;
  Some {| CdcStart.url := a; CdcStart.publication := b; CdcStart.tables := c; CdcStart.slot := d;
          CdcStart.poll_interval_ms := e; CdcStart.max_in_flight := f; CdcStart.ack_timeout_ms := g |}.

(** * Wire forms of calls *)

(** [TxNestedStepWire] and [TxGroupWire]: unknown keys are passed over. *)
Definition tx_step_of_value (v : value) : option Execute.TxStep :=
  m ← entries false ["id"; "sql"; "params"; "row_mode"]%string v;
  a ← required str "id" m;
  b ← required str "sql" m;
  c ← defaulted (vec str) "params" [] m;
  d ← defaulted str "row_mode" "affected_rows"%string m;
  Some {| Execute.step_id := a; Execute.tx_sql := b; Execute.tx_params := c; Execute.tx_row_mode := d |}.

(** Steps are only read. *)
Definition tx_step_codec : codec Execute.TxStep := {| ser := fun _ => VNull; de := tx_step_of_value |}.

Definition tx_group_of_value (v : value) : option (list Execute.TxStep * value) :=
  m ← entries false ["steps"; "step_input"]%string v;
  a ← required (vec tx_step_codec) "steps" m;
  b ← defaulted json "step_input" VNull m;
  Some (a, b).

(** [execute_transaction] from the group on the wire. *)
Definition execute_transaction_wire (serde_error : value -> string) (te : Execute.TxEnv) (tx_group : value)
  : result BackendError value * list Execute.tx_effect :=
  match tx_group_of_value tx_group with
  | Some (steps, input) => Execute.execute_transaction te steps input
  | None => (Err (BInvalidSpec ("sql_tx group: " +:+ serde_error tx_group)), [])
  end.

Definition completion_of_value (v : value) : option Surface.SqlCompletionConfig :=
  m ← entries false ["query"; "max_results"]%string v;
  a ← required str "query" m;
  b ← opt u32 "max_results" m;
  Some {| Surface.completion_query := a; Surface.max_results := b |}.

(** * Properties *)

Lemma known_app a b k : known (a ++ b) k = known a k || known b k.
Proof. apply existsb_app. Qed.

Lemma obj_get_filter p k m : p k = true -> obj_get k (List.filter (fun kv => p (fst kv)) m) = obj_get k m.
Proof.
  intros Hp. induction m as [|[k' v] m IH]; [done|]. cbn. destruct (p k') eqn:E; cbn.
  - destruct (String.eqb k k'); [done|exact IH].
  - destruct (String.eqb_spec k k') as [->|]; [congruence|exact IH].
Qed.

Lemma only_known_config_part m : only_known Registration.config_fields (config_part m) = true.
Proof.
  unfold only_known, config_part. apply forallb_forall. intros kv [_ Hk]%filter_In. exact Hk.
Qed.

Lemma config_entries_part secret m : config_entries secret (config_part m) = config_entries secret m.
Proof.
  unfold config_entries, opt, defaulted, required, field, config_part.
  repeat match goal with
  | |- context [obj_get ?k (List.filter _ _)] => rewrite (obj_get_filter (known Registration.config_fields) k m) by reflexivity
  end. done.
Qed.

Lemma only_known_remove k names m : only_known (k :: names) m = true -> only_known names (obj_remove k m) = true.
Proof.
  induction m as [|[k' v] m IH]; [done|]. unfold only_known in *. cbn [forallb obj_remove fst known existsb].
  intros [Hk Hm]%andb_true_iff. rewrite (String.eqb_sym k k'). destruct (String.eqb k' k); [by apply IH|].
  cbn [forallb fst]. rewrite (IH Hm), andb_true_r. exact Hk.
Qed.

Lemma only_known_more k names m : only_known names m = true -> only_known (k :: names) m = true.
Proof.
  unfold only_known. intros H. apply forallb_forall. intros kv Hin. eapply forallb_forall in H; [|exact Hin].
  cbn [known existsb]. apply orb_true_iff. by right.
Qed.

Lemma config_entries_other secret f k m :
  known Registration.config_fields k = false ->
  (forall k', String.eqb k' k = false -> obj_get k' (f m) = obj_get k' m) ->
  config_entries secret (f m) = config_entries secret m.
Proof.
  intros Hk Hf. cbn in Hk. bool_hyps. unfold config_entries, opt, defaulted, required, field.
  repeat match goal with
  | |- context [obj_get ?k' (f m)] => rewrite (Hf k') by (apply String.eqb_neq; congruence)
  end. done.
Qed.

Lemma config_of_object secret m :
  only_known Registration.config_fields m = true -> de (config_codec secret) (VObject m) = config_entries secret m.
Proof. intros H. cbn [de config_codec]. unfold entries. by rewrite H. Qed.

(** A polling watch takes the configuration of a binding as it is: its spec is
    one of a binding with an interval beside it, read as the same connection; and
    taking the interval out of a spec that is accepted leaves one of a binding. *)
Theorem polling_spec_is_binding secret o :
  (forall c derive n, de (config_codec secret) (VObject o) = Some (c, derive) -> fits 64 n ->
     polling_of_value secret (VObject (obj_insert "interval_ms" (ser u64 n) o))
       = Some {| WatchPoll.connection := c; WatchPoll.interval_ms := n |}) /\
  (forall s, polling_of_value secret (VObject o) = Some s ->
     exists derive, de (config_codec secret) (VObject (obj_remove "interval_ms" o)) = Some (WatchPoll.connection s, derive)).
Proof.
  split.
  - intros c derive n H Hn. cbn [de config_codec] in H. apply bind_Some in H as (m & [-> Hk]%entries_strict & H).
    unfold polling_of_value, flattened. cbn [app].
    rewrite only_known_insert, (only_known_more _ _ _ Hk) by done. cbn [mbind option_bind].
    unfold defaulted. erewrite field_ser; [cbn [mbind option_bind]|typeclasses eauto|exact Hn|by rewrite obj_get_insert].
    rewrite config_entries_part. rewrite (config_entries_other _ (obj_insert "interval_ms" (ser u64 n)) "interval_ms"); [|done|].
    + by rewrite H.
    + intros k' Hk'. by rewrite obj_get_insert, Hk'.
  - intros s H. unfold polling_of_value in H. apply bind_Some in H as (m & Hm & H). unfold flattened in Hm.
    destruct (only_known _ o) eqn:Hk; [|done]. injection Hm as <-. read_inv H. injection H as <-. exists (snd a0).
    cbn [WatchPoll.connection]. rewrite config_of_object by by apply only_known_remove.
    rewrite (config_entries_other _ (obj_remove "interval_ms") "interval_ms"); [|done|].
    + rewrite config_entries_part in *. rewrite Ha0. by destruct a0.
    + intros k' Hk'. by rewrite obj_get_remove, Hk'.
Qed.

(** The connection of a change watch is a binding's configuration too. *)
Lemma changes_spec_config secret o s :
  changes_of_value secret (VObject o) = Some s ->
  exists derive, de (config_codec secret) (VObject (config_part o)) = Some (WatchChanges.connection s, derive).
Proof.
  intros H. unfold changes_of_value in H. apply bind_Some in H as (m & Hm & H). unfold flattened in Hm.
  destruct (only_known _ o); [|done]. injection Hm as <-. read_inv H. injection H as <-.
  match goal with Hc : config_entries _ _ = Some ?a |- _ => exists (snd a); rename Hc into E; destruct a end.
  rewrite config_of_object by apply only_known_config_part. exact E.
Qed.

#[export] Instance uri_match_roundtrips : Roundtrips uri_match_codec always.
Proof. intros [a b] _. cbn [ser de uri_match_codec]. read_struct. Qed.
#[export] Instance uri_match_not_null : NotNull uri_match_codec.
Proof. done. Qed.

(** A LISTEN watch's spec is read back as it was written. *)
Theorem listen_roundtrip s : de listen_codec (ser listen_codec s) = Some s.
Proof.
  destruct s as [a b [c|]]; cbn [ser de listen_codec some_field app WatchListen.sp_url WatchListen.channel WatchListen.uri_match];
    [|done]. read_object. unfold opt, defaulted, required. read_field; [|done].
  read_field; [|done].
  assert (field (optional uri_match_codec) "uri_match" (Some None)
            (object [("url", ser str a); ("channel", ser str b); ("uri_match", ser uri_match_codec c)]%string)
          = Some (Some c)) as ->; [|done].
  apply (field_ser (optional uri_match_codec) (opt_all always)); [typeclasses eauto|done|reflexivity].
Qed.

(** A malformed transaction group opens no transaction. *)
Theorem bad_group_no_transaction serde_error te v :
  (tx_group_of_value v = None -> snd (execute_transaction_wire serde_error te v) = []) /\
  (forall steps, Exists (fun s => tx_step_of_value s = None) steps ->
     execute_transaction_wire serde_error te (VObject [("steps", VArray steps)]%string)
     = (Err (BInvalidSpec ("sql_tx group: " +:+ serde_error (VObject [("steps", VArray steps)]%string))), [])).
Proof.
  unfold execute_transaction_wire. split; [by intros ->|].
  intros steps Hex. assert (tx_group_of_value (VObject [("steps", VArray steps)]%string) = None) as ->; [|done].
  unfold tx_group_of_value. change (entries false _ (VObject ?m)) with (Some m). cbn [mbind option_bind].
  unfold required, field. cbn [obj_get]. rewrite String.eqb_refl. cbn [de vec tx_step_codec].
  destruct (mapM tx_step_of_value steps) as [l|] eqn:E; [|done]. exfalso. apply mapM_Some in E.
  revert l E. induction Hex as [s steps Hs|s steps _ IH]; intros l E; inversion E; subst; [congruence|by eapply IH].
Qed.

(** * Examples *)

Module Demo.

Definition object : json_map :=
  [("driver", VString "sqlite"); ("query", VObject [("row_mode", VString "scalar"); ("sql", VString "SELECT MAX(n) FROM t")]);
   ("url", VString "sqlite:db")]%string.

Definition connection : SqlBackendConfig := minimal_config Sqlite "sqlite:db" (Sql "SELECT MAX(n) FROM t") Scalar.

Lemma polling_spec_is_binding_witness :
  polling_of_value str (VObject (obj_insert "interval_ms" (ser u64 250) object))
  = Some {| WatchPoll.connection := connection; WatchPoll.interval_ms := 250 |}.
Proof. apply (proj1 (polling_spec_is_binding str object) connection Schema.Off 250); [reflexivity|done]. Defined.

Lemma changes_spec_config_witness :
  exists derive, de (config_codec str) (VObject (config_part
    (obj_insert "initial" (VObject [("n", VNumber (PosInt 0))]) (obj_insert "key_columns" (VArray [VString "n"]) object))))
    = Some (connection, derive).
Proof.
  refine (changes_spec_config str _ {| WatchChanges.connection := connection; WatchChanges.spec_key_columns := ["n"];
    WatchChanges.spec_initial := [("n", VNumber (PosInt 0))]; WatchChanges.spec_start := WatchChanges.Latest;
    WatchChanges.latest_sql := None; WatchChanges.spec_batch_size := 100; WatchChanges.interval_ms := 1000;
    WatchChanges.spec_occurred_at_column := None; WatchChanges.spec_op_column := None;
    WatchChanges.settle_ms := None |}%string _).
  reflexivity.
Defined.

(** An interval is not a key of a binding, nor a binding's key one of a LISTEN
    watch; a replication watch needs its publication. *)
Example refused :
  de (config_codec str) (VObject (obj_insert "interval_ms" (ser u64 250) object)) = None /\
  de listen_codec (VObject [("channel", VString "c"); ("driver", VString "postgres"); ("url", VString "u")]%string) = None /\
  cdc_of_value 100 60000 (VObject [("url", VString "postgres://h/db")]%string) = None /\
  tx_group_of_value (VObject [("steps", VArray [VObject [("sql", VString "SELECT 1")]])]%string) = None.
Proof. done. Qed.
End Demo.
